(* ===== verification/_CoqProject ===== *)
-Q . S2P
Prelude.v
RvIsa.v
RvOp.v
RvDecodeBase.v
RvDecodeFp.v
RvDecodeVendor.v
RvCompressed.v
RvMemory.v
RvDecode.v
RvDecodeWf.v
RvGating.v
RvEncode.v
RvRvc.v
RvAlu.v
RvCrypto.v
RvFloat.v
RvHostFloat.v
RvFloatOps.v
RvTwoSum.v
RvRound.v
RvFloatSpec.v
RvFloatAdd.v
RvFloatWf.v
RvHostSpec.v
RvHostAdd.v
RvHostConv.v
RvState.v
RvHart.v
RvCsr.v
RvAluOps.v
RvAluSpec.v
RvExec.v
RvFp.v
RvFpSpec.v
RvFpIeee.v
RvVec.v
RvVecCheck.v
RvVecValid.v
RvVecMem.v
RvVecExec.v
RvVecLanes.v
RvVecArith.v
RvStep.v
RvFrame.v
RvHartSafe.v
RvVecSafe.v
RvStepSafe.v
RvExecSpec.v
RvVecSpec.v
RvVecMemSpec.v
RvFpExec.v
RvTrapSpec.v
RvCsrSpec.v
RvAtomicSpec.v
RvRunSpec.v
RvPrecise.v
RvBitSpec.v
RvCryptoSpec.v
DevBus.v
DevPic.v
DevBusSpec.v
DevPicSpec.v
DevPicCascade.v
DevIoApic.v
DevIoApicSpec.v
