(* ===== verification/Prelude.v ===== *)
(** * Verification of the rax RISC-V core and interrupt controllers

    rax emulates several instruction sets and the machines around them.  This
    development models its RISC-V core (the directory src/isa/riscv of the crate):
    the decoder, the hart with its registers, CSRs, traps and interrupts, and the
    interpreter that fetches, decodes and executes instructions on a guest memory.
    It also models the buses that connect devices to a machine (src/devices/bus.rs)
    and the interrupt controllers of the PC behind them (pic.rs and ioapic.rs).

    ** The program and its model

    A hart ([RiscVCpu], cpu.rs) owns its registers, its CSRs and a memory behind
    the trait [Memory] (memory.rs).  [step] (cpu/execution.rs) first takes a
    pending machine interrupt; otherwise it fetches at [pc] with [decode_at]
    (decode.rs), which reads one or two 16-bit parcels and hands them to the
    compressed or the 32-bit decoder, and runs [execute] (cpu.rs) on the result.
    A trap is delivered to machine mode; any other outcome is accounted in the
    counters.  [run] repeats [step] within a budget.

    - RvIsa: mod.rs, the register width [Xlen] and the extension set [Isa].
    - RvOp: the operation enumeration [Op], the record [Insn] and the fields and
      immediates of the 32-bit formats (decode.rs).
    - RvDecodeBase, RvDecodeFp, RvDecodeVendor, RvDecode: the opcode groups of
      decode.rs and decode/op_imm.rs and the entry points [decode],
      [decode_compressed] and [decode_at].
    - RvCompressed: compressed.rs.
    - RvMemory: memory.rs; the trait is the class [Memory], what its clients rely
      on is the class [MemoryLaws], and [FlatMemory] is an instance of both.
    - RvState: the hart record, its constructor, [reset] and the accessors.
    - RvAlu, RvAluOps, RvCrypto: the arithmetic helpers of cpu.rs, the
      register-writing arms of [execute] and crypto.rs.
    - RvCsr: csr.rs, cpu/csr_ops.rs, trap delivery and interrupt selection.
    - RvExec: the methods that access memory or the vector configuration: loads,
      stores, atomics, the T-Head accesses, Zcmp, Zcmt and [set_vtype].
    - RvFloat, RvHostFloat, RvFloatOps: float.rs.  RvFloat is its arithmetic on
      integer significands.  RvHostFloat is the model of the language's [f32] and
      [f64] behind the trait [Sf], on bit patterns; RvFloatOps holds the routines
      generic in that trait and the half-precision helpers.
    - RvFp: [exec_fp] (cpu.rs) and the evaluator [eval_scalar_fp] (float.rs).
    - RvVec: the elements of the vector register file and the element arithmetic
      of cpu.rs.  RvVecCheck: cpu/vector_validation.rs.  RvVecMem:
      cpu/vector_memory.rs.  RvVecExec: the arms of [exec_vector] (cpu.rs), one
      definition each, and cpu/vector_conversion.rs.
    - RvStep: [execute], [step] and [run].

    The devices are independent of the hart.  A bus (DevBus: bus.rs) holds ranges and
    handles of devices; the state of the devices is a store that the handles share, so
    that one device behind several ranges is one state.  The traits [IoDevice] and
    [MmioDevice] are classes over a handle type and a store type.

    - DevPic: pic.rs, one 8259A controller, the cascaded pair [DualPic] and its ports
      as an instance of [IoDevice].
    - DevIoApic: ioapic.rs, an instance of [MmioDevice].

    Rust integers are elements of Z at their width: this file defines the casts
    ([as_u], [as_i]) and the wrapping operations, and [fits w v] says that [v] is
    an unsigned value of width [w].  Arithmetic the source leaves unchecked has
    the wrap-around of the release profile.  A fallible method is a state
    transformer [exec S E A] with the outcomes [Ok], [Err] and [Panic]; [Panic]
    stands for [unreachable!()], a failed [expect] or an index out of bounds.
    Record fields of the hart are updated by the functions [set_c_*].  A float is
    its bit pattern; the exception flags a routine of float.rs accumulates are its
    last argument and the second component of its result.

    ** What is proved

    - Decoding: operand fields in range and taken from the parcels in memory
      (RvDecodeWf); only operations of enabled extensions, but for the two families
      the decoder accepts against its documentation (RvGating); and inversion of
      independent encoders of the 32-bit formats of I, M, A, Zba, Zbb, Zbc, Zbs,
      Zicond and the floating-point loads and stores (RvEncode) and of the
      compressed tables (RvRvc).
    - Safety: RvHart states the hart invariant [hart_ok] and the proof rules of
      the judgement [safe]; RvHartSafe, RvVecSafe and RvStepSafe show that every
      instruction, whatever its extension, keeps it and cannot panic, and that a
      run from reset is safe in every configuration.
    - Effects: RvAluSpec gives the values of the ISA manual and proves the ALU
      equal to them; RvExecSpec, RvAtomicSpec and RvCsrSpec describe the whole
      effect of the instructions on the hart, error branches included.  RvFrame
      carries what never changes.
    - Floating point: RvRound defines correct rounding over the real numbers and
      proves [round_pack] correct; RvFloatSpec and RvFloatAdd carry it to the
      software operations.  RvTwoSum proves the 2Sum residual exact for any
      rounding to nearest; with it RvHostSpec, RvHostAdd and RvHostConv prove the
      operations that use the host's floats.  RvFloatWf shows that every result is
      a pattern of its format.  RvFpSpec, RvFpIeee and RvFpExec state all of this
      of the instructions, compare them with [eval_scalar_fp], and give single inputs
      that show the exceptions in the statements are needed.
    - Vectors: RvVecValid turns an accepting run of the validation into facts about
      the register groups; RvVecLanes treats the register file as lanes and shows
      when a loop that works in place reads every source before it is overwritten;
      RvVecArith gives the lane values of the ISA manual and RvVecSpec the effect
      of the integer instructions.  RvVecMemSpec does the same for the unit-stride,
      strided and fault-only-first accesses, with their faults, restarts and round
      trip.  These theorems exclude encodings that are reserved and that the engine
      executes all the same: a masked destination [v0], groups past the register file
      and misaligned shift amounts.  The other vector instructions are covered by the
      safety theorems.
    - Traps: entry, return and interrupt selection (RvTrapSpec), and precision of
      traps with the exceptions the code has (RvPrecise).
    - Running: counters and composition of [run] (RvRunSpec).
    - Bit manipulation and cryptography against their mathematical definitions
      and inverses (RvBitSpec, RvCryptoSpec).
    - Devices: routing by address alone (DevBusSpec); the selection, nesting and
      delivery of interrupts in every state the pair can reach outside special fully
      nested mode, which the code stores and ignores (DevPicSpec); its
      initialization over the bus and the traffic under which the cascade loses the
      slave (DevPicCascade); the redirection table of the I/O APIC over a bus that
      splits words into bytes, and the deliveries it queues (DevIoApicSpec).

    ** Bounds

    [run] takes its budget as a natural number, so it and every loop of the model
    is structurally recursive: the loops of the source have constant bounds (64
    bits, 16 nibbles, 13 stack slots) or range over the elements of a vector, which
    the model keeps.  There are two exceptions.  The digit loop of [isqrt_u128] runs
    until its bit is zero: it is given 64 iterations, and [isqrt_terminates] shows
    that they suffice.  [Emul::new] halves a fraction of 8-bit numbers while both are
    even: [Emul.reduce] is given 8 halvings, and [reduce_done] shows that they
    suffice unless both are zero, which no caller passes.

    ** What is not modelled

    The JIT path of the hart and the SMIR compiler emit host machine code, whose
    semantics is not in the crate.  The disassembler prints text and has no effect on
    a hart.  The other instruction sets (ARM, Hexagon, x86-64) are separate engines
    that share no code with the RISC-V core.  The remaining devices, the machines and
    the virtual-machine layer are left out: most of them read host time, files or
    terminals, and the parts above use none of them.  The PCI host bridge, to which
    the I/O bus turns for ports no device claims, is an argument of the bus (the class
    [PciBridge]).  A lock of a shared device succeeds: it fails only after its holder
    panicked. *)

From stdpp Require Export prelude list numbers gmap.
From Stdlib Require Export ZArith Lia Btauto.

#[global] Open Scope Z_scope.

(** Bit operations stay folded under [simpl]. *)
#[global] Arguments Z.shiftr : simpl never.
#[global] Arguments Z.shiftl : simpl never.
#[global] Arguments Z.land : simpl never.
#[global] Arguments Z.lor : simpl never.
#[global] Arguments Z.lxor : simpl never.
#[global] Arguments Z.lnot : simpl never.
#[global] Arguments Z.testbit : simpl never.
#[global] Arguments Z.pow : simpl never.
#[global] Arguments Z.modulo : simpl never.
#[global] Arguments Z.div : simpl never.

(** ** Machine integers

    A Rust integer of width [w] is an integer of Z.  Unsigned values are kept
    in [0, 2^w) and signed ones in [-2^(w-1), 2^(w-1)); the casts below are
    Rust's [as], which always truncates to the target's width. *)

Definition as_u (w z : Z) : Z := z mod 2 ^ w.
Definition as_i (w z : Z) : Z := (z + 2 ^ (w - 1)) mod 2 ^ w - 2 ^ (w - 1).

Abbreviation as_u8 := (as_u 8).
Abbreviation as_u16 := (as_u 16).
Abbreviation as_u32 := (as_u 32).
Abbreviation as_u64 := (as_u 64).
Abbreviation as_u128 := (as_u 128).
Abbreviation as_i8 := (as_i 8).
Abbreviation as_i16 := (as_i 16).
Abbreviation as_i32 := (as_i 32).
Abbreviation as_i64 := (as_i 64).
Abbreviation as_i128 := (as_i 128).

(** Wrapping arithmetic, complement, shifts and rotations at width [w].  A
    shift amount is reduced modulo the width, as a release build does. *)
Definition wadd (w a b : Z) : Z := as_u w (a + b).
Definition wsub (w a b : Z) : Z := as_u w (a - b).
Definition wmul (w a b : Z) : Z := as_u w (a * b).
Definition wnot (w a : Z) : Z := as_u w (Z.lnot a).
Definition wshl (w a s : Z) : Z := as_u w (Z.shiftl a (s mod w)).
Definition wshr (w a s : Z) : Z := Z.shiftr a (s mod w).
(** Arithmetic shift right of a signed value. *)
Definition wsar (w a s : Z) : Z := Z.shiftr a (s mod w).
Definition rotate_left (w a s : Z) : Z :=
  as_u w (Z.lor (Z.shiftl a (s mod w)) (Z.shiftr a (w - s mod w))).
Definition rotate_right (w a s : Z) : Z :=
  as_u w (Z.lor (Z.shiftr a (s mod w)) (Z.shiftl a (w - s mod w))).

(** [leading_zeros], [trailing_zeros] and [count_ones] of a [w]-bit value. *)
Definition leading_zeros (w a : Z) : Z := if a =? 0 then w else w - 1 - Z.log2 a.
Fixpoint ctz_from (fuel : nat) (i a : Z) : Z :=
  match fuel with
  | O => i
  | S n => if Z.testbit a i then i else ctz_from n (i + 1) a
  end.
Definition trailing_zeros (w a : Z) : Z := ctz_from (Z.to_nat w) 0 a.
Fixpoint popcount_upto (n : nat) (a : Z) : Z :=
  match n with
  | O => 0
  | S n => popcount_upto n a + Z.b2z (Z.testbit a (Z.of_nat n))
  end.
Definition count_ones (w a : Z) : Z := popcount_upto (Z.to_nat w) a.

(** Little-endian byte views; a byte is an integer in [0, 256). *)
Fixpoint to_le_bytes (n : nat) (v : Z) : list Z :=
  match n with
  | O => []
  | S n => as_u8 v :: to_le_bytes n (Z.shiftr v 8)
  end.
Fixpoint from_le_bytes (bs : list Z) : Z :=
  match bs with
  | [] => 0
  | b :: bs => b + Z.shiftl (from_le_bytes bs) 8
  end.

(** [v] fits in [w] unsigned bits. *)
Definition fits (w v : Z) : Prop := 0 <= v < 2 ^ w.

(** A bool as an integer ([b as u64]). *)
Definition of_bool (b : bool) : Z := if b then 1 else 0.

(** A C-style truth test [v & m != 0]. *)
Definition any_bits (v m : Z) : bool := negb (Z.land v m =? 0).

(** ** Lemmas on machine integers *)

Lemma as_u_fits w z : 0 <= w -> fits w (as_u w z).
Proof. intros. unfold fits, as_u. apply Z.mod_pos_bound. lia. Qed.

Lemma as_u_small w z : fits w z -> as_u w z = z.
Proof. intros [? ?]. by apply Z.mod_small. Qed.

Lemma as_i_range w z : 1 <= w -> - 2 ^ (w - 1) <= as_i w z < 2 ^ (w - 1).
Proof.
  intros. unfold as_i.
  assert (2 ^ w = 2 * 2 ^ (w - 1)) as E by (rewrite <- Z.pow_succ_r by lia; f_equal; lia).
  pose proof (Z.mod_pos_bound (z + 2 ^ (w - 1)) (2 ^ w) ltac:(lia)). lia.
Qed.

Lemma as_i_small w z : 1 <= w -> - 2 ^ (w - 1) <= z < 2 ^ (w - 1) -> as_i w z = z.
Proof.
  intros. unfold as_i.
  assert (2 ^ w = 2 * 2 ^ (w - 1)) as E by (rewrite <- Z.pow_succ_r by lia; f_equal; lia).
  rewrite Z.mod_small; lia.
Qed.

(** The two readings of a [w]-bit pattern agree modulo [2 ^ w]. *)
Lemma as_u_as_i w z : 1 <= w -> as_u w (as_i w z) = as_u w z.
Proof.
  intros. unfold as_u, as_i. rewrite Zminus_mod, Zmod_mod, <- Zminus_mod. f_equal. lia.
Qed.

Lemma as_i_as_u w z : 1 <= w -> as_i w (as_u w z) = as_i w z.
Proof. intros. unfold as_u, as_i. by rewrite Zplus_mod_idemp_l. Qed.

Lemma as_u_idemp w z : as_u w (as_u w z) = as_u w z.
Proof. apply Zmod_mod. Qed.

(** Signed value of an unsigned pattern. *)
Lemma as_i_unsigned w z :
  1 <= w -> fits w z -> as_i w z = if z <? 2 ^ (w - 1) then z else z - 2 ^ w.
Proof.
  intros Hw [? ?].
  assert (2 ^ w = 2 * 2 ^ (w - 1)) as E by (rewrite <- Z.pow_succ_r by lia; f_equal; lia).
  destruct (Z.ltb_spec z (2 ^ (w - 1))).
  - apply as_i_small; lia.
  - unfold as_i.
    rewrite <- (Z.mod_unique (z + 2 ^ (w - 1)) (2 ^ w) 1 (z + 2 ^ (w - 1) - 2 ^ w)); lia.
Qed.

(** ** Widths *)

Lemma fits_0 w : 0 <= w -> fits w 0.
Proof. unfold fits. lia. Qed.

Lemma fits_weaken v w a : v <= w -> fits v a -> fits w a.
Proof. intros ? [? ?]. split; [lia|]. eapply Z.lt_le_trans; [done|]. by apply Z.pow_le_mono_r. Qed.

Lemma fits_testbit w a n : fits w a -> w <= n -> Z.testbit a n = false.
Proof.
  intros [? ?] ?. destruct (decide (a = 0)) as [->|]; [apply Z.bits_0|].
  destruct (Z.neg_nonneg_cases n); [by apply Z.testbit_neg_r|].
  apply Z.bits_above_log2; [lia|]. apply (Z.lt_le_trans _ w); [|done].
  apply Z.log2_lt_pow2; lia.
Qed.

Lemma fits_bits w a :
  0 <= w -> 0 <= a -> (forall n, w <= n -> Z.testbit a n = false) -> fits w a.
Proof.
  intros Hw Ha Hb. split; [done|]. destruct (decide (a = 0)) as [->|]; [lia|].
  apply Z.log2_lt_pow2; [lia|]. apply Z.nle_gt. intros Hl.
  specialize (Hb _ Hl). rewrite Z.bit_log2 in Hb; [done|lia].
Qed.

Lemma fits_land_r w a b : fits w b -> fits w (Z.land a b).
Proof.
  intros Hb. pose proof Hb as [? ?]. split; [apply Z.land_nonneg; lia|].
  destruct (decide (0 <= w)).
  - apply fits_bits; [done|apply Z.land_nonneg; lia|]. intros n Hn.
    rewrite Z.land_spec, (fits_testbit w b) by done. apply andb_false_r.
  - rewrite Z.pow_neg_r in * by lia. lia.
Qed.

Lemma fits_land_l w a b : fits w a -> fits w (Z.land a b).
Proof. rewrite Z.land_comm. apply fits_land_r. Qed.

Lemma fits_lor w a b : fits w a -> fits w b -> fits w (Z.lor a b).
Proof.
  intros Ha Hb. pose proof Ha as [? ?]. pose proof Hb as [? ?].
  destruct (decide (0 <= w)); [|rewrite Z.pow_neg_r in * by lia; lia].
  apply fits_bits; [done|by apply Z.lor_nonneg|]. intros n Hn.
  by rewrite Z.lor_spec, (fits_testbit w a), (fits_testbit w b).
Qed.

Lemma fits_lxor w a b : fits w a -> fits w b -> fits w (Z.lxor a b).
Proof.
  intros Ha Hb. pose proof Ha as [? ?]. pose proof Hb as [? ?].
  destruct (decide (0 <= w)); [|rewrite Z.pow_neg_r in * by lia; lia].
  apply fits_bits; [done|apply Z.lxor_nonneg; lia|]. intros n Hn.
  by rewrite Z.lxor_spec, (fits_testbit w a), (fits_testbit w b).
Qed.

Lemma fits_shiftr w a n : 0 <= n -> fits w a -> fits w (Z.shiftr a n).
Proof.
  intros Hn [? ?]. rewrite Z.shiftr_div_pow2 by done. split.
  - apply Z.div_pos; lia.
  - eapply Z.le_lt_trans; [|done]. apply Z.div_le_upper_bound; [lia|]. nia.
Qed.

Lemma land_le_r a m : 0 <= m -> Z.land a m <= m.
Proof.
  intros Hm. rewrite Z.land_comm. rewrite <- (Z.lor_ldiff_and m a) at 2.
  rewrite <- Z.add_nocarry_lor.
  - assert (0 <= Z.ldiff m a) by (apply Z.ldiff_nonneg; lia). lia.
  - apply Z.bits_inj'. intros n Hn. rewrite !Z.land_spec, Z.ldiff_spec, Z.bits_0.
    btauto.
Qed.

(** A field extracted with a constant mask and moved to its place. *)
Lemma fits_field w a m n :
  0 <= n -> 0 <= m -> m * 2 ^ n < 2 ^ w -> fits w (Z.shiftl (Z.land a m) n).
Proof.
  intros Hn Hm Hw. rewrite Z.shiftl_mul_pow2 by done.
  assert (0 <= Z.land a m) by (apply Z.land_nonneg; lia).
  pose proof (land_le_r a m Hm). split; nia.
Qed.

Lemma fits_mask w a m : 0 <= m -> m < 2 ^ w -> fits w (Z.land a m).
Proof. intros. apply fits_land_r. by split. Qed.

Lemma fits_wshl w a n : 0 <= w -> fits w (wshl w a n).
Proof. apply as_u_fits. Qed.

Lemma fits_wshr w v a n : 0 < w -> fits v a -> fits v (wshr w a n).
Proof. intros. apply fits_shiftr; [|done]. apply Z.mod_pos_bound. lia. Qed.

Lemma fits_wadd w a b : 0 <= w -> fits w (wadd w a b).
Proof. apply as_u_fits. Qed.
Lemma fits_wsub w a b : 0 <= w -> fits w (wsub w a b).
Proof. apply as_u_fits. Qed.
Lemma fits_wmul w a b : 0 <= w -> fits w (wmul w a b).
Proof. apply as_u_fits. Qed.
Lemma fits_wnot w a : 0 <= w -> fits w (wnot w a).
Proof. apply as_u_fits. Qed.

Lemma fits_of_bool w b : 1 <= w -> fits w (of_bool b).
Proof.
  intros. assert (2 ^ 1 <= 2 ^ w) by (apply Z.pow_le_mono_r; lia).
  destruct b; unfold fits, of_bool; lia.
Qed.

(** Replacing the sign part of a [k]-bit field: [imm | !((1 << k) - 1)]. *)
Lemma lor_sign_bits k a : 0 <= k -> fits k a -> Z.lor a (Z.lnot (2 ^ k - 1)) = a - 2 ^ k.
Proof.
  intros Hk Ha. replace (a - 2 ^ k) with (a + - 2 ^ k) by lia.
  replace (Z.lnot (2 ^ k - 1)) with (- 2 ^ k) by (unfold Z.lnot; lia).
  rewrite <- Z.add_nocarry_lor; [done|].
  apply Z.bits_inj'. intros n Hn. rewrite Z.land_spec, Z.bits_0.
  destruct (decide (n < k)).
  - replace (- 2 ^ k) with ((-1) * 2 ^ k) by lia. rewrite Z.mul_pow2_bits_low by lia.
    apply andb_false_r.
  - by rewrite (fits_testbit k a) by (done || lia).
Qed.

(** Joining disjoint fields. *)
Lemma lor_join k x y : 0 <= k -> fits k y -> Z.lor (x * 2 ^ k) y = x * 2 ^ k + y.
Proof.
  intros Hk Hy. symmetry. apply Z.add_nocarry_lor, Z.bits_inj'. intros i Hi.
  rewrite Z.land_spec, Z.bits_0. destruct (Z.ltb_spec i k).
  - by rewrite Z.mul_pow2_bits_low.
  - rewrite (fits_testbit k y) by done. apply andb_false_r.
Qed.

(** ** Little-endian bytes *)

Lemma from_le_bytes_fits bs :
  Forall (fits 8) bs -> fits (8 * Z.of_nat (length bs)) (from_le_bytes bs).
Proof.
  induction 1 as [|b bs [? ?] Hbs IH]; simpl; [unfold fits; simpl; lia|].
  destruct IH as [? ?]. rewrite Z.shiftl_mul_pow2 by lia.
  replace (8 * Z.of_nat (S (length bs))) with (8 + 8 * Z.of_nat (length bs)) by lia.
  unfold fits. rewrite Z.pow_add_r by lia. change (2 ^ 8) with 256 in *. nia.
Qed.

Lemma to_le_bytes_length n v : length (to_le_bytes n v) = n.
Proof. revert v. induction n; intros v; simpl; auto. Qed.

Lemma to_le_bytes_fits n v : Forall (fits 8) (to_le_bytes n v).
Proof. revert v. induction n; intros v; constructor; auto. by apply as_u_fits. Qed.

(** Encoding an integer in [n] bytes keeps its value modulo [2 ^ (8 * n)]. *)
Lemma from_to_le_bytes n v : from_le_bytes (to_le_bytes n v) = as_u (8 * Z.of_nat n) v.
Proof.
  revert v. induction n as [|n IH]; intros v; simpl; [unfold as_u; by rewrite Z.mod_1_r|].
  rewrite IH, Z.shiftl_mul_pow2, Z.shiftr_div_pow2 by lia. unfold as_u.
  replace (8 * Z.of_nat (S n)) with (8 + 8 * Z.of_nat n) by lia.
  rewrite Z.pow_add_r by lia. rewrite Z.rem_mul_r by lia. lia.
Qed.

Lemma to_from_le_bytes bs :
  Forall (fits 8) bs -> to_le_bytes (length bs) (from_le_bytes bs) = bs.
Proof.
  induction 1 as [|b bs [? ?] Hbs IH]; simpl; [done|].
  rewrite Z.shiftl_mul_pow2, Z.shiftr_div_pow2 by lia. unfold as_u. f_equal.
  - rewrite Z.mod_add by lia. by apply Z.mod_small.
  - rewrite Z.div_add, Z.div_small by lia. done.
Qed.

(** ** Exhaustive checks

    [check_below n P 0] evaluates [P] on every [n]-bit value. *)
Fixpoint check_below (n : nat) (P : Z -> bool) (acc : Z) : bool :=
  match n with
  | O => P acc
  | S n => check_below n P (2 * acc) && check_below n P (2 * acc + 1)
  end.

Lemma check_below_range n P acc h :
  check_below n P acc = true ->
  acc * 2 ^ Z.of_nat n <= h < (acc + 1) * 2 ^ Z.of_nat n -> P h = true.
Proof.
  revert acc. induction n as [|n IH]; intros acc Hc Hh.
  - replace h with acc by (simpl in Hh; lia). exact Hc.
  - cbn [check_below] in Hc. apply andb_prop in Hc as [H0 H1].
    rewrite Nat2Z.inj_succ, Z.pow_succ_r in Hh by lia.
    destruct (Z.ltb_spec h ((2 * acc + 1) * 2 ^ Z.of_nat n)).
    + apply (IH _ H0). lia.
    + apply (IH _ H1). lia.
Qed.

Lemma all_below (n : nat) (P : Z -> bool) h :
  check_below n P 0 = true -> fits (Z.of_nat n) h -> P h = true.
Proof. intros Hc Hh. apply (check_below_range n P 0); [done|]. unfold fits in Hh. lia. Qed.

(** ** Hint database for widths *)

Create HintDb fits.
#[export] Hint Resolve fits_lor fits_lxor fits_land_r fits_of_bool as_u_fits fits_wshl
  fits_wadd fits_wsub fits_wmul fits_wnot : fits.
#[export] Hint Extern 1 (fits _ 0) => (apply fits_0; lia) : fits.
#[export] Hint Extern 2 (fits _ (Z.land _ _)) =>
  (apply fits_mask; [vm_compute; discriminate | vm_compute; reflexivity]) : fits.
#[export] Hint Extern 2 (fits _ (Z.shiftl (Z.land _ _) _)) =>
  (apply fits_field; [vm_compute; discriminate | vm_compute; discriminate
                     | vm_compute; reflexivity]) : fits.
#[export] Hint Extern 3 (_ <= _) => lia : fits.
#[export] Hint Extern 3 (_ < _) => lia : fits.

(** ** Match arms

    A Rust [match] on an integer key whose arms carry guards: the first arm
    whose key is equal and whose guard holds is taken. *)
Fixpoint arms {A} (k : Z) (l : list (Z * bool * A)) : option A :=
  match l with
  | [] => None
  | (k', g, a) :: l => if (k =? k') && g then Some a else arms k l
  end.

(** A property of every arm whose guard can hold is a property of the arm
    taken. *)
Lemma arms_ind {A} (P : A -> Prop) k l a :
  arms k l = Some a -> Forall (fun '(k', g, a) => k = k' -> g = true -> P a) l -> P a.
Proof.
  induction l as [|[[k' g] a'] l IH]; simpl; [done|]. intros Ha HP.
  apply Forall_cons in HP as [HP1 HP2].
  destruct (Z.eqb_spec k k'); destruct g; simpl in *; naive_solver.
Qed.

(** Splits a [Forall] over a list of arms into one goal per arm. *)
Ltac each_arm := repeat first [apply Forall_nil_2 | apply Forall_cons_2]; intros.

(** The same, where an arm is taken only after the earlier ones fail. *)
Fixpoint arms_seq {A} (P : A -> Prop) (k : Z) (l : list (Z * bool * A)) : Prop :=
  match l with
  | [] => True
  | (k', g, a) :: l =>
      (k = k' -> g = true -> P a) /\ ((k = k' -> g = false) -> arms_seq P k l)
  end.

Lemma arms_seq_ind {A} (P : A -> Prop) k l a :
  arms k l = Some a -> arms_seq P k l -> P a.
Proof.
  induction l as [|[[k' g] a'] l IH]; simpl; [done|]. intros Ha [HP1 HP2].
  destruct (Z.eqb_spec k k'); destruct g; simpl in *; naive_solver.
Qed.

Lemma arms_default_ind {A} (P : A -> Prop) d k l :
  P d -> Forall (fun '(k', g, a) => k = k' -> g = true -> P a) l ->
  P (default d (arms k l)).
Proof. intros Hd Hl. destruct (arms k l) eqn:E; [by eapply arms_ind | done]. Qed.

(** Iterate a body over [0..n) in order ([for i in 0..n]). *)
Fixpoint for_range {A} (n : nat) (i : Z) (body : Z -> A -> A) (acc : A) : A :=
  match n with
  | O => acc
  | S n => for_range n (i + 1) body (body i acc)
  end.

(** A function that commutes with the body commutes with the loop. *)
Lemma for_range_hom {A B} (g : A -> B) (f1 : Z -> A -> A) (f2 : Z -> B -> B) n i acc :
  (forall j a, i <= j < i + Z.of_nat n -> g (f1 j a) = f2 j (g a)) ->
  g (for_range n i f1 acc) = for_range n i f2 (g acc).
Proof.
  revert i acc. induction n as [|n IH]; intros i acc Hf; [done|]. cbn [for_range].
  rewrite IH; [by rewrite Hf by lia|]. intros. apply Hf. lia.
Qed.

Lemma for_range_ext {A} (f1 f2 : Z -> A -> A) n i acc :
  (forall j a, i <= j < i + Z.of_nat n -> f1 j a = f2 j a) ->
  for_range n i f1 acc = for_range n i f2 acc.
Proof. apply (for_range_hom (fun a => a)). Qed.

Lemma for_range_inv {A} (P : A -> Prop) (f : Z -> A -> A) n i acc :
  P acc -> (forall j a, i <= j < i + Z.of_nat n -> P a -> P (f j a)) -> P (for_range n i f acc).
Proof.
  revert i acc. induction n as [|n IH]; intros i acc Ha Hf; [done|]. cbn [for_range].
  apply IH; [apply Hf; [lia|done]|]. intros. apply Hf; [lia|done].
Qed.

Lemma for_range_ind {A} (P : Z -> A -> Prop) (f : Z -> A -> A) n i acc :
  P i acc -> (forall j a, i <= j < i + Z.of_nat n -> P j a -> P (j + 1) (f j a)) ->
  P (i + Z.of_nat n) (for_range n i f acc).
Proof.
  revert i acc. induction n as [|n IH]; intros i acc Ha Hf; cbn [for_range].
  - by rewrite Z.add_0_r.
  - replace (i + Z.of_nat (S n)) with (i + 1 + Z.of_nat n) by lia.
    apply IH; [apply Hf; [lia|done]|]. intros. apply Hf; [lia|done].
Qed.

(** ** Effects

    A Rust method on [&mut self] that returns [Result<A, E>] is a function
    from the state to a result and the state it leaves: the state written
    before an early [return Err(..)] or a failing [?] stays written.  [Panic]
    is a Rust panic ([unreachable!], a failed [expect], an index out of
    bounds). *)
Inductive result (E A : Type) : Type :=
| Ok (a : A)
| Err (e : E)
| Panic.
Arguments Ok {E A} a.
Arguments Err {E A} e.
Arguments Panic {E A}.

Definition exec (S E A : Type) : Type := S -> result E A * S.

Section Exec.
Context {S E : Type}.

Definition eret {A} (a : A) : exec S E A := fun s => (Ok a, s).
Definition ebind {A B} (f : A -> exec S E B) (m : exec S E A) : exec S E B :=
  fun s =>
    match m s with
    | (Ok a, s') => f a s'
    | (Err e, s') => (Err e, s')
    | (Panic, s') => (Panic, s')
    end.
Definition throw {A} (e : E) : exec S E A := fun s => (Err e, s).
Definition panic {A} : exec S E A := fun s => (Panic, s).
Definition get : exec S E S := fun s => (Ok s, s).
Definition gets {A} (f : S -> A) : exec S E A := fun s => (Ok (f s), s).
Definition modify (f : S -> S) : exec S E unit := fun s => (Ok tt, f s).

(** [opt.expect(..)]. *)
Definition expect {A} (o : option A) : exec S E A :=
  match o with Some a => eret a | None => panic end.

#[global] Instance exec_ret : MRet (exec S E) := @eret.
#[global] Instance exec_bind : MBind (exec S E) := @ebind.

(** Running a sequence whose first part's outcome is known. *)
Lemma bind_ok {A B} (m : exec S E A) (k : A -> exec S E B) s a s' :
  m s = (Ok a, s') -> (x ← m; k x) s = k a s'.
Proof. intros Hm. unfold mbind, exec_bind, ebind. by rewrite Hm. Qed.

Lemma bind_err {A B} (m : exec S E A) (k : A -> exec S E B) s e s' :
  m s = (Err e, s') -> (x ← m; k x) s = (Err e, s').
Proof. intros Hm. unfold mbind, exec_bind, ebind. by rewrite Hm. Qed.

(** [for x in l { body(x)?; }]. *)
Fixpoint for_each {A} (l : list A) (body : A -> exec S E unit) : exec S E unit :=
  match l with
  | [] => eret tt
  | a :: l => body a;; for_each l body
  end.
End Exec.
