(* ===== verification/RvIsa.v ===== *)
(** * RISC-V configuration (src/isa/riscv/mod.rs)

    The register width of the hart and the set of enabled extensions, with
    the profiles the crate ships. *)

From S2P Require Import Prelude.

(** Register width of the hart. *)
Inductive Xlen : Type :=
| Rv32
| Rv64.

#[global] Instance Xlen_eq_dec : EqDecision Xlen.
Proof. solve_decision. Defined.

(** [xlen == Xlen::Rv64]. *)
Definition is_rv64 (xlen : Xlen) : bool :=
  match xlen with Rv64 => true | Rv32 => false end.

(** Width in bits. *)
Definition xlen_bits (xlen : Xlen) : Z :=
  match xlen with Rv32 => 32 | Rv64 => 64 end.

(** Mask covering all valid register bits. *)
Definition xlen_mask (xlen : Xlen) : Z :=
  match xlen with Rv32 => 0xffffffff | Rv64 => 0xffffffffffffffff end.

(** Enabled standard extensions; one field per field of the source's [Isa]. *)
Record Isa : Type := mk_isa {
  isa_m : bool;
  isa_a : bool;
  isa_f : bool;
  isa_d : bool;
  isa_q : bool;
  isa_c : bool;
  isa_zicsr : bool;
  isa_zifencei : bool;
  isa_zihintpause : bool;
  isa_zihintntl : bool;
  isa_zacas : bool;
  isa_zawrs : bool;
  isa_zicbom : bool;
  isa_zicboz : bool;
  isa_zicbop : bool;
  isa_zba : bool;
  isa_zbb : bool;
  isa_zbc : bool;
  isa_zbs : bool;
  isa_zicond : bool;
  isa_zfa : bool;
  isa_zbkb : bool;
  isa_zfh : bool;
  isa_zbkx : bool;
  isa_zknh : bool;
  isa_zksh : bool;
  isa_zksed : bool;
  isa_zkne : bool;
  isa_zknd : bool;
  isa_zcb : bool;
  isa_zcmp : bool;
  isa_zcmt : bool;
  isa_zclsd : bool;
  isa_zilsd : bool;
  isa_h : bool;
  isa_svinval : bool;
  isa_v : bool;
  isa_xsoteria : bool;
  isa_xandes : bool;
  isa_xthead : bool;
  isa_xhazard3 : bool;
  isa_xida_sltw : bool
}.

(** Standard test/differential configuration used by the crate. *)
Definition rv64gc : Isa :=
  {|isa_m := true; isa_a := true; isa_f := true; isa_d := true; isa_q := false;
     isa_c := true; isa_zicsr := true; isa_zifencei := true;
     isa_zihintpause := true; isa_zihintntl := true; isa_zacas := true;
     isa_zawrs := true; isa_zicbom := true; isa_zicboz := true;
     isa_zicbop := true; isa_zba := true; isa_zbb := true; isa_zbc := true;
     isa_zbs := true; isa_zicond := true; isa_zfa := true; isa_zbkb := true;
     isa_zfh := true; isa_zbkx := true; isa_zknh := true; isa_zksh := true;
     isa_zksed := true; isa_zkne := true; isa_zknd := true; isa_zcb := true;
     isa_zcmp := false; isa_zcmt := false; isa_zclsd := false;
     isa_zilsd := false; isa_h := true; isa_svinval := true; isa_v := true;
     isa_xsoteria := false; isa_xandes := false; isa_xthead := false;
     isa_xhazard3 := false; isa_xida_sltw := false |}.

(** Minimal base integer ISA, nothing optional enabled. *)
Definition rv_i : Isa :=
  {|isa_m := false; isa_a := false; isa_f := false; isa_d := false;
     isa_q := false; isa_c := false; isa_zicsr := false;
     isa_zifencei := false; isa_zihintpause := false; isa_zihintntl := false;
     isa_zacas := false; isa_zawrs := false; isa_zicbom := false;
     isa_zicboz := false; isa_zicbop := false; isa_zba := false;
     isa_zbb := false; isa_zbc := false; isa_zbs := false;
     isa_zicond := false; isa_zfa := false; isa_zbkb := false;
     isa_zfh := false; isa_zbkx := false; isa_zknh := false;
     isa_zksh := false; isa_zksed := false; isa_zkne := false;
     isa_zknd := false; isa_zcb := false; isa_zcmp := false;
     isa_zcmt := false; isa_zclsd := false; isa_zilsd := false;
     isa_h := false; isa_svinval := false; isa_v := false;
     isa_xsoteria := false; isa_xandes := false; isa_xthead := false;
     isa_xhazard3 := false; isa_xida_sltw := false |}.

(** IMAC, the common embedded profile. *)
Definition imac : Isa :=
  {|isa_m := true; isa_a := true; isa_f := false; isa_d := false;
     isa_q := false; isa_c := true; isa_zicsr := true; isa_zifencei := true;
     isa_zihintpause := false; isa_zihintntl := false; isa_zacas := false;
     isa_zawrs := false; isa_zicbom := false; isa_zicboz := false;
     isa_zicbop := false; isa_zba := false; isa_zbb := false;
     isa_zbc := false; isa_zbs := false; isa_zicond := false;
     isa_zfa := false; isa_zbkb := false; isa_zfh := false;
     isa_zbkx := false; isa_zknh := false; isa_zksh := false;
     isa_zksed := false; isa_zkne := false; isa_zknd := false;
     isa_zcb := false; isa_zcmp := false; isa_zcmt := false;
     isa_zclsd := false; isa_zilsd := false; isa_h := false;
     isa_svinval := false; isa_v := false; isa_xsoteria := false;
     isa_xandes := false; isa_xthead := false; isa_xhazard3 := false;
     isa_xida_sltw := false |}.

(** Google Ti50/Dauntless profile: RV32 IMC with Zba/Zbb/Zbs and Xsoteria. *)
Definition ti50 : Isa :=
  {|isa_m := true; isa_a := true; isa_f := false; isa_d := false;
     isa_q := false; isa_c := true; isa_zicsr := true; isa_zifencei := true;
     isa_zihintpause := false; isa_zihintntl := false; isa_zacas := false;
     isa_zawrs := false; isa_zicbom := false; isa_zicboz := false;
     isa_zicbop := false; isa_zba := true; isa_zbb := true; isa_zbc := false;
     isa_zbs := true; isa_zicond := false; isa_zfa := false;
     isa_zbkb := false; isa_zfh := false; isa_zbkx := false;
     isa_zknh := false; isa_zksh := false; isa_zksed := false;
     isa_zkne := false; isa_zknd := false; isa_zcb := false;
     isa_zcmp := false; isa_zcmt := false; isa_zclsd := false;
     isa_zilsd := false; isa_h := false; isa_svinval := false;
     isa_v := false; isa_xsoteria := true; isa_xandes := false;
     isa_xthead := false; isa_xhazard3 := false; isa_xida_sltw := false |}.

(** [mask] selects exactly the low [bits] bits. *)
Lemma xlen_mask_ones xlen : xlen_mask xlen = Z.ones (xlen_bits xlen).
Proof. by destruct xlen. Qed.

Lemma xlen_bits_pos xlen : 0 < xlen_bits xlen.
Proof. by destruct xlen. Qed.

Lemma land_xlen_mask xlen v : Z.land v (xlen_mask xlen) = v mod 2 ^ xlen_bits xlen.
Proof. rewrite xlen_mask_ones, Z.land_ones; [done | by destruct xlen]. Qed.
