(* ===== verification/RvOp.v ===== *)
(** * Decoded RISC-V instructions (src/isa/riscv/decode.rs)

    The operation enumeration, the decoded-instruction record, the field and
    immediate extractors of the 32-bit formats and the base constructor. *)

From S2P Require Import Prelude RvIsa.

(** A decoded RISC-V operation, one constructor per variant of the source. *)
Inductive Op : Type :=
(* RV32I / RV64I base *)
| Lui | Auipc | Jal | Jalr | Beq | Bne | Blt | Bge | Bltu | Bgeu | Lb | Lh
| Lw | Lbu | Lhu | Lwu | Ld | LdPair | Sb | Sh | Sw | Sd | SdPair | Addi
| Slti | Sltiu | Xori | Ori | Andi | Slli | Srli | Srai | Add | Sub | Sll
| Slt | Sltu | Xor | Srl | Sra | Or | And | Addiw | Slliw | Srliw | Sraiw
| Addw | Subw | Sllw | Sltw | Srlw | Sraw | Fence | FenceI | Pause | NtlP1
| NtlPall | NtlS1 | NtlAll | CboInval | CboClean | CboFlush | CboZero
| PrefetchI | PrefetchR | PrefetchW | Ecall | Ebreak
(* Zcmp / Zcmt compressed-only ops *)
| CmPush | CmPop | CmPopRetz | CmPopRet | CmMvsa01 | CmMva01s | CmJt | CmJalt
(* privileged / system (subset) *)
| Mret | Sret | Wfi | WrsNto | WrsSto | Uret | SfenceVm | SfenceVma
| SinvalVma | SfenceWInval | SfenceInvalIr | HfenceVvma | HfenceGvma
| HinvalVvma | HinvalGvma | HlvB | HlvH | HlvW | HlvD | HlvBu | HlvHu | HlvWu
| HlvxHu | HlvxWu | HsvB | HsvH | HsvW | HsvD
(* Zicsr *)
| Csrrw | Csrrs | Csrrc | Csrrwi | Csrrsi | Csrrci
(* M *)
| Mul | Mulh | Mulhsu | Mulhu | Div | Divu | Rem | Remu | Mulw | Divw | Divuw
| Remw | Remuw
(* A (word) *)
| LrW | ScW | AmoswapW | AmoaddW | AmoxorW | AmoandW | AmoorW | AmominW
| AmomaxW | AmominuW | AmomaxuW | AmocasW
(* A (double) *)
| LrD | ScD | AmoswapD | AmoaddD | AmoxorD | AmoandD | AmoorD | AmominD
| AmomaxD | AmominuD | AmomaxuD | AmocasD
(* Zacas (quadword; RV64 register-pair form) *)
| AmocasQ
(* F (single precision) *)
| Flw | Fsw | FmaddS | FmsubS | FnmsubS | FnmaddS | FaddS | FsubS | FmulS
| FdivS | FsqrtS | FsgnjS | FsgnjnS | FsgnjxS | FminS | FmaxS | FcvtWS
| FcvtWuS | FcvtLS | FcvtLuS | FmvXW | FeqS | FltS | FleS | FclassS | FcvtSW
| FcvtSWu | FcvtSL | FcvtSLu | FmvWX
(* D (double precision) *)
| Fld | Fsd | FmaddD | FmsubD | FnmsubD | FnmaddD | FaddD | FsubD | FmulD
| FdivD | FsqrtD | FsgnjD | FsgnjnD | FsgnjxD | FminD | FmaxD | FcvtSD
| FcvtDS | FeqD | FltD | FleD | FclassD | FcvtWD | FcvtWuD | FcvtLD | FcvtLuD
| FcvtDW | FcvtDWu | FcvtDL | FcvtDLu | FmvXD | FmvDX
(* Q (quad precision; decode/disassembly parity) *)
| Flq | Fsq | FmaddQ | FmsubQ | FnmsubQ | FnmaddQ | FaddQ | FsubQ | FmulQ
| FdivQ | FsqrtQ | FsgnjQ | FsgnjnQ | FsgnjxQ | FminQ | FmaxQ | FcvtSQ
| FcvtQS | FcvtDQ | FcvtQD | FcvtHQ | FcvtQH | FeqQ | FltQ | FleQ | FclassQ
| FcvtWQ | FcvtWuQ | FcvtLQ | FcvtLuQ | FcvtQW | FcvtQWu | FcvtQL | FcvtQLu
(* Zba *)
| Sh1add | Sh2add | Sh3add | AddUw | Sh1addUw | Sh2addUw | Sh3addUw | SlliUw
(* Zbb *)
| Andn | Orn | Xnor | Clz | Ctz | Cpop | Max | Maxu | Min | Minu | SextB
| SextH | ZextH | Rol | Ror | Rori | Orcb | Rev8 | Clzw | Ctzw | Cpopw | Rolw
| Rorw | Roriw
(* Zbc *)
| Clmul | Clmulh | Clmulr
(* Zbs *)
| Bclr | Bclri | Bext | Bexti | Binv | Binvi | Bset | Bseti
(* Zicond *)
| CzeroEqz | CzeroNez
(* Zfa *)
| FliS | FliD | FminmS | FmaxmS | FminmD | FmaxmD | FroundS | FroundnxS
| FroundD | FroundnxD | FleqS | FltqS | FleqD | FltqD | FcvtmodWD
(* Zbkb *)
| Pack | Packh | Packw | Brev8 | Zip | Unzip
(* Zfh (half precision) *)
| Flh | Fsh | FaddH | FsubH | FmulH | FdivH | FsqrtH | FmaddH | FmsubH
| FnmsubH | FnmaddH | FsgnjH | FsgnjnH | FsgnjxH | FminH | FmaxH | FeqH
| FltH | FleH | FclassH | FcvtSH | FcvtHS | FcvtDH | FcvtHD | FcvtWH
| FcvtWuH | FcvtLH | FcvtLuH | FcvtHW | FcvtHWu | FcvtHL | FcvtHLu | FmvXH
| FmvHX
(* Zfh + Zfa (half) *)
| FliH | FminmH | FmaxmH | FroundH | FroundnxH | FleqH | FltqH
(* Zbkx *)
| Xperm4 | Xperm8
(* Zknh (SHA) *)
| Sha256Sig0 | Sha256Sig1 | Sha256Sum0 | Sha256Sum1 | Sha512Sig0 | Sha512Sig1
| Sha512Sum0 | Sha512Sum1 | Sha512Sig0l | Sha512Sig0h | Sha512Sig1l
| Sha512Sig1h | Sha512Sum0r | Sha512Sum1r
(* Zksh (SM3) *)
| Sm3p0 | Sm3p1
(* Zksed (SM4) *)
| Sm4ed | Sm4ks
(* Zkne / Zknd (AES) *)
| Aes32esi | Aes32esmi | Aes32dsi | Aes32dsmi | Aes64es | Aes64esm | Aes64ds
| Aes64dsm | Aes64ks1i | Aes64ks2 | Aes64im
(* V (vector configuration) *)
| Vsetvli | Vsetivli | Vsetvl
(* V (vector load/store, unit-stride; width in funct3) *)
| Vle | Vse | Vlse | Vsse | Vlxei | Vsxei | Vlm | Vsm | Vlre | Vsre | Vlseg
| Vsseg | Vleff
(* V (vector integer arithmetic; form vv/vx/vi in funct3) *)
| Vadd | Vsub | Vrsub | Vand | Vor | Vxor | Vminu | Vmin | Vmaxu | Vmax
| Vsll | Vsrl | Vsra | Vmerge | Vmseq | Vmsne | Vmsltu | Vmslt | Vmsleu
| Vmsle | Vmsgtu | Vmsgt
(* V (OPMVV/OPMVX integer multiply/divide) *)
| Vmul | Vmulh | Vmulhu | Vmulhsu | Vdivu | Vdiv | Vremu | Vrem
(* V (OPFVV/OPFVF floating point) *)
| Vfadd | Vfsub | Vfrsub | Vfmul | Vfdiv | Vfrdiv | Vfsqrt | Vfmin | Vfmax
| Vfsgnj | Vfsgnjn | Vfsgnjx | Vmfeq | Vmfne | Vmflt | Vmfle | Vmfgt | Vmfge
| Vfmacc | Vfnmacc | Vfmsac | Vfnmsac | Vfmadd | Vfnmadd | Vfmsub | Vfnmsub
(* V (OPMVV integer reductions) *)
| Vredsum | Vredand | Vredor | Vredxor | Vredminu | Vredmin | Vredmaxu
| Vredmax
(* V (OPFVV floating-point reductions) *)
| Vfredusum | Vfredosum | Vfredmin | Vfredmax
(* V (scalar element moves: lane 0 <-> x/f register) *)
| VmvXS | VmvSX | VfmvFS | VfmvSF
(* V (mask-register logical) *)
| Vmand | Vmnand | Vmandn | Vmxor | Vmor | Vmnor | Vmorn | Vmxnor
(* V (integer zero/sign extension, VXUNARY0) *)
| VzextVf2 | VsextVf2 | VzextVf4 | VsextVf4 | VzextVf8 | VsextVf8
(* V (mask population / set / index) *)
| Vcpop | Vfirst | Vmsbf | Vmsof | Vmsif | Viota | Vid
(* V (slides) *)
| Vslideup | Vslidedown | Vslide1up | Vslide1down | Vfslide1up | Vfslide1down
| Vrgather | Vrgatherei16 | Vcompress
(* V (add/subtract with carry/borrow) *)
| Vadc | Vmadc | Vsbc | Vmsbc
(* V (saturating fixed-point add/subtract) *)
| Vsaddu | Vsadd | Vssubu | Vssub
(* V (averaging add/subtract) *)
| Vaaddu | Vaadd | Vasubu | Vasub
(* V (scaling shift / fractional multiply) *)
| Vssrl | Vssra | Vsmul
(* V (widening integer add/subtract) *)
| Vwaddu | Vwadd | Vwsubu | Vwsub | VwadduW | VwaddW | VwsubuW | VwsubW
(* V (widening integer multiply / multiply-accumulate) *)
| Vwmulu | Vwmulsu | Vwmul | Vwmaccu | Vwmacc | Vwmaccsu | Vwmaccus
(* V (narrowing shift / clip) *)
| Vnsrl | Vnsra | Vnclipu | Vnclip
(* V (single-width FP/integer conversions, VFUNARY0) *)
| VfcvtXuF | VfcvtXF | VfcvtFXu | VfcvtFX | VfcvtRtzXuF | VfcvtRtzXF
(* V (widening FP/integer conversions) *)
| VfwcvtXuF | VfwcvtXF | VfwcvtFXu | VfwcvtFX | VfwcvtFF | VfwcvtRtzXuF
| VfwcvtRtzXF
(* V (narrowing FP/integer conversions) *)
| VfncvtXuF | VfncvtXF | VfncvtFXu | VfncvtFX | VfncvtFF | VfncvtRodFF
| VfncvtRtzXuF | VfncvtRtzXF
(* V (widening FP arithmetic) *)
| Vfwadd | Vfwsub | Vfwmul | VfwaddW | VfwsubW | Vfwmacc | Vfwnmacc | Vfwmsac
| Vfwnmsac
(* V (widening reductions) *)
| Vwredsumu | Vwredsum | Vfwredusum | Vfwredosum
(* V (classify / whole-register move) *)
| Vfclass | Vmvr
(* V (reciprocal / rsqrt estimates) *)
| Vfrsqrt7 | Vfrec7
(* Xsoteria (Google Soteria/GSC vendor extension, RV32) *)
| Grev | Grevi | Bitc | Bitci | Bits | Bitsi | Fls | Pcnt
(* Andes XAndesPerf vendor extension *)
| NdsLbgp | NdsLbugp | NdsLhgp | NdsLhugp | NdsLwgp | NdsLwugp | NdsLdgp
| NdsSbgp | NdsShgp | NdsSwgp | NdsSdgp | NdsAddigp | NdsBfoz | NdsBfos
| NdsBbc | NdsBbs | NdsBeqc | NdsBnec | NdsLeaH | NdsLeaW | NdsLeaD
| NdsLeaBZe | NdsLeaHZe | NdsLeaWZe | NdsLeaDZe | NdsFfb | NdsFfmism
| NdsFfzmism | NdsFlmism
(* T-Head/Xuantie XThead vendor extension *)
| ThDcacheCall | ThDcacheCiall | ThDcacheIall | ThDcacheCpa | ThDcacheCipa
| ThDcacheIpa | ThDcacheCva | ThDcacheCiva | ThDcacheIva | ThDcacheCsw
| ThDcacheCisw | ThDcacheIsw | ThDcacheCpal1 | ThDcacheCval1 | ThIcacheIall
| ThIcacheIalls | ThIcacheIpa | ThIcacheIva | ThL2cacheCall | ThL2cacheCiall
| ThL2cacheIall | ThSfenceVmas | ThSync | ThSyncS | ThSyncI | ThSyncIS
| ThIpush | ThIpop | ThAddsl | ThSrri | ThSrriw | ThExt | ThExtu | ThFf0
| ThFf1 | ThRev | ThRevw | ThTstNbz | ThTst | ThMveqz | ThMvnez | ThMula
| ThMulah | ThMulaw | ThMuls | ThMulsh | ThMulsw | ThFmvHwX | ThFmvXHw
| ThAndn | ThOrn | ThXorn | ThPackl | ThPackh | ThPackhl | ThLbia | ThLbib
| ThLbuia | ThLbuib | ThLhia | ThLhib | ThLhuia | ThLhuib | ThLwia | ThLwib
| ThLwuia | ThLwuib | ThLdia | ThLdib | ThSbia | ThSbib | ThShia | ThShib
| ThSwia | ThSwib | ThSdia | ThSdib | ThLrb | ThLrbu | ThLrh | ThLrhu | ThLrw
| ThLrwu | ThLrd | ThSrb | ThSrh | ThSrw | ThSrd | ThLurb | ThLurbu | ThLurh
| ThLurhu | ThLurw | ThLurwu | ThLurd | ThSurb | ThSurh | ThSurw | ThSurd
| ThLdd | ThLwd | ThLwud | ThSdd | ThSwd | ThFlrd | ThFlrw | ThFlurd
| ThFlurw | ThFsrd | ThFsrw | ThFsurd | ThFsurw | ThVmaqa | ThVmaqau
| ThVmaqasu | ThVmaqaus | ThVpmaqa | ThVpmaqau | ThVpmaqasu | ThVpmaqaus
| ThVpnclip | ThVpnclipu | ThVpwadd | ThVpwaddu
(* Hazard3 (Xh3power/Xh3bextm vendor extension) *)
| H3Block | H3Unblock | H3Bextm | H3Bextmi
(* sentinel *)
| Illegal.

(** [true] if this is a floating-point operation handled by the FP execution
    path. *)
Definition is_fp (op : Op) : bool :=
  match op with
  | Flw | Fsw | FmaddS | FmsubS | FnmsubS | FnmaddS | FaddS | FsubS | FmulS
  | FdivS | FsqrtS | FsgnjS | FsgnjnS | FsgnjxS | FminS | FmaxS | FcvtWS
  | FcvtWuS | FcvtLS | FcvtLuS | FmvXW | FeqS | FltS | FleS | FclassS
  | FcvtSW | FcvtSWu | FcvtSL | FcvtSLu | FmvWX | Fld | Fsd | FmaddD | FmsubD
  | FnmsubD | FnmaddD | FaddD | FsubD | FmulD | FdivD | FsqrtD | FsgnjD
  | FsgnjnD | FsgnjxD | FminD | FmaxD | FcvtSD | FcvtDS | FeqD | FltD | FleD
  | FclassD | FcvtWD | FcvtWuD | FcvtLD | FcvtLuD | FcvtDW | FcvtDWu | FcvtDL
  | FcvtDLu | FmvXD | FmvDX | Flq | Fsq | FmaddQ | FmsubQ | FnmsubQ | FnmaddQ
  | FaddQ | FsubQ | FmulQ | FdivQ | FsqrtQ | FsgnjQ | FsgnjnQ | FsgnjxQ
  | FminQ | FmaxQ | FcvtSQ | FcvtQS | FcvtDQ | FcvtQD | FcvtHQ | FcvtQH
  | FeqQ | FltQ | FleQ | FclassQ | FcvtWQ | FcvtWuQ | FcvtLQ | FcvtLuQ
  | FcvtQW | FcvtQWu | FcvtQL | FcvtQLu | FliS | FliD | FminmS | FmaxmS
  | FminmD | FmaxmD | FroundS | FroundnxS | FroundD | FroundnxD | FleqS
  | FltqS | FleqD | FltqD | FcvtmodWD | Flh | Fsh | FaddH | FsubH | FmulH
  | FdivH | FsqrtH | FmaddH | FmsubH | FnmsubH | FnmaddH | FsgnjH | FsgnjnH
  | FsgnjxH | FminH | FmaxH | FeqH | FltH | FleH | FclassH | FcvtSH | FcvtHS
  | FcvtDH | FcvtHD | FcvtWH | FcvtWuH | FcvtLH | FcvtLuH | FcvtHW | FcvtHWu
  | FcvtHL | FcvtHLu | FmvXH | FmvHX | FliH | FminmH | FmaxmH | FroundH
  | FroundnxH | FleqH | FltqH => true
  | _ => false
  end.

(** A fully decoded instruction with all operand fields resolved.  [rd],
    [rs1], [rs2], [rs3], [funct3] and [len] are u8, [imm] is i64, [csr] is
    u16 and [raw] is u32. *)
Record Insn : Type := mk_insn {
  insn_op : Op;
  insn_rd : Z;
  insn_rs1 : Z;
  insn_rs2 : Z;
  insn_rs3 : Z;
  insn_imm : Z;
  insn_funct3 : Z;
  insn_csr : Z;
  insn_aq : bool;
  insn_rl : bool;
  insn_len : Z;
  insn_raw : Z
}.

(** [i.imm = v] and [i.rs1 = v] and [i.rs2 = v] on a mutable [Insn]. *)
Definition set_insn_imm (v : Z) (i : Insn) : Insn :=
  {| insn_op := insn_op i; insn_rd := insn_rd i; insn_rs1 := insn_rs1 i;
     insn_rs2 := insn_rs2 i; insn_rs3 := insn_rs3 i; insn_imm := v;
     insn_funct3 := insn_funct3 i; insn_csr := insn_csr i; insn_aq := insn_aq i;
     insn_rl := insn_rl i; insn_len := insn_len i; insn_raw := insn_raw i |}.
Definition set_insn_rs1 (v : Z) (i : Insn) : Insn :=
  {| insn_op := insn_op i; insn_rd := insn_rd i; insn_rs1 := v;
     insn_rs2 := insn_rs2 i; insn_rs3 := insn_rs3 i; insn_imm := insn_imm i;
     insn_funct3 := insn_funct3 i; insn_csr := insn_csr i; insn_aq := insn_aq i;
     insn_rl := insn_rl i; insn_len := insn_len i; insn_raw := insn_raw i |}.
Definition set_insn_rs2 (v : Z) (i : Insn) : Insn :=
  {| insn_op := insn_op i; insn_rd := insn_rd i; insn_rs1 := insn_rs1 i;
     insn_rs2 := v; insn_rs3 := insn_rs3 i; insn_imm := insn_imm i;
     insn_funct3 := insn_funct3 i; insn_csr := insn_csr i; insn_aq := insn_aq i;
     insn_rl := insn_rl i; insn_len := insn_len i; insn_raw := insn_raw i |}.

(** An illegal instruction of the given length carrying its raw bits. *)
Definition illegal (raw len : Z) : Insn :=
  {| insn_op := Illegal; insn_rd := 0; insn_rs1 := 0; insn_rs2 := 0;
     insn_rs3 := 0; insn_imm := 0; insn_funct3 := 0; insn_csr := 0;
     insn_aq := false; insn_rl := false; insn_len := len; insn_raw := raw |}.

(** An illegal 16-bit (compressed) parcel. *)
Definition illegal_compressed (half : Z) : Insn := illegal half 2.

Definition is_illegal (i : Insn) : bool :=
  match insn_op i with Illegal => true | _ => false end.

(** ** Field extraction (32-bit instruction word) *)

Definition opcode (w : Z) : Z := Z.land w 0x7f.
Definition rd (w : Z) : Z := Z.land (Z.shiftr w 7) 0x1f.
Definition funct3 (w : Z) : Z := Z.land (Z.shiftr w 12) 0x7.
Definition rs1 (w : Z) : Z := Z.land (Z.shiftr w 15) 0x1f.
Definition rs2 (w : Z) : Z := Z.land (Z.shiftr w 20) 0x1f.
Definition rs3 (w : Z) : Z := Z.land (Z.shiftr w 27) 0x1f.
Definition funct7 (w : Z) : Z := Z.land (Z.shiftr w 25) 0x7f.
Definition funct2 (w : Z) : Z := Z.land (Z.shiftr w 25) 0x3.

(** ** Sign-extended immediates *)

Definition imm_i (w : Z) : Z := Z.shiftr (as_i32 w) 20.

Definition imm_s (w : Z) : Z :=
  let hi := Z.land (Z.shiftr w 25) 0x7f in
  let lo := Z.land (Z.shiftr w 7) 0x1f in
  let v := Z.lor (Z.shiftl hi 5) lo in
  Z.shiftr (as_i32 (Z.shiftl v 20)) 20.

Definition imm_b (w : Z) : Z :=
  let b12 := Z.land (Z.shiftr w 31) 1 in
  let b11 := Z.land (Z.shiftr w 7) 1 in
  let b10_5 := Z.land (Z.shiftr w 25) 0x3f in
  let b4_1 := Z.land (Z.shiftr w 8) 0xf in
  let v := Z.lor (Z.lor (Z.lor (Z.shiftl b12 12) (Z.shiftl b11 11))
                        (Z.shiftl b10_5 5)) (Z.shiftl b4_1 1) in
  Z.shiftr (as_i32 (Z.shiftl v 19)) 19.

Definition imm_u (w : Z) : Z := as_i32 (Z.land w 0xfffff000).

Definition imm_j (w : Z) : Z :=
  let b20 := Z.land (Z.shiftr w 31) 1 in
  let b19_12 := Z.land (Z.shiftr w 12) 0xff in
  let b11 := Z.land (Z.shiftr w 20) 1 in
  let b10_1 := Z.land (Z.shiftr w 21) 0x3ff in
  let v := Z.lor (Z.lor (Z.lor (Z.shiftl b20 20) (Z.shiftl b19_12 12))
                        (Z.shiftl b11 11)) (Z.shiftl b10_1 1) in
  Z.shiftr (as_i32 (Z.shiftl v 11)) 11.

(** Build a base [Insn] with the common register/length fields populated. *)
Definition base (op : Op) (w : Z) : Insn :=
  {| insn_op := op;
     insn_rd := rd w;
     insn_rs1 := rs1 w;
     insn_rs2 := rs2 w;
     insn_rs3 := rs3 w;
     insn_imm := 0;
     insn_funct3 := funct3 w;
     insn_csr := Z.land (Z.shiftr w 20) 0xfff;
     insn_aq := negb (Z.land (Z.shiftr w 26) 1 =? 0);
     insn_rl := negb (Z.land (Z.shiftr w 25) 1 =? 0);
     insn_len := 4;
     insn_raw := w |}.

Definition with_imm (op : Op) (w imm : Z) : Insn := set_insn_imm imm (base op w).

(** [Some(op) => base(op, w), None => Insn::illegal(w, 4)]: the tail of every
    decoder whose [match] has a [_ => return Insn::illegal(w, 4)] arm. *)
Definition base_or_illegal (o : option Op) (w : Z) : Insn :=
  match o with Some op => base op w | None => illegal w 4 end.

(** A block [if c { match .. { k => return base(op, w), _ => {} } }] of a
    decoder, followed by the rest [k] of the function. *)
Definition try_base (w : Z) (c : bool) (o : option Op) (k : Insn) : Insn :=
  if c then match o with Some op => base op w | None => k end else k.

(** The same for an arm that returns [with_imm(op, w, imm)]. *)
Definition try_imm (w : Z) (c : bool) (o : option Op) (imm : Z) (k : Insn) : Insn :=
  if c then match o with Some op => with_imm op w imm | None => k end else k.

(** ** Reasoning about decoders *)

Lemma base_or_illegal_ind (P : Insn -> Prop) o w :
  P (illegal w 4) -> (forall op, o = Some op -> P (base op w)) -> P (base_or_illegal o w).
Proof. intros Hi Ho. destruct o; simpl; auto. Qed.

Lemma try_base_ind (P : Insn -> Prop) w c o k :
  (forall op, c = true -> o = Some op -> P (base op w)) -> P k -> P (try_base w c o k).
Proof. intros Ho Hk. unfold try_base. destruct c, o; simpl; auto. Qed.

Lemma try_imm_ind (P : Insn -> Prop) w c o imm k :
  (forall op, c = true -> o = Some op -> P (with_imm op w imm)) -> P k ->
  P (try_imm w c o imm k).
Proof. intros Ho Hk. unfold try_imm. destruct c, o; simpl; auto. Qed.

Lemma if_ind (P : Insn -> Prop) (c : bool) i j :
  (c = true -> P i) -> (c = false -> P j) -> P (if c then i else j).
Proof. destruct c; auto. Qed.

Lemma match_op_ind (P : Insn -> Prop) (o : option Op) (f : Op -> Insn) i :
  (forall op, o = Some op -> P (f op)) -> P i ->
  P (match o with Some op => f op | None => i end).
Proof. destruct o; auto. Qed.
