(* ===== verification/RvDecodeBase.v ===== *)
(** * Decoding the base, M, A, Zb*, Zk* and system encodings

    The opcode groups of src/isa/riscv/decode.rs and decode/op_imm.rs that
    are neither floating-point, vector nor vendor encodings. *)

From S2P Require Import Prelude RvIsa RvOp.

(** ** Branches, loads and stores *)

Definition decode_branch (w : Z) : Insn :=
  match arms (funct3 w)
    [(0, true, Beq); (1, true, Bne); (4, true, Blt); (5, true, Bge);
     (6, true, Bltu); (7, true, Bgeu)] with
  | Some op => with_imm op w (imm_b w)
  | None => illegal w 4
  end.

Definition decode_load (w : Z) (rv64 : bool) (isa : Isa) : Insn :=
  match arms (funct3 w)
    [(0, true, Lb); (1, true, Lh); (2, true, Lw);
     (3, rv64, Ld);
     (3, isa_zilsd isa && (Z.land (rd w) 1 =? 0), LdPair);
     (4, true, Lbu); (5, true, Lhu);
     (6, rv64, Lwu)] with
  | Some op => with_imm op w (imm_i w)
  | None => illegal w 4
  end.

Definition decode_store (w : Z) (rv64 : bool) (isa : Isa) : Insn :=
  match arms (funct3 w)
    [(0, true, Sb); (1, true, Sh); (2, true, Sw);
     (3, rv64, Sd);
     (3, isa_zilsd isa && (Z.land (rs2 w) 1 =? 0), SdPair)] with
  | Some op => with_imm op w (imm_s w)
  | None => illegal w 4
  end.

(** ** OP (R-type): base, M, Zba/Zbb/Zbc/Zbs and crypto overlays *)

(** The M block; its [_ => unreachable!()] arm is the [None] of [arms], which the
    three-bit [funct3] never selects ([decode_op_m_total]). *)
Definition decode_op_m (f3 : Z) : option Op :=
  arms f3
    [(0, true, Mul); (1, true, Mulh); (2, true, Mulhsu); (3, true, Mulhu);
     (4, true, Div); (5, true, Divu); (6, true, Rem); (7, true, Remu)].

(** The AES and SM4 block of the encodings with [funct3 == 0]. *)
Definition decode_op_aes (w : Z) (rv64 : bool) (isa : Isa) (k : Insn) : Insn :=
  let f7 := funct7 w in
  let bs := Z.shiftr f7 5 in
  try_imm w (negb rv64) (arms f7
    [(0x11, isa_zkne isa, Aes32esi); (0x31, isa_zkne isa, Aes32esi);
     (0x51, isa_zkne isa, Aes32esi); (0x71, isa_zkne isa, Aes32esi);
     (0x13, isa_zkne isa, Aes32esmi); (0x33, isa_zkne isa, Aes32esmi);
     (0x53, isa_zkne isa, Aes32esmi); (0x73, isa_zkne isa, Aes32esmi);
     (0x15, isa_zknd isa, Aes32dsi); (0x35, isa_zknd isa, Aes32dsi);
     (0x55, isa_zknd isa, Aes32dsi); (0x75, isa_zknd isa, Aes32dsi);
     (0x17, isa_zknd isa, Aes32dsmi); (0x37, isa_zknd isa, Aes32dsmi);
     (0x57, isa_zknd isa, Aes32dsmi); (0x77, isa_zknd isa, Aes32dsmi)]) bs
  $ try_base w rv64 (arms f7
    [(0x19, isa_zkne isa, Aes64es);
     (0x1b, isa_zkne isa, Aes64esm);
     (0x1d, isa_zknd isa, Aes64ds);
     (0x1f, isa_zknd isa, Aes64dsm);
     (0x3f, isa_zkne isa || isa_zknd isa, Aes64ks2)])
  $ try_imm w (isa_zksed isa) (arms (Z.land f7 0x1f)
    [(0x18, true, Sm4ed); (0x1a, true, Sm4ks)]) bs
  $ k.

(** The base RV32I/RV64I table that ends [decode_op]. *)
Definition decode_op_base (f7 f3 : Z) : option Op :=
  arms f7
    [(0x0, f3 =? 0, Add); (0x20, f3 =? 0, Sub);
     (0x0, f3 =? 1, Sll); (0x0, f3 =? 2, Slt);
     (0x0, f3 =? 3, Sltu); (0x0, f3 =? 4, Xor);
     (0x0, f3 =? 5, Srl); (0x20, f3 =? 5, Sra);
     (0x0, f3 =? 6, Or); (0x0, f3 =? 7, And)].

Definition decode_op (w : Z) (rv64 : bool) (isa : Isa) : Insn :=
  let f3 := funct3 w in
  let f7 := funct7 w in
  if isa_m isa && (f7 =? 0x1) then base_or_illegal (decode_op_m f3) w
  else if isa_zba isa && (f7 =? 0x10) then
    base_or_illegal (arms f3 [(2, true, Sh1add); (4, true, Sh2add); (6, true, Sh3add)]) w
  else
    try_base w (isa_zbb isa && (f7 =? 0x20))
      (arms f3 [(7, true, Andn); (6, true, Orn); (4, true, Xnor)])
  $ try_base w (isa_zbb isa && (f7 =? 0x30))
      (arms f3 [(1, true, Rol); (5, true, Ror)])
  $ try_base w ((f7 =? 0x5) && isa_zbc isa)
      (arms f3 [(1, true, Clmul); (2, true, Clmulr); (3, true, Clmulh)])
  $ try_base w ((f7 =? 0x5) && isa_zbb isa)
      (arms f3 [(4, true, Min); (5, true, Minu); (6, true, Max); (7, true, Maxu)])
  $ try_base w (isa_zbs isa)
      (arms f7 [(0x24, f3 =? 1, Bclr); (0x24, f3 =? 5, Bext);
                (0x34, f3 =? 1, Binv); (0x14, f3 =? 1, Bset)])
  $ try_base w (isa_zicond isa && (f7 =? 0x7))
      (arms f3 [(5, true, CzeroEqz); (7, true, CzeroNez)])
  $ try_base w (isa_zknh isa && negb rv64 && (f3 =? 0))
      (arms f7 [(0x28, true, Sha512Sum0r); (0x29, true, Sha512Sum1r);
                (0x2a, true, Sha512Sig0l); (0x2b, true, Sha512Sig1l);
                (0x2e, true, Sha512Sig0h); (0x2f, true, Sha512Sig1h)])
  $ try_base w (isa_zbkb isa && (f7 =? 0x4))
      (arms f3 [(4, true, Pack); (7, true, Packh)])
  $ try_base w (isa_zbkx isa && (f7 =? 0x14))
      (arms f3 [(2, true, Xperm4); (4, true, Xperm8)])
  $ (fun k => if f3 =? 0 then decode_op_aes w rv64 isa k else k)
  $ try_base w (isa_zihintntl isa && (f7 =? 0) && (f3 =? 0) && (rd w =? 0) && (rs1 w =? 0))
      (arms (rs2 w) [(2, true, NtlP1); (3, true, NtlPall); (4, true, NtlS1);
                     (5, true, NtlAll)])
  $ try_base w (isa_xhazard3 isa && (f7 =? 0) && (f3 =? 2) && (rd w =? 0) && (rs1 w =? 0))
      (arms (rs2 w) [(0, true, H3Block); (1, true, H3Unblock)])
  $ base_or_illegal (decode_op_base f7 f3) w.

(** ** OP-32 (RV64 R-type word operations) *)

Definition decode_op32 (w : Z) (isa : Isa) : Insn :=
  let f3 := funct3 w in
  let f7 := funct7 w in
  if isa_m isa && (f7 =? 0x1) then
    base_or_illegal (arms f3 [(0, true, Mulw); (4, true, Divw); (5, true, Divuw);
                              (6, true, Remw); (7, true, Remuw)]) w
  else
    try_base w (isa_zba isa)
      (arms f7 [(0x4, f3 =? 0, AddUw); (0x10, f3 =? 2, Sh1addUw);
                (0x10, f3 =? 4, Sh2addUw); (0x10, f3 =? 6, Sh3addUw)])
  $ try_base w (isa_zbb isa && (f7 =? 0x4) && (f3 =? 4) && (rs2 w =? 0)) (Some ZextH)
  $ try_base w (isa_zbb isa && (f7 =? 0x30))
      (arms f3 [(1, true, Rolw); (5, true, Rorw)])
  $ try_base w (isa_zbkb isa && (f7 =? 0x4) && (f3 =? 4) && negb (rs2 w =? 0))
      (Some Packw)
  $ base_or_illegal
      (arms f7 [(0x0, f3 =? 0, Addw); (0x20, f3 =? 0, Subw);
                (0x0, f3 =? 1, Sllw);
                (0x0, (f3 =? 2) && isa_xida_sltw isa, Sltw);
                (0x0, f3 =? 5, Srlw); (0x20, f3 =? 5, Sraw)]) w.

(** ** FENCE and cache-block operations *)

Definition decode_fence (w : Z) (isa : Isa) : Insn :=
  let f3 := funct3 w in
  if (f3 =? 0) && (isa_zihintpause isa && (rd w =? 0) && (rs1 w =? 0)
      && (Z.land (Z.shiftr w 28) 0xf =? 0) && (Z.land (Z.shiftr w 24) 0xf =? 1)
      && (Z.land (Z.shiftr w 20) 0xf =? 0)) then base Pause w
  else if f3 =? 0 then base Fence w
  else if (f3 =? 1) && isa_zifencei isa then base FenceI w
  else if (f3 =? 2) && ((rd w =? 0) && (Z.land (Z.shiftr w 27) 0x1f =? 0)) then
    base_or_illegal
      (arms (rs2 w) [(0, isa_zicbom isa, CboInval); (1, isa_zicbom isa, CboClean);
                     (2, isa_zicbom isa, CboFlush); (4, isa_zicboz isa, CboZero)]) w
  else illegal w 4.

(** ** SYSTEM *)

Definition decode_hypervisor_mem (w : Z) (rv64 : bool) : Insn :=
  let r2 := rs2 w in
  let d := rd w in
  base_or_illegal
    (arms (funct7 w)
      [(0x30, r2 =? 0, HlvB); (0x30, r2 =? 1, HlvBu);
       (0x32, r2 =? 0, HlvH); (0x32, r2 =? 1, HlvHu); (0x32, r2 =? 3, HlvxHu);
       (0x34, r2 =? 0, HlvW); (0x34, (r2 =? 1) && rv64, HlvWu);
       (0x34, (r2 =? 3) && rv64, HlvxWu);
       (0x36, (r2 =? 0) && rv64, HlvD);
       (0x31, d =? 0, HsvB); (0x33, d =? 0, HsvH); (0x35, d =? 0, HsvW);
       (0x37, (d =? 0) && rv64, HsvD)]) w.

(** The privileged table selected by [funct7]; the arm for [0x00] returns
    whatever its inner match on [rs2] gives. *)
Definition decode_priv (w : Z) (isa : Isa) : option Op :=
  let r1 := rs1 w in
  let r2 := rs2 w in
  mjoin (arms (funct7 w)
    [(0x00, r1 =? 0,
       arms r2 [(0x00, true, Ecall); (0x01, true, Ebreak); (0x02, true, Uret);
                (0x0d, isa_zawrs isa, WrsNto); (0x1d, isa_zawrs isa, WrsSto)]);
     (0x08, r2 =? 0x04, Some SfenceVm);
     (0x08, (r1 =? 0) && (r2 =? 0x02), Some Sret);
     (0x08, (r1 =? 0) && (r2 =? 0x05), Some Wfi);
     (0x09, true, Some SfenceVma);
     (0x0b, isa_svinval isa, Some SinvalVma);
     (0x0c, isa_svinval isa && (r1 =? 0) && (r2 =? 0), Some SfenceWInval);
     (0x0c, isa_svinval isa && (r1 =? 0) && (r2 =? 1), Some SfenceInvalIr);
     (0x11, isa_h isa, Some HfenceVvma);
     (0x13, isa_h isa, Some HinvalVvma);
     (0x18, (r1 =? 0) && (r2 =? 0x02), Some Mret);
     (0x31, isa_h isa, Some HfenceGvma);
     (0x33, isa_h isa, Some HinvalGvma)]).

Definition decode_system (w : Z) (rv64 : bool) (isa : Isa) : Insn :=
  let f3 := funct3 w in
  if f3 =? 0 then
    if negb (rd w =? 0) then illegal w 4 else base_or_illegal (decode_priv w isa) w
  else if (f3 =? 4) && isa_h isa then decode_hypervisor_mem w rv64
  else if negb (isa_zicsr isa) then illegal w 4
  else base_or_illegal
    (arms f3 [(1, true, Csrrw); (2, true, Csrrs); (3, true, Csrrc);
              (5, true, Csrrwi); (6, true, Csrrsi); (7, true, Csrrci)]) w.

(** ** AMO *)

Definition amo_width (f3 : Z) (rv64 : bool) : option Z :=
  arms f3 [(0x2, true, 4); (0x3, rv64, 8); (0x4, rv64, 16)].

Definition amo_op (funct5 width : Z) (isa : Isa) : option Op :=
  arms funct5
    [(0x2, width =? 4, LrW); (0x3, width =? 4, ScW);
     (0x1, width =? 4, AmoswapW); (0x0, width =? 4, AmoaddW);
     (0x4, width =? 4, AmoxorW); (0xc, width =? 4, AmoandW);
     (0x8, width =? 4, AmoorW); (0x10, width =? 4, AmominW);
     (0x14, width =? 4, AmomaxW); (0x18, width =? 4, AmominuW);
     (0x1c, width =? 4, AmomaxuW); (0x5, (width =? 4) && isa_zacas isa, AmocasW);
     (0x2, width =? 8, LrD); (0x3, width =? 8, ScD);
     (0x1, width =? 8, AmoswapD); (0x0, width =? 8, AmoaddD);
     (0x4, width =? 8, AmoxorD); (0xc, width =? 8, AmoandD);
     (0x8, width =? 8, AmoorD); (0x10, width =? 8, AmominD);
     (0x14, width =? 8, AmomaxD); (0x18, width =? 8, AmominuD);
     (0x1c, width =? 8, AmomaxuD); (0x5, (width =? 8) && isa_zacas isa, AmocasD);
     (0x5, (width =? 16) && isa_zacas isa, AmocasQ)].

Definition decode_amo (w : Z) (rv64 : bool) (isa : Isa) : Insn :=
  let funct5 := Z.land (Z.shiftr w 27) 0x1f in
  match amo_width (funct3 w) rv64 with
  | None => illegal w 4
  | Some width =>
      match amo_op funct5 width isa with
      | None => illegal w 4
      | Some op =>
          if match op with LrW | LrD => true | _ => false end && negb (rs2 w =? 0)
          then illegal w 4
          else if match op with AmocasQ => true | _ => false end
                  && (negb (Z.land (rd w) 1 =? 0) || negb (Z.land (rs2 w) 1 =? 0))
          then illegal w 4
          else base op w
      end
  end.

(** ** OP-IMM and OP-IMM-32 (decode/op_imm.rs) *)

(** OP-IMM funct3 == 1: SLLI and the Zbb/Zbs/Zk* overlays. *)
Definition decode_shift_left_imm (w : Z) (rv64 : bool) (isa : Isa) : Insn :=
  if negb rv64 && any_bits w (Z.shiftl 1 25) then illegal w 4 else
  let funct6 := Z.land (Z.shiftr w 26) 0x3f in
  let f7 := funct7 w in
  let shamt := Z.land (Z.shiftr w 20) (if rv64 then 0x3f else 0x1f) in
  let rs2f := rs2 w in
  try_base w (f7 =? 0x8)
    (arms rs2f
      [(0x0, isa_zknh isa, Sha256Sum0); (0x1, isa_zknh isa, Sha256Sum1);
       (0x2, isa_zknh isa, Sha256Sig0); (0x3, isa_zknh isa, Sha256Sig1);
       (0x4, rv64 && isa_zknh isa, Sha512Sum0);
       (0x5, rv64 && isa_zknh isa, Sha512Sum1);
       (0x6, rv64 && isa_zknh isa, Sha512Sig0);
       (0x7, rv64 && isa_zknh isa, Sha512Sig1);
       (0x8, isa_zksh isa, Sm3p0); (0x9, isa_zksh isa, Sm3p1)])
  $ try_base w (rv64 && (f7 =? 0x18) && ((rs2f =? 0) && isa_zknd isa)) (Some Aes64im)
  $ try_base w (rv64 && (f7 =? 0x18)
                && (any_bits rs2f 0x10 && (isa_zkne isa || isa_zknd isa))
                && (Z.land rs2f 0xf <=? 0xA)) (Some Aes64ks1i)
  $ if isa_zbb isa && (f7 =? 0x30) then
      base_or_illegal
        (arms rs2f [(0x0, true, Clz); (0x1, true, Ctz); (0x2, true, Cpop);
                    (0x4, true, SextB); (0x5, true, SextH)]) w
    else
      try_base w (isa_zbkb isa && negb rv64 && (f7 =? 0x4) && (rs2f =? 0xf))
        (Some Zip)
  $ try_imm w (isa_zbs isa)
      (arms funct6 [(0x12, true, Bclri); (0x1a, true, Binvi);
                    (0xa, true, Bseti)]) shamt
  $ try_imm w (rv64 && (funct6 =? 0) || negb rv64 && (f7 =? 0)) (Some Slli) shamt
  $ illegal w 4.

(** OP-IMM funct3 == 5: SRLI/SRAI and the Zbb/Zbs/Zbkb overlays. *)
Definition decode_shift_right_imm (w : Z) (rv64 : bool) (isa : Isa) : Insn :=
  if negb rv64 && any_bits w (Z.shiftl 1 25) then illegal w 4 else
  let funct6 := Z.land (Z.shiftr w 26) 0x3f in
  let f7 := funct7 w in
  let rs2f := rs2 w in
  let shamt := Z.land (Z.shiftr w 20) (if rv64 then 0x3f else 0x1f) in
  let funct12 := Z.land (Z.shiftr w 20) 0xfff in
  try_base w (isa_zbb isa && ((f7 =? 0x14) && (rs2f =? 0x7))) (Some Orcb)
  $ try_base w (isa_zbb isa && (rv64 && (funct12 =? 0x6b8)
                                || negb rv64 && (funct12 =? 0x698))) (Some Rev8)
  $ try_base w (isa_zbkb isa && (f7 =? 0x34) && (rs2f =? 0x7)) (Some Brev8)
  $ try_base w (isa_zbkb isa && negb rv64 && (f7 =? 0x4) && (rs2f =? 0xf))
      (Some Unzip)
  $ try_imm w (isa_zbb isa && (funct6 =? 0x18)) (Some Rori) shamt
  $ try_imm w (isa_zbs isa && (funct6 =? 0x12)) (Some Bexti) shamt
  $ if funct6 =? 0x0 then with_imm Srli w shamt
    else if funct6 =? 0x10 then with_imm Srai w shamt
    else if negb rv64 && (f7 =? 0x0) then with_imm Srli w shamt
    else if negb rv64 && (f7 =? 0x20) then with_imm Srai w shamt
    else illegal w 4.

Definition decode_op_imm (w : Z) (rv64 : bool) (isa : Isa) : Insn :=
  let f3 := funct3 w in
  if f3 =? 0 then with_imm Addi w (imm_i w)
  else if f3 =? 2 then with_imm Slti w (imm_i w)
  else if f3 =? 3 then with_imm Sltiu w (imm_i w)
  else if f3 =? 4 then with_imm Xori w (imm_i w)
  else if (f3 =? 6) && (isa_zicbop isa && (rd w =? 0)) then
    match arms (rs2 w) [(0, true, PrefetchI); (1, true, PrefetchR); (3, true, PrefetchW)] with
    | Some op => with_imm op w (Z.land (imm_i w) (Z.lnot 0x1f))
    | None => with_imm Ori w (imm_i w)
    end
  else if f3 =? 6 then with_imm Ori w (imm_i w)
  else if f3 =? 7 then with_imm Andi w (imm_i w)
  else if f3 =? 1 then decode_shift_left_imm w rv64 isa
  else if f3 =? 5 then decode_shift_right_imm w rv64 isa
  else illegal w 4.

Definition decode_op_imm32 (w : Z) (isa : Isa) : Insn :=
  let f7 := funct7 w in
  let funct6 := Z.land (Z.shiftr w 26) 0x3f in
  let rs2f := rs2 w in
  let shamt5 := Z.land (Z.shiftr w 20) 0x1f in
  let shamt6 := Z.land (Z.shiftr w 20) 0x3f in
  let f3 := funct3 w in
  if f3 =? 0 then with_imm Addiw w (imm_i w)
  else if f3 =? 1 then
    if isa_zba isa && (funct6 =? 0x2) then with_imm SlliUw w shamt6
    else if isa_zbb isa && (f7 =? 0x30) then
      base_or_illegal
        (arms rs2f [(0x0, true, Clzw); (0x1, true, Ctzw); (0x2, true, Cpopw)]) w
    else if f7 =? 0 then with_imm Slliw w shamt5
    else illegal w 4
  else if f3 =? 5 then
    if isa_zbb isa && (f7 =? 0x30) then with_imm Roriw w shamt5
    else if f7 =? 0x0 then with_imm Srliw w shamt5
    else if f7 =? 0x20 then with_imm Sraiw w shamt5
    else illegal w 4
  else illegal w 4.
