(* ===== verification/RvDecodeFp.v ===== *)
(** * Decoding floating-point and vector encodings

    The F/D/Q/Zfh/Zfa opcode groups and the OP-V opcode of
    src/isa/riscv/decode.rs. *)

From S2P Require Import Prelude RvIsa RvOp.

(** ** LOAD-FP and STORE-FP (shared with the vector memory encodings) *)

(** The vector memory forms, selected by [mop], [lumop]/[sumop] and [nf];
    [unit], [seg], .. name the load or the store variant of the source. *)
Definition decode_vload (w : Z) : option Op :=
  let nf := Z.land (Z.shiftr w 29) 7 in
  let mop := Z.land (Z.shiftr w 26) 3 in
  let lumop := Z.land (Z.shiftr w 20) 0x1f in
  mjoin (arms mop
    [(0x0, true,
       arms lumop [(0x0, nf =? 0, Vle); (0x0, true, Vlseg); (0x8, true, Vlre);
                   (0xb, nf =? 0, Vlm); (0x10, nf =? 0, Vleff)]);
     (0x2, nf =? 0, Some Vlse); (0x2, true, Some Vlseg);
     (0x1, nf =? 0, Some Vlxei); (0x3, nf =? 0, Some Vlxei);
     (0x1, true, Some Vlseg); (0x3, true, Some Vlseg)]).

Definition decode_vstore (w : Z) : option Op :=
  let nf := Z.land (Z.shiftr w 29) 7 in
  let mop := Z.land (Z.shiftr w 26) 3 in
  let sumop := Z.land (Z.shiftr w 20) 0x1f in
  mjoin (arms mop
    [(0x0, true,
       arms sumop [(0x0, nf =? 0, Vse); (0x0, true, Vsseg); (0x8, true, Vsre);
                   (0xb, nf =? 0, Vsm)]);
     (0x2, nf =? 0, Some Vsse); (0x2, true, Some Vsseg);
     (0x1, nf =? 0, Some Vsxei); (0x3, nf =? 0, Some Vsxei);
     (0x1, true, Some Vsseg); (0x3, true, Some Vsseg)]).

(** [matches!(f3, 0 | 5 | 6 | 7)]: the vector element widths. *)
Definition is_vector_width (f3 : Z) : bool :=
  (f3 =? 0) || (f3 =? 5) || (f3 =? 6) || (f3 =? 7).

Definition decode_load_fp (w : Z) (isa : Isa) : Insn :=
  let f3 := funct3 w in
  if isa_v isa && is_vector_width f3 then base_or_illegal (decode_vload w) w
  else match arms f3 [(1, isa_zfh isa, Flh); (2, true, Flw); (3, isa_d isa, Fld);
                      (4, isa_q isa, Flq)] with
       | Some op => with_imm op w (imm_i w)
       | None => illegal w 4
       end.

Definition decode_store_fp (w : Z) (isa : Isa) : Insn :=
  let f3 := funct3 w in
  if isa_v isa && is_vector_width f3 then base_or_illegal (decode_vstore w) w
  else match arms f3 [(1, isa_zfh isa, Fsh); (2, true, Fsw); (3, isa_d isa, Fsd);
                      (4, isa_q isa, Fsq)] with
       | Some op => with_imm op w (imm_s w)
       | None => illegal w 4
       end.

(** ** Fused multiply-add *)

Definition decode_fma (single double half quad : Op) (w : Z) (isa : Isa) : Insn :=
  base_or_illegal
    (arms (funct2 w) [(0x0, true, single); (0x1, isa_d isa, double);
                      (0x2, isa_zfh isa, half); (0x3, isa_q isa, quad)]) w.

(** ** OP-FP *)

(** Zfa additional FP operations layered over the OP-FP encoding space. *)
Definition decode_zfa (f7 f3 rs2f : Z) (isa : Isa) : option Op :=
  arms f7
    [(0x14, (f3 =? 2), FminmS); (0x14, (f3 =? 3), FmaxmS);
     (0x15, (f3 =? 2) && isa_d isa, FminmD);
     (0x15, (f3 =? 3) && isa_d isa, FmaxmD); (0x20, (rs2f =? 4), FroundS);
     (0x20, (rs2f =? 5), FroundnxS); (0x21, (rs2f =? 4) && isa_d isa, FroundD);
     (0x21, (rs2f =? 5) && isa_d isa, FroundnxD); (0x50, (f3 =? 4), FleqS);
     (0x50, (f3 =? 5), FltqS); (0x51, (f3 =? 4) && isa_d isa, FleqD);
     (0x51, (f3 =? 5) && isa_d isa, FltqD);
     (0x78, (f3 =? 0) && (rs2f =? 1), FliS);
     (0x79, (f3 =? 0) && (rs2f =? 1) && isa_d isa, FliD);
     (0x61, (f3 =? 1) && (rs2f =? 8) && isa_d isa, FcvtmodWD)].

(** Zfh half-precision operations layered over the OP-FP encoding space. *)
Definition decode_zfh (f7 f3 rs2f : Z) (rv64 : bool) (isa : Isa) : option Op :=
  let zfa := isa_zfa isa in
  arms f7
    [(0x2, true, FaddH); (0x6, true, FsubH); (0xa, true, FmulH);
     (0xe, true, FdivH); (0x2e, (rs2f =? 0), FsqrtH);
     (0x12, (f3 =? 0), FsgnjH); (0x12, (f3 =? 1), FsgnjnH);
     (0x12, (f3 =? 2), FsgnjxH); (0x16, (f3 =? 0), FminH);
     (0x16, (f3 =? 1), FmaxH); (0x16, (f3 =? 2) && zfa, FminmH);
     (0x16, (f3 =? 3) && zfa, FmaxmH); (0x20, (rs2f =? 2), FcvtSH);
     (0x22, (rs2f =? 0), FcvtHS); (0x21, (rs2f =? 2) && isa_d isa, FcvtDH);
     (0x22, (rs2f =? 1) && isa_d isa, FcvtHD);
     (0x22, (rs2f =? 3) && isa_q isa, FcvtHQ);
     (0x22, (rs2f =? 4) && zfa, FroundH); (0x22, (rs2f =? 5) && zfa, FroundnxH);
     (0x62, (rs2f =? 0), FcvtWH); (0x62, (rs2f =? 1), FcvtWuH);
     (0x62, (rs2f =? 2) && rv64, FcvtLH); (0x62, (rs2f =? 3) && rv64, FcvtLuH);
     (0x6a, (rs2f =? 0), FcvtHW); (0x6a, (rs2f =? 1), FcvtHWu);
     (0x6a, (rs2f =? 2) && rv64, FcvtHL); (0x6a, (rs2f =? 3) && rv64, FcvtHLu);
     (0x72, (f3 =? 0) && (rs2f =? 0), FmvXH);
     (0x72, (f3 =? 1) && (rs2f =? 0), FclassH);
     (0x7a, (f3 =? 0) && (rs2f =? 0), FmvHX);
     (0x7a, (f3 =? 0) && (rs2f =? 1) && zfa, FliH); (0x52, (f3 =? 0), FleH);
     (0x52, (f3 =? 1), FltH); (0x52, (f3 =? 2), FeqH);
     (0x52, (f3 =? 4) && zfa, FleqH); (0x52, (f3 =? 5) && zfa, FltqH)].

(** The single-, double- and quad-precision table that ends [decode_op_fp]. *)
Definition decode_op_fp_sdq (f7 f3 rs2f : Z) (rv64 : bool) (isa : Isa) : option Op :=
  let d := isa_d isa in
  mjoin (arms f7
    [(0x0, true, Some FaddS); (0x1, d, Some FaddD);
     (0x3, isa_q isa, Some FaddQ); (0x4, true, Some FsubS);
     (0x5, d, Some FsubD); (0x7, isa_q isa, Some FsubQ);
     (0x8, true, Some FmulS); (0x9, d, Some FmulD);
     (0xb, isa_q isa, Some FmulQ); (0xc, true, Some FdivS);
     (0xd, d, Some FdivD); (0xf, isa_q isa, Some FdivQ);
     (0x2c, (rs2f =? 0), Some FsqrtS); (0x2d, d && (rs2f =? 0), Some FsqrtD);
     (0x2f, isa_q isa && (rs2f =? 0), Some FsqrtQ);
     (0x10, true, arms f3 [(0, true, FsgnjS); (1, true, FsgnjnS); (2, true, FsgnjxS)]);
     (0x11, d, arms f3 [(0, true, FsgnjD); (1, true, FsgnjnD); (2, true, FsgnjxD)]);
     (0x13, isa_q isa, arms f3 [(0, true, FsgnjQ); (1, true, FsgnjnQ); (2, true,
       FsgnjxQ)]);
     (0x14, true, arms f3 [(0, true, FminS); (1, true, FmaxS)]);
     (0x15, d, arms f3 [(0, true, FminD); (1, true, FmaxD)]);
     (0x17, isa_q isa, arms f3 [(0, true, FminQ); (1, true, FmaxQ)]);
     (0x20, d && (rs2f =? 1), Some FcvtSD);
     (0x20, isa_q isa && (rs2f =? 3), Some FcvtSQ);
     (0x21, d && (rs2f =? 0), Some FcvtDS);
     (0x21, d && isa_q isa && (rs2f =? 3), Some FcvtDQ);
     (0x23, isa_q isa, arms rs2f [(0, true, FcvtQS); (1, d, FcvtQD); (2, isa_zfh
       isa, FcvtQH)]);
     (0x60, true, arms rs2f [(0, true, FcvtWS); (1, true, FcvtWuS); (2, rv64,
       FcvtLS); (3, rv64, FcvtLuS)]);
     (0x61, d, arms rs2f [(0, true, FcvtWD); (1, true, FcvtWuD); (2, rv64, FcvtLD);
       (3, rv64, FcvtLuD)]);
     (0x63, isa_q isa, arms rs2f [(0, true, FcvtWQ); (1, true, FcvtWuQ); (2, rv64,
       FcvtLQ); (3, rv64, FcvtLuQ)]);
     (0x68, true, arms rs2f [(0, true, FcvtSW); (1, true, FcvtSWu); (2, rv64,
       FcvtSL); (3, rv64, FcvtSLu)]);
     (0x69, d, arms rs2f [(0, true, FcvtDW); (1, true, FcvtDWu); (2, rv64, FcvtDL);
       (3, rv64, FcvtDLu)]);
     (0x6b, isa_q isa, arms rs2f [(0, true, FcvtQW); (1, true, FcvtQWu); (2, rv64,
       FcvtQL); (3, rv64, FcvtQLu)]);
     (0x70, (rs2f =? 0), arms f3 [(0, true, FmvXW); (1, true, FclassS)]);
     (0x71, d && (rs2f =? 0), arms f3 [(0, rv64, FmvXD); (1, true, FclassD)]);
     (0x73, isa_q isa && (rs2f =? 0), arms f3 [(1, true, FclassQ)]);
     (0x50, true, arms f3 [(0, true, FleS); (1, true, FltS); (2, true, FeqS)]);
     (0x51, d, arms f3 [(0, true, FleD); (1, true, FltD); (2, true, FeqD)]);
     (0x53, isa_q isa, arms f3 [(0, true, FleQ); (1, true, FltQ); (2, true, FeqQ)]);
     (0x78, (rs2f =? 0) && (f3 =? 0), Some FmvWX);
     (0x79, d && rv64 && (rs2f =? 0) && (f3 =? 0), Some FmvDX)]).

Definition decode_op_fp (w : Z) (rv64 : bool) (isa : Isa) : Insn :=
  let f7 := funct7 w in
  let f3 := funct3 w in
  let rs2f := rs2 w in
  try_base w (isa_zfa isa) (decode_zfa f7 f3 rs2f isa)
  $ try_base w (isa_zfh isa) (decode_zfh f7 f3 rs2f rv64 isa)
  $ base_or_illegal (decode_op_fp_sdq f7 f3 rs2f rv64 isa) w.

(** ** OP-V *)

(** OPIVV / OPIVI / OPIVX integer arithmetic, selected by [funct6]. *)
Definition decode_opi (w f3 : Z) : option Op :=
  arms (Z.shiftr w 26)
    [(0x0, true, Vadd); (0x2, negb (f3 =? 0x3), Vsub);
     (0x3, negb (f3 =? 0x0), Vrsub); (0x9, true, Vand); (0xa, true, Vor);
     (0xb, true, Vxor); (0x4, negb (f3 =? 0x3), Vminu);
     (0x5, negb (f3 =? 0x3), Vmin); (0x6, negb (f3 =? 0x3), Vmaxu);
     (0x7, negb (f3 =? 0x3), Vmax); (0x25, true, Vsll); (0x28, true, Vsrl);
     (0x29, true, Vsra); (0x17, true, Vmerge); (0x18, true, Vmseq);
     (0x19, true, Vmsne); (0x1a, negb (f3 =? 0x3), Vmsltu);
     (0x1b, negb (f3 =? 0x3), Vmslt); (0x1c, true, Vmsleu);
     (0x1d, true, Vmsle); (0x1e, negb (f3 =? 0x0), Vmsgtu);
     (0x1f, negb (f3 =? 0x0), Vmsgt); (0xe, negb (f3 =? 0x0), Vslideup);
     (0xf, negb (f3 =? 0x0), Vslidedown); (0xc, true, Vrgather);
     (0xe, (f3 =? 0x0), Vrgatherei16); (0x30, (f3 =? 0x0), Vwredsumu);
     (0x31, (f3 =? 0x0), Vwredsum); (0x10, true, Vadc); (0x11, true, Vmadc);
     (0x12, negb (f3 =? 0x3), Vsbc); (0x13, negb (f3 =? 0x3), Vmsbc);
     (0x20, true, Vsaddu); (0x21, true, Vsadd);
     (0x22, negb (f3 =? 0x3), Vssubu); (0x23, negb (f3 =? 0x3), Vssub);
     (0x2a, true, Vssrl); (0x2b, true, Vssra);
     (0x27, negb (f3 =? 0x3), Vsmul); (0x27, (f3 =? 0x3), Vmvr);
     (0x2c, true, Vnsrl); (0x2d, true, Vnsra); (0x2e, true, Vnclipu);
     (0x2f, true, Vnclip)].

(** OPMVV / OPMVX integer multiply, reduction, mask and permutation forms. *)
Definition decode_opm (w f3 : Z) : option Op :=
  mjoin (arms (Z.shiftr w 26)
    [(0x25, true, Some Vmul); (0x27, true, Some Vmulh);
     (0x24, true, Some Vmulhu); (0x26, true, Some Vmulhsu);
     (0x20, true, Some Vdivu); (0x21, true, Some Vdiv);
     (0x22, true, Some Vremu); (0x23, true, Some Vrem);
     (0x0, (f3 =? 0x2), Some Vredsum); (0x1, (f3 =? 0x2), Some Vredand);
     (0x2, (f3 =? 0x2), Some Vredor); (0x3, (f3 =? 0x2), Some Vredxor);
     (0x4, (f3 =? 0x2), Some Vredminu); (0x5, (f3 =? 0x2), Some Vredmin);
     (0x6, (f3 =? 0x2), Some Vredmaxu); (0x7, (f3 =? 0x2), Some Vredmax);
     (0x10, (f3 =? 0x2) && (Z.land (Z.shiftr w 15) 0x1f =? 0), Some VmvXS);
     (0x10, (f3 =? 0x2) && (Z.land (Z.shiftr w 15) 0x1f =? 0x10), Some Vcpop);
     (0x10, (f3 =? 0x2) && (Z.land (Z.shiftr w 15) 0x1f =? 0x11), Some Vfirst);
     (0x10, (f3 =? 0x6) && (Z.land (Z.shiftr w 20) 0x1f =? 0), Some VmvSX);
     (0x14, (f3 =? 0x2), arms (Z.land (Z.shiftr w 15) 0x1f) [(0x1, true,
       Vmsbf); (0x2, true, Vmsof); (0x3, true, Vmsif); (0x10, true, Viota);
       (0x11, true, Vid)]);
     (0x8, true, Some Vaaddu); (0x9, true, Some Vaadd);
     (0xa, true, Some Vasubu); (0xb, true, Some Vasub);
     (0x30, true, Some Vwaddu); (0x31, true, Some Vwadd);
     (0x32, true, Some Vwsubu); (0x33, true, Some Vwsub);
     (0x34, true, Some VwadduW); (0x35, true, Some VwaddW);
     (0x36, true, Some VwsubuW); (0x37, true, Some VwsubW);
     (0x38, true, Some Vwmulu); (0x3a, true, Some Vwmulsu);
     (0x3b, true, Some Vwmul); (0x3c, true, Some Vwmaccu);
     (0x3d, true, Some Vwmacc); (0x3e, (f3 =? 0x6), Some Vwmaccus);
     (0x3f, true, Some Vwmaccsu); (0xe, (f3 =? 0x6), Some Vslide1up);
     (0xf, (f3 =? 0x6), Some Vslide1down); (0x17, (f3 =? 0x2), Some Vcompress);
     (0x18, (f3 =? 0x2), Some Vmandn); (0x19, (f3 =? 0x2), Some Vmand);
     (0x1a, (f3 =? 0x2), Some Vmor); (0x1b, (f3 =? 0x2), Some Vmxor);
     (0x1c, (f3 =? 0x2), Some Vmorn); (0x1d, (f3 =? 0x2), Some Vmnand);
     (0x1e, (f3 =? 0x2), Some Vmnor); (0x1f, (f3 =? 0x2), Some Vmxnor);
     (0x12, (f3 =? 0x2), arms (Z.land (Z.shiftr w 15) 0x1f) [(0x2, true,
       VzextVf8); (0x3, true, VsextVf8); (0x4, true, VzextVf4); (0x5, true,
       VsextVf4); (0x6, true, VzextVf2); (0x7, true, VsextVf2)])]).

(** OPFVV / OPFVF floating-point forms. *)
Definition decode_opf (w f3 : Z) : option Op :=
  let vf := f3 =? 0x5 in
  let vs1 := Z.land (Z.shiftr w 15) 0x1f in
  mjoin (arms (Z.shiftr w 26)
    [(0x0, true, Some Vfadd); (0x2, true, Some Vfsub);
     (0x27, vf, Some Vfrsub); (0xe, vf, Some Vfslide1up);
     (0xf, vf, Some Vfslide1down); (0x30, true, Some Vfwadd);
     (0x32, true, Some Vfwsub); (0x34, true, Some VfwaddW);
     (0x36, true, Some VfwsubW); (0x38, true, Some Vfwmul);
     (0x3c, true, Some Vfwmacc); (0x3d, true, Some Vfwnmacc);
     (0x3e, true, Some Vfwmsac); (0x3f, true, Some Vfwnmsac);
     (0x24, true, Some Vfmul); (0x20, true, Some Vfdiv);
     (0x21, vf, Some Vfrdiv); (0x4, true, Some Vfmin);
     (0x6, true, Some Vfmax); (0x8, true, Some Vfsgnj);
     (0x9, true, Some Vfsgnjn); (0xa, true, Some Vfsgnjx);
     (0x18, true, Some Vmfeq); (0x19, true, Some Vmfle);
     (0x1b, true, Some Vmflt); (0x1c, true, Some Vmfne); (0x1d, vf, Some Vmfgt);
     (0x1f, vf, Some Vmfge); (0x2c, true, Some Vfmacc);
     (0x2d, true, Some Vfnmacc); (0x2e, true, Some Vfmsac);
     (0x2f, true, Some Vfnmsac); (0x28, true, Some Vfmadd);
     (0x29, true, Some Vfnmadd); (0x2a, true, Some Vfmsub);
     (0x2b, true, Some Vfnmsub); (0x1, negb vf, Some Vfredusum);
     (0x3, negb vf, Some Vfredosum); (0x5, negb vf, Some Vfredmin);
     (0x7, negb vf, Some Vfredmax); (0x31, negb vf, Some Vfwredusum);
     (0x33, negb vf, Some Vfwredosum); (0x10, negb vf && (vs1 =? 0), Some VfmvFS);
     (0x10, vf && (Z.land (Z.shiftr w 20) 0x1f =? 0), Some VfmvSF);
     (0x12, negb vf, arms vs1 [(0x0, true, VfcvtXuF); (0x1, true, VfcvtXF);
       (0x2, true, VfcvtFXu); (0x3, true, VfcvtFX); (0x6, true,
       VfcvtRtzXuF); (0x7, true, VfcvtRtzXF); (0x8, true, VfwcvtXuF); (0x9,
       true, VfwcvtXF); (0xa, true, VfwcvtFXu); (0xb, true, VfwcvtFX); (0xc,
       true, VfwcvtFF); (0xe, true, VfwcvtRtzXuF); (0xf, true, VfwcvtRtzXF);
       (0x10, true, VfncvtXuF); (0x11, true, VfncvtXF); (0x12, true,
       VfncvtFXu); (0x13, true, VfncvtFX); (0x14, true, VfncvtFF); (0x15, true,
       VfncvtRodFF); (0x16, true, VfncvtRtzXuF); (0x17, true, VfncvtRtzXF)]);
     (0x13, negb vf && (vs1 =? 0), Some Vfsqrt);
     (0x13, negb vf && (vs1 =? 0x4), Some Vfrsqrt7);
     (0x13, negb vf && (vs1 =? 0x5), Some Vfrec7);
     (0x13, negb vf && (vs1 =? 0x10), Some Vfclass)]).

(** OP-V (0x57): integer, multiply and floating-point arithmetic, then the
    configuration-setting forms. *)
Definition decode_vector (w : Z) : Insn :=
  let f3 := funct3 w in
  if (f3 =? 0x0) || (f3 =? 0x3) || (f3 =? 0x4) then base_or_illegal (decode_opi w f3) w
  else if (f3 =? 0x2) || (f3 =? 0x6) then base_or_illegal (decode_opm w f3) w
  else if (f3 =? 0x1) || (f3 =? 0x5) then base_or_illegal (decode_opf w f3) w
  else if negb (f3 =? 0x7) then illegal w 4
  else if Z.land (Z.shiftr w 31) 1 =? 0 then
    with_imm Vsetvli w (Z.land (Z.shiftr w 20) 0x7ff)
  else if Z.land (Z.shiftr w 30) 1 =? 1 then
    with_imm Vsetivli w (Z.land (Z.shiftr w 20) 0x3ff)
  else if Z.land (Z.shiftr w 25) 0x3f =? 0 then base Vsetvl w
  else illegal w 4.
