(* ===== verification/RvDecodeVendor.v ===== *)
(** * Decoding the vendor extensions

    The CUSTOM-0, CUSTOM-1 and CUSTOM-2 opcodes of src/isa/riscv/decode.rs:
    XTHead, XAndesPerf, Hazard3 and Xsoteria. *)

From S2P Require Import Prelude RvIsa RvOp.

(** ** XTHead *)

Definition thead_bimm6 (w : Z) : Z := Z.land (Z.shiftr w 20) 0x3f.
Definition thead_bimm2 (w : Z) : Z := Z.land (Z.shiftr w 25) 0x3.

Definition decode_thead_subop0 (w f7 : Z) : Insn :=
  if negb (rd w =? 0) then illegal w 4
  else base_or_illegal (mjoin (arms f7
    [(0, rs1 w =? 0, arms (rs2 w)
      [(0x1, true, ThDcacheCall); (0x3, true, ThDcacheCiall);
      (0x2, true, ThDcacheIall); (0x10, true, ThIcacheIall);
      (0x11, true, ThIcacheIalls); (0x15, true, ThL2cacheCall);
      (0x17, true, ThL2cacheCiall); (0x16, true, ThL2cacheIall);
      (0x18, true, ThSync); (0x19, true, ThSyncS); (0x1a, true, ThSyncI);
      (0x1b, true, ThSyncIS); (0x4, true, ThIpush); (0x5, true, ThIpop)]);
     (1, true, arms (rs2 w)
      [(0x9, true, ThDcacheCpa); (0xb, true, ThDcacheCipa);
      (0xa, true, ThDcacheIpa); (0x5, true, ThDcacheCva);
      (0x7, true, ThDcacheCiva); (0x6, true, ThDcacheIva);
      (0x1, true, ThDcacheCsw); (0x3, true, ThDcacheCisw);
      (0x2, true, ThDcacheIsw); (0x8, true, ThDcacheCpal1);
      (0x4, true, ThDcacheCval1); (0x18, true, ThIcacheIpa);
      (0x10, true, ThIcacheIva)]);
     (2, true, Some ThSfenceVmas)])) w.

(** The immediate an arithmetic T-Head operation carries. *)
Definition thead_arithmetic_imm (op : Op) (w : Z) (i : Insn) : Insn :=
  match op with
  | ThAddsl => set_insn_imm (thead_bimm2 w) i
  | ThSrri | ThTst => set_insn_imm (thead_bimm6 w) i
  | ThSrriw => set_insn_imm (rs2 w) i
  | _ => i
  end.

Definition thead_arithmetic_op (f7 : Z) : option Op :=
  arms f7
     [(0x0, true, ThAddsl); (0x1, true, ThAddsl); (0x2, true, ThAddsl);
      (0x3, true, ThAddsl); (0x8, true, ThSrri); (0x9, true, ThSrri);
      (0xa, true, ThSrriw); (0x44, true, ThTst); (0x45, true, ThTst);
      (0x20, true, ThMveqz); (0x21, true, ThMvnez); (0x10, true, ThMula);
      (0x14, true, ThMulah); (0x12, true, ThMulaw); (0x11, true, ThMuls);
      (0x15, true, ThMulsh); (0x13, true, ThMulsw); (0x42, true, ThFf0);
      (0x43, true, ThFf1); (0x41, true, ThRev); (0x48, true, ThRevw);
      (0x50, true, ThFmvHwX); (0x60, true, ThFmvXHw); (0x40, true, ThTstNbz);
      (0x4, true, ThAndn); (0x5, true, ThOrn); (0x6, true, ThXorn);
      (0xc, true, ThPackl); (0xd, true, ThPackh); (0xe, true, ThPackhl)].

Definition decode_thead_arithmetic (w f3 f7 : Z) : Insn :=
  if (f3 =? 0x2) || (f3 =? 0x3) then
    let msb := Z.shiftr f7 1 in
    let lsb := thead_bimm6 w in
    if msb <? lsb then illegal w 4
    else set_insn_imm lsb (set_insn_rs2 msb (base (if f3 =? 0x3 then ThExtu else ThExt) w))
  else
    match thead_arithmetic_op f7 with
    | Some op => thead_arithmetic_imm op w (base op w)
    | None => illegal w 4
    end.

Definition decode_thead_vec (w f3 f7 : Z) : Insn :=
  let key := Z.shiftr f7 1 in
  base_or_illegal (mjoin (arms f3
    [(0x6, true, arms key
      [(0x20, true, ThVmaqa); (0x21, true, ThVmaqa); (0x22, true, ThVmaqau);
      (0x23, true, ThVmaqau); (0x24, true, ThVmaqasu); (0x25, true, ThVmaqasu);
      (0x27, true, ThVmaqaus)]);
     (0x7, true, arms key
      [(0x20, true, ThVpmaqa); (0x21, true, ThVpmaqa); (0x22, true, ThVpmaqau);
      (0x23, true, ThVpmaqau); (0x24, true, ThVpmaqasu); (0x25, true, ThVpmaqasu);
      (0x27, true, ThVpmaqaus); (0x28, true, ThVpnclip); (0x29, true, ThVpnclip);
      (0x2a, true, ThVpnclipu); (0x2b, true, ThVpnclipu); (0x2c, true, ThVpwadd);
      (0x2d, true, ThVpwadd); (0x2e, true, ThVpwaddu); (0x2f, true, ThVpwaddu)])])) w.

Definition thead_auto_mem_op (op : Op) : bool :=
  match op with
  | ThLbia | ThLbib | ThLbuia | ThLbuib | ThLhia | ThLhib | ThLhuia | ThLhuib | ThLwia |
    ThLwib | ThLwuia | ThLwuib | ThLdia | ThLdib | ThSbia | ThSbib | ThShia | ThShib |
    ThSwia | ThSwib | ThSdia | ThSdib => true
  | _ => false
  end.

Definition thead_auto_load_op (op : Op) : bool :=
  match op with
  | ThLbia | ThLbib | ThLbuia | ThLbuib | ThLhia | ThLhib | ThLhuia | ThLhuib | ThLwia |
    ThLwib | ThLwuia | ThLwuib | ThLdia | ThLdib => true
  | _ => false
  end.

Definition thead_pair_mem_op (op : Op) : bool :=
  match op with ThLdd | ThLwd | ThLwud | ThSdd | ThSwd => true | _ => false end.

Definition thead_pair_load_op (op : Op) : bool :=
  match op with ThLdd | ThLwd | ThLwud => true | _ => false end.

Definition thead_mem_op (f3 f7 : Z) : option Op :=
  let key := Z.land f7 0x7c in
  mjoin (arms f3
    [(0x4, true, arms key
      [(0xc, true, ThLbia); (0x4, true, ThLbib); (0x4c, true, ThLbuia);
      (0x44, true, ThLbuib); (0x1c, true, ThLhia); (0x14, true, ThLhib);
      (0x5c, true, ThLhuia); (0x54, true, ThLhuib); (0x2c, true, ThLwia);
      (0x24, true, ThLwib); (0x6c, true, ThLwuia); (0x64, true, ThLwuib);
      (0x3c, true, ThLdia); (0x34, true, ThLdib); (0x0, true, ThLrb);
      (0x40, true, ThLrbu); (0x10, true, ThLrh); (0x50, true, ThLrhu);
      (0x20, true, ThLrw); (0x60, true, ThLrwu); (0x30, true, ThLrd);
      (0x8, true, ThLurb); (0x48, true, ThLurbu); (0x18, true, ThLurh);
      (0x58, true, ThLurhu); (0x28, true, ThLurw); (0x68, true, ThLurwu);
      (0x38, true, ThLurd); (0x7c, true, ThLdd); (0x70, true, ThLwd);
      (0x78, true, ThLwud)]);
     (0x5, true, arms key
      [(0xc, true, ThSbia); (0x4, true, ThSbib); (0x1c, true, ThShia);
      (0x14, true, ThShib); (0x2c, true, ThSwia); (0x24, true, ThSwib);
      (0x3c, true, ThSdia); (0x34, true, ThSdib); (0x0, true, ThSrb);
      (0x10, true, ThSrh); (0x20, true, ThSrw); (0x30, true, ThSrd);
      (0x8, true, ThSurb); (0x18, true, ThSurh); (0x28, true, ThSurw);
      (0x38, true, ThSurd); (0x7c, true, ThSdd); (0x70, true, ThSwd)]);
     (0x6, true, arms key
      [(0x30, true, ThFlrd); (0x20, true, ThFlrw); (0x38, true, ThFlurd);
      (0x28, true, ThFlurw)]);
     (0x7, true, arms key
      [(0x30, true, ThFsrd); (0x20, true, ThFsrw); (0x38, true, ThFsurd);
      (0x28, true, ThFsurw)])]).

Definition decode_thead_mem (w f3 f7 : Z) : Insn :=
  match thead_mem_op f3 f7 with
  | None => illegal w 4
  | Some op =>
      let i := base op w in
      if thead_auto_mem_op op then
        if thead_auto_load_op op && (insn_rd i =? insn_rs1 i) then illegal w 4
        else set_insn_imm (thead_bimm2 w) (set_insn_rs2 (rs2 w) i)
      else if thead_pair_mem_op op then
        if thead_pair_load_op op && (insn_rd i =? insn_rs2 i) && (insn_rd i =? insn_rs1 i)
        then illegal w 4
        else
          let slot_size_shift := match op with ThLdd | ThSdd => 4 | _ => 3 end in
          set_insn_imm (Z.shiftl (Z.land f7 0x3) slot_size_shift) i
      else set_insn_imm (thead_bimm2 w) i
  end.

Definition decode_thead_custom0 (w : Z) : Insn :=
  let f3 := funct3 w in
  let f7 := funct7 w in
  if f3 =? 0x0 then decode_thead_subop0 w f7
  else if (f3 =? 0x1) || (f3 =? 0x2) || (f3 =? 0x3) then decode_thead_arithmetic w f3 f7
  else if (f3 =? 0x4) || (f3 =? 0x5) then decode_thead_mem w f3 f7
  else if (f3 =? 0x6) || (f3 =? 0x7) then
    let i := decode_thead_mem w f3 f7 in
    if is_illegal i then decode_thead_vec w f3 f7 else i
  else illegal w 4.

(** ** XAndesPerf *)

Definition andes_base (op : Op) (w imm : Z) : Insn := set_insn_rs1 3 (with_imm op w imm).

Definition sign_flagged (imm w sign_extend_from_bit : Z) : Z :=
  if any_bits w 0x80000000
  then Z.lor imm (Z.lnot (Z.shiftl 1 sign_extend_from_bit - 1))
  else imm.

(** [a | b | ..] of a non-empty list of scattered immediate fields. *)
Definition or_all (l : list Z) : Z := foldl Z.lor 0 l.

Definition andes_gp_lb_imm (w : Z) : Z :=
  sign_flagged (or_all
     [Z.land (Z.shiftr w 14) 0x1;
      Z.shiftl (Z.land (Z.shiftr w 21) 0x3ff) 1;
      Z.shiftl (Z.land (Z.shiftr w 20) 0x1) 11;
      Z.shiftl (Z.land (Z.shiftr w 17) 0x7) 12;
      Z.shiftl (Z.land (Z.shiftr w 15) 0x3) 15]) w 17.

Definition andes_gp_lh_imm (w : Z) : Z :=
  sign_flagged (or_all
     [Z.shiftl (Z.land (Z.shiftr w 21) 0x3ff) 1;
      Z.shiftl (Z.land (Z.shiftr w 20) 0x1) 11;
      Z.shiftl (Z.land (Z.shiftr w 17) 0x7) 12;
      Z.shiftl (Z.land (Z.shiftr w 15) 0x3) 15]) w 17.

Definition andes_gp_lw_imm (w : Z) : Z :=
  sign_flagged (or_all
     [Z.shiftl (Z.land (Z.shiftr w 22) 0x1ff) 2;
      Z.shiftl (Z.land (Z.shiftr w 20) 0x1) 11;
      Z.shiftl (Z.land (Z.shiftr w 17) 0x7) 12;
      Z.shiftl (Z.land (Z.shiftr w 15) 0x3) 15;
      Z.shiftl (Z.land (Z.shiftr w 21) 0x1) 17]) w 18.

Definition andes_gp_ld_imm (w : Z) : Z :=
  sign_flagged (or_all
     [Z.shiftl (Z.land (Z.shiftr w 23) 0xff) 3;
      Z.shiftl (Z.land (Z.shiftr w 20) 0x1) 11;
      Z.shiftl (Z.land (Z.shiftr w 17) 0x7) 12;
      Z.shiftl (Z.land (Z.shiftr w 15) 0x3) 15;
      Z.shiftl (Z.land (Z.shiftr w 21) 0x3) 17]) w 19.

Definition andes_gp_sb_imm (w : Z) : Z :=
  sign_flagged (or_all
     [Z.land (Z.shiftr w 14) 0x1;
      Z.shiftl (Z.land (Z.shiftr w 8) 0xf) 1;
      Z.shiftl (Z.land (Z.shiftr w 25) 0x3f) 5;
      Z.shiftl (Z.land (Z.shiftr w 7) 0x1) 11;
      Z.shiftl (Z.land (Z.shiftr w 17) 0x7) 12;
      Z.shiftl (Z.land (Z.shiftr w 15) 0x3) 15]) w 17.

Definition andes_gp_sh_imm (w : Z) : Z :=
  sign_flagged (or_all
     [Z.shiftl (Z.land (Z.shiftr w 8) 0xf) 1;
      Z.shiftl (Z.land (Z.shiftr w 25) 0x3f) 5;
      Z.shiftl (Z.land (Z.shiftr w 7) 0x1) 11;
      Z.shiftl (Z.land (Z.shiftr w 17) 0x7) 12;
      Z.shiftl (Z.land (Z.shiftr w 15) 0x3) 15]) w 17.

Definition andes_gp_sw_imm (w : Z) : Z :=
  sign_flagged (or_all
     [Z.shiftl (Z.land (Z.shiftr w 9) 0x7) 2;
      Z.shiftl (Z.land (Z.shiftr w 25) 0x3f) 5;
      Z.shiftl (Z.land (Z.shiftr w 7) 0x1) 11;
      Z.shiftl (Z.land (Z.shiftr w 17) 0x7) 12;
      Z.shiftl (Z.land (Z.shiftr w 15) 0x3) 15;
      Z.shiftl (Z.land (Z.shiftr w 8) 0x1) 17]) w 18.

Definition andes_gp_sd_imm (w : Z) : Z :=
  sign_flagged (or_all
     [Z.shiftl (Z.land (Z.shiftr w 10) 0x3) 3;
      Z.shiftl (Z.land (Z.shiftr w 25) 0x3f) 5;
      Z.shiftl (Z.land (Z.shiftr w 7) 0x1) 11;
      Z.shiftl (Z.land (Z.shiftr w 17) 0x7) 12;
      Z.shiftl (Z.land (Z.shiftr w 15) 0x3) 15;
      Z.shiftl (Z.land (Z.shiftr w 8) 0x3) 17]) w 19.

Definition andes_stype_imm10 (w : Z) : Z :=
  let imm := Z.lor (Z.shiftl (Z.land (Z.shiftr w 8) 0xf) 1)
                   (Z.shiftl (Z.land (Z.shiftr w 25) 0x1f) 5) in
  if any_bits w 0x80000000 then Z.lor imm (Z.lnot (Z.shiftl 1 10 - 1)) else imm.

(** The two selector bits take every value of the match; its last arm is
    [unreachable!()]. *)
Definition decode_andes_custom0 (w : Z) : Insn :=
  let k := Z.land (Z.shiftr w 12) 0x3 in
  if k =? 0x0 then andes_base NdsLbgp w (andes_gp_lb_imm w)
  else if k =? 0x1 then andes_base NdsAddigp w (andes_gp_lb_imm w)
  else if k =? 0x2 then andes_base NdsLbugp w (andes_gp_lb_imm w)
  else set_insn_rs2 (rs2 w) (andes_base NdsSbgp w (andes_gp_sb_imm w)).

Definition decode_andes_custom1 (w : Z) (rv64 : bool) : Insn :=
  default (illegal w 4) (arms (funct3 w)
    [(0x0, true, set_insn_rs2 (rs2 w) (andes_base NdsShgp w (andes_gp_sh_imm w)));
     (0x1, true, andes_base NdsLhgp w (andes_gp_lh_imm w));
     (0x2, true, andes_base NdsLwgp w (andes_gp_lw_imm w));
     (0x4, true, set_insn_rs2 (rs2 w) (andes_base NdsSwgp w (andes_gp_sw_imm w)));
     (0x5, true, andes_base NdsLhugp w (andes_gp_lh_imm w));
     (0x3, rv64, andes_base NdsLdgp w (andes_gp_ld_imm w));
     (0x6, rv64, andes_base NdsLwugp w (andes_gp_lw_imm w));
     (0x7, rv64, set_insn_rs2 (rs2 w) (andes_base NdsSdgp w (andes_gp_sd_imm w)))]).

Definition decode_andes_custom2 (w : Z) (rv64 : bool) : Insn :=
  let f3 := funct3 w in
  if f3 =? 0x0 then
    base_or_illegal (arms (funct7 w)
      [(0x05, true, NdsLeaH); (0x06, true, NdsLeaW); (0x07, true, NdsLeaD);
       (0x08, rv64, NdsLeaBZe); (0x09, rv64, NdsLeaHZe); (0x0a, rv64, NdsLeaWZe);
       (0x0b, rv64, NdsLeaDZe); (0x10, true, NdsFfb); (0x11, true, NdsFfzmism);
       (0x12, true, NdsFfmism); (0x13, true, NdsFlmism)]) w
  else if (f3 =? 0x2) || (f3 =? 0x3) then
    let msb := Z.land (Z.shiftr w 26) 0x3f in
    let lsb := Z.land (Z.shiftr w 20) 0x3f in
    if negb rv64 && ((0x1f <? msb) || (0x1f <? lsb)) then illegal w 4
    else set_insn_imm lsb
           (set_insn_rs2 msb (base (if f3 =? 0x2 then NdsBfoz else NdsBfos) w))
  else if (f3 =? 0x5) || (f3 =? 0x6) then
    let imm7 := Z.lor (Z.lor (Z.land (Z.shiftr w 20) 0x1f)
                             (Z.shiftl (Z.land (Z.shiftr w 7) 0x1) 5))
                      (Z.shiftl (Z.land (Z.shiftr w 30) 0x1) 6) in
    set_insn_rs2 imm7
      (with_imm (if f3 =? 0x5 then NdsBeqc else NdsBnec) w (andes_stype_imm10 w))
  else if f3 =? 0x7 then
    let cimm := Z.lor (Z.land (Z.shiftr w 20) 0x1f)
                      (Z.shiftl (Z.land (Z.shiftr w 7) 0x1) 5) in
    if negb rv64 && (0x1f <? cimm) then illegal w 4
    else set_insn_rs2 cimm
           (with_imm (if negb (Z.land (Z.shiftr w 30) 0x1 =? 0) then NdsBbs else NdsBbc)
              w (andes_stype_imm10 w))
  else illegal w 4.

(** ** Hazard3 Xh3bextm *)

Definition decode_hazard3_custom0 (w : Z) : Insn :=
  let f3 := funct3 w in
  if f3 =? 0x0 then
    let f7 := funct7 w in
    if any_bits f7 0x71 then illegal w 4
    else with_imm H3Bextm w (Z.land (Z.shiftr f7 1) 0x7 + 1)
  else if f3 =? 0x4 then
    let imm12 := Z.land (Z.shiftr w 20) 0xfff in
    if any_bits imm12 0xe20 then illegal w 4
    else set_insn_rs2 (Z.land imm12 0x1f)
           (with_imm H3Bextmi w (Z.land (Z.shiftr imm12 6) 0x7 + 1))
  else illegal w 4.

(** ** Xsoteria *)

Definition decode_xsoteria_custom0 (w : Z) : Insn :=
  let f7 := funct7 w in
  let imm5 := Z.land (Z.shiftr w 20) 0x1f in
  default (illegal w 4) (arms (funct3 w)
    [(0x0, f7 =? 0x00, with_imm Grevi w imm5);
     (0x1, f7 =? 0x00, with_imm Bitci w imm5);
     (0x1, f7 =? 0x20, with_imm Bitsi w imm5);
     (0x2, (f7 =? 0x00) && (imm5 =? 0), base Fls w);
     (0x2, (f7 =? 0x20) && (imm5 =? 0), base Clz w);
     (0x3, (f7 =? 0x00) && (imm5 =? 0), base Pcnt w)]).

Definition decode_xsoteria_custom1 (w : Z) : Insn :=
  let f7 := funct7 w in
  default (illegal w 4) (arms (funct3 w)
    [(0x0, f7 =? 0x00, base Grev w);
     (0x1, f7 =? 0x00, base Bitc w);
     (0x1, f7 =? 0x20, base Bits w)]).

(** ** The CUSTOM-0 and CUSTOM-1 opcodes

    [if c { let i = ..; if !i.is_illegal() { return i; } }] followed by the
    rest of the function. *)
Definition try_insn (c : bool) (i k : Insn) : Insn :=
  if c then if negb (is_illegal i) then i else k else k.

Lemma try_insn_ind (P : Insn -> Prop) c i k : (c = true -> P i) -> P k -> P (try_insn c i k).
Proof. intros Hi Hk. unfold try_insn. destruct c, (is_illegal i); simpl; auto. Qed.

Definition decode_custom0 (w : Z) (rv64 : bool) (isa : Isa) : Insn :=
  try_insn (isa_xsoteria isa && negb rv64) (decode_xsoteria_custom0 w)
  $ try_insn (isa_xandes isa) (decode_andes_custom0 w)
  $ try_insn (isa_xthead isa) (decode_thead_custom0 w)
  $ try_insn (isa_xhazard3 isa) (decode_hazard3_custom0 w)
  $ illegal w 4.

Definition decode_custom1 (w : Z) (rv64 : bool) (isa : Isa) : Insn :=
  try_insn (isa_xsoteria isa && negb rv64) (decode_xsoteria_custom1 w)
  $ try_insn (isa_xandes isa) (decode_andes_custom1 w rv64)
  $ illegal w 4.
