(* ===== verification/RvCompressed.v ===== *)
(** * RVC (compressed, 16-bit) instruction decoding

    src/isa/riscv/compressed.rs: every 16-bit parcel expands to one base
    operation of length 2.  A parcel [h] is a u16. *)

From S2P Require Import Prelude RvIsa RvOp.

(** Construct a decoded compressed instruction (always 2 bytes). *)
Definition mk (op : Op) (rd rs1 rs2 imm half : Z) : Insn :=
  {| insn_op := op; insn_rd := rd; insn_rs1 := rs1; insn_rs2 := rs2; insn_rs3 := 0;
     insn_imm := imm; insn_funct3 := 0; insn_csr := 0; insn_aq := false;
     insn_rl := false; insn_len := 2; insn_raw := half |}.

Definition ill (half : Z) : Insn := illegal_compressed half.

(** Bits [hi:lo] of [h], and a single bit. *)
Definition bits (h hi lo : Z) : Z :=
  Z.land (Z.shiftr h lo) (Z.shiftl 1 (hi - lo + 1) - 1).
Definition bit (h n : Z) : Z := Z.land (Z.shiftr h n) 1.

(** Compressed 3-bit register field -> x8..x15. *)
Definition rvc_reg (r : Z) : Z := Z.land r 0x7 + 8.

(** Zcmp compressed s-register field -> s0,s1,s2..s7. *)
Definition zcmp_sreg (r : Z) : Z :=
  let n := Z.land r 0x7 in
  if n =? 0 then 8 else if n =? 1 then 9 else 18 + (n - 2).

Definition zcmp_reg_count (rlist : Z) : option Z :=
  if rlist =? 4 then Some 1
  else if rlist =? 5 then Some 2
  else if rlist =? 6 then Some 3
  else if (7 <=? rlist) && (rlist <=? 14) then Some (rlist - 3)
  else if rlist =? 15 then Some 13
  else None.

Definition zcmp_stack_adj (rlist spimm : Z) (rv64 : bool) : option Z :=
  let slotsize := if rv64 then 8 else 4 in
  match zcmp_reg_count rlist with
  | None => None
  | Some n =>
      let bytes := n * slotsize in
      let base := ((bytes + 15) / 16) * 16 in
      Some (base + spimm * 16)
  end.

(** Sign-extend the low [n] bits of the u32 [v]. *)
Definition sext (v n : Z) : Z :=
  let shift := 32 - n in
  Z.shiftr (as_i32 (wshl 32 v shift)) shift.

(** C.J / C.JAL jump offset and C.BEQZ / C.BNEZ branch offset. *)
Definition cj_offset (h : Z) : Z :=
  let v := foldl Z.lor 0
    [Z.shiftl (bit h 12) 11; Z.shiftl (bit h 11) 4; Z.shiftl (bits h 10 9) 8;
     Z.shiftl (bit h 8) 10; Z.shiftl (bit h 7) 6; Z.shiftl (bit h 6) 7;
     Z.shiftl (bits h 5 3) 1; Z.shiftl (bit h 2) 5] in
  sext v 12.

Definition cb_offset (h : Z) : Z :=
  let v := foldl Z.lor 0
    [Z.shiftl (bit h 12) 8; Z.shiftl (bits h 11 10) 3; Z.shiftl (bits h 6 5) 6;
     Z.shiftl (bits h 4 3) 1; Z.shiftl (bit h 2) 5] in
  sext v 9.

(** The immediates shared by several encodings. *)
Definition ci_imm (h : Z) : Z := Z.lor (Z.shiftl (bit h 12) 5) (bits h 6 2).
Definition cl_off_w (h : Z) : Z :=
  Z.lor (Z.lor (Z.shiftl (bits h 12 10) 3) (Z.shiftl (bit h 6) 2)) (Z.shiftl (bit h 5) 6).
Definition cl_off_d (h : Z) : Z :=
  Z.lor (Z.shiftl (bits h 12 10) 3) (Z.shiftl (bits h 6 5) 6).
Definition clsp_off_w (h : Z) : Z :=
  Z.lor (Z.lor (Z.shiftl (bit h 12) 5) (Z.shiftl (bits h 6 4) 2)) (Z.shiftl (bits h 3 2) 6).
Definition clsp_off_d (h : Z) : Z :=
  Z.lor (Z.lor (Z.shiftl (bit h 12) 5) (Z.shiftl (bits h 6 5) 3)) (Z.shiftl (bits h 4 2) 6).
Definition cssp_off_w (h : Z) : Z :=
  Z.lor (Z.shiftl (bits h 12 9) 2) (Z.shiftl (bits h 8 7) 6).
Definition cssp_off_d (h : Z) : Z :=
  Z.lor (Z.shiftl (bits h 12 10) 3) (Z.shiftl (bits h 9 7) 6).

(** ** Quadrant 0 *)

(** Zcb quadrant-0 byte/half loads and stores. *)
Definition decode_zcb_q0 (h rd_ rs1_ : Z) : Insn :=
  let rs2_ := rvc_reg (bits h 4 2) in
  let k := bits h 12 10 in
  if k =? 0x0 then
    mk Lbu rd_ rs1_ 0 (Z.lor (Z.shiftl (bit h 5) 1) (bit h 6)) h
  else if k =? 0x1 then
    let uimm := Z.shiftl (bit h 5) 1 in
    if bit h 6 =? 1 then mk Lh rd_ rs1_ 0 uimm h else mk Lhu rd_ rs1_ 0 uimm h
  else if k =? 0x2 then
    mk Sb 0 rs1_ rs2_ (Z.lor (Z.shiftl (bit h 5) 1) (bit h 6)) h
  else if k =? 0x3 then
    if negb (bit h 6 =? 0) then ill h else mk Sh 0 rs1_ rs2_ (Z.shiftl (bit h 5) 1) h
  else ill h.

Definition decode_q0 (h funct3 : Z) (rv64 : bool) (isa : Isa) : Insn :=
  let rd_ := rvc_reg (bits h 4 2) in
  let rs1_ := rvc_reg (bits h 9 7) in
  if funct3 =? 0x0 then
    let nzuimm := Z.lor (Z.lor (Z.lor (Z.shiftl (bits h 12 11) 4) (Z.shiftl (bits h 10 7) 6))
                               (Z.shiftl (bit h 6) 2)) (Z.shiftl (bit h 5) 3) in
    if nzuimm =? 0 then ill h else mk Addi rd_ 2 0 nzuimm h
  else if funct3 =? 0x1 then
    if negb (isa_d isa) then ill h else mk Fld rd_ rs1_ 0 (cl_off_d h) h
  else if funct3 =? 0x2 then mk Lw rd_ rs1_ 0 (cl_off_w h) h
  else if funct3 =? 0x3 then
    if rv64 then mk Ld rd_ rs1_ 0 (cl_off_d h) h
    else if isa_zclsd isa then
      if any_bits rd_ 1 then ill h else mk LdPair rd_ rs1_ 0 (cl_off_d h) h
    else mk Flw rd_ rs1_ 0 (cl_off_w h) h
  else if funct3 =? 0x5 then
    if negb (isa_d isa) then ill h else mk Fsd 0 rs1_ (rvc_reg (bits h 4 2)) (cl_off_d h) h
  else if funct3 =? 0x6 then mk Sw 0 rs1_ (rvc_reg (bits h 4 2)) (cl_off_w h) h
  else if funct3 =? 0x7 then
    if rv64 then mk Sd 0 rs1_ (rvc_reg (bits h 4 2)) (cl_off_d h) h
    else if isa_zclsd isa then
      let rs2_ := rvc_reg (bits h 4 2) in
      if any_bits rs2_ 1 then ill h else mk SdPair 0 rs1_ rs2_ (cl_off_d h) h
    else mk Fsw 0 rs1_ (rvc_reg (bits h 4 2)) (cl_off_w h) h
  else if (funct3 =? 0x4) && isa_zcb isa then decode_zcb_q0 h rd_ rs1_
  else ill h.

(** ** Quadrant 1 *)

(** The Zcb unary operations, selected by the rs2' field. *)
Definition decode_zcb_unary (h rd_ : Z) (rv64 : bool) (isa : Isa) : Insn :=
  default (ill h) (arms (bits h 4 2)
    [(0x0, true, mk Andi rd_ rd_ 0 0xff h);
     (0x1, isa_zbb isa, mk SextB rd_ rd_ 0 0 h);
     (0x2, isa_zbb isa, mk ZextH rd_ rd_ 0 0 h);
     (0x3, isa_zbb isa, mk SextH rd_ rd_ 0 0 h);
     (0x4, isa_zba isa && rv64, mk AddUw rd_ rd_ 0 0 h);
     (0x5, true, mk Xori rd_ rd_ 0 (-1) h)]).

Definition decode_q1_alu (h : Z) (rv64 : bool) (isa : Isa) : Insn :=
  let rd_ := rvc_reg (bits h 9 7) in
  let funct2 := bits h 11 10 in
  let shamt := ci_imm h in
  if funct2 =? 0x0 then
    if negb rv64 && (32 <=? shamt) then ill h else mk Srli rd_ rd_ 0 shamt h
  else if funct2 =? 0x1 then
    if negb rv64 && (32 <=? shamt) then ill h else mk Srai rd_ rd_ 0 shamt h
  else if funct2 =? 0x2 then mk Andi rd_ rd_ 0 (sext (ci_imm h) 6) h
  else if funct2 =? 0x3 then
    let rs2_ := rvc_reg (bits h 4 2) in
    let b12 := bit h 12 in
    default (ill h) (arms (bits h 6 5)
      [(0x0, b12 =? 0, mk Sub rd_ rd_ rs2_ 0 h);
       (0x1, b12 =? 0, mk Xor rd_ rd_ rs2_ 0 h);
       (0x2, b12 =? 0, mk Or rd_ rd_ rs2_ 0 h);
       (0x3, b12 =? 0, mk And rd_ rd_ rs2_ 0 h);
       (0x0, (b12 =? 1) && rv64, mk Subw rd_ rd_ rs2_ 0 h);
       (0x1, (b12 =? 1) && rv64, mk Addw rd_ rd_ rs2_ 0 h);
       (0x2, (b12 =? 1) && (isa_zcb isa && isa_m isa), mk Mul rd_ rd_ rs2_ 0 h);
       (0x3, (b12 =? 1) && isa_zcb isa, decode_zcb_unary h rd_ rv64 isa)])
  else ill h.

Definition decode_q1 (h funct3 : Z) (rv64 : bool) (isa : Isa) : Insn :=
  let rd := bits h 11 7 in
  if funct3 =? 0x0 then mk Addi rd rd 0 (sext (ci_imm h) 6) h
  else if funct3 =? 0x1 then
    let imm := sext (ci_imm h) 6 in
    if rv64 then if rd =? 0 then ill h else mk Addiw rd rd 0 imm h
    else mk Jal 1 0 0 (cj_offset h) h
  else if funct3 =? 0x2 then mk Addi rd 0 0 (sext (ci_imm h) 6) h
  else if funct3 =? 0x3 then
    if rd =? 2 then
      let v := foldl Z.lor 0
        [Z.shiftl (bit h 12) 5; Z.shiftl (bits h 4 3) 3; Z.shiftl (bit h 5) 2;
         Z.shiftl (bit h 2) 1; bit h 6] in
      if v =? 0 then ill h else mk Addi 2 2 0 (Z.shiftl (sext v 6) 4) h
    else
      let v := Z.lor (Z.shiftl (bit h 12) 17) (Z.shiftl (bits h 6 2) 12) in
      if (v =? 0) || (rd =? 0) then ill h else mk Lui rd 0 0 (sext v 18) h
  else if funct3 =? 0x4 then decode_q1_alu h rv64 isa
  else if funct3 =? 0x5 then mk Jal 0 0 0 (cj_offset h) h
  else if funct3 =? 0x6 then mk Beq 0 (rvc_reg (bits h 9 7)) 0 (cb_offset h) h
  else if funct3 =? 0x7 then mk Bne 0 (rvc_reg (bits h 9 7)) 0 (cb_offset h) h
  else ill h.

(** ** Quadrant 2 *)

(** The Zcmp and Zcmt macro-instructions. *)
Definition decode_zcmp_zcmt (h : Z) (rv64 : bool) (isa : Isa) : Insn :=
  let zcmt :=
    if isa_zcmt isa && (bits h 12 10 =? 0) then
      let index := bits h 9 2 in
      mk (if index <? 32 then CmJt else CmJalt) 0 0 0 index h
    else ill h in
  if isa_zcmp isa then
    match arms (bits h 12 8)
            [(0x18, true, CmPush); (0x1a, true, CmPop); (0x1c, true, CmPopRetz);
             (0x1e, true, CmPopRet)] with
    | Some op =>
        let rlist := bits h 7 4 in
        let spimm := bits h 3 2 in
        match zcmp_stack_adj rlist spimm rv64 with
        | None => ill h
        | Some stack_adj => mk op rlist 0 0 stack_adj h
        end
    | None =>
        if bits h 12 10 =? 0x03 then
          let r1s := zcmp_sreg (bits h 9 7) in
          let r2s := zcmp_sreg (bits h 4 2) in
          if bits h 6 5 =? 0x01 then
            if r1s =? r2s then ill h else mk CmMvsa01 r1s r2s 0 0 h
          else if bits h 6 5 =? 0x03 then mk CmMva01s r1s r2s 0 0 h
          else ill h
        else zcmt
    end
  else zcmt.

(** C.JR, C.MV, C.EBREAK, C.JALR, C.ADD and the NTL hints (funct3 == 0x4). *)
Definition decode_q2_jump_mv_add (h rd : Z) (isa : Isa) : Insn :=
  let rs2 := bits h 6 2 in
  if bit h 12 =? 0 then
    if rs2 =? 0 then if rd =? 0 then ill h else mk Jalr 0 rd 0 0 h
    else mk Add rd 0 rs2 0 h
  else if rs2 =? 0 then
    if rd =? 0 then mk Ebreak 0 0 0 0 h else mk Jalr 1 rd 0 0 h
  else if isa_zihintntl isa && (rd =? 0) then
    default (mk Add rd rd rs2 0 h) (arms rs2
      [(2, true, mk NtlP1 0 0 rs2 0 h); (3, true, mk NtlPall 0 0 rs2 0 h);
       (4, true, mk NtlS1 0 0 rs2 0 h); (5, true, mk NtlAll 0 0 rs2 0 h)])
  else mk Add rd rd rs2 0 h.

Definition decode_q2 (h funct3 : Z) (rv64 : bool) (isa : Isa) : Insn :=
  let rd := bits h 11 7 in
  if funct3 =? 0x0 then
    let shamt := ci_imm h in
    if negb rv64 && (32 <=? shamt) then ill h else mk Slli rd rd 0 shamt h
  else if funct3 =? 0x1 then
    if negb (isa_d isa) then ill h else mk Fld rd 2 0 (clsp_off_d h) h
  else if funct3 =? 0x2 then
    if rd =? 0 then ill h else mk Lw rd 2 0 (clsp_off_w h) h
  else if funct3 =? 0x3 then
    if rv64 then if rd =? 0 then ill h else mk Ld rd 2 0 (clsp_off_d h) h
    else if isa_zclsd isa then
      if (rd =? 0) || any_bits rd 1 then ill h else mk LdPair rd 2 0 (clsp_off_d h) h
    else mk Flw rd 2 0 (clsp_off_w h) h
  else if funct3 =? 0x4 then decode_q2_jump_mv_add h rd isa
  else if funct3 =? 0x5 then
    if isa_zcmp isa || isa_zcmt isa then decode_zcmp_zcmt h rv64 isa
    else if negb (isa_d isa) then ill h
    else mk Fsd 0 2 (bits h 6 2) (cssp_off_d h) h
  else if funct3 =? 0x6 then mk Sw 0 2 (bits h 6 2) (cssp_off_w h) h
  else if funct3 =? 0x7 then
    if rv64 then mk Sd 0 2 (bits h 6 2) (cssp_off_d h) h
    else if isa_zclsd isa then
      let rs2 := bits h 6 2 in
      if any_bits rs2 1 then ill h else mk SdPair 0 2 rs2 (cssp_off_d h) h
    else mk Fsw 0 2 (bits h 6 2) (cssp_off_w h) h
  else ill h.

(** Decode a non-zero compressed parcel. *)
Definition decode_rvc (half : Z) (xlen : Xlen) (isa : Isa) : Insn :=
  let rv64 := is_rv64 xlen in
  let quadrant := Z.land half 0x3 in
  let funct3 := bits half 15 13 in
  if quadrant =? 0 then decode_q0 half funct3 rv64 isa
  else if quadrant =? 1 then decode_q1 half funct3 rv64 isa
  else if quadrant =? 2 then decode_q2 half funct3 rv64 isa
  else ill half.
