(* ===== verification/RvMemory.v ===== *)
(** * Guest memory

    src/isa/riscv/memory.rs: the [Memory] trait with its little-endian width
    helpers, and [FlatMemory], the contiguous backing store.  A byte is an
    integer in [0, 256); an access result is [inl] of a [MemError] or [inr] of
    a value. *)

From S2P Require Import Prelude.

Inductive MemError : Type :=
| OutOfBounds (addr size : Z)
| Misaligned (addr size : Z).

Abbreviation MemResult A := (MemError + A)%type.

(** The [Memory] trait.  [mem_read m addr n] fills a buffer of [n] bytes;
    [mem_write] takes [&mut self], so it also returns the memory it leaves,
    whether or not the access succeeds. *)
Class Memory (M : Type) : Type := {
  mem_read : M -> Z -> nat -> MemResult (list Z);
  mem_write : M -> Z -> list Z -> MemResult unit * M;
  mem_probe : M -> Z -> Z -> bool -> MemResult unit
}.

(** The default [probe]: a discarded read. *)
Definition default_probe {M} (read : M -> Z -> nat -> MemResult (list Z))
    (m : M) (addr size : Z) (_write : bool) : MemResult unit :=
  match read m addr (Z.to_nat size) with
  | inl e => inl e
  | inr _ => inr tt
  end.

(** ** The width-typed little-endian helpers *)

Section Widths.
Context {M : Type} `{Memory M}.

Definition read_le (n : nat) (m : M) (addr : Z) : MemResult Z :=
  match mem_read m addr n with
  | inl e => inl e
  | inr b => inr (from_le_bytes b)
  end.
Definition read_u8 (m : M) (addr : Z) : MemResult Z :=
  match mem_read m addr 1 with
  | inl e => inl e
  | inr b => inr (nth 0 b 0)
  end.
Definition read_u16 : M -> Z -> MemResult Z := read_le 2.
Definition read_u32 : M -> Z -> MemResult Z := read_le 4.
Definition read_u64 : M -> Z -> MemResult Z := read_le 8.

Definition write_u8 (m : M) (addr value : Z) : MemResult unit * M :=
  mem_write m addr [value].
Definition write_u16 (m : M) (addr value : Z) : MemResult unit * M :=
  mem_write m addr (to_le_bytes 2 value).
Definition write_u32 (m : M) (addr value : Z) : MemResult unit * M :=
  mem_write m addr (to_le_bytes 4 value).
Definition write_u64 (m : M) (addr value : Z) : MemResult unit * M :=
  mem_write m addr (to_le_bytes 8 value).
End Widths.

(** ** What the hart relies on

    The contract of a memory without asymmetric permissions or read side
    effects, over the well-formed memories [mem_wf]. *)
Class MemoryLaws (M : Type) `{Memory M} : Type := {
  mem_wf : M -> Prop;
  (** A read returns as many bytes as the buffer holds. *)
  mem_read_bytes m a n bs :
    mem_wf m -> mem_read m a n = inr bs -> length bs = n /\ Forall (fits 8) bs;
  (** A write keeps the memory well formed. *)
  mem_write_wf m a bs r m' :
    mem_wf m -> Forall (fits 8) bs -> mem_write m a bs = (r, m') -> mem_wf m';
  (** A failed write leaves the memory unchanged. *)
  mem_write_err m a bs e m' :
    mem_wf m -> mem_write m a bs = (inl e, m') -> m' = m;
  (** A read of the written range returns the written bytes. *)
  mem_read_write m a bs m' :
    mem_wf m -> mem_write m a bs = (inr tt, m') -> mem_read m' a (length bs) = inr bs;
  (** A write leaves every disjoint range unchanged. *)
  mem_read_frame m a bs m' b n :
    mem_wf m -> mem_write m a bs = (inr tt, m') ->
    b + Z.of_nat n <= a \/ a + Z.of_nat (length bs) <= b ->
    mem_read m' b n = mem_read m b n;
  (** A range can be written exactly when [probe] accepts it. *)
  mem_probe_write m a bs :
    mem_wf m ->
    mem_probe m a (Z.of_nat (length bs)) true = inr tt <->
    (exists m', mem_write m a bs = (inr tt, m'))
}.

Lemma read_le_fits {M} `{MemoryLaws M} n (m : M) a v :
  mem_wf m -> read_le n m a = inr v -> fits (8 * Z.of_nat n) v.
Proof.
  intros Hwf Hr. unfold read_le in Hr. destruct (mem_read m a n) as [|bs] eqn:E; [done|].
  simplify_eq. apply mem_read_bytes in E as [<- ?]; [|done]. by apply from_le_bytes_fits.
Qed.

(** ** FlatMemory *)

(** Contiguous backing store covering [base, base + size). *)
Record FlatMemory : Type := mk_flat {
  flat_data : list Z;
  flat_base : Z
}.

Module FlatMemory.

(** Zeroed memory of [size] bytes mapped at [base]. *)
Definition new (base : Z) (size : nat) : FlatMemory :=
  {| flat_data := replicate size 0; flat_base := base |}.

Definition with_data (base : Z) (data : list Z) : FlatMemory :=
  {| flat_data := data; flat_base := base |}.

Definition size (m : FlatMemory) : Z := Z.of_nat (length (flat_data m)).

(** [offset]: [usize] is 64 bits wide, and an end past its range is the
    [None] of [checked_add]. *)
Definition offset (m : FlatMemory) (addr sz : Z) : MemResult Z :=
  if addr <? flat_base m then inl (OutOfBounds addr sz)
  else
    let off := addr - flat_base m in
    let e := off + sz in
    if (e <? 2 ^ 64) && (e <=? size m) then inr off else inl (OutOfBounds addr sz).

Definition probe (m : FlatMemory) (addr sz : Z) (_write : bool) : MemResult unit :=
  match offset m addr sz with inl e => inl e | inr _ => inr tt end.

Definition read (m : FlatMemory) (addr : Z) (n : nat) : MemResult (list Z) :=
  match offset m addr (Z.of_nat n) with
  | inl e => inl e
  | inr off => inr (take n (drop (Z.to_nat off) (flat_data m)))
  end.

Definition write (m : FlatMemory) (addr : Z) (bs : list Z) : MemResult unit * FlatMemory :=
  match offset m addr (Z.of_nat (length bs)) with
  | inl e => (inl e, m)
  | inr off =>
      let o := Z.to_nat off in
      (inr tt,
       {| flat_data := take o (flat_data m) ++ bs ++ drop (o + length bs) (flat_data m);
          flat_base := flat_base m |})
  end.

End FlatMemory.

#[export] Instance flat_memory : Memory FlatMemory := {
  mem_read := FlatMemory.read;
  mem_write := FlatMemory.write;
  mem_probe := FlatMemory.probe
}.

(** A flat memory holds bytes. *)
Definition flat_wf (m : FlatMemory) : Prop := Forall (fits 8) (flat_data m).

Section FlatLaws.
Implicit Types (m : FlatMemory) (a : Z).

Lemma flat_offset_inv m a sz off :
  0 <= sz -> FlatMemory.offset m a sz = inr off ->
  off = a - flat_base m /\ 0 <= off /\ off + sz <= Z.of_nat (length (flat_data m))
  /\ off + sz < 2 ^ 64.
Proof.
  intros Hsz. unfold FlatMemory.offset, FlatMemory.size.
  destruct (Z.ltb_spec a (flat_base m)); [done|].
  destruct (_ && _) eqn:Hc; [|done]. intros [= <-].
  apply andb_true_iff in Hc as [H1%Z.ltb_lt H2%Z.leb_le]. lia.
Qed.

Lemma flat_offset_same m m' a sz :
  length (flat_data m') = length (flat_data m) -> flat_base m' = flat_base m ->
  FlatMemory.offset m' a sz = FlatMemory.offset m a sz.
Proof. intros Hl Hb. unfold FlatMemory.offset, FlatMemory.size. by rewrite Hl, Hb. Qed.

Lemma flat_write_inv m a bs m' :
  FlatMemory.write m a bs = (inr tt, m') ->
  exists o, FlatMemory.offset m a (Z.of_nat (length bs)) = inr (Z.of_nat o)
    /\ a = flat_base m + Z.of_nat o
    /\ (o + length bs <= length (flat_data m))%nat
    /\ flat_base m' = flat_base m
    /\ flat_data m' = take o (flat_data m) ++ bs ++ drop (o + length bs) (flat_data m)
    /\ length (flat_data m') = length (flat_data m).
Proof.
  unfold FlatMemory.write. destruct (FlatMemory.offset m a _) as [e|off] eqn:Ho; [done|].
  intros [= <-]. pose proof (flat_offset_inv _ _ _ _ (Zle_0_nat _) Ho) as (-> & ? & ? & ?).
  exists (Z.to_nat (a - flat_base m)). rewrite Z2Nat.id by done.
  split_and!; [done | lia | lia | done | done |]. simpl.
  rewrite !length_app, length_take, length_drop. lia.
Qed.

(** A window of the spliced list that lies wholly before or after the splice. *)
Lemma splice_frame {A} (l bs : list A) o p n :
  (o + length bs <= length l)%nat ->
  (p + n <= o)%nat \/ (o + length bs <= p)%nat ->
  take n (drop p (take o l ++ bs ++ drop (o + length bs) l)) = take n (drop p l).
Proof.
  intros Hl [Hp|Hp].
  - rewrite drop_app_le by (rewrite length_take; lia).
    rewrite take_app_le by (rewrite length_drop, length_take; lia).
    rewrite !take_drop_commute, take_take. do 2 f_equal. lia.
  - rewrite drop_app_ge by (rewrite length_take; lia).
    rewrite drop_app_ge by (rewrite length_take; lia).
    rewrite drop_drop, length_take. do 2 f_equal. lia.
Qed.

Lemma splice_same {A} (l bs : list A) o :
  (o + length bs <= length l)%nat ->
  take (length bs) (drop o (take o l ++ bs ++ drop (o + length bs) l)) = bs.
Proof.
  intros Hl. rewrite drop_app_length' by (rewrite length_take; lia).
  by rewrite take_app_length.
Qed.

End FlatLaws.

#[export] Program Instance flat_memory_laws : MemoryLaws FlatMemory := {
  mem_wf := flat_wf
}.
Next Obligation.
  intros m a n bs Hwf. simpl. unfold FlatMemory.read.
  destruct (FlatMemory.offset m a _) as [e|off] eqn:Ho; [done|]. intros [= <-].
  apply flat_offset_inv in Ho as (-> & ? & ? & ?); [|lia]. split.
  - rewrite length_take, length_drop. lia.
  - by apply Forall_take, Forall_drop.
Qed.
Next Obligation.
  intros m a bs r m' Hwf Hbs. simpl. destruct r as [e|[]].
  - unfold FlatMemory.write. case_match; congruence.
  - intros (o & _ & _ & _ & _ & Hd & _)%flat_write_inv. unfold flat_wf. rewrite Hd.
    rewrite !Forall_app. eauto using Forall_take, Forall_drop.
Qed.
Next Obligation.
  intros m a bs e m' _. simpl. unfold FlatMemory.write. case_match; congruence.
Qed.
Next Obligation.
  intros m a bs m' _ (o & Ho & -> & ? & Hb & Hd & Hl)%flat_write_inv. simpl.
  unfold FlatMemory.read. rewrite (flat_offset_same m) by done. rewrite Ho, Hd, Nat2Z.id.
  f_equal. by apply splice_same.
Qed.
Next Obligation.
  intros m a bs m' b n _ (o & Ho & -> & ? & Hb & Hd & Hl)%flat_write_inv Hdis. simpl.
  unfold FlatMemory.read. rewrite (flat_offset_same m) by done.
  destruct (FlatMemory.offset m b _) as [e|off] eqn:Hoff; [done|].
  apply flat_offset_inv in Hoff as (-> & ? & ? & ?); [|lia].
  rewrite Hd, splice_frame by lia. done.
Qed.
Next Obligation.
  intros m a bs _. simpl. unfold FlatMemory.probe, FlatMemory.write.
  case_match; split; [done | by intros [? ?] | by eauto | done].
Qed.
