(* ===== verification/RvDecode.v ===== *)
(** * Instruction decode

    The entry points of src/isa/riscv/decode.rs: the opcode dispatch of
    [decode], [decode_compressed] and the fetch-and-decode of [decode_at]. *)

From S2P Require Import Prelude RvIsa RvOp RvDecodeBase RvDecodeFp RvDecodeVendor.
From S2P Require Import RvCompressed RvMemory.

(** Decode a 32-bit instruction word under the given XLEN and ISA. *)
Definition decode (w : Z) (xlen : Xlen) (isa : Isa) : Insn :=
  let rv64 := is_rv64 xlen in
  default (illegal w 4) (arms (opcode w)
    [(0x37, true, with_imm Lui w (imm_u w));
     (0x17, true, with_imm Auipc w (imm_u w));
     (0x6f, true, with_imm Jal w (imm_j w));
     (0x67, funct3 w =? 0, with_imm Jalr w (imm_i w));
     (0x63, true, decode_branch w);
     (0x03, true, decode_load w rv64 isa);
     (0x23, true, decode_store w rv64 isa);
     (0x13, true, decode_op_imm w rv64 isa);
     (0x1b, rv64, decode_op_imm32 w isa);
     (0x33, true, decode_op w rv64 isa);
     (0x3b, rv64, decode_op32 w isa);
     (0x0f, true, decode_fence w isa);
     (0x73, true, decode_system w rv64 isa);
     (0x2f, isa_a isa || isa_zacas isa, decode_amo w rv64 isa);
     (0x07, isa_f isa, decode_load_fp w isa);
     (0x27, isa_f isa, decode_store_fp w isa);
     (0x53, isa_f isa, decode_op_fp w rv64 isa);
     (0x43, isa_f isa, decode_fma FmaddS FmaddD FmaddH FmaddQ w isa);
     (0x47, isa_f isa, decode_fma FmsubS FmsubD FmsubH FmsubQ w isa);
     (0x4b, isa_f isa, decode_fma FnmsubS FnmsubD FnmsubH FnmsubQ w isa);
     (0x4f, isa_f isa, decode_fma FnmaddS FnmaddD FnmaddH FnmaddQ w isa);
     (0x57, isa_v isa, decode_vector w);
     (0x0b, true, decode_custom0 w rv64 isa);
     (0x2b, true, decode_custom1 w rv64 isa);
     (0x5b, isa_xandes isa, decode_andes_custom2 w rv64)]).

(** Decode a 16-bit compressed parcel.  When [C] is disabled, or the parcel is
    the reserved all-zero word, the result is an illegal instruction. *)
Definition decode_compressed (half : Z) (xlen : Xlen) (isa : Isa) : Insn :=
  if negb (isa_c isa) || (half =? 0) then illegal half 2 else decode_rvc half xlen isa.

(** Fetch and decode the instruction at [pc], selecting 16- or 32-bit width. *)
Definition decode_at {M} `{Memory M} (mem : M) (pc : Z) (xlen : Xlen) (isa : Isa) :
    MemResult Insn :=
  match read_u16 mem pc with
  | inl e => inl e
  | inr lo =>
      if negb (Z.land lo 0x3 =? 0x3) then inr (decode_compressed lo xlen isa)
      else
        match read_u16 mem (wadd 64 pc 2) with
        | inl e => inl e
        | inr hi =>
            let w := Z.lor lo (Z.shiftl hi 16) in
            inr (decode w xlen isa)
        end
  end.
