(* ===== verification/RvDecodeWf.v ===== *)
(** * Well-formedness of decoded instructions

    Every instruction the decoder produces has its operand fields in range:
    register numbers below 32, a 3-bit [funct3], a 12-bit CSR address and an
    immediate that fits in 32 signed bits. *)

From S2P Require Import Prelude RvIsa RvOp RvDecodeBase RvDecodeFp RvDecodeVendor.
From S2P Require Import RvCompressed RvMemory RvDecode.

(** The operations whose [rs2] field carries an immediate (up to 7 bits). *)
Definition rs2_is_imm (op : Op) : bool :=
  match op with
  | NdsBfoz | NdsBfos | NdsBeqc | NdsBnec | NdsBbs | NdsBbc | ThExt | ThExtu => true
  | _ => false
  end.

(** A value of a signed 32-bit immediate. *)
Definition imm_ok (v : Z) : Prop := - 2 ^ 31 <= v < 2 ^ 31.

(** [i] was decoded from the [len] bytes [raw], with operand fields in range. *)
Record insn_wf (raw len : Z) (i : Insn) : Prop := {
  wf_len : insn_len i = len;
  wf_raw : insn_raw i = raw;
  wf_rd : fits 5 (insn_rd i);
  wf_rs1 : fits 5 (insn_rs1 i);
  wf_rs2 : fits (if rs2_is_imm (insn_op i) then 7 else 5) (insn_rs2 i);
  wf_rs3 : fits 5 (insn_rs3 i);
  wf_funct3 : fits 3 (insn_funct3 i);
  wf_csr : fits 12 (insn_csr i);
  wf_imm : imm_ok (insn_imm i)
}.

(** ** Immediates *)

Lemma imm_ok_fits w v : w <= 31 -> fits w v -> imm_ok v.
Proof. intros Hw Hv%(fits_weaken w 31); [|done]. unfold fits, imm_ok in *. lia. Qed.

Lemma imm_ok_shiftr z n : 0 <= n -> imm_ok (Z.shiftr (as_i32 z) n).
Proof.
  intros Hn. pose proof (as_i_range 32 z ltac:(lia)). unfold imm_ok.
  rewrite Z.shiftr_div_pow2 by done. change (32 - 1) with 31 in *.
  assert (1 <= 2 ^ n) by (apply (Z.pow_le_mono_r 2 0 n); lia). split.
  - apply Z.div_le_lower_bound; nia.
  - apply Z.div_lt_upper_bound; nia.
Qed.

Lemma imm_i_ok w : imm_ok (imm_i w).
Proof. by apply imm_ok_shiftr. Qed.
Lemma imm_s_ok w : imm_ok (imm_s w).
Proof. by apply imm_ok_shiftr. Qed.
Lemma imm_b_ok w : imm_ok (imm_b w).
Proof. by apply imm_ok_shiftr. Qed.
Lemma imm_j_ok w : imm_ok (imm_j w).
Proof. by apply imm_ok_shiftr. Qed.
Lemma imm_u_ok w : imm_ok (imm_u w).
Proof. unfold imm_u, imm_ok. apply (as_i_range 32). lia. Qed.

(** The prefetch offset drops its low five bits. *)
Lemma imm_prefetch_ok w : imm_ok (Z.land (imm_i w) (Z.lnot 0x1f)).
Proof.
  pose proof (imm_i_ok w) as Hi. unfold imm_ok in *.
  change (Z.lnot 0x1f) with (Z.lnot (Z.ones 5)). rewrite <- Z.ldiff_land, Z.ldiff_ones_r by lia.
  rewrite Z.shiftl_mul_pow2, Z.shiftr_div_pow2 by lia.
  change (2 ^ 5) with 32 in *. change (2 ^ 31) with 2147483648 in *.
  generalize dependent (imm_i w). intros z Hz.
  assert (-67108864 <= z / 32) by (apply Z.div_le_lower_bound; lia).
  pose proof (Z.div_mod z 32 ltac:(lia)). pose proof (Z.mod_pos_bound z 32 ltac:(lia)). lia.
Qed.

(** The scattered immediates of the XAndesPerf forms. *)
Lemma sign_flagged_ok imm w k : 0 <= k <= 30 -> fits k imm -> imm_ok (sign_flagged imm w k).
Proof.
  intros Hk Himm. unfold sign_flagged. destruct (any_bits _ _).
  - rewrite Z.shiftl_mul_pow2, Z.mul_1_l, lor_sign_bits by (done || lia).
    destruct Himm. assert (2 ^ k <= 2 ^ 30) by (apply Z.pow_le_mono_r; lia).
    unfold imm_ok. change (2 ^ 30) with 1073741824 in *. change (2 ^ 31) with 2147483648. lia.
  - apply (imm_ok_fits k); [lia|done].
Qed.

Lemma fits_or_all w l : 0 <= w -> Forall (fits w) l -> fits w (or_all l).
Proof.
  intros Hw. unfold or_all. assert (fits w 0) as H0 by (by apply fits_0).
  revert H0. generalize 0. induction l as [|a l IH]; intros z Hz Hl; [done|].
  apply Forall_cons in Hl as [??]. simpl. apply IH; auto with fits.
Qed.

Ltac andes_imm :=
  apply sign_flagged_ok; [lia|]; apply fits_or_all; [lia|]; each_arm; auto with fits.

Lemma andes_gp_lb_imm_ok w : imm_ok (andes_gp_lb_imm w).
Proof. andes_imm. Qed.
Lemma andes_gp_lh_imm_ok w : imm_ok (andes_gp_lh_imm w).
Proof. andes_imm. Qed.
Lemma andes_gp_lw_imm_ok w : imm_ok (andes_gp_lw_imm w).
Proof. andes_imm. Qed.
Lemma andes_gp_ld_imm_ok w : imm_ok (andes_gp_ld_imm w).
Proof. andes_imm. Qed.
Lemma andes_gp_sb_imm_ok w : imm_ok (andes_gp_sb_imm w).
Proof. andes_imm. Qed.
Lemma andes_gp_sh_imm_ok w : imm_ok (andes_gp_sh_imm w).
Proof. andes_imm. Qed.
Lemma andes_gp_sw_imm_ok w : imm_ok (andes_gp_sw_imm w).
Proof. andes_imm. Qed.
Lemma andes_gp_sd_imm_ok w : imm_ok (andes_gp_sd_imm w).
Proof. andes_imm. Qed.
Lemma andes_stype_imm10_ok w : imm_ok (andes_stype_imm10 w).
Proof.
  apply (sign_flagged_ok (Z.lor _ _) w 10); [lia|]. apply fits_lor; auto with fits.
Qed.

(** ** Composing decoders *)

Lemma wf_illegal raw len : insn_wf raw len (illegal raw len).
Proof.
  unfold illegal. constructor; simpl; try done; try (by apply fits_0); by unfold imm_ok.
Qed.

Lemma wf_base op w : insn_wf w 4 (base op w).
Proof.
  unfold base, rd, rs1, rs2, rs3, funct3.
  constructor; simpl; auto with fits; [|by unfold imm_ok].
  destruct (rs2_is_imm op); auto with fits.
Qed.

Lemma wf_set_imm r l v i : imm_ok v -> insn_wf r l i -> insn_wf r l (set_insn_imm v i).
Proof. intros Hv []. by constructor. Qed.

Lemma wf_set_rs1 r l v i : fits 5 v -> insn_wf r l i -> insn_wf r l (set_insn_rs1 v i).
Proof. intros Hv []. by constructor. Qed.

Lemma wf_set_rs2 r l v i :
  fits (if rs2_is_imm (insn_op i) then 7 else 5) v -> insn_wf r l i -> insn_wf r l (set_insn_rs2 v i).
Proof. intros Hv []. by constructor. Qed.

Lemma wf_with_imm op w imm : imm_ok imm -> insn_wf w 4 (with_imm op w imm).
Proof. intros. by apply wf_set_imm, wf_base. Qed.

Lemma imm_ok_nbits a : imm_ok (Z.land a 0x7 + 1).
Proof.
  destruct (fits_mask 3 a 0x7); [done|done|]. unfold imm_ok. change (2 ^ 3) with 8 in *. lia.
Qed.

Create HintDb wf.
#[export] Hint Resolve imm_ok_nbits : wf.
#[export] Hint Resolve wf_base wf_with_imm wf_set_imm wf_set_rs1 wf_set_rs2 : wf.
#[export] Hint Resolve imm_i_ok imm_s_ok imm_b_ok imm_u_ok imm_j_ok imm_prefetch_ok
  andes_gp_lb_imm_ok andes_gp_lh_imm_ok andes_gp_lw_imm_ok andes_gp_ld_imm_ok
  andes_gp_sb_imm_ok andes_gp_sh_imm_ok andes_gp_sw_imm_ok andes_gp_sd_imm_ok
  andes_stype_imm10_ok : wf.
#[export] Hint Resolve wf_illegal : wf.
#[export] Hint Extern 5 (imm_ok _) => (apply (imm_ok_fits 31); [lia|auto with fits]) : wf.
#[export] Hint Extern 3 (fits _ (Z.shiftr _ _)) => (apply fits_shiftr; [lia|]) : fits.

#[export] Hint Extern 2 (fits (if rs2_is_imm _ then _ else _) _) =>
  (cbn [rs2_is_imm insn_op set_insn_rs1 set_insn_imm with_imm base andes_base];
   try (match goal with |- context [rs2_is_imm (if ?c then _ else _)] => destruct c end);
   cbn [rs2_is_imm]; auto with fits) : wf.
#[export] Hint Extern 1 (fits 5 3) => done : wf.

Ltac fits_field_of :=
  apply fits_mask; [vm_compute; discriminate | vm_compute; reflexivity].
#[export] Hint Extern 3 (fits _ (rs2 _)) => fits_field_of : fits wf.
#[export] Hint Extern 3 (fits _ (funct7 _)) => fits_field_of : fits.
#[export] Hint Extern 3 (fits _ (thead_bimm6 _)) => fits_field_of : fits.
#[export] Hint Extern 3 (fits _ (thead_bimm2 _)) => fits_field_of : fits.

Ltac wf :=
  cbv beta zeta;
  match goal with |- insn_wf ?r ?l _ => let P := constr:(insn_wf r l) in
  repeat first
    [ apply (try_base_ind P); intros
    | apply (try_imm_ind P); intros
    | apply (base_or_illegal_ind P); intros
    | apply (try_insn_ind P); intros
    | apply (if_ind P); intros
    | apply (arms_default_ind P)
    | apply (match_op_ind P); intros ]
  end;
  try each_arm; auto with wf.

Section Wf32.
Context (isa : Isa) (rv64 : bool) (w : Z).

Lemma wf_branch : insn_wf w 4 (decode_branch w).
Proof. unfold decode_branch. wf. Qed.
Lemma wf_load : insn_wf w 4 (decode_load w rv64 isa).
Proof. unfold decode_load. wf. Qed.
Lemma wf_store : insn_wf w 4 (decode_store w rv64 isa).
Proof. unfold decode_store. wf. Qed.
Lemma wf_op : insn_wf w 4 (decode_op w rv64 isa).
Proof. unfold decode_op, decode_op_aes. wf. Qed.
Lemma wf_op32 : insn_wf w 4 (decode_op32 w isa).
Proof. unfold decode_op32. wf. Qed.
Lemma wf_fence : insn_wf w 4 (decode_fence w isa).
Proof. unfold decode_fence. wf. Qed.
Lemma wf_system : insn_wf w 4 (decode_system w rv64 isa).
Proof. unfold decode_system, decode_hypervisor_mem. wf. Qed.
Lemma wf_amo : insn_wf w 4 (decode_amo w rv64 isa).
Proof. unfold decode_amo. destruct (amo_width _ _); wf. Qed.
Lemma wf_op_imm : insn_wf w 4 (decode_op_imm w rv64 isa).
Proof.
  unfold decode_op_imm, decode_shift_left_imm, decode_shift_right_imm.
  destruct rv64; wf.
Qed.
Lemma wf_op_imm32 : insn_wf w 4 (decode_op_imm32 w isa).
Proof. unfold decode_op_imm32. wf. Qed.
Lemma wf_load_fp : insn_wf w 4 (decode_load_fp w isa).
Proof. unfold decode_load_fp. wf. Qed.
Lemma wf_store_fp : insn_wf w 4 (decode_store_fp w isa).
Proof. unfold decode_store_fp. wf. Qed.
Lemma wf_op_fp : insn_wf w 4 (decode_op_fp w rv64 isa).
Proof. unfold decode_op_fp. wf. Qed.
Lemma wf_fma single double half quad : insn_wf w 4 (decode_fma single double half quad w isa).
Proof. unfold decode_fma. wf. Qed.
Lemma wf_vector : insn_wf w 4 (decode_vector w).
Proof. unfold decode_vector. wf. Qed.
Lemma wf_xsoteria0 : insn_wf w 4 (decode_xsoteria_custom0 w).
Proof. unfold decode_xsoteria_custom0. wf. Qed.
Lemma wf_xsoteria1 : insn_wf w 4 (decode_xsoteria_custom1 w).
Proof. unfold decode_xsoteria_custom1. wf. Qed.
Lemma wf_hazard3 : insn_wf w 4 (decode_hazard3_custom0 w).
Proof. unfold decode_hazard3_custom0. wf. Qed.
Lemma wf_andes0 : insn_wf w 4 (decode_andes_custom0 w).
Proof. unfold decode_andes_custom0, andes_base. wf. Qed.
Lemma wf_andes1 : insn_wf w 4 (decode_andes_custom1 w rv64).
Proof. unfold decode_andes_custom1, andes_base. wf. Qed.
Lemma wf_andes2 : insn_wf w 4 (decode_andes_custom2 w rv64).
Proof. unfold decode_andes_custom2. wf. Qed.

Lemma wf_thead_arithmetic_imm op i : insn_wf w 4 i -> insn_wf w 4 (thead_arithmetic_imm op w i).
Proof. intros Hi. unfold thead_arithmetic_imm. destruct op; auto with wf fits. Qed.

Lemma wf_thead_arithmetic f3 f7 : fits 7 f7 -> insn_wf w 4 (decode_thead_arithmetic w f3 f7).
Proof.
  intros Hf7. unfold decode_thead_arithmetic. wf. by apply wf_thead_arithmetic_imm, wf_base.
Qed.

(** No T-Head memory operation reads an immediate from [rs2]. *)
Lemma thead_mem_op_rs2 f3 f7 op : thead_mem_op f3 f7 = Some op -> rs2_is_imm op = false.
Proof.
  unfold thead_mem_op. destruct (arms f3 _) as [o|] eqn:E; [|done]. simpl. intros ->. revert E.
  intros E. apply (arms_ind (fun o => forall op, o = Some op -> rs2_is_imm op = false) _ _ _ E);
    [|done]. each_arm;
    eapply (arms_ind (fun op => rs2_is_imm op = false)); eauto; each_arm; done.
Qed.

Lemma wf_thead_mem f3 f7 : insn_wf w 4 (decode_thead_mem w f3 f7).
Proof.
  unfold decode_thead_mem. apply (match_op_ind (insn_wf w 4)); [|auto with wf].
  intros op Hop. apply thead_mem_op_rs2 in Hop. wf.
  - apply wf_set_imm; [auto with wf|]. apply wf_set_rs2; [|auto with wf].
    cbn [insn_op base]. rewrite Hop. auto with fits.
  - apply wf_set_imm; [|auto with wf]. destruct op; auto with wf.
Qed.

#[local] Opaque decode_thead_arithmetic decode_thead_mem.

Lemma wf_thead : insn_wf w 4 (decode_thead_custom0 w).
Proof.
  unfold decode_thead_custom0, decode_thead_subop0, decode_thead_vec.
  wf; first [apply wf_thead_arithmetic; auto with fits | apply wf_thead_mem].
Qed.
End Wf32.

#[local] Opaque decode_branch decode_load decode_store decode_op_imm decode_op_imm32 decode_op
  decode_op32 decode_fence decode_system decode_amo decode_load_fp decode_store_fp
  decode_op_fp decode_fma decode_vector decode_andes_custom2 decode_xsoteria_custom0
  decode_xsoteria_custom1 decode_andes_custom0 decode_andes_custom1 decode_thead_custom0
  decode_hazard3_custom0.

Lemma decode_wf w xlen isa : insn_wf w 4 (decode w xlen isa).
Proof.
  unfold decode, decode_custom0, decode_custom1.
  apply (arms_default_ind (insn_wf w 4)); [auto with wf|]. each_arm;
    auto using wf_branch, wf_load, wf_store, wf_op_imm, wf_op_imm32, wf_op, wf_op32, wf_fence,
      wf_system, wf_amo, wf_load_fp, wf_store_fp, wf_op_fp, wf_fma, wf_vector, wf_andes2
      with wf; wf;
    auto using wf_xsoteria0, wf_xsoteria1, wf_andes0, wf_andes1, wf_thead, wf_hazard3.
Qed.

(** ** Compressed encodings *)

(** The sign extension of an [n]-bit field is in range. *)
Lemma sext_range v n : 1 <= n <= 32 -> - 2 ^ (n - 1) <= sext v n < 2 ^ (n - 1).
Proof.
  intros Hn. unfold sext. pose proof (as_i_range 32 (wshl 32 v (32 - n)) ltac:(lia)) as Hr.
  change (32 - 1) with 31 in Hr.
  assert (2 ^ 31 = 2 ^ (n - 1) * 2 ^ (32 - n)) as E
    by (rewrite <- Z.pow_add_r by lia; f_equal; lia).
  rewrite Z.shiftr_div_pow2 by lia. split.
  - apply Z.div_le_lower_bound; lia.
  - apply Z.div_lt_upper_bound; lia.
Qed.

Lemma imm_ok_sext v n : 1 <= n <= 32 -> imm_ok (sext v n).
Proof. intros. apply imm_ok_shiftr. lia. Qed.

Lemma imm_ok_addi16sp v : imm_ok (Z.shiftl (sext v 6) 4).
Proof.
  pose proof (sext_range v 6 ltac:(lia)). rewrite Z.shiftl_mul_pow2 by lia.
  unfold imm_ok. change (2 ^ (6 - 1)) with 32 in *. change (2 ^ 4) with 16. lia.
Qed.

Lemma imm_ok_stack_adj rlist spimm rv64 adj :
  fits 2 spimm -> zcmp_stack_adj rlist spimm rv64 = Some adj -> imm_ok adj.
Proof.
  intros [? ?] Hadj. change (2 ^ 2) with 4 in *. unfold zcmp_stack_adj in Hadj.
  destruct (zcmp_reg_count rlist) as [n|] eqn:Hn; [|done]. simplify_eq.
  assert (1 <= n <= 13) as Hn'.
  { unfold zcmp_reg_count in Hn. repeat case_match; simplify_eq; lia. }
  set (b := n * _). assert (0 <= b <= 104) by (subst b; destruct rv64; lia).
  pose proof (Z.div_le_mono (b + 15) 119 16 ltac:(lia) ltac:(lia)).
  pose proof (Z.div_pos (b + 15) 16 ltac:(lia) ltac:(lia)).
  change (119 / 16) with 7 in *. unfold imm_ok. change (2 ^ 31) with 2147483648. lia.
Qed.

Lemma fits_rvc_reg r : fits 5 (rvc_reg r).
Proof.
  unfold rvc_reg. destruct (fits_mask 3 r 0x7); [done|done|].
  unfold fits. change (2 ^ 3) with 8 in *. change (2 ^ 5) with 32. lia.
Qed.

Lemma fits_zcmp_sreg r : fits 5 (zcmp_sreg r).
Proof.
  unfold zcmp_sreg. destruct (fits_mask 3 r 0x7); [done|done|].
  unfold fits. change (2 ^ 3) with 8 in *. change (2 ^ 5) with 32.
  destruct (Z.eqb_spec (Z.land r 7) 0); [lia|]. destruct (Z.eqb_spec (Z.land r 7) 1); lia.
Qed.

Lemma wf_mk op rd rs1 rs2 imm h :
  fits 5 rd -> fits 5 rs1 -> fits 5 rs2 -> imm_ok imm ->
  insn_wf h 2 (mk op rd rs1 rs2 imm h).
Proof.
  intros. constructor; simpl; auto; try (by apply fits_0).
  destruct (rs2_is_imm op); [|done]. by apply (fits_weaken 5).
Qed.

#[export] Hint Resolve wf_mk fits_rvc_reg fits_zcmp_sreg imm_ok_addi16sp : wf.
#[export] Hint Extern 2 (insn_wf _ _ (ill _)) => apply wf_illegal : wf.
#[export] Hint Extern 2 (imm_ok (sext _ _)) => (apply imm_ok_sext; lia) : wf.
#[export] Hint Extern 2 (fits _ (bits _ _ _)) => fits_field_of : fits wf.
#[export] Hint Extern 2 (fits _ (bit _ _)) => fits_field_of : fits wf.
#[export] Hint Extern 3 (fits _ (Z.shiftl _ _)) =>
  (apply fits_field; [vm_compute; discriminate | vm_compute; discriminate
                     | vm_compute; reflexivity]) : fits.
#[export] Hint Extern 3 (fits 5 _) => (split; [done|vm_compute; reflexivity]) : wf.
#[export] Hint Extern 3 (imm_ok 0) => (by unfold imm_ok) : wf.

Ltac wf_c :=
  cbv beta zeta; unfold ci_imm, cl_off_w, cl_off_d, clsp_off_w, clsp_off_d, cssp_off_w,
    cssp_off_d, cj_offset, cb_offset;
  match goal with |- insn_wf ?r ?l _ => let P := constr:(insn_wf r l) in
    repeat first [apply (if_ind P); intros | apply (arms_default_ind P)] end;
  try each_arm; auto with wf.

Section WfCompressed.
Context (isa : Isa) (rv64 : bool) (h : Z).

Lemma wf_q0 f3 : insn_wf h 2 (decode_q0 h f3 rv64 isa).
Proof. unfold decode_q0, decode_zcb_q0. wf_c. Qed.

Lemma wf_zcb_unary rd_ : fits 5 rd_ -> insn_wf h 2 (decode_zcb_unary h rd_ rv64 isa).
Proof. intros. unfold decode_zcb_unary. wf_c; apply wf_mk; auto with wf; by unfold imm_ok. Qed.

#[local] Opaque decode_zcb_unary.
Lemma wf_q1_alu : insn_wf h 2 (decode_q1_alu h rv64 isa).
Proof. unfold decode_q1_alu. wf_c. auto using wf_zcb_unary with wf. Qed.

#[local] Opaque decode_q1_alu.
Lemma wf_q1 f3 : insn_wf h 2 (decode_q1 h f3 rv64 isa).
Proof. unfold decode_q1. wf_c. apply wf_q1_alu. Qed.

Lemma wf_zcmp_zcmt : insn_wf h 2 (decode_zcmp_zcmt h rv64 isa).
Proof.
  unfold decode_zcmp_zcmt. wf_c; destruct (arms _ _); wf_c;
    destruct (zcmp_stack_adj _ _ _) eqn:E; wf_c;
    apply wf_mk; auto with wf; eapply imm_ok_stack_adj; [|exact E]; auto with wf.
Qed.

Lemma wf_q2_jump rd : fits 5 rd -> insn_wf h 2 (decode_q2_jump_mv_add h rd isa).
Proof. intros. unfold decode_q2_jump_mv_add. wf_c. Qed.

#[local] Opaque decode_zcmp_zcmt decode_q2_jump_mv_add.
Lemma wf_q2 f3 : insn_wf h 2 (decode_q2 h f3 rv64 isa).
Proof. unfold decode_q2. wf_c; auto using wf_zcmp_zcmt, wf_q2_jump with wf. Qed.
End WfCompressed.

#[local] Opaque decode_q0 decode_q1 decode_q2.

Lemma decode_compressed_wf half xlen isa : insn_wf half 2 (decode_compressed half xlen isa).
Proof.
  unfold decode_compressed, decode_rvc. wf_c; auto using wf_q0, wf_q1, wf_q2.
Qed.

(** The [unreachable!()] arm of the M block is not reached. *)
Lemma decode_op_m_total w : is_Some (decode_op_m (funct3 w)).
Proof.
  assert (H3 : fits 3 (funct3 w)) by (unfold funct3; auto with fits).
  pose proof (all_below 3 (fun f3 => if decode_op_m f3 is Some _ then true else false)
    (funct3 w) eq_refl H3) as Hm.
  cbn beta in Hm. by destruct (decode_op_m (funct3 w)).
Qed.

(** ** Properties *)

Lemma lor_halves lo hi : fits 16 lo -> Z.lor lo (Z.shiftl hi 16) = lo + hi * 2 ^ 16.
Proof.
  intros Hlo. rewrite <- Z.add_nocarry_lor; [by rewrite Z.shiftl_mul_pow2|].
  apply Z.bits_inj'. intros n Hn. rewrite Z.land_spec, Z.bits_0.
  destruct (decide (n < 16)).
  - rewrite Z.shiftl_spec_low by lia. apply andb_false_r.
  - by rewrite (fits_testbit 16) by (done || lia).
Qed.

(** C27.  The instruction fetched at [pc] is decoded from exactly the parcels
    in memory: a 16-bit one when the low two bits of the first parcel are not
    both set, and otherwise the 32-bit word of the two parcels; and all its
    operand fields are in range (register numbers below 32, 12-bit CSR
    address, 32-bit signed immediate). *)
Theorem decode_at_wf {M} `{MemoryLaws M} (mem : M) pc xlen isa i :
  mem_wf mem -> decode_at mem pc xlen isa = inr i ->
  exists lo, read_u16 mem pc = inr lo /\
    ((Z.land lo 3 <> 3 /\ insn_wf lo 2 i)
     \/ (exists hi, Z.land lo 3 = 3 /\ read_u16 mem (wadd 64 pc 2) = inr hi
          /\ insn_wf (lo + hi * 2 ^ 16) 4 i)).
Proof.
  intros Hwf Hd. unfold decode_at in Hd.
  destruct (read_u16 mem pc) as [|lo] eqn:Hlo; [done|]. exists lo. split; [done|].
  destruct (Z.eqb_spec (Z.land lo 3) 3); simpl in Hd.
  - destruct (read_u16 mem (wadd 64 pc 2)) as [|hi] eqn:Hhi; [done|]. simplify_eq. right.
    exists hi. split_and!; [done..|]. rewrite lor_halves; [apply decode_wf|].
    by apply (read_le_fits 2 mem pc).
  - simplify_eq. left. split; [done|]. apply decode_compressed_wf.
Qed.

Lemma decode_at_wf_witness :
  exists i, decode_at (FlatMemory.with_data 0 [0x93; 0x00; 0x50; 0x00]) 0 Rv64 rv64gc = inr i
    /\ insn_op i = Addi /\ insn_imm i = 5
    /\ exists lo, read_u16 (FlatMemory.with_data 0 [0x93; 0x00; 0x50; 0x00]) 0 = inr lo /\
         ((Z.land lo 3 <> 3 /\ insn_wf lo 2 i)
          \/ (exists hi, Z.land lo 3 = 3
               /\ read_u16 (FlatMemory.with_data 0 [0x93; 0x00; 0x50; 0x00]) (wadd 64 0 2) = inr hi
               /\ insn_wf (lo + hi * 2 ^ 16) 4 i)).
Proof.
  eexists. split; [vm_compute; reflexivity|]. split; [reflexivity|]. split; [reflexivity|].
  apply (decode_at_wf (FlatMemory.with_data 0 [0x93; 0x00; 0x50; 0x00]) 0 Rv64 rv64gc).
  - repeat constructor; vm_compute; discriminate || reflexivity.
  - vm_compute. reflexivity.
Defined.
