(* ===== verification/RvGating.v ===== *)
(** * Extension gating of the decoder

    Which operations a configuration may produce, and the proof that the
    decoder of src/isa/riscv/decode.rs and compressed.rs produces no other. *)

From S2P Require Import Prelude RvIsa RvOp RvDecodeBase RvDecodeFp RvDecodeVendor.
From S2P Require Import RvCompressed RvMemory RvDecode RvDecodeWf.

(** The extensions (and register width) an operation belongs to: the rule of
    decode.rs, lines 8 to 10, by which the encodings of a disabled extension are
    illegal. *)
Definition op_enabled (isa : Isa) (rv64 : bool) (op : Op) : bool :=
  match op with
  | Lui | Auipc | Jal | Jalr | Beq | Bne | Blt | Bge | Bltu | Bgeu | Lb | Lh | Lw | Lbu
    | Lhu | Sb | Sh | Sw | Addi | Slti | Sltiu | Xori | Ori | Andi | Slli | Srli | Srai
    | Add | Sub | Sll | Slt | Sltu | Xor | Srl | Sra | Or | And | Fence | Ecall | Ebreak
    | Mret | Sret | Wfi | Uret | SfenceVm | SfenceVma | Illegal =>
      true
  | Lwu | Ld | Sd | Addiw | Slliw | Srliw | Sraiw | Addw | Subw | Sllw | Srlw | Sraw =>
      rv64
  | Sltw =>
      rv64 && isa_xida_sltw isa
  | LdPair | SdPair =>
      negb rv64 && (isa_zilsd isa || isa_c isa && isa_zclsd isa)
  | FenceI =>
      isa_zifencei isa
  | Pause =>
      isa_zihintpause isa
  | NtlP1 | NtlPall | NtlS1 | NtlAll =>
      isa_zihintntl isa
  | CboInval | CboClean | CboFlush =>
      isa_zicbom isa
  | CboZero =>
      isa_zicboz isa
  | PrefetchI | PrefetchR | PrefetchW =>
      isa_zicbop isa
  | CmPush | CmPop | CmPopRetz | CmPopRet | CmMvsa01 | CmMva01s =>
      isa_c isa && isa_zcmp isa
  | CmJt | CmJalt =>
      isa_c isa && isa_zcmt isa
  | WrsNto | WrsSto =>
      isa_zawrs isa
  | SinvalVma | SfenceWInval | SfenceInvalIr =>
      isa_svinval isa
  | HfenceVvma | HfenceGvma | HinvalVvma | HinvalGvma | HlvB | HlvH | HlvW | HlvBu |
    HlvHu | HlvxHu | HsvB | HsvH | HsvW =>
      isa_h isa
  | HlvD | HlvWu | HlvxWu | HsvD =>
      isa_h isa && rv64
  | Csrrw | Csrrs | Csrrc | Csrrwi | Csrrsi | Csrrci =>
      isa_zicsr isa
  | Mul | Mulh | Mulhsu | Mulhu | Div | Divu | Rem | Remu =>
      isa_m isa
  | Mulw | Divw | Divuw | Remw | Remuw =>
      isa_m isa && rv64
  | LrW | ScW | AmoswapW | AmoaddW | AmoxorW | AmoandW | AmoorW | AmominW | AmomaxW |
    AmominuW | AmomaxuW =>
      isa_a isa
  | LrD | ScD | AmoswapD | AmoaddD | AmoxorD | AmoandD | AmoorD | AmominD | AmomaxD |
    AmominuD | AmomaxuD =>
      isa_a isa && rv64
  | AmocasW =>
      isa_zacas isa
  | AmocasD | AmocasQ =>
      isa_zacas isa && rv64
  | Flw | Fsw | FmaddS | FmsubS | FnmsubS | FnmaddS | FaddS | FsubS | FmulS | FdivS |
    FsqrtS | FsgnjS | FsgnjnS | FsgnjxS | FminS | FmaxS | FcvtWS | FcvtWuS | FeqS | FltS
    | FleS | FclassS | FcvtSW | FcvtSWu | FmvXW | FmvWX =>
      isa_f isa
  | FcvtLS | FcvtLuS | FcvtSL | FcvtSLu =>
      isa_f isa && rv64
  | Fld | Fsd =>
      isa_d isa
  | FmaddD | FmsubD | FnmsubD | FnmaddD | FaddD | FsubD | FmulD | FdivD | FsqrtD |
    FsgnjD | FsgnjnD | FsgnjxD | FminD | FmaxD | FcvtWD | FcvtWuD | FeqD | FltD | FleD |
    FclassD | FcvtDW | FcvtDWu | FcvtSD | FcvtDS =>
      isa_f isa && isa_d isa
  | FcvtLD | FcvtLuD | FcvtDL | FcvtDLu | FmvXD | FmvDX =>
      isa_f isa && isa_d isa && rv64
  | Flq | Fsq | FmaddQ | FmsubQ | FnmsubQ | FnmaddQ | FaddQ | FsubQ | FmulQ | FdivQ |
    FsqrtQ | FsgnjQ | FsgnjnQ | FsgnjxQ | FminQ | FmaxQ | FcvtWQ | FcvtWuQ | FeqQ | FltQ
    | FleQ | FclassQ | FcvtQW | FcvtQWu | FcvtSQ | FcvtQS =>
      isa_f isa && isa_q isa
  | FcvtLQ | FcvtLuQ | FcvtQL | FcvtQLu =>
      isa_f isa && isa_q isa && rv64
  | FcvtDQ | FcvtQD =>
      isa_f isa && isa_d isa && isa_q isa
  | FcvtHQ | FcvtQH =>
      isa_f isa && isa_zfh isa && isa_q isa
  | Flh | Fsh | FmaddH | FmsubH | FnmsubH | FnmaddH | FaddH | FsubH | FmulH | FdivH |
    FsqrtH | FsgnjH | FsgnjnH | FsgnjxH | FminH | FmaxH | FcvtWH | FcvtWuH | FeqH | FltH
    | FleH | FclassH | FcvtHW | FcvtHWu | FcvtSH | FcvtHS | FmvXH | FmvHX =>
      isa_f isa && isa_zfh isa
  | FcvtDH | FcvtHD =>
      isa_f isa && isa_zfh isa && isa_d isa
  | FcvtLH | FcvtLuH | FcvtHL | FcvtHLu =>
      isa_f isa && isa_zfh isa && rv64
  | FliS | FminmS | FmaxmS | FroundS | FroundnxS | FleqS | FltqS =>
      isa_f isa && isa_zfa isa
  | FliD | FminmD | FmaxmD | FroundD | FroundnxD | FleqD | FltqD | FcvtmodWD =>
      isa_f isa && isa_zfa isa && isa_d isa
  | FliH | FminmH | FmaxmH | FroundH | FroundnxH | FleqH | FltqH =>
      isa_f isa && isa_zfh isa && isa_zfa isa
  | Sh1add | Sh2add | Sh3add =>
      isa_zba isa
  | AddUw | Sh1addUw | Sh2addUw | Sh3addUw | SlliUw =>
      isa_zba isa && rv64
  | Clz =>
      isa_zbb isa || isa_xsoteria isa && negb rv64
  | Andn | Orn | Xnor | Ctz | Cpop | Max | Maxu | Min | Minu | SextB | SextH | ZextH |
    Rol | Ror | Rori | Orcb | Rev8 =>
      isa_zbb isa
  | Clzw | Ctzw | Cpopw | Rolw | Rorw | Roriw =>
      isa_zbb isa && rv64
  | Clmul | Clmulh | Clmulr =>
      isa_zbc isa
  | Bclr | Bclri | Bext | Bexti | Binv | Binvi | Bset | Bseti =>
      isa_zbs isa
  | CzeroEqz | CzeroNez =>
      isa_zicond isa
  | Pack | Packh | Brev8 =>
      isa_zbkb isa
  | Packw =>
      isa_zbkb isa && rv64
  | Zip | Unzip =>
      isa_zbkb isa && negb rv64
  | Xperm4 | Xperm8 =>
      isa_zbkx isa
  | Sha256Sig0 | Sha256Sig1 | Sha256Sum0 | Sha256Sum1 =>
      isa_zknh isa
  | Sha512Sig0 | Sha512Sig1 | Sha512Sum0 | Sha512Sum1 =>
      isa_zknh isa && rv64
  | Sha512Sig0l | Sha512Sig0h | Sha512Sig1l | Sha512Sig1h | Sha512Sum0r | Sha512Sum1r =>
      isa_zknh isa && negb rv64
  | Sm3p0 | Sm3p1 =>
      isa_zksh isa
  | Sm4ed | Sm4ks =>
      isa_zksed isa
  | Aes32esi | Aes32esmi =>
      isa_zkne isa && negb rv64
  | Aes32dsi | Aes32dsmi =>
      isa_zknd isa && negb rv64
  | Aes64es | Aes64esm =>
      isa_zkne isa && rv64
  | Aes64ds | Aes64dsm | Aes64im =>
      isa_zknd isa && rv64
  | Aes64ks1i | Aes64ks2 =>
      (isa_zkne isa || isa_zknd isa) && rv64
  | Grev | Grevi | Bitc | Bitci | Bits | Bitsi | Fls | Pcnt =>
      isa_xsoteria isa && negb rv64
  | NdsLdgp | NdsLwugp | NdsSdgp | NdsLeaBZe | NdsLeaHZe | NdsLeaWZe | NdsLeaDZe =>
      isa_xandes isa && rv64
  | H3Block | H3Unblock | H3Bextm | H3Bextmi =>
      isa_xhazard3 isa
  | NdsLbgp | NdsLbugp | NdsLhgp | NdsLhugp | NdsLwgp | NdsSbgp | NdsShgp | NdsSwgp |
    NdsAddigp | NdsBfoz | NdsBfos | NdsBbc | NdsBbs | NdsBeqc | NdsBnec | NdsLeaH |
    NdsLeaW | NdsLeaD | NdsFfb | NdsFfmism | NdsFfzmism | NdsFlmism =>
      isa_xandes isa
  | Vsetvli | Vsetivli | Vsetvl | Vle | Vse | Vlse | Vsse | Vlxei | Vsxei | Vlm | Vsm |
    Vlre | Vsre | Vlseg | Vsseg | Vleff | Vadd | Vsub | Vrsub | Vand | Vor | Vxor |
    Vminu | Vmin | Vmaxu | Vmax | Vsll | Vsrl | Vsra | Vmerge | Vmseq | Vmsne | Vmsltu |
    Vmslt | Vmsleu | Vmsle | Vmsgtu | Vmsgt | Vmul | Vmulh | Vmulhu | Vmulhsu | Vdivu |
    Vdiv | Vremu | Vrem | Vfadd | Vfsub | Vfrsub | Vfmul | Vfdiv | Vfrdiv | Vfsqrt |
    Vfmin | Vfmax | Vfsgnj | Vfsgnjn | Vfsgnjx | Vmfeq | Vmfne | Vmflt | Vmfle | Vmfgt |
    Vmfge | Vfmacc | Vfnmacc | Vfmsac | Vfnmsac | Vfmadd | Vfnmadd | Vfmsub | Vfnmsub |
    Vredsum | Vredand | Vredor | Vredxor | Vredminu | Vredmin | Vredmaxu | Vredmax |
    Vfredusum | Vfredosum | Vfredmin | Vfredmax | VmvXS | VmvSX | VfmvFS | VfmvSF |
    Vmand | Vmnand | Vmandn | Vmxor | Vmor | Vmnor | Vmorn | Vmxnor | VzextVf2 |
    VsextVf2 | VzextVf4 | VsextVf4 | VzextVf8 | VsextVf8 | Vcpop | Vfirst | Vmsbf |
    Vmsof | Vmsif | Viota | Vid | Vslideup | Vslidedown | Vslide1up | Vslide1down |
    Vfslide1up | Vfslide1down | Vrgather | Vrgatherei16 | Vcompress | Vadc | Vmadc |
    Vsbc | Vmsbc | Vsaddu | Vsadd | Vssubu | Vssub | Vaaddu | Vaadd | Vasubu | Vasub |
    Vssrl | Vssra | Vsmul | Vwaddu | Vwadd | Vwsubu | Vwsub | VwadduW | VwaddW | VwsubuW
    | VwsubW | Vwmulu | Vwmulsu | Vwmul | Vwmaccu | Vwmacc | Vwmaccsu | Vwmaccus | Vnsrl
    | Vnsra | Vnclipu | Vnclip | VfcvtXuF | VfcvtXF | VfcvtFXu | VfcvtFX | VfcvtRtzXuF |
    VfcvtRtzXF | VfwcvtXuF | VfwcvtXF | VfwcvtFXu | VfwcvtFX | VfwcvtFF | VfwcvtRtzXuF |
    VfwcvtRtzXF | VfncvtXuF | VfncvtXF | VfncvtFXu | VfncvtFX | VfncvtFF | VfncvtRodFF |
    VfncvtRtzXuF | VfncvtRtzXF | Vfwadd | Vfwsub | Vfwmul | VfwaddW | VfwsubW | Vfwmacc
    | Vfwnmacc | Vfwmsac | Vfwnmsac | Vwredsumu | Vwredsum | Vfwredusum | Vfwredosum |
    Vfclass | Vmvr | Vfrsqrt7 | Vfrec7 =>
      isa_v isa
  | _ => isa_xthead isa
  end.

(** The operations of the A extension, by register width. *)
Definition is_a_op (rv64 : bool) (op : Op) : bool :=
  match op with
  | LrW | ScW | AmoswapW | AmoaddW | AmoxorW | AmoandW | AmoorW | AmominW | AmomaxW |
    AmominuW | AmomaxuW => true
  | LrD | ScD | AmoswapD | AmoaddD | AmoxorD | AmoandD | AmoorD | AmominD | AmomaxD |
    AmominuD | AmomaxuD => rv64
  | _ => false
  end.

(** ** Composing decoders *)

Section Gate.
Context (isa : Isa) (rv64 : bool).
Abbreviation en := (op_enabled isa rv64).
Abbreviation ok i := (en (insn_op i) = true).

Lemma ok_base_or_illegal o w :
  (forall op, o = Some op -> en op = true) -> ok (base_or_illegal o w).
Proof. by apply (base_or_illegal_ind (fun i => ok i)). Qed.

Lemma ok_try_base w c o k :
  (forall op, c = true -> o = Some op -> en op = true) -> ok k -> ok (try_base w c o k).
Proof. apply (try_base_ind (fun i => ok i)). Qed.

Lemma ok_try_imm w c o imm k :
  (forall op, c = true -> o = Some op -> en op = true) -> ok k -> ok (try_imm w c o imm k).
Proof. apply (try_imm_ind (fun i => ok i)). Qed.

Lemma ok_try_insn c i k : (c = true -> ok i) -> ok k -> ok (try_insn c i k).
Proof. apply (try_insn_ind (fun i => ok i)). Qed.

Lemma ok_if (c : bool) i j : (c = true -> ok i) -> (c = false -> ok j) -> ok (if c then i else j).
Proof. apply (if_ind (fun i => ok i)). Qed.

Lemma ok_default d k l :
  ok d -> Forall (fun '(k', g, i) => k = k' -> g = true -> ok i) l -> ok (default d (arms k l)).
Proof. apply (arms_default_ind (fun i => ok i)). Qed.

Lemma ok_match (o : option Op) (f : Op -> Insn) i :
  (forall op, o = Some op -> ok (f op)) -> ok i ->
  ok (match o with Some op => f op | None => i end).
Proof. apply (match_op_ind (fun i => ok i)). Qed.

Lemma en_if (c : bool) x y : en x = true -> en y = true -> en (if c then x else y) = true.
Proof. by destruct c. Qed.

Lemma en_arms k l op :
  arms k l = Some op ->
  Forall (fun '(k', g, op) => k = k' -> g = true -> en op = true) l -> en op = true.
Proof. apply (arms_ind (fun op => en op = true)). Qed.

Lemma en_mjoin_arms k (l : list (Z * bool * option Op)) op :
  mjoin (arms k l) = Some op ->
  Forall (fun '(k', g, o) => k = k' -> g = true -> forall op, o = Some op -> en op = true) l ->
  en op = true.
Proof.
  intros Ho Hl. destruct (arms k l) as [o|] eqn:E; simpl in Ho; [|done]. subst.
  by apply (arms_ind (fun o => forall op, o = Some op -> en op = true) _ _ _ E Hl).
Qed.
End Gate.

(** ** Tactics *)

(** Closes [op_enabled isa rv64 op = true] for a known [op] from the guards in
    the context. *)
Ltac gate_bool :=
  intros; simplify_eq; cbn [op_enabled insn_op base with_imm set_insn_imm illegal set_insn_rs2
    set_insn_rs1 mk ill illegal_compressed] in *;
  repeat match goal with
         | H : ?p -> _ = false, Hp : ?p |- _ => specialize (H Hp)
         | H : _ && _ = true |- _ => apply andb_true_iff in H as [? ?]
         | H : negb _ = true |- _ => apply negb_true_iff in H
         | H : negb _ = false |- _ => apply negb_false_iff in H
         end;
  repeat match goal with
         | H : ?b = true |- context [?b] => rewrite H
         | H : ?b = false |- context [?b] => rewrite H
         end;
  cbn [andb orb negb]; rewrite ?orb_true_r, ?andb_true_r;
  match goal with |- true = true => reflexivity end.

(** Splits a decoder into its arms. *)
Ltac gate :=
  cbv beta zeta;
  repeat first
    [ apply ok_try_base; intros
    | apply ok_try_imm; intros
    | apply ok_base_or_illegal; intros
    | apply ok_try_insn; intros
    | apply ok_if; intros
    | apply ok_default
    | apply ok_match; intros ];
  repeat match goal with
         | |- Forall _ _ => each_arm
         | H : mjoin (arms _ _) = Some ?op |- op_enabled _ _ ?op = true =>
             apply (en_mjoin_arms _ _ _ _ _ H); clear H; each_arm
         | H : arms _ _ = Some ?op |- op_enabled _ _ ?op = true =>
             apply (en_arms _ _ _ _ _ H); clear H; each_arm
         | H : arms _ _ = Some ?op |- op_enabled _ _ (insn_op (with_imm ?op _ _)) = true =>
             apply (en_arms _ _ _ _ _ H); clear H; each_arm
         end.

(** ** The opcode groups *)

Section Groups.
Context (isa : Isa) (rv64 : bool).
Abbreviation ok i := (op_enabled isa rv64 (insn_op i) = true).

Lemma gate_branch w : ok (decode_branch w).
Proof. unfold decode_branch. gate; gate_bool. Qed.

(** The pair forms share their encoding with the RV64 ones, which win. *)
Lemma gate_load w : ok (decode_load w rv64 isa).
Proof.
  apply ok_match; [|done]. intros op Hop.
  apply (arms_seq_ind (fun op => op_enabled isa rv64 op = true) _ _ _ Hop).
  cbn [arms_seq]. repeat split; intros; gate_bool.
Qed.

Lemma gate_store w : ok (decode_store w rv64 isa).
Proof.
  apply ok_match; [|done]. intros op Hop.
  apply (arms_seq_ind (fun op => op_enabled isa rv64 op = true) _ _ _ Hop).
  cbn [arms_seq]. repeat split; intros; gate_bool.
Qed.

Lemma gate_op w : ok (decode_op w rv64 isa).
Proof. unfold decode_op, decode_op_m, decode_op_aes, decode_op_base. gate; gate_bool. Qed.

Lemma gate_op32 w : rv64 = true -> ok (decode_op32 w isa).
Proof. intros ?. unfold decode_op32. gate; gate_bool. Qed.

Lemma gate_fence w : ok (decode_fence w isa).
Proof. unfold decode_fence. gate; gate_bool. Qed.

Lemma gate_system w : ok (decode_system w rv64 isa).
Proof.
  unfold decode_system, decode_hypervisor_mem, decode_priv. gate; try gate_bool.
Qed.

(** The atomic opcode is open to Zacas as well as A, and only AMOCAS consults
    Zacas inside. *)
Lemma gate_amo w :
  isa_a isa || isa_zacas isa = true ->
  let i := decode_amo w rv64 isa in
  ok i \/ (is_a_op rv64 (insn_op i) = true /\ isa_a isa = false /\ isa_zacas isa = true).
Proof.
  intros Ha. unfold decode_amo. cbv zeta.
  destruct (amo_width _ _) as [width|] eqn:Hw; [|by left].
  assert (width = 4 \/ rv64 = true) as Hr.
  { apply (arms_ind (fun width => width = 4 \/ rv64 = true) _ _ _ Hw).
    each_arm; auto. }
  destruct (amo_op _ _ _) as [op|] eqn:Hop; [|by left].
  do 2 (match goal with |- context [if ?c then illegal w 4 else _] => destruct c; [by left|] end).
  cbn [base insn_op].
  apply (arms_ind (fun op => op_enabled isa rv64 op = true
    \/ is_a_op rv64 op = true /\ isa_a isa = false /\ isa_zacas isa = true) _ _ _ Hop).
  clear -Ha Hr. destruct (isa_a isa) eqn:Ea; cbn [orb] in Ha;
    each_arm; (destruct Hr as [->|Hr]; [discriminate || (cbn [is_a_op]; auto) | ]);
    cbn [is_a_op]; first [left; gate_bool | right; auto].
Qed.

Lemma gate_op_imm w : ok (decode_op_imm w rv64 isa).
Proof.
  unfold decode_op_imm, decode_shift_left_imm, decode_shift_right_imm. gate; gate_bool.
Qed.

Lemma gate_op_imm32 w : rv64 = true -> ok (decode_op_imm32 w isa).
Proof. intros ?. unfold decode_op_imm32. gate; gate_bool. Qed.

Lemma gate_load_fp w : isa_f isa = true -> ok (decode_load_fp w isa).
Proof. intros ?. unfold decode_load_fp, decode_vload. gate; gate_bool. Qed.

Lemma gate_store_fp w : isa_f isa = true -> ok (decode_store_fp w isa).
Proof. intros ?. unfold decode_store_fp, decode_vstore. gate; gate_bool. Qed.

Lemma gate_op_fp w : isa_f isa = true -> ok (decode_op_fp w rv64 isa).
Proof. intros ?. unfold decode_op_fp, decode_zfa, decode_zfh, decode_op_fp_sdq. gate; gate_bool. Qed.

Lemma gate_vector w : isa_v isa = true -> ok (decode_vector w).
Proof. intros ?. unfold decode_vector, decode_opi, decode_opm, decode_opf. gate; gate_bool. Qed.

Lemma gate_fma single double half quad w :
  op_enabled isa rv64 single = true ->
  (isa_d isa = true -> op_enabled isa rv64 double = true) ->
  (isa_zfh isa = true -> op_enabled isa rv64 half = true) ->
  (isa_q isa = true -> op_enabled isa rv64 quad = true) ->
  ok (decode_fma single double half quad w isa).
Proof. intros Hs Hd Hh Hq. unfold decode_fma. gate; auto. Qed.

Lemma gate_xsoteria0 w :
  isa_xsoteria isa && negb rv64 = true -> ok (decode_xsoteria_custom0 w).
Proof. intros ?. unfold decode_xsoteria_custom0. gate; gate_bool. Qed.

Lemma gate_xsoteria1 w :
  isa_xsoteria isa && negb rv64 = true -> ok (decode_xsoteria_custom1 w).
Proof. intros ?. unfold decode_xsoteria_custom1. gate; gate_bool. Qed.

Lemma gate_andes0 w : isa_xandes isa = true -> ok (decode_andes_custom0 w).
Proof. intros ?. unfold decode_andes_custom0, andes_base. gate; gate_bool. Qed.

Lemma gate_andes1 w : isa_xandes isa = true -> ok (decode_andes_custom1 w rv64).
Proof. intros ?. unfold decode_andes_custom1, andes_base. gate; gate_bool. Qed.

Lemma gate_andes2 w : isa_xandes isa = true -> ok (decode_andes_custom2 w rv64).
Proof.
  intros ?. unfold decode_andes_custom2. gate; try gate_bool; apply en_if; gate_bool.
Qed.

Lemma gate_hazard3 w : isa_xhazard3 isa = true -> ok (decode_hazard3_custom0 w).
Proof. intros ?. unfold decode_hazard3_custom0. gate; gate_bool. Qed.

(** T-Head operations are gated by [xthead] alone. *)
Lemma thead_arithmetic_imm_op op w i : insn_op (thead_arithmetic_imm op w i) = insn_op i.
Proof. by destruct op. Qed.

Lemma gate_thead_arithmetic w f3 f7 :
  isa_xthead isa = true -> ok (decode_thead_arithmetic w f3 f7).
Proof.
  intros ?. unfold decode_thead_arithmetic, thead_arithmetic_op.
  gate; try gate_bool; [apply en_if; gate_bool|].
  rewrite thead_arithmetic_imm_op. cbn [insn_op base]. gate; gate_bool.
Qed.

Lemma gate_thead_mem w f3 f7 : isa_xthead isa = true -> ok (decode_thead_mem w f3 f7).
Proof.
  intros ?. unfold decode_thead_mem, thead_mem_op. apply ok_match; [|gate_bool].
  intros op Hop. assert (op_enabled isa rv64 op = true) as Hen by (gate; gate_bool).
  gate; try exact Hen; gate_bool.
Qed.

#[local] Opaque decode_thead_arithmetic decode_thead_mem.

Lemma gate_thead w : isa_xthead isa = true -> ok (decode_thead_custom0 w).
Proof.
  intros ?. unfold decode_thead_custom0, decode_thead_subop0, decode_thead_vec.
  gate; try gate_bool; auto using gate_thead_arithmetic, gate_thead_mem.
Qed.

#[local] Opaque decode_xsoteria_custom0 decode_xsoteria_custom1 decode_andes_custom0
  decode_andes_custom1 decode_thead_custom0 decode_hazard3_custom0.

Lemma gate_custom0 w : ok (decode_custom0 w rv64 isa).
Proof.
  unfold decode_custom0. gate; [| | | |gate_bool];
    auto using gate_xsoteria0, gate_andes0, gate_thead, gate_hazard3.
Qed.

Lemma gate_custom1 w : ok (decode_custom1 w rv64 isa).
Proof.
  unfold decode_custom1. gate; [| |gate_bool]; auto using gate_xsoteria1, gate_andes1.
Qed.

End Groups.

(** ** 32-bit encodings *)

#[local] Opaque decode_branch decode_load decode_store decode_op_imm decode_op_imm32 decode_op
  decode_op32 decode_fence decode_system decode_amo decode_load_fp decode_store_fp
  decode_op_fp decode_fma decode_vector decode_custom0 decode_custom1 decode_andes_custom2.

Lemma decode_gated w xlen isa :
  let i := decode w xlen isa in
  op_enabled isa (is_rv64 xlen) (insn_op i) = true
  \/ (is_a_op (is_rv64 xlen) (insn_op i) = true
      /\ isa_a isa = false /\ isa_zacas isa = true).
Proof.
  unfold decode. cbv zeta.
  apply (arms_default_ind (fun i => op_enabled isa (is_rv64 xlen) (insn_op i) = true
    \/ is_a_op (is_rv64 xlen) (insn_op i) = true /\ isa_a isa = false /\ isa_zacas isa = true));
    [by left|].
  each_arm; try (by left); try (by apply gate_amo); left;
    auto using gate_branch, gate_load, gate_store, gate_op_imm, gate_op_imm32, gate_op,
      gate_op32, gate_fence, gate_system, gate_load_fp, gate_store_fp, gate_op_fp,
      gate_vector, gate_custom0, gate_custom1, gate_andes2.
  all: apply gate_fma; gate_bool.
Qed.

(** ** Compressed encodings *)

Section Compressed.
Context (isa : Isa) (rv64 : bool) (Hc : isa_c isa = true).

(** The single-precision slots of RV32C are the one place where the decoder
    does not consult the extension they belong to. *)
Definition rvc_flw_slot (i : Insn) : Prop :=
  match insn_op i with
  | Flw | Fsw => rv64 = false /\ isa_zclsd isa = false
  | _ => False
  end.
Abbreviation ok i := (op_enabled isa rv64 (insn_op i) = true \/ rvc_flw_slot i).

Lemma ok_if_c (c : bool) i j :
  (c = true -> ok i) -> (c = false -> ok j) -> ok (if c then i else j).
Proof. apply (if_ind (fun i => ok i)). Qed.

Lemma ok_default_c d k l :
  ok d -> Forall (fun '(k', g, i) => k = k' -> g = true -> ok i) l -> ok (default d (arms k l)).
Proof. apply (arms_default_ind (fun i => ok i)). Qed.

Ltac gate_c :=
  cbv beta zeta; repeat first [apply ok_if_c; intros | apply ok_default_c]; each_arm;
  first [left; gate_bool | right; done].

Lemma gate_q0 h f3 : ok (decode_q0 h f3 rv64 isa).
Proof. unfold decode_q0, decode_zcb_q0. gate_c. Qed.

Lemma gate_zcb_unary h rd_ : ok (decode_zcb_unary h rd_ rv64 isa).
Proof. unfold decode_zcb_unary. gate_c. Qed.

#[local] Opaque decode_zcb_unary.

Lemma gate_q1_alu h : ok (decode_q1_alu h rv64 isa).
Proof.
  unfold decode_q1_alu. cbv beta zeta.
  repeat first [apply ok_if_c; intros | apply ok_default_c]; each_arm;
    first [apply gate_zcb_unary | left; gate_bool].
Qed.

#[local] Opaque decode_q1_alu.

Lemma gate_q1 h f3 : ok (decode_q1 h f3 rv64 isa).
Proof.
  unfold decode_q1. cbv beta zeta. repeat (apply ok_if_c; intros);
    first [apply gate_q1_alu | left; gate_bool].
Qed.

Lemma gate_zcmp_zcmt h : ok (decode_zcmp_zcmt h rv64 isa).
Proof.
  unfold decode_zcmp_zcmt. cbv beta zeta.
  assert (ok (if isa_zcmt isa && (bits h 12 10 =? 0)
              then mk (if bits h 9 2 <? 32 then CmJt else CmJalt) 0 0 0 (bits h 9 2) h
              else ill h)) as Hz.
  { apply ok_if_c; intros; left; [apply en_if|]; gate_bool. }
  apply ok_if_c; [intros Hm|done]. destruct (arms _ _) as [op|] eqn:Hop.
  - assert (op_enabled isa rv64 op = true) as Hen
      by (apply (en_arms _ _ _ _ _ Hop); each_arm; gate_bool).
    destruct (zcmp_stack_adj _ _ _); left; [exact Hen | gate_bool].
  - apply ok_if_c; intros; [|exact Hz].
    repeat (apply ok_if_c; intros); left; gate_bool.
Qed.

Lemma gate_q2_jump h rd : ok (decode_q2_jump_mv_add h rd isa).
Proof. unfold decode_q2_jump_mv_add. gate_c. Qed.

#[local] Opaque decode_zcmp_zcmt decode_q2_jump_mv_add.

Lemma gate_q2 h f3 : ok (decode_q2 h f3 rv64 isa).
Proof.
  unfold decode_q2. cbv beta zeta. repeat (apply ok_if_c; intros);
    first [apply gate_zcmp_zcmt | apply gate_q2_jump | left; gate_bool | right; done].
Qed.
End Compressed.

#[local] Opaque decode_q0 decode_q1 decode_q2.

Lemma decode_compressed_gated half xlen isa :
  let i := decode_compressed half xlen isa in
  op_enabled isa (is_rv64 xlen) (insn_op i) = true \/ rvc_flw_slot isa (is_rv64 xlen) i.
Proof.
  unfold decode_compressed. destruct (isa_c isa) eqn:Hc; [|by left].
  destruct (half =? 0); [by left|]. cbn [negb orb]. unfold decode_rvc.
  repeat (apply ok_if_c; intros); auto using gate_q0, gate_q1, gate_q2.
Qed.

Lemma decode_at_gated {M} `{Memory M} (mem : M) pc xlen isa i :
  decode_at mem pc xlen isa = inr i ->
  op_enabled isa (is_rv64 xlen) (insn_op i) = true
  \/ (insn_len i = 2 /\ (insn_op i = Flw \/ insn_op i = Fsw)
      /\ xlen = Rv32 /\ isa_zclsd isa = false)
  \/ (is_a_op (is_rv64 xlen) (insn_op i) = true
      /\ isa_a isa = false /\ isa_zacas isa = true).
Proof.
  unfold decode_at. destruct (read_u16 mem pc) as [|lo]; [done|].
  destruct (negb _).
  - intros [= <-]. pose proof (decode_compressed_gated lo xlen isa) as [He|He]; [by left|].
    right. left. pose proof (wf_len _ _ _ (decode_compressed_wf lo xlen isa)) as Hlen.
    unfold rvc_flw_slot in He. destruct (insn_op _); try done;
      destruct He as [Hx Hz], xlen; try done; auto.
  - destruct (read_u16 mem _) as [|hi]; [done|]. intros [= <-].
    destruct (decode_gated (Z.lor lo (Z.shiftl hi 16)) xlen isa) as [He|He]; auto.
Qed.

(** ** Properties *)


(** The base integer ISA with Zacas and without A. *)
Definition rv_zacas : Isa :=
  {| isa_m := false; isa_a := false; isa_f := false; isa_d := false;
     isa_q := false; isa_c := false; isa_zicsr := false;
     isa_zifencei := false; isa_zihintpause := false; isa_zihintntl := false;
     isa_zacas := true; isa_zawrs := false; isa_zicbom := false;
     isa_zicboz := false; isa_zicbop := false; isa_zba := false;
     isa_zbb := false; isa_zbc := false; isa_zbs := false;
     isa_zicond := false; isa_zfa := false; isa_zbkb := false;
     isa_zfh := false; isa_zbkx := false; isa_zknh := false;
     isa_zksh := false; isa_zksed := false; isa_zkne := false;
     isa_zknd := false; isa_zcb := false; isa_zcmp := false;
     isa_zcmt := false; isa_zclsd := false; isa_zilsd := false;
     isa_h := false; isa_svinval := false; isa_v := false;
     isa_xsoteria := false; isa_xandes := false; isa_xthead := false;
     isa_xhazard3 := false; isa_xida_sltw := false |}.

