(* ===== verification/RvEncode.v ===== *)
(** * Reference encoder and the decode round trip

    The RISC-V instruction formats as an independent encoder, and the proof
    that [decode] inverts it: a legal encoding of an operation with in-range
    operands decodes back to that operation and those operands. *)

From S2P Require Import Prelude RvIsa RvOp RvDecodeBase RvDecodeFp RvDecodeVendor.
From S2P Require Import RvCompressed RvMemory RvDecode RvDecodeWf RvGating.

(** ** Formats *)

(** The encoding formats with their fixed fields: the opcode, then [funct3],
    then [funct7], [funct6], [funct5] or the fixed [rs2]; [ord] are the two
    ordering bits of an atomic (aq, rl) or the fm, pred and succ fields of a fence. *)
Inductive Enc : Type :=
| EncR (opc f3 f7 : Z)
| EncUnary (opc f3 f7 r2 : Z)
| EncI (opc f3 : Z)
| EncShift (opc f3 f6 : Z)
| EncShiftW (opc f3 f7 : Z)
| EncS (opc f3 : Z)
| EncB (opc f3 : Z)
| EncU (opc : Z)
| EncJ (opc : Z)
| EncAmo (f3 f5 ord : Z)
| EncLr (f3 ord : Z)
| EncFence (ord : Z)
| EncFixed (word : Z).

(** The fields of an instruction word, from the low end. *)
Definition word_r (opc rd f3 rs1 rs2 f7 : Z) : Z :=
  opc + rd * 2 ^ 7 + f3 * 2 ^ 12 + rs1 * 2 ^ 15 + rs2 * 2 ^ 20 + f7 * 2 ^ 25.
Definition word_i (opc rd f3 rs1 imm12 : Z) : Z :=
  opc + rd * 2 ^ 7 + f3 * 2 ^ 12 + rs1 * 2 ^ 15 + imm12 * 2 ^ 20.

(** Bits [hi:lo] of an immediate. *)
Definition slice (imm hi lo : Z) : Z := imm / 2 ^ lo mod 2 ^ (hi - lo + 1).

(** The instruction word of a format with its operands. *)
Definition encode (e : Enc) (rd rs1 rs2 imm : Z) : Z :=
  match e with
  | EncR opc f3 f7 => word_r opc rd f3 rs1 rs2 f7
  | EncUnary opc f3 f7 r2 => word_r opc rd f3 rs1 r2 f7
  | EncI opc f3 => word_i opc rd f3 rs1 (slice imm 11 0)
  | EncShift opc f3 f6 => word_i opc rd f3 rs1 (imm + f6 * 2 ^ 6)
  | EncShiftW opc f3 f7 => word_r opc rd f3 rs1 imm f7
  | EncS opc f3 => word_r opc (slice imm 4 0) f3 rs1 rs2 (slice imm 11 5)
  | EncB opc f3 =>
      word_r opc (slice imm 4 1 * 2 + slice imm 11 11) f3 rs1 rs2
        (slice imm 12 12 * 2 ^ 6 + slice imm 10 5)
  | EncU opc => opc + rd * 2 ^ 7 + slice imm 31 12 * 2 ^ 12
  | EncJ opc =>
      opc + rd * 2 ^ 7 + slice imm 19 12 * 2 ^ 12 + slice imm 11 11 * 2 ^ 20
      + slice imm 10 1 * 2 ^ 21 + slice imm 20 20 * 2 ^ 31
  | EncAmo f3 f5 ord => word_r 0x2f rd f3 rs1 rs2 (f5 * 2 ^ 2 + ord)
  | EncLr f3 ord => word_r 0x2f rd f3 rs1 0 (0x02 * 2 ^ 2 + ord)
  | EncFence ord => word_i 0x0f rd 0 rs1 ord
  | EncFixed word => word
  end.

(** The immediates a format can express. *)
Definition imm_in_range (rv64 : bool) (e : Enc) (imm : Z) : Prop :=
  match e with
  | EncR _ _ _ | EncUnary _ _ _ _ | EncAmo _ _ _ | EncLr _ _ | EncFence _ | EncFixed _ => imm = 0
  | EncI _ _ | EncS _ _ => - 2 ^ 11 <= imm < 2 ^ 11
  | EncShift _ _ _ => 0 <= imm < if rv64 then 64 else 32
  | EncShiftW _ _ _ => 0 <= imm < 32
  | EncB _ _ => - 2 ^ 12 <= imm < 2 ^ 12 /\ imm mod 2 = 0
  | EncU _ => - 2 ^ 31 <= imm < 2 ^ 31 /\ imm mod 2 ^ 12 = 0
  | EncJ _ => - 2 ^ 20 <= imm < 2 ^ 20 /\ imm mod 2 = 0
  end.

Definition uses_rd (e : Enc) : bool :=
  match e with EncS _ _ | EncB _ _ | EncFixed _ => false | _ => true end.
Definition uses_rs1 (e : Enc) : bool :=
  match e with EncU _ | EncJ _ | EncFixed _ => false | _ => true end.
Definition uses_rs2 (e : Enc) : bool :=
  match e with EncR _ _ _ | EncS _ _ | EncB _ _ | EncAmo _ _ _ => true | _ => false end.
(** The acquire and release bits of an atomic. *)
Definition aq_rl (e : Enc) : option Z :=
  match e with EncAmo _ _ ord | EncLr _ ord => Some ord | _ => None end.

(** ** The encoding of each operation (RISC-V unprivileged specification) *)

Definition enc_of (rv64 : bool) (ord : Z) (op : Op) : option Enc :=
  match op with
  | Lui => Some (EncU 0x37)
  | Auipc => Some (EncU 0x17)
  | Jal => Some (EncJ 0x6f)
  | Jalr => Some (EncI 0x67 0)
  | Beq => Some (EncB 0x63 0)
  | Bne => Some (EncB 0x63 1)
  | Blt => Some (EncB 0x63 4)
  | Bge => Some (EncB 0x63 5)
  | Bltu => Some (EncB 0x63 6)
  | Bgeu => Some (EncB 0x63 7)
  | Lb => Some (EncI 0x03 0)
  | Lh => Some (EncI 0x03 1)
  | Lw => Some (EncI 0x03 2)
  | Ld => Some (EncI 0x03 3)
  | Lbu => Some (EncI 0x03 4)
  | Lhu => Some (EncI 0x03 5)
  | Lwu => Some (EncI 0x03 6)
  | Sb => Some (EncS 0x23 0)
  | Sh => Some (EncS 0x23 1)
  | Sw => Some (EncS 0x23 2)
  | Sd => Some (EncS 0x23 3)
  | Fence => Some (EncFence ord)
  | Ecall => Some (EncFixed 0x00000073)
  | Ebreak => Some (EncFixed 0x00100073)
  | Flh => Some (EncI 0x07 1)
  | Flw => Some (EncI 0x07 2)
  | Fld => Some (EncI 0x07 3)
  | Flq => Some (EncI 0x07 4)
  | Fsh => Some (EncS 0x27 1)
  | Fsw => Some (EncS 0x27 2)
  | Fsd => Some (EncS 0x27 3)
  | Fsq => Some (EncS 0x27 4)
  | Addi => Some (EncI 0x13 0)
  | Slti => Some (EncI 0x13 2)
  | Sltiu => Some (EncI 0x13 3)
  | Xori => Some (EncI 0x13 4)
  | Ori => Some (EncI 0x13 6)
  | Andi => Some (EncI 0x13 7)
  | Slli => Some (EncShift 0x13 1 0x00)
  | Srli => Some (EncShift 0x13 5 0x00)
  | Srai => Some (EncShift 0x13 5 0x10)
  | Bclri => Some (EncShift 0x13 1 0x12)
  | Bseti => Some (EncShift 0x13 1 0x0a)
  | Binvi => Some (EncShift 0x13 1 0x1a)
  | Bexti => Some (EncShift 0x13 5 0x12)
  | Rori => Some (EncShift 0x13 5 0x18)
  | Addiw => Some (EncI 0x1b 0)
  | SlliUw => Some (EncShift 0x1b 1 0x02)
  | Slliw => Some (EncShiftW 0x1b 1 0x00)
  | Srliw => Some (EncShiftW 0x1b 5 0x00)
  | Sraiw => Some (EncShiftW 0x1b 5 0x20)
  | Roriw => Some (EncShiftW 0x1b 5 0x30)
  | Add => Some (EncR 0x33 0 0x00)
  | Sub => Some (EncR 0x33 0 0x20)
  | Sll => Some (EncR 0x33 1 0x00)
  | Slt => Some (EncR 0x33 2 0x00)
  | Sltu => Some (EncR 0x33 3 0x00)
  | Xor => Some (EncR 0x33 4 0x00)
  | Srl => Some (EncR 0x33 5 0x00)
  | Sra => Some (EncR 0x33 5 0x20)
  | Or => Some (EncR 0x33 6 0x00)
  | And => Some (EncR 0x33 7 0x00)
  | Mul => Some (EncR 0x33 0 0x01)
  | Mulh => Some (EncR 0x33 1 0x01)
  | Mulhsu => Some (EncR 0x33 2 0x01)
  | Mulhu => Some (EncR 0x33 3 0x01)
  | Div => Some (EncR 0x33 4 0x01)
  | Divu => Some (EncR 0x33 5 0x01)
  | Rem => Some (EncR 0x33 6 0x01)
  | Remu => Some (EncR 0x33 7 0x01)
  | Sh1add => Some (EncR 0x33 2 0x10)
  | Sh2add => Some (EncR 0x33 4 0x10)
  | Sh3add => Some (EncR 0x33 6 0x10)
  | Andn => Some (EncR 0x33 7 0x20)
  | Orn => Some (EncR 0x33 6 0x20)
  | Xnor => Some (EncR 0x33 4 0x20)
  | Rol => Some (EncR 0x33 1 0x30)
  | Ror => Some (EncR 0x33 5 0x30)
  | Clmul => Some (EncR 0x33 1 0x05)
  | Clmulr => Some (EncR 0x33 2 0x05)
  | Clmulh => Some (EncR 0x33 3 0x05)
  | Min => Some (EncR 0x33 4 0x05)
  | Minu => Some (EncR 0x33 5 0x05)
  | Max => Some (EncR 0x33 6 0x05)
  | Maxu => Some (EncR 0x33 7 0x05)
  | Bclr => Some (EncR 0x33 1 0x24)
  | Bext => Some (EncR 0x33 5 0x24)
  | Binv => Some (EncR 0x33 1 0x34)
  | Bset => Some (EncR 0x33 1 0x14)
  | CzeroEqz => Some (EncR 0x33 5 0x07)
  | CzeroNez => Some (EncR 0x33 7 0x07)
  | Addw => Some (EncR 0x3b 0 0x00)
  | Subw => Some (EncR 0x3b 0 0x20)
  | Sllw => Some (EncR 0x3b 1 0x00)
  | Srlw => Some (EncR 0x3b 5 0x00)
  | Sraw => Some (EncR 0x3b 5 0x20)
  | Mulw => Some (EncR 0x3b 0 0x01)
  | Divw => Some (EncR 0x3b 4 0x01)
  | Divuw => Some (EncR 0x3b 5 0x01)
  | Remw => Some (EncR 0x3b 6 0x01)
  | Remuw => Some (EncR 0x3b 7 0x01)
  | AddUw => Some (EncR 0x3b 0 0x04)
  | Sh1addUw => Some (EncR 0x3b 2 0x10)
  | Sh2addUw => Some (EncR 0x3b 4 0x10)
  | Sh3addUw => Some (EncR 0x3b 6 0x10)
  | Rolw => Some (EncR 0x3b 1 0x30)
  | Rorw => Some (EncR 0x3b 5 0x30)
  | Clz => Some (EncUnary 0x13 1 0x30 0)
  | Ctz => Some (EncUnary 0x13 1 0x30 1)
  | Cpop => Some (EncUnary 0x13 1 0x30 2)
  | SextB => Some (EncUnary 0x13 1 0x30 4)
  | SextH => Some (EncUnary 0x13 1 0x30 5)
  | ZextH => Some (EncUnary (if rv64 then 0x3b else 0x33) 4 0x04 0)
  | Rev8 => Some (EncUnary 0x13 5 (if rv64 then 0x35 else 0x34) 0x18)
  | Orcb => Some (EncUnary 0x13 5 0x14 7)
  | Clzw => Some (EncUnary 0x1b 1 0x30 0)
  | Ctzw => Some (EncUnary 0x1b 1 0x30 1)
  | Cpopw => Some (EncUnary 0x1b 1 0x30 2)
  | LrW => Some (EncLr 2 ord)
  | LrD => Some (EncLr 3 ord)
  | ScW => Some (EncAmo 2 0x03 ord)
  | AmoswapW => Some (EncAmo 2 0x01 ord)
  | AmoaddW => Some (EncAmo 2 0x00 ord)
  | AmoxorW => Some (EncAmo 2 0x04 ord)
  | AmoandW => Some (EncAmo 2 0x0c ord)
  | AmoorW => Some (EncAmo 2 0x08 ord)
  | AmominW => Some (EncAmo 2 0x10 ord)
  | AmomaxW => Some (EncAmo 2 0x14 ord)
  | AmominuW => Some (EncAmo 2 0x18 ord)
  | AmomaxuW => Some (EncAmo 2 0x1c ord)
  | ScD => Some (EncAmo 3 0x03 ord)
  | AmoswapD => Some (EncAmo 3 0x01 ord)
  | AmoaddD => Some (EncAmo 3 0x00 ord)
  | AmoxorD => Some (EncAmo 3 0x04 ord)
  | AmoandD => Some (EncAmo 3 0x0c ord)
  | AmoorD => Some (EncAmo 3 0x08 ord)
  | AmominD => Some (EncAmo 3 0x10 ord)
  | AmomaxD => Some (EncAmo 3 0x14 ord)
  | AmominuD => Some (EncAmo 3 0x18 ord)
  | AmomaxuD => Some (EncAmo 3 0x1c ord)
  | _ => None
  end.

(** The width of [ord]. *)
Definition ord_bits (op : Op) : Z := match op with Fence => 12 | _ => 2 end.

(** Encodings that another enabled extension defines again, with the operation
    and immediate it gives them: the HINTs of Zihintntl (ADD), of Hazard3 (SLT),
    of Zicbop (ORI, whose low five immediate bits select the prefetch) and of
    Zihintpause (FENCE w,0), and PACK of Zbkb, of which the RV32 ZEXT.H is the
    case [rs2 = x0]. *)
Definition redefined (rv64 : bool) (isa : Isa) (ord : Z) (op : Op) (rd rs1 rs2 imm : Z) : Op * Z :=
  match op with
  | Add =>
      (if isa_zihintntl isa && (rd =? 0) && (rs1 =? 0) then
         match rs2 with 2 => NtlP1 | 3 => NtlPall | 4 => NtlS1 | 5 => NtlAll | _ => Add end
       else Add, imm)
  | Slt =>
      (if isa_xhazard3 isa && (rd =? 0) && (rs1 =? 0) then
         match rs2 with 0 => H3Block | 1 => H3Unblock | _ => Slt end
       else Slt, imm)
  | Ori =>
      if isa_zicbop isa && (rd =? 0) then
        match imm mod 32 with
        | 0 => (PrefetchI, imm) | 1 => (PrefetchR, imm - 1) | 3 => (PrefetchW, imm - 3)
        | _ => (Ori, imm)
        end
      else (Ori, imm)
  | Fence =>
      (if isa_zihintpause isa && (rd =? 0) && (rs1 =? 0) && (ord =? 0x010) then Pause else Fence,
       imm)
  | ZextH => (if rv64 then ZextH else Pack, imm)
  | _ => (op, imm)
  end.

(** ZEXT.H on RV32 is decoded by the PACK arm only, which needs Zbkb. *)
Definition zext_h_lost (rv64 : bool) (isa : Isa) (op : Op) : bool :=
  match op with ZextH => negb rv64 && negb (isa_zbkb isa) | _ => false end.

(** Some operations have a second encoding that [op_enabled] also admits (a
    compressed form, a vendor form); the standard 32-bit one needs these. *)
Definition std_enabled (isa : Isa) (op : Op) : bool :=
  match op with
  | Flw | Fsw => isa_f isa
  | Fld | Fsd => isa_f isa && isa_d isa
  | Clz => isa_zbb isa
  | _ => true
  end.

(** ** Dispatch

    [matches rv64 e w]: the word [w] has the fixed fields of the format [e].
    Whatever its other bits, [decode] then selects the operation. *)
Definition matches (rv64 : bool) (e : Enc) (w : Z) : Prop :=
  match e with
  | EncR opc f3 f7 | EncShiftW opc f3 f7 => opcode w = opc /\ funct3 w = f3 /\ funct7 w = f7
  | EncUnary opc f3 f7 r2 => opcode w = opc /\ funct3 w = f3 /\ funct7 w = f7 /\ rs2 w = r2
  | EncI opc f3 | EncS opc f3 | EncB opc f3 => opcode w = opc /\ funct3 w = f3
  | EncShift opc f3 f6 =>
      opcode w = opc /\ funct3 w = f3
      /\ (funct7 w = 2 * f6 \/ rv64 = true /\ funct7 w = 2 * f6 + 1)
  | EncU opc | EncJ opc => opcode w = opc
  | EncAmo f3 f5 _ => opcode w = 0x2f /\ funct3 w = f3 /\ funct7 w / 4 = f5
  | EncLr f3 _ => opcode w = 0x2f /\ funct3 w = f3 /\ funct7 w / 4 = 2 /\ rs2 w = 0
  | EncFence ord => opcode w = 0x0f /\ funct3 w = 0 /\ w / 2 ^ 20 mod 2 ^ 12 = ord
  | EncFixed word => w = word
  end.

(** The immediate the format's decoder extracts. *)
Definition fmt_imm (rv64 : bool) (e : Enc) (w : Z) : Z :=
  match e with
  | EncR _ _ _ | EncUnary _ _ _ _ | EncAmo _ _ _ | EncLr _ _ | EncFence _ | EncFixed _ => 0
  | EncI _ _ => imm_i w
  | EncShift _ _ _ => Z.land (Z.shiftr w 20) (if rv64 then 0x3f else 0x1f)
  | EncShiftW _ _ _ => Z.land (Z.shiftr w 20) 0x1f
  | EncS _ _ => imm_s w
  | EncB _ _ => imm_b w
  | EncU _ => imm_u w
  | EncJ _ => imm_j w
  end.

Lemma field_div w n k : 0 <= n -> 0 <= k -> Z.land (Z.shiftr w n) (Z.ones k) = w / 2 ^ n mod 2 ^ k.
Proof. intros. by rewrite Z.land_ones, Z.shiftr_div_pow2. Qed.

(** The fields as quotients, and the sub-fields of [funct7] the decoders look at. *)
Lemma opcode_div w : opcode w = w mod 2 ^ 7.
Proof. unfold opcode. change 0x7f with (Z.ones 7). by rewrite Z.land_ones. Qed.
Lemma rd_div w : rd w = w / 2 ^ 7 mod 2 ^ 5.
Proof. unfold rd. change 0x1f with (Z.ones 5). by rewrite field_div. Qed.
Lemma funct3_div w : funct3 w = w / 2 ^ 12 mod 2 ^ 3.
Proof. unfold funct3. change 0x7 with (Z.ones 3). by rewrite field_div. Qed.
Lemma rs1_div w : rs1 w = w / 2 ^ 15 mod 2 ^ 5.
Proof. unfold rs1. change 0x1f with (Z.ones 5). by rewrite field_div. Qed.
Lemma rs2_div w : rs2 w = w / 2 ^ 20 mod 2 ^ 5.
Proof. unfold rs2. change 0x1f with (Z.ones 5). by rewrite field_div. Qed.
Lemma shamt5_div w : Z.land (Z.shiftr w 20) 0x1f = w / 2 ^ 20 mod 2 ^ 5.
Proof. exact (rs2_div w). Qed.
Lemma shamt6_div w : Z.land (Z.shiftr w 20) 0x3f = w / 2 ^ 20 mod 2 ^ 6.
Proof. change 0x3f with (Z.ones 6). by rewrite field_div. Qed.
Lemma funct7_div w : funct7 w = w / 2 ^ 25 mod 2 ^ 7.
Proof. unfold funct7. change 0x7f with (Z.ones 7). by rewrite field_div. Qed.
Lemma funct6_funct7 w : Z.land (Z.shiftr w 26) 0x3f = funct7 w / 2.
Proof.
  rewrite funct7_div. change 0x3f with (Z.ones 6). rewrite field_div by lia.
  Z.to_euclidean_division_equations; lia.
Qed.
Lemma funct5_funct7 w : Z.land (Z.shiftr w 27) 0x1f = funct7 w / 4.
Proof.
  rewrite funct7_div. change 0x1f with (Z.ones 5). rewrite field_div by lia.
  Z.to_euclidean_division_equations; lia.
Qed.
Lemma funct12_funct7 w : Z.land (Z.shiftr w 20) 0xfff = funct7 w * 32 + rs2 w.
Proof.
  rewrite funct7_div, rs2_div. change 0xfff with (Z.ones 12). rewrite field_div by lia. Z.to_euclidean_division_equations; lia.
Qed.
Lemma rs2_fits w : fits 5 (rs2 w).
Proof. unfold rs2. auto with fits. Qed.
Lemma bit25_funct7 w : any_bits w (Z.shiftl 1 25) = Z.odd (funct7 w).
Proof.
  assert (Hb : Z.testbit w 25 = Z.odd (funct7 w)).
  { rewrite <- Z.bit0_odd. unfold funct7.
    rewrite Z.land_spec, Z.shiftr_spec, andb_true_r by lia. done. }
  rewrite <- Hb. unfold any_bits. destruct (Z.testbit w 25) eqn:E.
  - apply negb_true_iff, Z.eqb_neq. intros H0.
    assert (Z.testbit (Z.land w (Z.shiftl 1 25)) 25 = false) by (rewrite H0; apply Z.bits_0).
    rewrite Z.land_spec, E in H. done.
  - apply negb_false_iff, Z.eqb_eq, Z.bits_inj'. intros n Hn.
    rewrite Z.land_spec, Z.bits_0. change (Z.shiftl 1 25) with (2 ^ 25).
    rewrite Z.pow2_bits_eqb by lia. destruct (Z.eqb_spec 25 n) as [<-|]; [|apply andb_false_r].
    by rewrite E.
Qed.

Ltac dispatch_arms :=
  cbn [arms default from_option id Z.eqb Z.odd Z.mul Pos.mul Z.add Pos.add Pos.succ Pos.eqb andb orb negb try_base try_imm base_or_illegal
       decode_op_m decode_op_base amo_width amo_op is_vector_width fst snd].

Ltac dispatch_rw :=
  repeat match goal with
  | H : ?f ?x = _ |- context [?f ?x] => rewrite H
  | H : Z.land ?a ?m = _ |- context [Z.land ?a ?m] => rewrite H
  | H : ?a || ?b = true |- context [?a || ?b] => rewrite H
  | H : _ && _ = true |- _ => apply andb_prop in H as [? ?]
  | |- context [?a + rs2 ?w =? ?k] =>
      replace (a + rs2 w =? k) with false
        by (symmetry; apply Z.eqb_neq; pose proof (rs2_fits w); unfold fits in *; lia)
  | H : (?x =? ?y) = false |- context [?x =? ?y] => rewrite H
  end.


Lemma try_base_off w c k : try_base w c None k = k.
Proof. by destruct c. Qed.
Lemma try_imm_off w c imm k : try_imm w c None imm k = k.
Proof. by destruct c. Qed.

Ltac dispatch_step :=
  dispatch_rw; dispatch_arms;
  repeat (progress rewrite ?andb_false_r, ?andb_true_r, ?try_base_off, ?try_imm_off; dispatch_arms).

(** The operations of [redefined]. *)
Definition redefinable (rv64 : bool) (op : Op) : bool :=
  match op with Add | Slt | Ori | Fence => true | ZextH => negb rv64 | _ => false end.

Lemma redefined_plain rv64 isa ord op rd rs1 rs2 imm :
  redefinable rv64 op = false -> redefined rv64 isa ord op rd rs1 rs2 imm = (op, imm).
Proof. by destruct rv64, op. Qed.

Lemma dispatch_plain w xlen isa ord op e :
  enc_of (is_rv64 xlen) ord op = Some e -> matches (is_rv64 xlen) e w ->
  op_enabled isa (is_rv64 xlen) op = true -> std_enabled isa op = true ->
  redefinable (is_rv64 xlen) op = false ->
  decode w xlen isa = with_imm op w (fmt_imm (is_rv64 xlen) e w).
Proof.
  intros He Hm Hen Hfp Hh. destruct xlen; cbn [is_rv64] in *.
  all: destruct op; cbn [enc_of] in He; simplify_eq;
    cbn [matches op_enabled std_enabled fmt_imm] in *;
    rewrite ?andb_true_r, ?andb_false_r in *; destruct_and?; destruct_or?; destruct_and?;
    try discriminate.
  all: try (subst w; reflexivity).
  all: unfold decode; cbn [is_rv64]; dispatch_step; try reflexivity.
  all: unfold decode_branch, decode_load, decode_store, decode_op_imm, decode_op_imm32,
    decode_op, decode_op32, decode_amo, decode_load_fp, decode_store_fp, decode_shift_left_imm,
    decode_shift_right_imm, decode_op_aes; cbv zeta.
  all: rewrite ?funct6_funct7, ?funct5_funct7, ?funct12_funct7, ?bit25_funct7.
  all: dispatch_step; try reflexivity.
Qed.

(** ** Immediates *)

Lemma lor_disjoint n a b : 0 <= n -> a mod 2 ^ n = 0 -> fits n b -> Z.lor a b = a + b.
Proof.
  intros Hn Ha Hb. assert (Ha' : a = Z.shiftl (a / 2 ^ n) n).
  { rewrite Z.shiftl_mul_pow2 by lia. pose proof (Z.div_mod a (2 ^ n)). lia. }
  assert (Hl : Z.land a b = 0).
  { apply Z.bits_inj'. intros k Hk. rewrite Z.land_spec, Z.bits_0, Ha', Z.shiftl_spec by lia.
    destruct (Z.ltb_spec k n).
    - by rewrite Z.testbit_neg_r by lia.
    - by rewrite (fits_testbit n b) by (auto; lia); apply andb_false_r. }
  rewrite <- Z.lxor_lor, <- Z.add_nocarry_lxor by done. done.
Qed.

Ltac imm_arith :=
  unfold as_i32, as_i, slice, fits in *; cbv match in *;
  Z.to_euclidean_division_equations; lia.

Lemma imm_i_div w : imm_i w = as_i 32 w / 2 ^ 20.
Proof. unfold imm_i. by rewrite Z.shiftr_div_pow2. Qed.

Lemma imm_s_div w :
  imm_s w = as_i 32 ((w / 2 ^ 25 mod 2 ^ 7 * 2 ^ 5 + w / 2 ^ 7 mod 2 ^ 5) * 2 ^ 20) / 2 ^ 20.
Proof.
  unfold imm_s. change 0x7f with (Z.ones 7). change 0x1f with (Z.ones 5).
  rewrite !field_div, Z.shiftr_div_pow2, !Z.shiftl_mul_pow2 by lia.
  rewrite (lor_disjoint 5) by (unfold fits; try apply Z.mod_mul; lia || apply Z.mod_pos_bound; lia).
  done.
Qed.

Lemma imm_b_div w :
  imm_b w = as_i 32 ((w / 2 ^ 31 mod 2 * 2 ^ 12 + w / 2 ^ 7 mod 2 * 2 ^ 11
                      + w / 2 ^ 25 mod 2 ^ 6 * 2 ^ 5 + w / 2 ^ 8 mod 2 ^ 4 * 2) * 2 ^ 19) / 2 ^ 19.
Proof.
  unfold imm_b. change 0x3f with (Z.ones 6). change 0xf with (Z.ones 4).
  change (Z.land (Z.shiftr w 31) 1) with (Z.land (Z.shiftr w 31) (Z.ones 1)).
  change (Z.land (Z.shiftr w 7) 1) with (Z.land (Z.shiftr w 7) (Z.ones 1)).
  rewrite !field_div, Z.shiftr_div_pow2, !Z.shiftl_mul_pow2 by lia.
  rewrite (lor_disjoint 12 (_ * 2 ^ 12)), (lor_disjoint 11 (_ + _)), (lor_disjoint 5 (_ + _))
    by imm_arith. done.
Qed.

Lemma imm_j_div w :
  imm_j w = as_i 32 ((w / 2 ^ 31 mod 2 * 2 ^ 20 + w / 2 ^ 12 mod 2 ^ 8 * 2 ^ 12
                      + w / 2 ^ 20 mod 2 * 2 ^ 11 + w / 2 ^ 21 mod 2 ^ 10 * 2) * 2 ^ 11) / 2 ^ 11.
Proof.
  unfold imm_j. change 0xff with (Z.ones 8). change 0x3ff with (Z.ones 10).
  change (Z.land (Z.shiftr w 31) 1) with (Z.land (Z.shiftr w 31) (Z.ones 1)).
  change (Z.land (Z.shiftr w 20) 1) with (Z.land (Z.shiftr w 20) (Z.ones 1)).
  rewrite !field_div, Z.shiftr_div_pow2, !Z.shiftl_mul_pow2 by lia.
  rewrite (lor_disjoint 20 (_ * 2 ^ 20)), (lor_disjoint 12 (_ + _)), (lor_disjoint 11 (_ + _))
    by imm_arith. done.
Qed.

Lemma imm_u_div w : imm_u w = as_i 32 (w / 2 ^ 12 mod 2 ^ 20 * 2 ^ 12).
Proof.
  unfold imm_u. rewrite <- field_div, <- Z.shiftl_mul_pow2 by lia.
  apply (f_equal (as_i 32)). change 0xfffff000 with (Z.shiftl (Z.ones 20) 12).
  apply Z.bits_inj'. intros n Hn. rewrite Z.land_spec, !Z.shiftl_spec by lia.
  destruct (Z.ltb_spec n 12).
  - rewrite !(Z.testbit_neg_r _ (n - 12)) by lia. apply andb_false_r.
  - rewrite Z.land_spec, Z.shiftr_spec by lia. f_equal. f_equal. lia.
Qed.

(** ** The redefined encodings *)

Lemma imm_i_low w : imm_i w mod 32 = rs2 w.
Proof. rewrite imm_i_div, rs2_div. imm_arith. Qed.

Lemma clear_low5 v : Z.land v (Z.lnot 0x1f) = v - v mod 32.
Proof.
  change 0x1f with (Z.ones 5). rewrite <- Z.ldiff_land, Z.ldiff_ones_r by lia.
  rewrite Z.shiftr_div_pow2, Z.shiftl_mul_pow2 by lia.
  Z.to_euclidean_division_equations; lia.
Qed.

(** The three fields the decoder compares for PAUSE are the twelve bits of the
    fence. *)
Lemma pause_fields w :
  (Z.land (Z.shiftr w 28) 0xf =? 0) && (Z.land (Z.shiftr w 24) 0xf =? 1)
    && (Z.land (Z.shiftr w 20) 0xf =? 0)
  = (w / 2 ^ 20 mod 2 ^ 12 =? 0x010).
Proof.
  change 0xf with (Z.ones 4). rewrite !field_div by lia.
  apply eq_bool_prop_intro. rewrite !andb_True, !Is_true_true, !Z.eqb_eq.
  Z.to_euclidean_division_equations; lia.
Qed.

(** Case analysis on the values a field is compared with, all below eight. *)
Ltac by_value v :=
  generalize v; intros n; destruct n as [|p|p]; try reflexivity;
  do 3 (try (destruct p as [p|p|]; try reflexivity)).

Section Redefined.
Context (w : Z) (xlen : Xlen) (isa : Isa).
Abbreviation rv64 := (is_rv64 xlen).
Abbreviation result op ord imm :=
  (let '(op', imm') := redefined rv64 isa ord op (rd w) (rs1 w) (rs2 w) imm in
   with_imm op' w imm').

Lemma dispatch_add ord :
  opcode w = 0x33 -> funct3 w = 0 -> funct7 w = 0 -> decode w xlen isa = result Add ord 0.
Proof.
  intros Ho H3 H7. unfold decode. dispatch_step. unfold decode_op, decode_op_aes. cbv zeta.
  dispatch_step. cbn [redefined].
  destruct (_ && _); [|reflexivity]. by_value (rs2 w).
Qed.

Lemma dispatch_slt ord :
  opcode w = 0x33 -> funct3 w = 2 -> funct7 w = 0 -> decode w xlen isa = result Slt ord 0.
Proof.
  intros Ho H3 H7. unfold decode. dispatch_step. unfold decode_op, decode_op_aes. cbv zeta.
  dispatch_step. cbn [redefined].
  destruct (_ && _); [|reflexivity]. by_value (rs2 w).
Qed.

Lemma dispatch_ori ord :
  opcode w = 0x13 -> funct3 w = 6 -> decode w xlen isa = result Ori ord (imm_i w).
Proof.
  intros Ho H3. unfold decode. dispatch_step. unfold decode_op_imm. cbv zeta.
  dispatch_step. cbn [redefined]. rewrite imm_i_low.
  rewrite clear_low5, imm_i_low. destruct (_ && _); [|reflexivity]. by_value (rs2 w).
  by rewrite Z.sub_0_r.
Qed.

Lemma dispatch_fence :
  opcode w = 0x0f -> funct3 w = 0 ->
  decode w xlen isa = result Fence (w / 2 ^ 20 mod 2 ^ 12) 0.
Proof.
  intros Ho H3. unfold decode. dispatch_step. unfold decode_fence. cbv zeta.
  dispatch_step. cbn [redefined]. rewrite <- pause_fields.
  rewrite !andb_assoc. by destruct (_ && _).
Qed.

Lemma dispatch_zext_h ord :
  xlen = Rv32 -> isa_zbkb isa = true -> opcode w = 0x33 -> funct3 w = 4 -> funct7 w = 4 ->
  decode w xlen isa = result ZextH ord 0.
Proof.
  intros -> Hk Ho H3 H7. unfold decode. dispatch_step. unfold decode_op, decode_op_aes. cbv zeta.
  dispatch_step. cbn [redefined].
  reflexivity.
Qed.

Lemma dispatch_zext_h_lost :
  xlen = Rv32 -> isa_zbkb isa = false -> opcode w = 0x33 -> funct3 w = 4 -> funct7 w = 4 ->
  insn_op (decode w xlen isa) = Illegal.
Proof.
  intros -> Hk Ho H3 H7. unfold decode. dispatch_step. unfold decode_op, decode_op_aes. cbv zeta.
  dispatch_step.
  reflexivity.
Qed.
End Redefined.

Lemma decode_dispatch w xlen isa ord op e :
  enc_of (is_rv64 xlen) ord op = Some e -> matches (is_rv64 xlen) e w ->
  op_enabled isa (is_rv64 xlen) op = true -> std_enabled isa op = true ->
  zext_h_lost (is_rv64 xlen) isa op = false ->
  decode w xlen isa =
    let '(op', imm') :=
      redefined (is_rv64 xlen) isa ord op (rd w) (rs1 w) (rs2 w) (fmt_imm (is_rv64 xlen) e w) in
    with_imm op' w imm'.
Proof.
  intros He Hm Hen Hs Hz. destruct (redefinable (is_rv64 xlen) op) eqn:Hr.
  - destruct op; try discriminate Hr; cbn [enc_of] in He; simplify_eq;
      cbn [matches fmt_imm] in *; destruct_and? Hm.
    + by apply dispatch_ori.
    + by apply dispatch_add.
    + by apply dispatch_slt.
    + subst ord. by apply dispatch_fence.
    + destruct xlen; [|discriminate]. apply dispatch_zext_h; try done.
      by apply negb_false_iff.
  - rewrite redefined_plain by done. by apply (dispatch_plain _ _ _ ord).
Qed.

Definition fitsb (w v : Z) : bool := (0 <=? v) && (v <? 2 ^ w).

(** The fixed fields of a format have their widths. *)
Definition enc_ok (e : Enc) : bool :=
  match e with
  | EncR o f3 f7 | EncShiftW o f3 f7 => fitsb 7 o && fitsb 3 f3 && fitsb 7 f7
  | EncUnary o f3 f7 r2 => fitsb 7 o && fitsb 3 f3 && fitsb 7 f7 && fitsb 5 r2
  | EncI o f3 | EncS o f3 | EncB o f3 => fitsb 7 o && fitsb 3 f3
  | EncShift o f3 f6 => fitsb 7 o && fitsb 3 f3 && fitsb 6 f6
  | EncU o | EncJ o => fitsb 7 o
  | EncAmo f3 f5 ord => fitsb 3 f3 && fitsb 5 f5 && fitsb 2 ord
  | EncLr f3 ord => fitsb 3 f3 && fitsb 2 ord
  | EncFence ord => fitsb 12 ord
  | EncFixed word => fitsb 32 word
  end.

Lemma fitsb_spec n v : fitsb n v = true <-> fits n v.
Proof. unfold fitsb, fits. lia. Qed.

Lemma enc_of_ok rv64 ord op e :
  enc_of rv64 ord op = Some e -> fits (ord_bits op) ord -> enc_ok e = true.
Proof.
  intros He Ho. destruct rv64, op; cbn [enc_of] in He; simplify_eq; try reflexivity;
    cbn [enc_ok ord_bits] in *; apply fitsb_spec in Ho; by rewrite Ho.
Qed.

Lemma slice_fits imm hi lo : lo <= hi + 1 -> fits (hi - lo + 1) (slice imm hi lo).
Proof. intros. unfold slice, fits. apply Z.mod_pos_bound, Z.pow_pos_nonneg; lia. Qed.

Lemma imm_b_word opc f3 r1 r2 b12 b11 b10_5 b4_1 :
  fits 7 opc -> fits 3 f3 -> fits 5 r1 -> fits 5 r2 ->
  fits 1 b12 -> fits 1 b11 -> fits 6 b10_5 -> fits 4 b4_1 ->
  imm_b (word_r opc (b4_1 * 2 + b11) f3 r1 r2 (b12 * 2 ^ 6 + b10_5))
  = as_i 32 ((b12 * 2 ^ 12 + b11 * 2 ^ 11 + b10_5 * 2 ^ 5 + b4_1 * 2) * 2 ^ 19) / 2 ^ 19.
Proof.
  intros. rewrite imm_b_div. f_equal. f_equal. f_equal.
  repeat apply f_equal2; try reflexivity; unfold word_r; imm_arith.
Qed.

Lemma imm_j_word opc rd' b20 b19_12 b11 b10_1 :
  fits 7 opc -> fits 5 rd' -> fits 1 b20 -> fits 8 b19_12 -> fits 1 b11 -> fits 10 b10_1 ->
  imm_j (opc + rd' * 2 ^ 7 + b19_12 * 2 ^ 12 + b11 * 2 ^ 20 + b10_1 * 2 ^ 21 + b20 * 2 ^ 31)
  = as_i 32 ((b20 * 2 ^ 20 + b19_12 * 2 ^ 12 + b11 * 2 ^ 11 + b10_1 * 2) * 2 ^ 11) / 2 ^ 11.
Proof.
  intros. rewrite imm_j_div. f_equal. f_equal. f_equal.
  repeat apply f_equal2; try reflexivity; imm_arith.
Qed.

Lemma imm_b_join imm : - 2 ^ 12 <= imm < 2 ^ 12 -> imm mod 2 = 0 ->
  as_i 32 ((slice imm 12 12 * 2 ^ 12 + slice imm 11 11 * 2 ^ 11 + slice imm 10 5 * 2 ^ 5
            + slice imm 4 1 * 2) * 2 ^ 19) / 2 ^ 19 = imm.
Proof.
  intros. transitivity (as_i 32 (imm mod 2 ^ 13 * 2 ^ 19) / 2 ^ 19); [|imm_arith].
  f_equal. f_equal. f_equal. imm_arith.
Qed.

Lemma imm_j_join imm : - 2 ^ 20 <= imm < 2 ^ 20 -> imm mod 2 = 0 ->
  as_i 32 ((slice imm 20 20 * 2 ^ 20 + slice imm 19 12 * 2 ^ 12 + slice imm 11 11 * 2 ^ 11
            + slice imm 10 1 * 2) * 2 ^ 11) / 2 ^ 11 = imm.
Proof.
  intros. transitivity (as_i 32 (imm mod 2 ^ 21 * 2 ^ 11) / 2 ^ 11); [|imm_arith].
  f_equal. f_equal. f_equal. imm_arith.
Qed.

Section RoundTrip.
Variables (rv64 : bool) (e : Enc) (rd' rs1' rs2' imm : Z).
Hypotheses (He : enc_ok e = true) (Hd : fits 5 rd') (H1 : fits 5 rs1') (H2 : fits 5 rs2')
  (Hi : imm_in_range rv64 e imm).
Abbreviation w := (encode e rd' rs1' rs2' imm).

Ltac enc_fields :=
  repeat match goal with
  | H : _ && _ = true |- _ => apply andb_prop in H as [? ?]
  | H : fitsb _ _ = true |- _ => apply fitsb_spec in H
  end.

Lemma encode_fits : fits 32 w.
Proof.
  destruct e; cbn [encode enc_ok] in *; enc_fields; unfold word_r, word_i, imm_in_range in *;
    try destruct rv64; try (unfold fits in *; lia); imm_arith.
Qed.

Lemma encode_matches : matches rv64 e w.
Proof.
  destruct e; cbn [encode enc_ok matches] in *; enc_fields; repeat split.
  all: rewrite ?opcode_div, ?funct3_div, ?funct7_div, ?rs2_div.
  all: unfold word_r, word_i, imm_in_range in *; try imm_arith.
  all: destruct rv64; try imm_arith.
Qed.

Lemma encode_imm : fmt_imm rv64 e w = imm.
Proof.
  destruct e; cbn [encode enc_ok fmt_imm imm_in_range] in *; enc_fields;
    try (symmetry; exact Hi).
  - rewrite imm_i_div. unfold word_i. imm_arith.
  - unfold word_i. destruct rv64; cbv match in *; rewrite ?shamt5_div, ?shamt6_div; imm_arith.
  - unfold word_r. rewrite shamt5_div. imm_arith.
  - rewrite imm_s_div. unfold word_r. imm_arith.
  - rewrite imm_b_word by first [assumption | apply (slice_fits imm 12 12); lia
      | apply (slice_fits imm 11 11); lia | apply (slice_fits imm 10 5); lia
      | apply (slice_fits imm 4 1); lia].
    apply imm_b_join; tauto.
  - rewrite imm_u_div. imm_arith.
  - rewrite imm_j_word by first [assumption | apply (slice_fits imm 20 20); lia
      | apply (slice_fits imm 19 12); lia | apply (slice_fits imm 11 11); lia
      | apply (slice_fits imm 10 1); lia].
    apply imm_j_join; tauto.
Qed.

Lemma encode_rd : uses_rd e = true -> rd w = rd'.
Proof.
  rewrite rd_div.
  destruct e; cbn [encode enc_ok uses_rd] in *; enc_fields; try discriminate; intros _;
    unfold word_r, word_i, imm_in_range in *; try destruct rv64; imm_arith.
Qed.

Lemma encode_rs1 : uses_rs1 e = true -> rs1 w = rs1'.
Proof.
  rewrite rs1_div.
  destruct e; cbn [encode enc_ok uses_rs1] in *; enc_fields; try discriminate; intros _;
    unfold word_r, word_i, imm_in_range in *; try destruct rv64; imm_arith.
Qed.

Lemma encode_rs2 : uses_rs2 e = true -> rs2 w = rs2'.
Proof.
  rewrite rs2_div.
  destruct e; cbn [encode enc_ok uses_rs2] in *; enc_fields; try discriminate; intros _;
    unfold word_r, word_i, imm_in_range in *; try destruct rv64; imm_arith.
Qed.
End RoundTrip.

(** The operands of [i] that the format carries are the given ones. *)
Definition decodes_to (e : Enc) (i : Insn) (op : Op) (rd rs1 rs2 imm : Z) : Prop :=
  insn_op i = op /\ insn_imm i = imm
  /\ (if uses_rd e then insn_rd i = rd else True)
  /\ (if uses_rs1 e then insn_rs1 i = rs1 else True)
  /\ (if uses_rs2 e then insn_rs2 i = rs2 else True)
  /\ (if aq_rl e is Some ord then insn_aq i = Z.testbit ord 1 /\ insn_rl i = Z.testbit ord 0
      else True).

(** What the decoder sees of the operands in an encoding [redefined] looks at. *)
Lemma redefined_encode rv64 isa ord op e rd' rs1' rs2' imm :
  enc_of rv64 ord op = Some e -> fits (ord_bits op) ord ->
  fits 5 rd' -> fits 5 rs1' -> fits 5 rs2' -> imm_in_range rv64 e imm ->
  let w := encode e rd' rs1' rs2' imm in
  redefined rv64 isa ord op (rd w) (rs1 w) (rs2 w) (fmt_imm rv64 e w)
  = redefined rv64 isa ord op rd' rs1' rs2' imm.
Proof.
  intros He Ho Hd H1 H2 Hi w. pose proof (enc_of_ok _ _ _ _ He Ho) as Hok.
  unfold w. rewrite (encode_imm rv64) by done.
  destruct op; try reflexivity; cbn [enc_of] in He; simplify_eq;
    by rewrite ?(encode_rd rv64), ?(encode_rs1 rv64), ?(encode_rs2 rv64) by done.
Qed.

Lemma word_r_high opc rd' f3 r1 r2 f7 :
  fits 7 opc -> fits 5 rd' -> fits 3 f3 -> fits 5 r1 -> fits 5 r2 ->
  word_r opc rd' f3 r1 r2 f7 / 2 ^ 25 = f7.
Proof. intros. unfold word_r. imm_arith. Qed.

(** Bits 26 and 25 of a word, as the decoder tests them. *)
Lemma ordering_bit w k : 0 <= k ->
  negb (Z.land (Z.shiftr w (25 + k)) 1 =? 0) = Z.testbit (w / 2 ^ 25) k.
Proof.
  intros Hk. rewrite <- Z.shiftr_div_pow2, Z.shiftr_spec by lia.
  change 1 with (Z.ones 1). rewrite Z.land_ones by lia. change (2 ^ 1) with 2.
  rewrite Zmod_odd, <- Z.bit0_odd, Z.shiftr_spec by lia.
  replace (0 + (25 + k)) with (k + 25) by lia. by destruct (Z.testbit w (k + 25)).
Qed.

Lemma ordering_low f5 ord k : fits 2 ord -> 0 <= k < 2 -> Z.testbit (f5 * 2 ^ 2 + ord) k = Z.testbit ord k.
Proof.
  intros Ho Hk. rewrite <- (Z.mod_pow2_bits_low _ 2), <- (Z.mod_pow2_bits_low ord 2) by lia.
  f_equal. rewrite Z.add_comm. by apply Z.mod_add.
Qed.

Lemma encode_aq_rl rv64 e rd' rs1' rs2' imm ord :
  enc_ok e = true -> fits 5 rd' -> fits 5 rs1' -> fits 5 rs2' -> imm_in_range rv64 e imm ->
  aq_rl e = Some ord ->
  let i := base Illegal (encode e rd' rs1' rs2' imm) in
  insn_aq i = Z.testbit ord 1 /\ insn_rl i = Z.testbit ord 0.
Proof.
  intros Hok Hd H1 H2 Hi He i. unfold i. cbn [base insn_aq insn_rl].
  rewrite (ordering_bit _ 1), (ordering_bit _ 0) by lia.
  destruct e; try discriminate He; apply (inj Some) in He as ->; cbn [enc_ok encode] in *;
    rewrite !andb_true_iff, !fitsb_spec in Hok; destruct_and?;
    rewrite word_r_high, !ordering_low by (done || lia); done.
Qed.

Lemma decode_encode_insn xlen isa ord op e rd' rs1' rs2' imm :
  enc_of (is_rv64 xlen) ord op = Some e ->
  op_enabled isa (is_rv64 xlen) op = true -> std_enabled isa op = true ->
  zext_h_lost (is_rv64 xlen) isa op = false ->
  fits (ord_bits op) ord -> fits 5 rd' -> fits 5 rs1' -> fits 5 rs2' ->
  imm_in_range (is_rv64 xlen) e imm ->
  let '(op', imm') := redefined (is_rv64 xlen) isa ord op rd' rs1' rs2' imm in
  decodes_to e (decode (encode e rd' rs1' rs2' imm) xlen isa) op' rd' rs1' rs2' imm'.
Proof.
  intros He Hen Hstd Hz Ho Hd H1 H2 Hi. pose proof (enc_of_ok _ _ _ _ He Ho) as Hok.
  rewrite (decode_dispatch _ xlen isa ord op e); auto using encode_matches.
  rewrite redefined_encode by done. destruct (redefined _ _ _ _ _ _ _ _) as [op' imm'].
  unfold decodes_to. cbn [with_imm set_insn_imm base insn_op insn_imm insn_rd insn_rs1 insn_rs2].
  split_and!; [done|done|..]; case_match; try done;
    eauto using encode_rd, encode_rs1, encode_rs2.
  by apply (encode_aq_rl (is_rv64 xlen)).
Qed.

(** ** Properties *)

(** C4.  Decoding inverts encoding for every operation of I, M, A, Zba, Zbb, Zbc,
    Zbs and Zicond and every floating-point load and store: the word that the
    RISC-V formats assign to an enabled operation and in-range operands (for
    atomics also the aq and rl bits, for FENCE its fm, pred and succ fields) is
    decoded, under any ISA configuration, to that operation with exactly those
    register numbers, bits and (sign-extended) immediate.  An encoding that
    another enabled extension defines again (NTL, prefetch, pause and Hazard3
    hints, PACK) decodes to that extension's operation with the same operands.
    The one failure is ZEXT.H on RV32 without Zbkb, which decodes as illegal. *)
Theorem decode_encode xlen isa ord op e rd' rs1' rs2' imm :
  enc_of (is_rv64 xlen) ord op = Some e ->
  op_enabled isa (is_rv64 xlen) op = true -> std_enabled isa op = true ->
  fits (ord_bits op) ord -> fits 5 rd' -> fits 5 rs1' -> fits 5 rs2' ->
  imm_in_range (is_rv64 xlen) e imm ->
  let w := encode e rd' rs1' rs2' imm in
  fits 32 w
  /\ if zext_h_lost (is_rv64 xlen) isa op then insn_op (decode w xlen isa) = Illegal
     else let '(op', imm') := redefined (is_rv64 xlen) isa ord op rd' rs1' rs2' imm in
          decodes_to e (decode w xlen isa) op' rd' rs1' rs2' imm'.
Proof.
  intros He Hen Hs Ho Hd H1 H2 Hi w. pose proof (enc_of_ok _ _ _ _ He Ho) as Hok.
  split; [by apply (encode_fits (is_rv64 xlen))|].
  destruct (zext_h_lost _ _ _) eqn:Hz; [|by apply decode_encode_insn].
  pose proof (encode_matches (is_rv64 xlen) e rd' rs1' rs2' imm) as Hm.
  destruct op; try discriminate Hz. destruct xlen; [|discriminate Hz].
  cbn [enc_of is_rv64] in He. simplify_eq. destruct Hm as (? & ? & ? & _); try done.
  apply dispatch_zext_h_lost; try done. by apply negb_true_iff.
Qed.

(** [bne x3, x17, -4094] on RV32I without extensions. *)
Lemma decode_encode_witness :
  decodes_to (EncB 0x63 1) (decode (encode (EncB 0x63 1) 0 3 17 (-4094)) Rv32 rv_i)
    Bne 0 3 17 (-4094).
Proof.
  refine (proj2 (decode_encode Rv32 rv_i 0 Bne (EncB 0x63 1) 0 3 17 (-4094) _ _ _ _ _ _ _ _));
    solve [reflexivity | unfold fits; cbn; lia | split; [lia | reflexivity]].
Defined.
