(* ===== verification/RvRvc.v ===== *)
(** * The compressed instructions, round trip and expansion

    The RVC, Zcb, Zclsd, Zcmp and Zcmt instruction tables of the RISC-V
    manual as an independent encoder, the proof that [decode_compressed]
    inverts it, and the proof that a compressed instruction and its 32-bit
    expansion decode to the same operation. *)

From S2P Require Import Prelude RvIsa RvOp RvDecodeBase RvDecodeFp RvDecodeVendor.
From S2P Require Import RvCompressed RvMemory RvDecode RvDecodeWf RvGating RvEncode.

(** ** The instruction table *)

(** A compressed instruction with its assembly operands: register numbers,
    and immediates as the byte offsets or values they denote. *)
Inductive rvc : Type :=
| C_addi4spn (rd imm : Z)
| C_load_w (op : Op) (rd rs1 imm : Z)
| C_load_d (op : Op) (rd rs1 imm : Z)
| C_store_w (op : Op) (rs2 rs1 imm : Z)
| C_store_d (op : Op) (rs2 rs1 imm : Z)
| C_lbu (rd rs1 imm : Z)
| C_load_h (op : Op) (rd rs1 imm : Z)
| C_sb (rs2 rs1 imm : Z)
| C_sh (rs2 rs1 imm : Z)
| C_addi (rd imm : Z)
| C_addiw (rd imm : Z)
| C_li (rd imm : Z)
| C_addi16sp (imm : Z)
| C_lui (rd imm : Z)
| C_shift (op : Op) (rd imm : Z)
| C_andi (rd imm : Z)
| C_alu (op : Op) (rd rs2 : Z)
| C_unary (op : Op) (rd : Z)
| C_jal (imm : Z)
| C_j (imm : Z)
| C_branch (op : Op) (rs1 imm : Z)
| C_slli (rd imm : Z)
| C_loadsp_w (op : Op) (rd imm : Z)
| C_loadsp_d (op : Op) (rd imm : Z)
| C_storesp_w (op : Op) (rs2 imm : Z)
| C_storesp_d (op : Op) (rs2 imm : Z)
| C_jr (rs1 : Z)
| C_jalr (rs1 : Z)
| C_mv (rd rs2 : Z)
| C_add (rd rs2 : Z)
| C_ebreak
| C_ntl (op : Op)
| CM_stack (op : Op) (rlist spimm : Z)
| CM_mvsa01 (r1s r2s : Z)
| CM_mva01s (r1s r2s : Z)
| CM_jump (index : Z).

(** The bit fields of the formats: CL/CS/CB (3-bit register fields) and
    CI/CSS/CR (5-bit register fields). *)
Definition parcel_l (f3 a r b d q : Z) : Z :=
  f3 * 2 ^ 13 + a * 2 ^ 10 + r * 2 ^ 7 + b * 2 ^ 5 + d * 2 ^ 2 + q.
Definition parcel_i (f3 b12 r s q : Z) : Z :=
  f3 * 2 ^ 13 + b12 * 2 ^ 12 + r * 2 ^ 7 + s * 2 ^ 2 + q.

(** [funct3] of the loads and stores. *)
Definition c_load_f3 (op : Op) : Z :=
  match op with Fld => 1 | Lw => 2 | _ => 3 end.
Definition c_store_f3 (op : Op) : Z :=
  match op with Fsd => 5 | Sw => 6 | _ => 7 end.
(** Bit 12 and bits [6:5] of the CA format. *)
Definition c_alu_fn (op : Op) : Z * Z :=
  match op with
  | Sub => (0, 0) | Xor => (0, 1) | Or => (0, 2) | And => (0, 3)
  | Subw => (1, 0) | Addw => (1, 1) | _ => (1, 2)
  end.
Definition c_unary_fn (op : Op) : Z :=
  match op with Andi => 0 | SextB => 1 | ZextH => 2 | SextH => 3 | AddUw => 4 | _ => 5 end.
Definition c_ntl_fn (op : Op) : Z :=
  match op with NtlP1 => 2 | NtlPall => 3 | NtlS1 => 4 | _ => 5 end.
Definition cm_stack_fn (op : Op) : Z :=
  match op with CmPush => 0x18 | CmPop => 0x1a | CmPopRetz => 0x1c | _ => 0x1e end.
(** The s-register numbers of Zcmp: s0, s1, s2..s7. *)
Definition cm_sreg (n : Z) : Z := if n <? 2 then 8 + n else 16 + n.

(** The 16-bit parcel. *)
Definition rvc_word (c : rvc) : Z :=
  match c with
  | C_addi4spn rd i =>
      parcel_l 0 (slice i 5 4 * 2 + slice i 9 9) (slice i 8 6) (slice i 2 2 * 2 + slice i 3 3)
        (rd - 8) 0
  | C_load_w op rd rs1 i =>
      parcel_l (c_load_f3 op) (slice i 5 3) (rs1 - 8) (slice i 2 2 * 2 + slice i 6 6) (rd - 8) 0
  | C_load_d op rd rs1 i =>
      parcel_l (c_load_f3 op) (slice i 5 3) (rs1 - 8) (slice i 7 6) (rd - 8) 0
  | C_store_w op rs2 rs1 i =>
      parcel_l (c_store_f3 op) (slice i 5 3) (rs1 - 8) (slice i 2 2 * 2 + slice i 6 6) (rs2 - 8) 0
  | C_store_d op rs2 rs1 i =>
      parcel_l (c_store_f3 op) (slice i 5 3) (rs1 - 8) (slice i 7 6) (rs2 - 8) 0
  | C_lbu rd rs1 i => parcel_l 4 0 (rs1 - 8) (slice i 0 0 * 2 + slice i 1 1) (rd - 8) 0
  | C_load_h op rd rs1 i =>
      parcel_l 4 1 (rs1 - 8) ((match op with Lh => 1 | _ => 0 end) * 2 + slice i 1 1) (rd - 8) 0
  | C_sb rs2 rs1 i => parcel_l 4 2 (rs1 - 8) (slice i 0 0 * 2 + slice i 1 1) (rs2 - 8) 0
  | C_sh rs2 rs1 i => parcel_l 4 3 (rs1 - 8) (slice i 1 1) (rs2 - 8) 0
  | C_addi rd i => parcel_i 0 (slice i 5 5) rd (slice i 4 0) 1
  | C_addiw rd i => parcel_i 1 (slice i 5 5) rd (slice i 4 0) 1
  | C_li rd i => parcel_i 2 (slice i 5 5) rd (slice i 4 0) 1
  | C_addi16sp i =>
      parcel_i 3 (slice i 9 9) 2
        (slice i 4 4 * 2 ^ 4 + slice i 6 6 * 2 ^ 3 + slice i 8 7 * 2 + slice i 5 5) 1
  | C_lui rd i => parcel_i 3 (slice i 17 17) rd (slice i 16 12) 1
  | C_shift op rd i =>
      parcel_l 4 (slice i 5 5 * 4 + match op with Srli => 0 | _ => 1 end) (rd - 8)
        (slice i 4 3) (slice i 2 0) 1
  | C_andi rd i => parcel_l 4 (slice i 5 5 * 4 + 2) (rd - 8) (slice i 4 3) (slice i 2 0) 1
  | C_alu op rd rs2 =>
      parcel_l 4 (fst (c_alu_fn op) * 4 + 3) (rd - 8) (snd (c_alu_fn op)) (rs2 - 8) 1
  | C_unary op rd => parcel_l 4 7 (rd - 8) 3 (c_unary_fn op) 1
  | C_jal i | C_j i =>
      parcel_i (match c with C_jal _ => 1 | _ => 5 end) (slice i 11 11)
        (slice i 4 4 * 2 ^ 4 + slice i 9 8 * 2 ^ 2 + slice i 10 10 * 2 + slice i 6 6)
        (slice i 7 7 * 2 ^ 4 + slice i 3 1 * 2 + slice i 5 5) 1
  | C_branch op rs1 i =>
      parcel_l (match op with Beq => 6 | _ => 7 end) (slice i 8 8 * 4 + slice i 4 3) (rs1 - 8)
        (slice i 7 6) (slice i 2 1 * 2 + slice i 5 5) 1
  | C_slli rd i => parcel_i 0 (slice i 5 5) rd (slice i 4 0) 2
  | C_loadsp_w op rd i =>
      parcel_i (c_load_f3 op) (slice i 5 5) rd (slice i 4 2 * 2 ^ 2 + slice i 7 6) 2
  | C_loadsp_d op rd i =>
      parcel_i (c_load_f3 op) (slice i 5 5) rd (slice i 4 3 * 2 ^ 3 + slice i 8 6) 2
  | C_storesp_w op rs2 i =>
      parcel_i (c_store_f3 op) (slice i 5 5) (slice i 4 2 * 2 ^ 2 + slice i 7 6) rs2 2
  | C_storesp_d op rs2 i =>
      parcel_i (c_store_f3 op) (slice i 5 5) (slice i 4 3 * 2 ^ 3 + slice i 8 6) rs2 2
  | C_jr rs1 => parcel_i 4 0 rs1 0 2
  | C_jalr rs1 => parcel_i 4 1 rs1 0 2
  | C_mv rd rs2 => parcel_i 4 0 rd rs2 2
  | C_add rd rs2 => parcel_i 4 1 rd rs2 2
  | C_ebreak => parcel_i 4 1 0 0 2
  | C_ntl op => parcel_i 4 1 0 (c_ntl_fn op) 2
  | CM_stack op rlist spimm =>
      5 * 2 ^ 13 + cm_stack_fn op * 2 ^ 8 + rlist * 2 ^ 4 + spimm * 2 ^ 2 + 2
  | CM_mvsa01 r1s r2s => parcel_l 5 3 r1s 1 r2s 2
  | CM_mva01s r1s r2s => parcel_l 5 3 r1s 3 r2s 2
  | CM_jump index => 5 * 2 ^ 13 + index * 2 ^ 2 + 2
  end.

(** ** What each instruction means *)

Definition cm_stack_base (rv64 : bool) (rlist : Z) : Z :=
  if rv64 then if rlist =? 15 then 112 else rlist / 2 * 16 - 16
  else if rlist =? 15 then 64 else rlist / 4 * 16.

(** The expansion: the base operation with rd, rs1, rs2 and the immediate. *)
Definition rvc_expand (rv64 : bool) (c : rvc) : Op * Z * Z * Z * Z :=
  match c with
  | C_addi4spn rd i => (Addi, rd, 2, 0, i)
  | C_load_w op rd rs1 i | C_load_d op rd rs1 i | C_load_h op rd rs1 i => (op, rd, rs1, 0, i)
  | C_lbu rd rs1 i => (Lbu, rd, rs1, 0, i)
  | C_store_w op rs2 rs1 i | C_store_d op rs2 rs1 i => (op, 0, rs1, rs2, i)
  | C_sb rs2 rs1 i => (Sb, 0, rs1, rs2, i)
  | C_sh rs2 rs1 i => (Sh, 0, rs1, rs2, i)
  | C_addi rd i => (Addi, rd, rd, 0, i)
  | C_addiw rd i => (Addiw, rd, rd, 0, i)
  | C_li rd i => (Addi, rd, 0, 0, i)
  | C_addi16sp i => (Addi, 2, 2, 0, i)
  | C_lui rd i => (Lui, rd, 0, 0, i)
  | C_shift op rd i => (op, rd, rd, 0, i)
  | C_andi rd i => (Andi, rd, rd, 0, i)
  | C_alu op rd rs2 => (op, rd, rd, rs2, 0)
  | C_unary op rd => (op, rd, rd, 0, match op with Andi => 0xff | Xori => -1 | _ => 0 end)
  | C_jal i => (Jal, 1, 0, 0, i)
  | C_j i => (Jal, 0, 0, 0, i)
  | C_branch op rs1 i => (op, 0, rs1, 0, i)
  | C_slli rd i => (Slli, rd, rd, 0, i)
  | C_loadsp_w op rd i | C_loadsp_d op rd i => (op, rd, 2, 0, i)
  | C_storesp_w op rs2 i | C_storesp_d op rs2 i => (op, 0, 2, rs2, i)
  | C_jr rs1 => (Jalr, 0, rs1, 0, 0)
  | C_jalr rs1 => (Jalr, 1, rs1, 0, 0)
  | C_mv rd rs2 => (Add, rd, 0, rs2, 0)
  | C_add rd rs2 => (Add, rd, rd, rs2, 0)
  | C_ebreak => (Ebreak, 0, 0, 0, 0)
  | C_ntl op => (op, 0, 0, c_ntl_fn op, 0)
  | CM_stack op rlist spimm => (op, rlist, 0, 0, cm_stack_base rv64 rlist + spimm * 16)
  | CM_mvsa01 r1s r2s => (CmMvsa01, cm_sreg r1s, cm_sreg r2s, 0, 0)
  | CM_mva01s r1s r2s => (CmMva01s, cm_sreg r1s, cm_sreg r2s, 0, 0)
  | CM_jump index => (if index <? 32 then CmJt else CmJalt, 0, 0, 0, index)
  end.

(** The operand ranges of the table. *)
Definition creg (r : Z) : Prop := 8 <= r < 16.
Definition scaled (k n imm : Z) : Prop := 0 <= imm < 2 ^ n /\ imm mod 2 ^ k = 0.

Definition rvc_operands (rv64 : bool) (c : rvc) : Prop :=
  match c with
  | C_addi4spn rd i => creg rd /\ scaled 2 10 i /\ i <> 0
  | C_load_w _ r rs1 i | C_store_w _ r rs1 i => creg r /\ creg rs1 /\ scaled 2 7 i
  | C_load_d _ r rs1 i | C_store_d _ r rs1 i => creg r /\ creg rs1 /\ scaled 3 8 i
  | C_lbu r rs1 i | C_sb r rs1 i => creg r /\ creg rs1 /\ scaled 0 2 i
  | C_load_h _ r rs1 i | C_sh r rs1 i => creg r /\ creg rs1 /\ scaled 1 2 i
  | C_addi rd i | C_addiw rd i | C_li rd i => fits 5 rd /\ - 32 <= i < 32
  | C_addi16sp i => - 512 <= i < 512 /\ i mod 16 = 0 /\ i <> 0
  | C_lui rd i => fits 5 rd /\ - 2 ^ 17 <= i < 2 ^ 17 /\ i mod 2 ^ 12 = 0 /\ i <> 0
  | C_shift _ rd i => creg rd /\ 0 <= i < if rv64 then 64 else 32
  | C_andi rd i => creg rd /\ - 32 <= i < 32
  | C_alu _ rd rs2 => creg rd /\ creg rs2
  | C_unary _ rd => creg rd
  | C_jal i | C_j i => - 2 ^ 11 <= i < 2 ^ 11 /\ i mod 2 = 0
  | C_branch _ rs1 i => creg rs1 /\ - 2 ^ 8 <= i < 2 ^ 8 /\ i mod 2 = 0
  | C_slli rd i => fits 5 rd /\ 0 <= i < if rv64 then 64 else 32
  | C_loadsp_w _ r i | C_storesp_w _ r i => fits 5 r /\ scaled 2 8 i
  | C_loadsp_d _ r i | C_storesp_d _ r i => fits 5 r /\ scaled 3 9 i
  | C_jr rs1 | C_jalr rs1 => fits 5 rs1 /\ rs1 <> 0
  | C_mv rd rs2 | C_add rd rs2 => fits 5 rd /\ fits 5 rs2 /\ rs2 <> 0
  | C_ebreak | C_ntl _ => True
  | CM_stack _ rlist spimm => 4 <= rlist < 16 /\ 0 <= spimm < 4
  | CM_mvsa01 r1s r2s => fits 3 r1s /\ fits 3 r2s /\ r1s <> r2s
  | CM_mva01s r1s r2s => fits 3 r1s /\ fits 3 r2s
  | CM_jump index => fits 8 index
  end.

(** The extension and register width an instruction belongs to.  RV32 FLW and
    FSW are the slots Zclsd takes over. *)
Definition rvc_legal (rv64 : bool) (isa : Isa) (c : rvc) : bool :=
  let f_slot := negb rv64 && negb (isa_zclsd isa) in
  let pair r := negb rv64 && isa_zclsd isa && Z.even r in
  isa_c isa &&
  match c with
  | C_addi4spn _ _ | C_addi _ _ | C_li _ _ | C_addi16sp _ | C_andi _ _ | C_j _ | C_slli _ _
  | C_jr _ | C_jalr _ | C_mv _ _ | C_ebreak => true
  | C_load_w op _ _ _ => match op with Lw => true | Flw => f_slot | _ => false end
  | C_load_d op rd _ _ =>
      match op with Fld => isa_d isa | Ld => rv64 | LdPair => pair rd | _ => false end
  | C_store_w op _ _ _ => match op with Sw => true | Fsw => f_slot | _ => false end
  | C_store_d op rs2 _ _ =>
      match op with Fsd => isa_d isa | Sd => rv64 | SdPair => pair rs2 | _ => false end
  | C_lbu _ _ _ | C_sb _ _ _ | C_sh _ _ _ => isa_zcb isa
  | C_load_h op _ _ _ => isa_zcb isa && match op with Lh | Lhu => true | _ => false end
  | C_addiw rd _ => rv64 && negb (rd =? 0)
  | C_lui rd _ => negb (rd =? 0) && negb (rd =? 2)
  | C_shift op _ _ => match op with Srli | Srai => true | _ => false end
  | C_alu op _ _ =>
      match op with
      | Sub | Xor | Or | And => true
      | Subw | Addw => rv64
      | Mul => isa_zcb isa && isa_m isa
      | _ => false
      end
  | C_unary op _ =>
      isa_zcb isa &&
      match op with
      | Andi | Xori => true
      | SextB | ZextH | SextH => isa_zbb isa
      | AddUw => isa_zba isa && rv64
      | _ => false
      end
  | C_jal _ => negb rv64
  | C_branch op _ _ => match op with Beq | Bne => true | _ => false end
  | C_loadsp_w op rd _ => match op with Lw => negb (rd =? 0) | Flw => f_slot | _ => false end
  | C_loadsp_d op rd _ =>
      match op with
      | Fld => isa_d isa
      | Ld => rv64 && negb (rd =? 0)
      | LdPair => pair rd && negb (rd =? 0)
      | _ => false
      end
  | C_storesp_w op _ _ => match op with Sw => true | Fsw => f_slot | _ => false end
  | C_storesp_d op rs2 _ =>
      match op with
      | Fsd => isa_d isa && negb (isa_zcmp isa || isa_zcmt isa)
      | Sd => rv64
      | SdPair => pair rs2
      | _ => false
      end
  | C_add rd rs2 => negb (isa_zihintntl isa && (rd =? 0) && (2 <=? rs2) && (rs2 <=? 5))
  | C_ntl op =>
      isa_zihintntl isa && match op with NtlP1 | NtlPall | NtlS1 | NtlAll => true | _ => false end
  | CM_stack op _ _ =>
      isa_zcmp isa && match op with CmPush | CmPop | CmPopRetz | CmPopRet => true | _ => false end
  | CM_mvsa01 _ _ | CM_mva01s _ _ => isa_zcmp isa
  | CM_jump _ => isa_zcmt isa
  end.

(** ** Fields of a parcel *)

Lemma bits_div h hi lo : 0 <= lo -> lo <= hi + 1 -> bits h hi lo = h / 2 ^ lo mod 2 ^ (hi - lo + 1).
Proof.
  intros. unfold bits. rewrite Z.shiftl_mul_pow2, Z.mul_1_l by lia.
  rewrite <- field_div, Z.ones_equiv by lia. done.
Qed.
Lemma land_3 h : Z.land h 0x3 = h mod 4.
Proof. exact (Z.land_ones h 2 ltac:(lia)). Qed.
Lemma bit_div h n : 0 <= n -> bit h n = h / 2 ^ n mod 2.
Proof. intros. exact (field_div h n 1 ltac:(lia) ltac:(lia)). Qed.

(** The immediates written out inside the decoders: C.ADDI4SPN, C.ADDI16SP,
    C.LUI and the Zcb byte offset. *)
Abbreviation addi4spn_imm h :=
  (Z.lor (Z.lor (Z.lor (Z.shiftl (bits h 12 11) 4) (Z.shiftl (bits h 10 7) 6))
                (Z.shiftl (bit h 6) 2)) (Z.shiftl (bit h 5) 3)).
Abbreviation addi16sp_imm h :=
  (foldl Z.lor 0 [Z.shiftl (bit h 12) 5; Z.shiftl (bits h 4 3) 3; Z.shiftl (bit h 5) 2;
                  Z.shiftl (bit h 2) 1; bit h 6]).
Abbreviation lui_imm h := (Z.lor (Z.shiftl (bit h 12) 17) (Z.shiftl (bits h 6 2) 12)).
Abbreviation zcb_imm h := (Z.lor (Z.shiftl (bit h 5) 1) (bit h 6)).

(** The immediates as sums of fields, checked over all parcels. *)
Definition imm_sums (h : Z) : bool :=
  (ci_imm h =? bit h 12 * 32 + bits h 6 2)
  && (cl_off_w h =? bits h 12 10 * 8 + bit h 6 * 4 + bit h 5 * 64)
  && (cl_off_d h =? bits h 12 10 * 8 + bits h 6 5 * 64)
  && (clsp_off_w h =? bit h 12 * 32 + bits h 6 4 * 4 + bits h 3 2 * 64)
  && (clsp_off_d h =? bit h 12 * 32 + bits h 6 5 * 8 + bits h 4 2 * 64)
  && (cssp_off_w h =? bits h 12 9 * 4 + bits h 8 7 * 64)
  && (cssp_off_d h =? bits h 12 10 * 8 + bits h 9 7 * 64)
  && (cj_offset h =? as_i 12 (bit h 12 * 2048 + bit h 11 * 16 + bits h 10 9 * 256
                              + bit h 8 * 1024 + bit h 7 * 64 + bit h 6 * 128 + bits h 5 3 * 2
                              + bit h 2 * 32))
  && (cb_offset h =? as_i 9 (bit h 12 * 256 + bits h 11 10 * 8 + bits h 6 5 * 64
                             + bits h 4 3 * 2 + bit h 2 * 32))
  && (addi4spn_imm h =? bits h 12 11 * 16 + bits h 10 7 * 64 + bit h 6 * 4 + bit h 5 * 8)
  && (addi16sp_imm h =? bit h 12 * 32 + bits h 4 3 * 8 + bit h 5 * 4 + bit h 2 * 2 + bit h 6)
  && (lui_imm h =? bit h 12 * 2 ^ 17 + bits h 6 2 * 2 ^ 12)
  && (zcb_imm h =? bit h 5 * 2 + bit h 6).

Lemma bits_low h hi lo : 0 <= lo -> lo <= hi + 1 -> hi < 13 ->
  bits (h mod 2 ^ 13) hi lo = bits h hi lo.
Proof.
  intros. unfold bits. rewrite Z.shiftl_mul_pow2, Z.mul_1_l, <- Z.land_ones by lia.
  replace (2 ^ (hi - lo + 1) - 1) with (Z.ones (hi - lo + 1)) by (rewrite Z.ones_equiv; lia).
  apply Z.bits_inj'. intros n Hn. rewrite !Z.land_spec, !Z.shiftr_spec, !Z.land_spec by lia.
  rewrite !Z.testbit_ones_nonneg by lia.
  destruct (Z.ltb_spec n (hi - lo + 1)); [|by rewrite !andb_false_r].
  destruct (Z.ltb_spec (n + lo) 13); [by rewrite !andb_true_r | lia].
Qed.
Lemma bit_low h n : 0 <= n < 13 -> bit (h mod 2 ^ 13) n = bit h n.
Proof.
  assert (Hb : forall h, bit h n = bits h n n).
  { intros. unfold bit, bits. by replace (n - n + 1) with 1 by lia. }
  intros. rewrite !Hb. apply bits_low; lia.
Qed.

Lemma imm_sums_below : check_below 13 imm_sums 0 = true.
Proof. vm_cast_no_check (eq_refl true). Qed.

Lemma imm_sums_low h : imm_sums (h mod 2 ^ 13) = imm_sums h.
Proof.
  unfold imm_sums, ci_imm, cl_off_w, cl_off_d, clsp_off_w, clsp_off_d, cssp_off_w, cssp_off_d,
    cj_offset, cb_offset. rewrite !bits_low, !bit_low by lia. reflexivity.
Qed.

Lemma imm_sums_ok h : imm_sums h = true.
Proof.
  rewrite <- imm_sums_low. apply (all_below 13 imm_sums); [exact imm_sums_below|].
  apply Z.mod_pos_bound. lia.
Qed.

(** All the fields the decoders look at, in terms of the two splittings. *)
Ltac field_quotients :=
  repeat match goal with
  | |- context [bits ?h ?hi ?lo] =>
      let k := eval vm_compute in (2 ^ (hi - lo + 1)) in
      rewrite (bits_div h hi lo) by lia; change (2 ^ (hi - lo + 1)) with k
  | |- context [bit ?h ?n] => rewrite (bit_div h n) by lia
  end.

Ltac split_fields :=
  field_quotients; rewrite ?land_3;
  unfold parcel_l, parcel_i, fits in *; repeat split;
  Z.to_euclidean_division_equations; lia.

Lemma parcel_l_fields f3 a r b d q :
  fits 3 f3 -> fits 3 a -> fits 3 r -> fits 2 b -> fits 3 d -> fits 2 q ->
  let h := parcel_l f3 a r b d q in
  fits 16 h /\ Z.land h 0x3 = q /\ bits h 15 13 = f3 /\ bits h 12 10 = a /\ bits h 9 7 = r
  /\ bits h 6 5 = b /\ bits h 4 2 = d /\ bit h 12 = a / 4 /\ bits h 11 10 = a mod 4
  /\ bits h 12 11 = a / 2 /\ bits h 10 7 = a mod 2 * 8 + r /\ bit h 6 = b / 2
  /\ bit h 5 = b mod 2 /\ bits h 6 2 = b * 8 + d /\ bits h 4 3 = d / 2 /\ bit h 2 = d mod 2
  /\ bits h 11 7 = a mod 4 * 8 + r /\ bits h 12 8 = a * 4 + r / 2.
Proof. intros. subst h. split_fields. Qed.

Lemma parcel_i_fields f3 b12 r s q :
  fits 3 f3 -> fits 1 b12 -> fits 5 r -> fits 5 s -> fits 2 q ->
  let h := parcel_i f3 b12 r s q in
  fits 16 h /\ Z.land h 0x3 = q /\ bits h 15 13 = f3 /\ bit h 12 = b12 /\ bits h 11 7 = r
  /\ bits h 6 2 = s /\ bits h 6 5 = s / 8 /\ bits h 4 2 = s mod 8 /\ bits h 6 4 = s / 4
  /\ bits h 3 2 = s mod 4 /\ bit h 6 = s / 16 /\ bit h 5 = s / 8 mod 2
  /\ bits h 4 3 = s / 2 mod 4 /\ bits h 5 3 = s / 2 mod 8
  /\ bit h 2 = s mod 2 /\ bit h 11 = r / 16 /\ bits h 10 9 = r / 4 mod 4
  /\ bit h 8 = r / 2 mod 2 /\ bit h 7 = r mod 2 /\ bits h 12 9 = b12 * 8 + r / 4
  /\ bits h 8 7 = r mod 4 /\ bits h 12 10 = b12 * 4 + r / 8 /\ bits h 9 7 = r mod 8.
Proof. intros. subst h. split_fields. Qed.

Lemma rvc_reg_sub r : creg r -> rvc_reg (r - 8) = r.
Proof.
  intros. unfold rvc_reg, creg in *. change 0x7 with (Z.ones 3).
  rewrite Z.land_ones by lia. Z.to_euclidean_division_equations; lia.
Qed.

(** ** Decoding a parcel of the table *)

Definition rvc_insn (rv64 : bool) (c : rvc) : Insn :=
  let '(op, rd, rs1, rs2, imm) := rvc_expand rv64 c in mk op rd rs1 rs2 imm (rvc_word c).

Ltac from_sums :=
  match goal with h : Z |- _ =>
    let H := fresh in pose proof (imm_sums_ok h) as H; unfold imm_sums in H;
    repeat (apply andb_prop in H as [H ?]); by apply Z.eqb_eq
  end.

Lemma ci_imm_sum h :
  ci_imm h = bit h 12 * 32 + bits h 6 2.
Proof. from_sums. Qed.
Lemma cl_off_w_sum h :
  cl_off_w h = bits h 12 10 * 8 + bit h 6 * 4 + bit h 5 * 64.
Proof. from_sums. Qed.
Lemma cl_off_d_sum h :
  cl_off_d h = bits h 12 10 * 8 + bits h 6 5 * 64.
Proof. from_sums. Qed.
Lemma clsp_off_w_sum h :
  clsp_off_w h = bit h 12 * 32 + bits h 6 4 * 4 + bits h 3 2 * 64.
Proof. from_sums. Qed.
Lemma clsp_off_d_sum h :
  clsp_off_d h = bit h 12 * 32 + bits h 6 5 * 8 + bits h 4 2 * 64.
Proof. from_sums. Qed.
Lemma cssp_off_w_sum h :
  cssp_off_w h = bits h 12 9 * 4 + bits h 8 7 * 64.
Proof. from_sums. Qed.
Lemma cssp_off_d_sum h :
  cssp_off_d h = bits h 12 10 * 8 + bits h 9 7 * 64.
Proof. from_sums. Qed.
Lemma cj_offset_sum h :
  cj_offset h = as_i 12 (bit h 12 * 2048 + bit h 11 * 16 + bits h 10 9 * 256 + bit h 8 * 1024
                     + bit h 7 * 64 + bit h 6 * 128 + bits h 5 3 * 2 + bit h 2 * 32).
Proof. from_sums. Qed.
Lemma cb_offset_sum h :
  cb_offset h = as_i 9 (bit h 12 * 256 + bits h 11 10 * 8 + bits h 6 5 * 64
                    + bits h 4 3 * 2 + bit h 2 * 32).
Proof. from_sums. Qed.
Lemma addi4spn_sum h :
  addi4spn_imm h = bits h 12 11 * 16 + bits h 10 7 * 64 + bit h 6 * 4 + bit h 5 * 8.
Proof. from_sums. Qed.
Lemma addi16sp_sum h :
  addi16sp_imm h = bit h 12 * 32 + bits h 4 3 * 8 + bit h 5 * 4 + bit h 2 * 2 + bit h 6.
Proof. from_sums. Qed.
Lemma lui_sum h :
  lui_imm h = bit h 12 * 2 ^ 17 + bits h 6 2 * 2 ^ 12.
Proof. from_sums. Qed.
Lemma zcb_sum h :
  zcb_imm h = bit h 5 * 2 + bit h 6.
Proof. from_sums. Qed.

Lemma sext_as_i v n : 1 <= n <= 32 -> sext v n = as_i n v.
Proof.
  intros. unfold sext, wshl. rewrite (Z.mod_small (32 - n) 32) by lia.
  rewrite as_i_as_u by lia. rewrite Z.shiftr_div_pow2, Z.shiftl_mul_pow2 by lia. unfold as_i.
  assert (H31 : 2 ^ (32 - 1) = 2 ^ (n - 1) * 2 ^ (32 - n)) by (rewrite <- Z.pow_add_r by lia; f_equal; lia).
  assert (H32 : 2 ^ 32 = 2 ^ n * 2 ^ (32 - n)) by (rewrite <- Z.pow_add_r by lia; f_equal; lia).
  rewrite H31, H32, <- Z.mul_add_distr_r, Z.mul_mod_distr_r by lia.
  rewrite <- Z.mul_sub_distr_r, Z.div_mul by lia. done.
Qed.

Lemma any_bits_1 r : any_bits r 1 = negb (Z.even r).
Proof.
  unfold any_bits. change 1 with (Z.ones 1) at 1. rewrite Z.land_ones by lia.
  rewrite Zeven_mod. reflexivity.
Qed.

Ltac rvc_arith :=
  repeat match goal with
  | H : bits _ _ _ = _ |- _ => clear H
  | H : bit _ _ = _ |- _ => clear H
  | H : Z.land _ _ = _ |- _ => clear H
  end;
  unfold creg in *; imm_arith.

Ltac rvc_eval :=
  repeat first
  [ progress cbn [andb orb negb arms default from_option id Z.eqb Pos.eqb]
  | match goal with H : bits ?h ?a ?b = _ |- context [bits ?h ?a ?b] => rewrite H end
  | match goal with H : bit ?h ?a = _ |- context [bit ?h ?a] => rewrite H end
  | match goal with H : Z.land ?h 0x3 = _ |- context [Z.land ?h 0x3] => rewrite H end
  | match goal with H : ?f ?x = true |- context [?f ?x] => rewrite H end
  | match goal with H : ?f ?x = false |- context [?f ?x] => rewrite H end
  | match goal with H : (?x =? ?y) = false |- context [?x =? ?y] => rewrite H end
  | rewrite rvc_reg_sub by assumption
  | rewrite any_bits_1
  | rewrite sext_as_i by lia
  | match goal with
    | |- context [?x =? ?k] =>
        first [replace (x =? k) with true by (symmetry; apply Z.eqb_eq; rvc_arith)
              | replace (x =? k) with false by (symmetry; apply Z.eqb_neq; rvc_arith)]
    end
  | match goal with
    | |- context [?x <=? ?k] => replace (x <=? k) with false by (symmetry; apply Z.leb_gt; rvc_arith)
    end ].

(** Replaces the parcel of the goal by a variable with known fields. *)
Ltac rvc_abstract :=
  let Hf := fresh in
  match goal with
  | |- context [decode_compressed (parcel_l ?f3 ?a ?r ?b ?d ?q) _ _] =>
      pose proof (parcel_l_fields f3 a r b d q ltac:(rvc_arith) ltac:(rvc_arith)
        ltac:(rvc_arith) ltac:(rvc_arith) ltac:(rvc_arith) ltac:(rvc_arith)) as Hf
  | |- context [decode_compressed (parcel_i ?f3 ?b ?r ?s ?q) _ _] =>
      pose proof (parcel_i_fields f3 b r s q ltac:(rvc_arith) ltac:(rvc_arith)
        ltac:(rvc_arith) ltac:(rvc_arith) ltac:(rvc_arith)) as Hf
  end;
  cbv zeta in Hf;
  match goal with |- context [decode_compressed ?w _ _] =>
    let h := fresh "h" in
    assert ((w =? 0) = false) by (apply Z.eqb_neq; unfold parcel_l, parcel_i; rvc_arith);
    set (h := w) in *; clearbody h; destruct_and! Hf
  end.

Ltac rvc_imms :=
  rewrite ?ci_imm_sum, ?cl_off_w_sum, ?cl_off_d_sum, ?clsp_off_w_sum, ?clsp_off_d_sum, ?cssp_off_w_sum, ?cssp_off_d_sum, ?cj_offset_sum, ?cb_offset_sum, ?addi4spn_sum, ?addi16sp_sum, ?lui_sum, ?zcb_sum.

(** The jump offset from its scattered fields. *)
Lemma digits4 a b c d : fits 1 a -> fits 2 b -> fits 1 c -> fits 1 d ->
  let r := a * 2 ^ 4 + b * 2 ^ 2 + c * 2 + d in
  r / 16 = a /\ r / 4 mod 4 = b /\ r / 2 mod 2 = c /\ r mod 2 = d.
Proof. cbv zeta. imm_arith. Qed.
Lemma digits3 a b c : fits 1 a -> fits 3 b -> fits 1 c ->
  let r := a * 2 ^ 4 + b * 2 + c in r / 16 = a /\ r / 2 mod 8 = b /\ r mod 2 = c.
Proof. cbv zeta. imm_arith. Qed.
Lemma cj_join i : - 2 ^ 11 <= i < 2 ^ 11 -> i mod 2 = 0 ->
  as_i 12 (slice i 11 11 * 2048 + slice i 4 4 * 16 + slice i 9 8 * 256 + slice i 10 10 * 1024
           + slice i 6 6 * 64 + slice i 7 7 * 128 + slice i 3 1 * 2 + slice i 5 5 * 32) = i.
Proof.
  intros. transitivity (as_i 12 (i mod 2 ^ 12)); [|imm_arith].
  apply (f_equal (as_i 12)). imm_arith.
Qed.

Lemma cj_fields i : - 2 ^ 11 <= i < 2 ^ 11 -> i mod 2 = 0 ->
  let r := slice i 4 4 * 2 ^ 4 + slice i 9 8 * 2 ^ 2 + slice i 10 10 * 2 + slice i 6 6 in
  let s := slice i 7 7 * 2 ^ 4 + slice i 3 1 * 2 + slice i 5 5 in
  as_i 12 (slice i 11 11 * 2048 + r / 16 * 16 + r / 4 mod 4 * 256 + r / 2 mod 2 * 1024
           + r mod 2 * 64 + s / 16 * 128 + s / 2 mod 8 * 2 + s mod 2 * 32) = i.
Proof.
  intros ? ? r s.
  destruct (digits4 (slice i 4 4) (slice i 9 8) (slice i 10 10) (slice i 6 6))
    as (Hr1 & Hr2 & Hr3 & Hr4); try (apply slice_fits; lia).
  destruct (digits3 (slice i 7 7) (slice i 3 1) (slice i 5 5)) as (Hs1 & Hs2 & Hs3);
    try (apply slice_fits; lia).
  unfold r, s. rewrite Hr1, Hr2, Hr3, Hr4, Hs1, Hs2, Hs3. by apply cj_join.
Qed.

Ltac rvc_hyps :=
  cbn [andb negb is_rv64] in *; try discriminate;
  repeat match goal with
  | H : _ && _ = true |- _ => apply andb_prop in H as [? ?]
  | H : negb _ = true |- _ => apply negb_true_iff in H
  end; destruct_and?.

Ltac rvc_intro :=
  intros c Hl Ho; subst c;
  cbv beta iota zeta delta [rvc_legal rvc_operands] in Hl, Ho; unfold scaled in *; rvc_hyps.

Ltac rvc_decode :=
  unfold rvc_insn;
  cbn [rvc_expand rvc_word c_load_f3 c_store_f3 c_alu_fn c_unary_fn c_ntl_fn fst snd];
  rvc_abstract; unfold decode_compressed, decode_rvc; rvc_eval;
  unfold decode_q0, decode_q1, decode_q2, decode_zcb_q0, decode_q1_alu, decode_zcb_unary,
    decode_q2_jump_mv_add; cbv zeta; rvc_imms; rvc_eval;
  rewrite ?Z.shiftl_mul_pow2 by lia; try reflexivity; f_equal; rvc_arith.

Ltac rvc_jump :=
  unfold rvc_insn; cbn [rvc_expand rvc_word]; rvc_abstract;
  unfold decode_compressed, decode_rvc; rvc_eval; unfold decode_q1; rvc_eval;
  rewrite cj_offset_sum; rvc_eval; rewrite cj_fields by done; done.

(** The Zcmp and Zcmt formats. *)
Definition parcel_cm (fn rlist spimm : Z) : Z :=
  5 * 2 ^ 13 + fn * 2 ^ 8 + rlist * 2 ^ 4 + spimm * 2 ^ 2 + 2.

Lemma parcel_cm_fields fn rlist spimm :
  fits 5 fn -> fits 4 rlist -> fits 2 spimm ->
  let h := parcel_cm fn rlist spimm in
  Z.land h 0x3 = 2 /\ bits h 15 13 = 5 /\ bits h 12 8 = fn /\ bits h 7 4 = rlist
  /\ bits h 3 2 = spimm /\ bits h 12 10 = fn / 4
  /\ bits h 9 2 = fn mod 4 * 64 + rlist * 4 + spimm.
Proof.
  intros. subst h. field_quotients. rewrite land_3. unfold parcel_cm, fits in *.
  repeat split; Z.to_euclidean_division_equations; lia.
Qed.

Lemma zcmp_stack_adj_table rv64 rlist spimm : 4 <= rlist < 16 ->
  zcmp_stack_adj rlist spimm rv64 = Some (cm_stack_base rv64 rlist + spimm * 16).
Proof.
  intros. assert (Hr : zcmp_stack_adj rlist 0 rv64 = Some (cm_stack_base rv64 rlist)).
  { assert (Hc : rlist = 4 \/ rlist = 5 \/ rlist = 6 \/ rlist = 7 \/ rlist = 8 \/ rlist = 9
      \/ rlist = 10 \/ rlist = 11 \/ rlist = 12 \/ rlist = 13 \/ rlist = 14 \/ rlist = 15) by lia.
    destruct rv64; repeat destruct Hc as [->|Hc]; try subst; reflexivity. }
  unfold zcmp_stack_adj in *. destruct (zcmp_reg_count rlist); [|done].
  injection Hr as <-. f_equal. lia.
Qed.

Lemma zcmp_sreg_table n : fits 3 n -> zcmp_sreg n = cm_sreg n.
Proof.
  intros. unfold zcmp_sreg, cm_sreg. change 0x7 with (Z.ones 3).
  rewrite Z.land_ones, Z.mod_small by (unfold fits in *; lia). unfold fits in *.
  destruct (Z.eqb_spec n 0), (Z.eqb_spec n 1), (Z.ltb_spec n 2); lia.
Qed.

Lemma cm_sreg_inj a b : fits 3 a -> fits 3 b -> a <> b -> (cm_sreg a =? cm_sreg b) = false.
Proof.
  intros. apply Z.eqb_neq. unfold cm_sreg, fits in *.
  destruct (Z.ltb_spec a 2), (Z.ltb_spec b 2); lia.
Qed.

Section Tables.
Variables (xlen : Xlen) (isa : Isa).
Abbreviation rv64 := (is_rv64 xlen).
Abbreviation decodes c :=
  (rvc_legal rv64 isa c = true -> rvc_operands rv64 c ->
   decode_compressed (rvc_word c) xlen isa = rvc_insn rv64 c).

Lemma rvc_load_w op rd' rs1' i : let c := C_load_w op rd' rs1' i in decodes c.
Proof. rvc_intro. destruct op; try discriminate; destruct xlen; rvc_hyps; rvc_decode. Qed.
Lemma rvc_load_d op rd' rs1' i : let c := C_load_d op rd' rs1' i in decodes c.
Proof. rvc_intro. destruct op; try discriminate; destruct xlen; rvc_hyps; rvc_decode. Qed.
Lemma rvc_store_w op rs2' rs1' i : let c := C_store_w op rs2' rs1' i in decodes c.
Proof. rvc_intro. destruct op; try discriminate; destruct xlen; rvc_hyps; rvc_decode. Qed.
Lemma rvc_store_d op rs2' rs1' i : let c := C_store_d op rs2' rs1' i in decodes c.
Proof. rvc_intro. destruct op; try discriminate; destruct xlen; rvc_hyps; rvc_decode. Qed.
Lemma rvc_addi4spn rd' i : let c := C_addi4spn rd' i in decodes c.
Proof. rvc_intro. rvc_decode. Qed.
Lemma rvc_lbu rd' rs1' i : let c := C_lbu rd' rs1' i in decodes c.
Proof. rvc_intro. rvc_decode. Qed.
Lemma rvc_load_h op rd' rs1' i : let c := C_load_h op rd' rs1' i in decodes c.
Proof. rvc_intro. destruct op; try discriminate; rvc_decode. Qed.
Lemma rvc_sb rs2' rs1' i : let c := C_sb rs2' rs1' i in decodes c.
Proof. rvc_intro. rvc_decode. Qed.
Lemma rvc_sh rs2' rs1' i : let c := C_sh rs2' rs1' i in decodes c.
Proof. rvc_intro. rvc_decode. Qed.
Lemma rvc_addi rd' i : let c := C_addi rd' i in decodes c.
Proof. rvc_intro. rvc_decode. Qed.
Lemma rvc_addiw rd' i : let c := C_addiw rd' i in decodes c.
Proof. rvc_intro. destruct xlen; rvc_hyps; rvc_decode. Qed.
Lemma rvc_li rd' i : let c := C_li rd' i in decodes c.
Proof. rvc_intro. rvc_decode. Qed.
Lemma rvc_addi16sp i : let c := C_addi16sp i in decodes c.
Proof. rvc_intro. rvc_decode. Qed.
Lemma rvc_lui rd' i : let c := C_lui rd' i in decodes c.
Proof. rvc_intro. rvc_decode. Qed.
Lemma rvc_shift op rd' i : let c := C_shift op rd' i in decodes c.
Proof. rvc_intro. destruct op; try discriminate; destruct xlen; rvc_hyps; rvc_decode. Qed.
Lemma rvc_andi rd' i : let c := C_andi rd' i in decodes c.
Proof. rvc_intro. rvc_decode. Qed.
Lemma rvc_alu op rd' rs2' : let c := C_alu op rd' rs2' in decodes c.
Proof. rvc_intro. destruct op; try discriminate; destruct xlen; rvc_hyps; rvc_decode. Qed.
Lemma rvc_unary op rd' : let c := C_unary op rd' in decodes c.
Proof. rvc_intro. destruct op; try discriminate; destruct xlen; rvc_hyps; rvc_decode. Qed.
Lemma rvc_jal i : let c := C_jal i in decodes c.
Proof. rvc_intro. destruct xlen; rvc_hyps; rvc_jump. Qed.
Lemma rvc_j i : let c := C_j i in decodes c.
Proof. rvc_intro. rvc_jump. Qed.
Lemma rvc_branch op rs1' i : let c := C_branch op rs1' i in decodes c.
Proof. rvc_intro. destruct op; try discriminate; rvc_decode. Qed.
Lemma rvc_slli rd' i : let c := C_slli rd' i in decodes c.
Proof. rvc_intro. destruct xlen; rvc_hyps; rvc_decode. Qed.
Lemma rvc_loadsp_w op rd' i : let c := C_loadsp_w op rd' i in decodes c.
Proof. rvc_intro. destruct op; try discriminate; destruct xlen; rvc_hyps; rvc_decode. Qed.
Lemma rvc_loadsp_d op rd' i : let c := C_loadsp_d op rd' i in decodes c.
Proof. rvc_intro. destruct op; try discriminate; destruct xlen; rvc_hyps; rvc_decode. Qed.
Lemma rvc_storesp_w op rs2' i : let c := C_storesp_w op rs2' i in decodes c.
Proof. rvc_intro. destruct op; try discriminate; destruct xlen; rvc_hyps; rvc_decode. Qed.
Lemma rvc_storesp_d op rs2' i : let c := C_storesp_d op rs2' i in decodes c.
Proof. rvc_intro. destruct op; try discriminate; destruct xlen; rvc_hyps; rvc_decode. Qed.
Lemma rvc_jr rs1' : let c := C_jr rs1' in decodes c.
Proof. rvc_intro. rvc_decode. Qed.
Lemma rvc_jalr rs1' : let c := C_jalr rs1' in decodes c.
Proof. rvc_intro. rvc_decode. Qed.
Lemma rvc_mv rd' rs2' : let c := C_mv rd' rs2' in decodes c.
Proof. rvc_intro. rvc_decode. Qed.
Lemma rvc_add rd' rs2' : let c := C_add rd' rs2' in decodes c.
Proof.
  rvc_intro.
  assert (Hn : isa_zihintntl isa && (rd' =? 0) = true ->
    (rs2' =? 2) = false /\ (rs2' =? 3) = false /\ (rs2' =? 4) = false /\ (rs2' =? 5) = false).
  { intros E. match goal with H : _ = false |- _ => rewrite E in H end. lia. }
  unfold rvc_insn. cbn [rvc_expand rvc_word]. rvc_abstract.
  unfold decode_compressed, decode_rvc. rvc_eval.
  unfold decode_q2, decode_q2_jump_mv_add. rvc_eval.
  destruct (isa_zihintntl isa && (rd' =? 0)); [|done].
  destruct Hn as (E2 & E3 & E4 & E5); [done|]. cbn [arms]. rewrite E2, E3, E4, E5. done.
Qed.
Lemma rvc_ebreak  : let c := C_ebreak in decodes c.
Proof. rvc_intro. rvc_decode. Qed.
Lemma rvc_ntl op : let c := C_ntl op in decodes c.
Proof. rvc_intro. destruct op; try discriminate; rvc_decode. Qed.

Lemma rvc_cm_stack op rlist spimm : let c := CM_stack op rlist spimm in decodes c.
Proof.
  rvc_intro. unfold rvc_insn. cbn [rvc_expand rvc_word].
  change (5 * 2 ^ 13 + cm_stack_fn op * 2 ^ 8 + rlist * 2 ^ 4 + spimm * 2 ^ 2 + 2)
    with (parcel_cm (cm_stack_fn op) rlist spimm).
  assert (Hz : (parcel_cm (cm_stack_fn op) rlist spimm =? 0) = false).
  { apply Z.eqb_neq. unfold parcel_cm. destruct op; cbn [cm_stack_fn]; lia. }
  destruct (parcel_cm_fields (cm_stack_fn op) rlist spimm) as (Hq & Hf3 & Hfn & Hr & Hs & _ & _);
    [destruct op; done | unfold fits; lia | unfold fits; lia |].
  cbv zeta in *. unfold decode_compressed, decode_rvc. rvc_eval.
  unfold decode_q2, decode_zcmp_zcmt. rvc_eval.
  rewrite zcmp_stack_adj_table by lia.
  destruct op; try discriminate; reflexivity.
Qed.

Lemma rvc_cm_mvsa01 r1s r2s : let c := CM_mvsa01 r1s r2s in decodes c.
Proof.
  rvc_intro. unfold rvc_insn. cbn [rvc_expand rvc_word]. rvc_abstract.
  unfold decode_compressed, decode_rvc. rvc_eval. unfold decode_q2, decode_zcmp_zcmt. rvc_eval.
  rewrite !zcmp_sreg_table, cm_sreg_inj by done. done.
Qed.

Lemma rvc_cm_mva01s r1s r2s : let c := CM_mva01s r1s r2s in decodes c.
Proof.
  rvc_intro. unfold rvc_insn. cbn [rvc_expand rvc_word]. rvc_abstract.
  unfold decode_compressed, decode_rvc. rvc_eval. unfold decode_q2, decode_zcmp_zcmt. rvc_eval.
  rewrite !zcmp_sreg_table by done. done.
Qed.

Lemma rvc_cm_jump index : let c := CM_jump index in decodes c.
Proof.
  rvc_intro. unfold rvc_insn. cbn [rvc_expand rvc_word].
  assert (E : 5 * 2 ^ 13 + index * 2 ^ 2 + 2
              = parcel_cm (index / 64) (index / 4 mod 16) (index mod 4))
    by (unfold parcel_cm; rvc_arith).
  rewrite E. assert (Hz : (parcel_cm (index / 64) (index / 4 mod 16) (index mod 4) =? 0) = false)
    by (apply Z.eqb_neq; rewrite <- E; rvc_arith).
  destruct (parcel_cm_fields (index / 64) (index / 4 mod 16) (index mod 4))
    as (Hq & Hf3 & Hfn & _ & _ & Hk & Hi); try rvc_arith.
  cbv zeta in *. unfold decode_compressed, decode_rvc. rvc_eval.
  unfold decode_q2, decode_zcmp_zcmt. rvc_eval. rewrite orb_true_r.
  replace ((index / 64) mod 4 * 64 + index / 4 mod 16 * 4 + index mod 4) with index by rvc_arith.
  destruct (isa_zcmp isa); rvc_eval; done.
Qed.

Lemma rvc_word_decode c : decodes c.
Proof.
  destruct c;
    [apply rvc_addi4spn | apply rvc_load_w | apply rvc_load_d | apply rvc_store_w
    | apply rvc_store_d | apply rvc_lbu | apply rvc_load_h | apply rvc_sb | apply rvc_sh
    | apply rvc_addi | apply rvc_addiw | apply rvc_li | apply rvc_addi16sp | apply rvc_lui
    | apply rvc_shift | apply rvc_andi | apply rvc_alu | apply rvc_unary | apply rvc_jal
    | apply rvc_j | apply rvc_branch | apply rvc_slli | apply rvc_loadsp_w | apply rvc_loadsp_d
    | apply rvc_storesp_w | apply rvc_storesp_d | apply rvc_jr | apply rvc_jalr | apply rvc_mv
    | apply rvc_add | apply rvc_ebreak | apply rvc_ntl | apply rvc_cm_stack
    | apply rvc_cm_mvsa01 | apply rvc_cm_mva01s | apply rvc_cm_jump].
Qed.
End Tables.

(** ** Expansion *)

Lemma rvc_expand_in_range rv64 isa c e :
  let '(op, rd, rs1, rs2, imm) := rvc_expand rv64 c in
  rvc_legal rv64 isa c = true -> rvc_operands rv64 c -> enc_of rv64 0 op = Some e ->
  fits 5 rd /\ fits 5 rs1 /\ fits 5 rs2 /\ imm_in_range rv64 e imm.
Proof.
  destruct c; cbn [rvc_expand]; intros Hl Ho He;
    cbv beta iota zeta delta [rvc_legal rvc_operands] in Hl, Ho; unfold scaled, creg in *; rvc_hyps.
  all: try (destruct op; try discriminate; cbn [enc_of] in He; rvc_hyps).
  all: try (cbn [enc_of] in He; destruct rv64; simplify_eq; cbn [imm_in_range c_ntl_fn]; rvc_arith).
  destruct (index <? 32); discriminate.
Qed.

(** ** Properties *)

(** C5.  [decode_compressed] inverts the compressed instruction tables: for
    every instruction of RVC, Zcb, Zclsd, Zcmp and Zcmt with operands in the
    range the manual gives, whose extensions and register width are
    configured, the 16-bit parcel decodes to exactly the expansion of the
    manual, with all immediate bits put back in place and sign- or
    zero-extended. *)
Theorem rvc_round_trip xlen isa c :
  rvc_legal (is_rv64 xlen) isa c = true -> rvc_operands (is_rv64 xlen) c ->
  decode_compressed (rvc_word c) xlen isa = rvc_insn (is_rv64 xlen) c.
Proof. apply rvc_word_decode. Qed.

(** [c.beqz x9, -226] on RV64GC. *)
Lemma rvc_round_trip_witness :
  decode_compressed (rvc_word (C_branch Beq 9 (-226))) Rv64 rv64gc
  = mk Beq 0 9 0 (-226) (rvc_word (C_branch Beq 9 (-226))).
Proof.
  apply (rvc_round_trip Rv64 rv64gc (C_branch Beq 9 (-226))); [reflexivity|].
  unfold rvc_operands, creg. repeat split; lia || reflexivity.
Defined.

(** A compressed instruction is its 32-bit expansion: when the operation
    has a standard 32-bit encoding in the configuration, decoding that encoding
    of the operands the compressed decoder produced gives the same operation and
    the same operands, up to the hints that reuse the encoding. *)
Theorem rvc_expansion xlen isa c e :
  let i := decode_compressed (rvc_word c) xlen isa in
  rvc_legal (is_rv64 xlen) isa c = true -> rvc_operands (is_rv64 xlen) c ->
  enc_of (is_rv64 xlen) 0 (insn_op i) = Some e ->
  std_enabled isa (insn_op i) = true -> zext_h_lost (is_rv64 xlen) isa (insn_op i) = false ->
  let '(op', imm') := redefined (is_rv64 xlen) isa 0 (insn_op i) (insn_rd i) (insn_rs1 i)
                        (insn_rs2 i) (insn_imm i) in
  decodes_to e
    (decode (encode e (insn_rd i) (insn_rs1 i) (insn_rs2 i) (insn_imm i)) xlen isa)
    op' (insn_rd i) (insn_rs1 i) (insn_rs2 i) imm'.
Proof.
  intros i Hl Ho He Hs Hz. pose proof (decode_compressed_gated (rvc_word c) xlen isa) as Hg.
  pose proof (rvc_expand_in_range (is_rv64 xlen) isa c e) as Hr.
  assert (Hi : i = rvc_insn (is_rv64 xlen) c) by (by apply rvc_word_decode).
  fold i in Hg. rewrite Hi in *. unfold rvc_insn in *.
  destruct (rvc_expand _ c) as [[[[op rd'] rs1'] rs2'] imm].
  cbn [mk insn_op insn_rd insn_rs1 insn_rs2 insn_imm] in *.
  destruct Hr as (? & ? & ? & ?); [done..|]. apply decode_encode_insn; auto.
  - destruct Hg as [Hg|Hg]; [done|]. unfold rvc_flw_slot in Hg. by destruct op.
  - by destruct op.
Qed.

(** [c.sw x14, 68(x10)] and [sw x14, 68(x10)] on the Ti50 configuration. *)
Lemma rvc_expansion_witness :
  decodes_to (EncS 0x23 2) (decode (encode (EncS 0x23 2) 0 10 14 68) Rv32 ti50) Sw 0 10 14 68.
Proof.
  refine (rvc_expansion Rv32 ti50 (C_store_w Sw 14 10 68) (EncS 0x23 2) _ _ _ _ _);
    [reflexivity | unfold rvc_operands, creg, scaled; repeat split; lia || reflexivity
    | reflexivity | reflexivity | reflexivity].
Defined.
