(* ===== verification/RvAlu.v ===== *)
(** * Integer ALU helpers

    The XLEN-aware shift, multiply and divide helpers and the bit-manipulation
    functions of src/isa/riscv/cpu.rs.  A register value is a u64 ([rv32]
    registers are zero-extended); [xl] is the configured register width. *)

From S2P Require Import Prelude RvIsa RvOp.

Definition rv32 (xl : Xlen) : bool := negb (is_rv64 xl).

(** Sign-extend a stored register value from the XLEN MSB (an i64). *)
Definition sx (xl : Xlen) (v : Z) : Z :=
  if rv32 xl then as_i32 (as_u32 v) else as_i64 v.

(** Sign-extend a 32-bit value to 64 bits. *)
Definition word (v : Z) : Z := as_u64 (as_i32 v).

(** Sign-extend the low [size] bytes of [raw] to 64 bits. *)
Definition sign_extend (raw size : Z) : Z :=
  if size =? 1 then as_u64 (as_i8 (as_u8 raw))
  else if size =? 2 then as_u64 (as_i16 (as_u16 raw))
  else if size =? 4 then as_u64 (as_i32 (as_u32 raw))
  else raw.

Definition mask_bytes (size : Z) : Z :=
  if 8 <=? size then 2 ^ 64 - 1 else wshl 64 1 (size * 8) - 1.

Definition mask_xbits (v xbits : Z) : Z :=
  if 64 <=? xbits then v else Z.land v (wshl 64 1 xbits - 1).

(** ** Shifts and rotations *)

Definition shamt (xl : Xlen) (v : Z) : Z := Z.land v (xlen_bits xl - 1).

Definition sll (xl : Xlen) (a sh : Z) : Z :=
  let s := shamt xl sh in
  if rv32 xl then wshl 32 (as_u32 a) s else wshl 64 a s.
Definition srl (xl : Xlen) (a sh : Z) : Z :=
  let s := shamt xl sh in
  if rv32 xl then wshr 32 (as_u32 a) s else wshr 64 a s.
Definition sra (xl : Xlen) (a sh : Z) : Z :=
  let s := shamt xl sh in
  if rv32 xl then as_u32 (wsar 32 (as_i32 (as_u32 a)) s) else as_u64 (wsar 64 (as_i64 a) s).
Definition rol (xl : Xlen) (a sh : Z) : Z :=
  let s := shamt xl sh in
  if rv32 xl then rotate_left 32 (as_u32 a) s else rotate_left 64 a s.
Definition ror (xl : Xlen) (a sh : Z) : Z :=
  let s := shamt xl sh in
  if rv32 xl then rotate_right 32 (as_u32 a) s else rotate_right 64 a s.
Definition clz (xl : Xlen) (a : Z) : Z :=
  if rv32 xl then leading_zeros 32 (as_u32 a) else leading_zeros 64 a.
Definition ctz (xl : Xlen) (a : Z) : Z :=
  if rv32 xl then trailing_zeros 32 (as_u32 a) else trailing_zeros 64 a.

(** ** M-extension helpers *)

Definition mulh (xl : Xlen) (a b : Z) : Z :=
  if rv32 xl then as_u32 (Z.shiftr (as_i32 a * as_i32 b) 32)
  else as_u64 (Z.shiftr (as_i64 a * as_i64 b) 64).
Definition mulhsu (xl : Xlen) (a b : Z) : Z :=
  if rv32 xl then as_u32 (Z.shiftr (as_i32 a * as_u32 b) 32)
  else as_u64 (Z.shiftr (as_i64 a * b) 64).
Definition mulhu (xl : Xlen) (a b : Z) : Z :=
  if rv32 xl then as_u32 (Z.shiftr (as_u32 a * as_u32 b) 32)
  else as_u64 (Z.shiftr (a * b) 64).

(** Rust's [/] and [%] truncate towards zero. *)
Definition idiv (w x y : Z) : Z :=
  if y =? 0 then -1
  else if (x =? - 2 ^ (w - 1)) && (y =? -1) then - 2 ^ (w - 1)
  else Z.quot x y.
Definition irem (w x y : Z) : Z :=
  if y =? 0 then x
  else if (x =? - 2 ^ (w - 1)) && (y =? -1) then 0
  else Z.rem x y.

Definition div (xl : Xlen) (a b : Z) : Z :=
  if rv32 xl then as_u32 (idiv 32 (as_i32 a) (as_i32 b))
  else as_u64 (idiv 64 (as_i64 a) (as_i64 b)).
Definition divu (xl : Xlen) (a b : Z) : Z :=
  if rv32 xl then
    let x := as_u32 a in let y := as_u32 b in
    if y =? 0 then 2 ^ 32 - 1 else Z.quot x y
  else if b =? 0 then 2 ^ 64 - 1 else Z.quot a b.
Definition rem (xl : Xlen) (a b : Z) : Z :=
  if rv32 xl then as_u32 (irem 32 (as_i32 a) (as_i32 b))
  else as_u64 (irem 64 (as_i64 a) (as_i64 b)).
Definition remu (xl : Xlen) (a b : Z) : Z :=
  if rv32 xl then
    let x := as_u32 a in let y := as_u32 b in
    if y =? 0 then x else Z.rem x y
  else if b =? 0 then a else Z.rem a b.

(** 32-bit word division/remainder (RV64 DIVW/DIVUW/REMW/REMUW). *)
Definition divw (a b : Z) (signed rem : bool) : Z :=
  if signed then
    let x := as_i32 a in let y := as_i32 b in
    as_u64 (if rem then irem 32 x y else idiv 32 x y)
  else
    as_u64 (as_i32 (if rem then if b =? 0 then a else Z.rem a b
                    else if b =? 0 then 2 ^ 32 - 1 else Z.quot a b)).

(** ** A-extension helpers; [None] is the [unreachable!()] arm *)

Definition amo_compute32 (op : Op) (old src : Z) : option Z :=
  match op with
  | AmoswapW => Some src
  | AmoaddW => Some (wadd 32 old src)
  | AmoxorW => Some (Z.lxor old src)
  | AmoandW => Some (Z.land old src)
  | AmoorW => Some (Z.lor old src)
  | AmominW => Some (as_u32 (Z.min (as_i32 old) (as_i32 src)))
  | AmomaxW => Some (as_u32 (Z.max (as_i32 old) (as_i32 src)))
  | AmominuW => Some (Z.min old src)
  | AmomaxuW => Some (Z.max old src)
  | _ => None
  end.

Definition amo_compute64 (op : Op) (old src : Z) : option Z :=
  match op with
  | AmoswapD => Some src
  | AmoaddD => Some (wadd 64 old src)
  | AmoxorD => Some (Z.lxor old src)
  | AmoandD => Some (Z.land old src)
  | AmoorD => Some (Z.lor old src)
  | AmominD => Some (as_u64 (Z.min (as_i64 old) (as_i64 src)))
  | AmomaxD => Some (as_u64 (Z.max (as_i64 old) (as_i64 src)))
  | AmominuD => Some (Z.min old src)
  | AmomaxuD => Some (Z.max old src)
  | _ => None
  end.

(** ** Zbb, Zbc and Zbkb *)

Definition clz_ctz_w (v : Z) (ctz : bool) : Z :=
  if ctz then trailing_zeros 32 v else leading_zeros 32 v.

(** Byte [i] of [a]: [(a >> (i * 8)) & 0xff]. *)
Definition byte_at (a i : Z) : Z := Z.land (wshr 64 a (i * 8)) 0xff.

Definition orc_b (a xmask : Z) : Z :=
  Z.land
    (for_range 8 0 (fun i out =>
       if negb (byte_at a i =? 0) then Z.lor out (wshl 64 0xff (i * 8)) else out) 0)
    xmask.

(** [swap_bytes] of an [n]-byte value. *)
Definition swap_bytes (n : nat) (a : Z) : Z := from_le_bytes (rev (to_le_bytes n a)).

Definition rev8 (a : Z) (rv32 : bool) : Z :=
  if rv32 then swap_bytes 4 (as_u32 a) else swap_bytes 8 a.

(** [u8::reverse_bits]. *)
Definition reverse_bits8 (b : Z) : Z :=
  for_range 8 0 (fun i out => Z.lor out (Z.shiftl (Z.land (Z.shiftr b i) 1) (7 - i))) 0.

Definition brev8 (a : Z) : Z :=
  for_range 8 0 (fun i out => Z.lor out (wshl 64 (reverse_bits8 (byte_at a i)) (i * 8))) 0.

Definition zip32 (a : Z) : Z :=
  for_range 16 0 (fun i out =>
    let out := Z.lor out (wshl 32 (Z.land (wshr 32 a i) 1) (i * 2)) in
    Z.lor out (wshl 32 (Z.land (wshr 32 a (i + 16)) 1) (i * 2 + 1))) 0.

Definition unzip32 (a : Z) : Z :=
  for_range 16 0 (fun i out =>
    let out := Z.lor out (wshl 32 (Z.land (wshr 32 a (i * 2)) 1) i) in
    Z.lor out (wshl 32 (Z.land (wshr 32 a (i * 2 + 1)) 1) (i + 16))) 0.

Definition clmul (a b xbits : Z) : Z :=
  mask_xbits
    (for_range (Z.to_nat xbits) 0 (fun i out =>
       if negb (Z.land (wshr 64 b i) 1 =? 0) then Z.lxor out (wshl 64 a i) else out) 0)
    xbits.

Definition clmulh (a b xbits : Z) : Z :=
  mask_xbits
    (for_range (Z.to_nat (xbits - 1)) 1 (fun i out =>
       if negb (Z.land (wshr 64 b i) 1 =? 0) then Z.lxor out (wshr 64 a (xbits - i)) else out) 0)
    xbits.

Definition clmulr (a b xbits : Z) : Z :=
  mask_xbits
    (for_range (Z.to_nat xbits) 0 (fun i out =>
       if negb (Z.land (wshr 64 b i) 1 =? 0) then Z.lxor out (wshr 64 a (xbits - i - 1))
       else out) 0)
    xbits.

(** ** Xsoteria *)

Definition grev32 (rs1 ctrl : Z) : Z :=
  let s := Z.land ctrl 31 in
  let stage (k ml mr n x : Z) :=
    if any_bits s k
    then Z.lor (wshl 32 (Z.land x ml) n) (wshr 32 (Z.land x mr) n) else x in
  let x := stage 1 0x55555555 0xAAAAAAAA 1 rs1 in
  let x := stage 2 0x33333333 0xCCCCCCCC 2 x in
  let x := stage 4 0x0F0F0F0F 0xF0F0F0F0 4 x in
  let x := stage 8 0x00FF00FF 0xFF00FF00 8 x in
  if any_bits s 16 then Z.lor (wshl 32 x 16) (wshr 32 x 16) else x.

Definition fls32 (rs1 : Z) : Z := 32 - leading_zeros 32 rs1.

(** ** XAndesPerf *)

Definition andes_bitfield (a msb lsb : Z) (signed : bool) : Z :=
  if msb <? lsb then 0
  else
    let width := msb - lsb + 1 in
    let mask := if 64 <=? width then 2 ^ 64 - 1 else wshl 64 1 width - 1 in
    let v := Z.land (wshr 64 a lsb) mask in
    if signed && (0 <? width) && (width <? 64) && any_bits v (wshl 64 1 (width - 1))
    then Z.lor v (wnot 64 mask) else v.

(** [(0..n).find(p)], from index [i]. *)
Fixpoint find_from (n : nat) (i : Z) (p : Z -> bool) : option Z :=
  match n with
  | O => None
  | S n => if p i then Some i else find_from n (i + 1) p
  end.
(** [(0..n).rev().find(p)]. *)
Fixpoint rfind (n : nat) (p : Z -> bool) : option Z :=
  match n with
  | O => None
  | S n => if p (Z.of_nat n) then Some (Z.of_nat n) else rfind n p
  end.

(** [None] is the [unreachable!()] arm. *)
Definition andes_byte_scan (op : Op) (a b : Z) (rv32 : bool) : option Z :=
  let n := if rv32 then 4%nat else 8%nat in
  let no_match := Z.of_nat n in
  match op with
  | NdsFfb =>
      let needle := Z.land b 0xff in
      Some (default no_match (find_from n 0 (fun i => byte_at a i =? needle)))
  | NdsFfmism =>
      Some (default no_match (find_from n 0 (fun i => negb (byte_at a i =? byte_at b i))))
  | NdsFfzmism =>
      Some (default no_match (find_from n 0 (fun i =>
        (byte_at a i =? 0) || (byte_at b i =? 0) || negb (byte_at a i =? byte_at b i))))
  | NdsFlmism =>
      Some (default no_match (rfind n (fun i => negb (byte_at a i =? byte_at b i))))
  | _ => None
  end.

(** ** XTHead *)

Definition thead_extract (a msb lsb xbits : Z) (signed : bool) : Z :=
  if (msb <? lsb) || (xbits <=? lsb) then 0
  else
    let hi := Z.min msb (xbits - 1) in
    let lo := lsb in
    let width := hi - lo + 1 in
    let mask := if 64 <=? width then 2 ^ 64 - 1 else wshl 64 1 width - 1 in
    let v := Z.land (wshr 64 a lo) mask in
    if signed && (width <? 64) && any_bits v (wshl 64 1 (width - 1))
    then Z.lor v (wnot 64 mask) else v.

Definition thead_ff (a xbits : Z) (one : bool) : Z :=
  if xbits =? 32 then
    let v := as_u32 a in
    if one then leading_zeros 32 v else leading_zeros 32 (wnot 32 v)
  else if one then leading_zeros 64 a
  else leading_zeros 64 (wnot 64 a).

Definition thead_tstnbz (a : Z) (rv32 : bool) : Z :=
  for_range (if rv32 then 4 else 8) 0 (fun i out =>
    if byte_at a i =? 0 then Z.lor out (wshl 64 0xff (i * 8)) else out) 0.

(** [None] is the [unreachable!()] arm. *)
Definition thead_mac (op : Op) (rd a b : Z) : option Z :=
  match op with
  | ThMula => Some (wadd 64 rd (wmul 64 a b))
  | ThMuls => Some (wsub 64 rd (wmul 64 a b))
  | ThMulah => Some (word (wadd 32 (as_u32 rd) (as_u32 (as_i16 a * as_i16 b))))
  | ThMulsh => Some (word (wsub 32 (as_u32 rd) (as_u32 (as_i16 a * as_i16 b))))
  | ThMulaw => Some (word (wadd 32 (as_u32 rd) (as_u32 (as_i32 a * as_i32 b))))
  | ThMulsw => Some (word (wsub 32 (as_u32 rd) (as_u32 (as_i32 a * as_i32 b))))
  | _ => None
  end.

Definition thead_packl (a b xbits : Z) : Z :=
  let half := xbits / 2 in
  let mask := if 64 <=? half then 2 ^ 64 - 1 else wshl 64 1 half - 1 in
  Z.lor (wshl 64 (Z.land b mask) half) (Z.land a mask).

Definition thead_packhl (a b xbits : Z) : Z :=
  let half := xbits / 2 in
  let q := half / 2 in
  let mask := if 64 <=? q then 2 ^ 64 - 1 else wshl 64 1 q - 1 in
  Z.lor (wshl 64 (Z.land b mask) q) (Z.land (wshr 64 a half) mask).

(** Sign-extend a 5-bit immediate field: [(((field << 3) as i8) >> 3) as i64 as u64]. *)
Definition sext5 (field : Z) : Z := as_u64 (Z.shiftr (as_i8 (wshl 8 field 3)) 3).
