(* ===== verification/RvCrypto.v ===== *)
(** * Scalar cryptography

    src/isa/riscv/crypto.rs: the Zbkx crossbar permutations, the SHA-2 and SM3
    message-schedule transforms and the SM4 and AES round helpers. *)

From S2P Require Import Prelude RvIsa RvOp RvAlu.

(** ** Zbkx *)

Definition xperm8 (rs1 rs2 xbits : Z) : Z :=
  let n := xbits / 8 in
  for_range (Z.to_nat n) 0 (fun i out =>
    let idx := Z.land (wshr 64 rs2 (i * 8)) 0xff in
    if idx <? n then Z.lor out (wshl 64 (Z.land (wshr 64 rs1 (idx * 8)) 0xff) (i * 8))
    else out) 0.

Definition xperm4 (rs1 rs2 xbits : Z) : Z :=
  let n := xbits / 4 in
  for_range (Z.to_nat n) 0 (fun i out =>
    let idx := Z.land (wshr 64 rs2 (i * 4)) 0xf in
    if idx <? n then Z.lor out (wshl 64 (Z.land (wshr 64 rs1 (idx * 4)) 0xf) (i * 4))
    else out) 0.

(** ** Zknh *)

Definition ror32 (x n : Z) : Z := rotate_right 32 x n.
Definition rol32 (x n : Z) : Z := rotate_left 32 x n.
Definition ror64 (x n : Z) : Z := rotate_right 64 x n.
Definition sext32 (v : Z) : Z := as_u64 (as_i32 v).

(** [a ^ b ^ c]. *)
Definition xor3 (a b c : Z) : Z := Z.lxor (Z.lxor a b) c.

Definition sha256sig0 (x : Z) : Z :=
  let x := as_u32 x in sext32 (xor3 (ror32 x 7) (ror32 x 18) (wshr 32 x 3)).
Definition sha256sig1 (x : Z) : Z :=
  let x := as_u32 x in sext32 (xor3 (ror32 x 17) (ror32 x 19) (wshr 32 x 10)).
Definition sha256sum0 (x : Z) : Z :=
  let x := as_u32 x in sext32 (xor3 (ror32 x 2) (ror32 x 13) (ror32 x 22)).
Definition sha256sum1 (x : Z) : Z :=
  let x := as_u32 x in sext32 (xor3 (ror32 x 6) (ror32 x 11) (ror32 x 25)).
Definition sha512sig0 (x : Z) : Z := xor3 (ror64 x 1) (ror64 x 8) (wshr 64 x 7).
Definition sha512sig1 (x : Z) : Z := xor3 (ror64 x 19) (ror64 x 61) (wshr 64 x 6).
Definition sha512sum0 (x : Z) : Z := xor3 (ror64 x 28) (ror64 x 34) (ror64 x 39).
Definition sha512sum1 (x : Z) : Z := xor3 (ror64 x 14) (ror64 x 18) (ror64 x 41).

Definition sha512sig0l (rs1 rs2 : Z) : Z :=
  let a := as_u32 rs1 in let b := as_u32 rs2 in
  sext32 (Z.lxor (xor3 (xor3 (wshr 32 a 1) (wshr 32 a 7) (wshr 32 a 8))
                       (wshl 32 b 31) (wshl 32 b 25)) (wshl 32 b 24)).
Definition sha512sig0h (rs1 rs2 : Z) : Z :=
  let a := as_u32 rs1 in let b := as_u32 rs2 in
  sext32 (xor3 (xor3 (wshr 32 a 1) (wshr 32 a 7) (wshr 32 a 8))
               (wshl 32 b 31) (wshl 32 b 24)).
Definition sha512sig1l (rs1 rs2 : Z) : Z :=
  let a := as_u32 rs1 in let b := as_u32 rs2 in
  sext32 (Z.lxor (xor3 (xor3 (wshl 32 a 3) (wshr 32 a 6) (wshr 32 a 19))
                       (wshr 32 b 29) (wshl 32 b 26)) (wshl 32 b 13)).
Definition sha512sig1h (rs1 rs2 : Z) : Z :=
  let a := as_u32 rs1 in let b := as_u32 rs2 in
  sext32 (xor3 (xor3 (wshl 32 a 3) (wshr 32 a 6) (wshr 32 a 19))
               (wshr 32 b 29) (wshl 32 b 13)).
Definition sha512sum0r (rs1 rs2 : Z) : Z :=
  let a := as_u32 rs1 in let b := as_u32 rs2 in
  sext32 (Z.lxor (xor3 (xor3 (wshl 32 a 25) (wshl 32 a 30) (wshr 32 a 28))
                       (wshr 32 b 7) (wshr 32 b 2)) (wshl 32 b 4)).
Definition sha512sum1r (rs1 rs2 : Z) : Z :=
  let a := as_u32 rs1 in let b := as_u32 rs2 in
  sext32 (Z.lxor (xor3 (xor3 (wshl 32 a 23) (wshr 32 a 14) (wshr 32 a 18))
                       (wshr 32 b 9) (wshl 32 b 18)) (wshl 32 b 14)).

(** ** Zksh *)

Definition sm3p0 (x : Z) : Z :=
  let x := as_u32 x in sext32 (xor3 x (rol32 x 9) (rol32 x 17)).
Definition sm3p1 (x : Z) : Z :=
  let x := as_u32 x in sext32 (xor3 x (rol32 x 15) (rol32 x 23)).

(** ** Zksed *)

Definition SM4_SBOX : list Z :=
  [0xd6; 0x90; 0xe9; 0xfe; 0xcc; 0xe1; 0x3d; 0xb7; 0x16; 0xb6; 0x14; 0xc2; 0x28; 0xfb; 0x2c; 0x05;
   0x2b; 0x67; 0x9a; 0x76; 0x2a; 0xbe; 0x04; 0xc3; 0xaa; 0x44; 0x13; 0x26; 0x49; 0x86; 0x06; 0x99;
   0x9c; 0x42; 0x50; 0xf4; 0x91; 0xef; 0x98; 0x7a; 0x33; 0x54; 0x0b; 0x43; 0xed; 0xcf; 0xac; 0x62;
   0xe4; 0xb3; 0x1c; 0xa9; 0xc9; 0x08; 0xe8; 0x95; 0x80; 0xdf; 0x94; 0xfa; 0x75; 0x8f; 0x3f; 0xa6;
   0x47; 0x07; 0xa7; 0xfc; 0xf3; 0x73; 0x17; 0xba; 0x83; 0x59; 0x3c; 0x19; 0xe6; 0x85; 0x4f; 0xa8;
   0x68; 0x6b; 0x81; 0xb2; 0x71; 0x64; 0xda; 0x8b; 0xf8; 0xeb; 0x0f; 0x4b; 0x70; 0x56; 0x9d; 0x35;
   0x1e; 0x24; 0x0e; 0x5e; 0x63; 0x58; 0xd1; 0xa2; 0x25; 0x22; 0x7c; 0x3b; 0x01; 0x21; 0x78; 0x87;
   0xd4; 0x00; 0x46; 0x57; 0x9f; 0xd3; 0x27; 0x52; 0x4c; 0x36; 0x02; 0xe7; 0xa0; 0xc4; 0xc8; 0x9e;
   0xea; 0xbf; 0x8a; 0xd2; 0x40; 0xc7; 0x38; 0xb5; 0xa3; 0xf7; 0xf2; 0xce; 0xf9; 0x61; 0x15; 0xa1;
   0xe0; 0xae; 0x5d; 0xa4; 0x9b; 0x34; 0x1a; 0x55; 0xad; 0x93; 0x32; 0x30; 0xf5; 0x8c; 0xb1; 0xe3;
   0x1d; 0xf6; 0xe2; 0x2e; 0x82; 0x66; 0xca; 0x60; 0xc0; 0x29; 0x23; 0xab; 0x0d; 0x53; 0x4e; 0x6f;
   0xd5; 0xdb; 0x37; 0x45; 0xde; 0xfd; 0x8e; 0x2f; 0x03; 0xff; 0x6a; 0x72; 0x6d; 0x6c; 0x5b; 0x51;
   0x8d; 0x1b; 0xaf; 0x92; 0xbb; 0xdd; 0xbc; 0x7f; 0x11; 0xd9; 0x5c; 0x41; 0x1f; 0x10; 0x5a; 0xd8;
   0x0a; 0xc1; 0x31; 0x88; 0xa5; 0xcd; 0x7b; 0xbd; 0x2d; 0x74; 0xd0; 0x12; 0xb8; 0xe5; 0xb4; 0xb0;
   0x89; 0x69; 0x97; 0x4a; 0x0c; 0x96; 0x77; 0x7e; 0x65; 0xb9; 0xf1; 0x09; 0xc5; 0x6e; 0xc6; 0x84;
   0x18; 0xf0; 0x7d; 0xec; 0x3a; 0xdc; 0x4d; 0x20; 0x79; 0xee; 0x5f; 0x3e; 0xd7; 0xcb; 0x39; 0x48].

(** An S-box index is a byte, so the lookup is always in range. *)
Definition sbox (t : list Z) (i : Z) : Z := nth (Z.to_nat i) t 0.

Definition sm4ed (rs1 rs2 bs : Z) : Z :=
  let shamt := bs * 8 in
  let sb_in := Z.land (wshr 64 rs2 shamt) 0xff in
  let x := sbox SM4_SBOX sb_in in
  let y := Z.lxor (xor3 (xor3 x (wshl 32 x 8) (wshl 32 x 2)) (wshl 32 x 18)
                        (wshl 32 (Z.land x 0x3f) 26)) (wshl 32 (Z.land x 0xc0) 10) in
  let z := rol32 y shamt in
  sext32 (Z.lxor z (as_u32 rs1)).

Definition sm4ks (rs1 rs2 bs : Z) : Z :=
  let shamt := bs * 8 in
  let sb_in := Z.land (wshr 64 rs2 shamt) 0xff in
  let x := sbox SM4_SBOX sb_in in
  let y := xor3 (xor3 x (wshl 32 (Z.land x 0x07) 29) (wshl 32 (Z.land x 0xfe) 7))
                (wshl 32 (Z.land x 0x01) 23) (wshl 32 (Z.land x 0xf8) 13) in
  let z := rol32 y shamt in
  sext32 (Z.lxor z (as_u32 rs1)).

(** ** Zkne / Zknd *)

Definition AES_SBOX : list Z :=
  [0x63; 0x7c; 0x77; 0x7b; 0xf2; 0x6b; 0x6f; 0xc5; 0x30; 0x01; 0x67; 0x2b; 0xfe; 0xd7; 0xab; 0x76;
   0xca; 0x82; 0xc9; 0x7d; 0xfa; 0x59; 0x47; 0xf0; 0xad; 0xd4; 0xa2; 0xaf; 0x9c; 0xa4; 0x72; 0xc0;
   0xb7; 0xfd; 0x93; 0x26; 0x36; 0x3f; 0xf7; 0xcc; 0x34; 0xa5; 0xe5; 0xf1; 0x71; 0xd8; 0x31; 0x15;
   0x04; 0xc7; 0x23; 0xc3; 0x18; 0x96; 0x05; 0x9a; 0x07; 0x12; 0x80; 0xe2; 0xeb; 0x27; 0xb2; 0x75;
   0x09; 0x83; 0x2c; 0x1a; 0x1b; 0x6e; 0x5a; 0xa0; 0x52; 0x3b; 0xd6; 0xb3; 0x29; 0xe3; 0x2f; 0x84;
   0x53; 0xd1; 0x00; 0xed; 0x20; 0xfc; 0xb1; 0x5b; 0x6a; 0xcb; 0xbe; 0x39; 0x4a; 0x4c; 0x58; 0xcf;
   0xd0; 0xef; 0xaa; 0xfb; 0x43; 0x4d; 0x33; 0x85; 0x45; 0xf9; 0x02; 0x7f; 0x50; 0x3c; 0x9f; 0xa8;
   0x51; 0xa3; 0x40; 0x8f; 0x92; 0x9d; 0x38; 0xf5; 0xbc; 0xb6; 0xda; 0x21; 0x10; 0xff; 0xf3; 0xd2;
   0xcd; 0x0c; 0x13; 0xec; 0x5f; 0x97; 0x44; 0x17; 0xc4; 0xa7; 0x7e; 0x3d; 0x64; 0x5d; 0x19; 0x73;
   0x60; 0x81; 0x4f; 0xdc; 0x22; 0x2a; 0x90; 0x88; 0x46; 0xee; 0xb8; 0x14; 0xde; 0x5e; 0x0b; 0xdb;
   0xe0; 0x32; 0x3a; 0x0a; 0x49; 0x06; 0x24; 0x5c; 0xc2; 0xd3; 0xac; 0x62; 0x91; 0x95; 0xe4; 0x79;
   0xe7; 0xc8; 0x37; 0x6d; 0x8d; 0xd5; 0x4e; 0xa9; 0x6c; 0x56; 0xf4; 0xea; 0x65; 0x7a; 0xae; 0x08;
   0xba; 0x78; 0x25; 0x2e; 0x1c; 0xa6; 0xb4; 0xc6; 0xe8; 0xdd; 0x74; 0x1f; 0x4b; 0xbd; 0x8b; 0x8a;
   0x70; 0x3e; 0xb5; 0x66; 0x48; 0x03; 0xf6; 0x0e; 0x61; 0x35; 0x57; 0xb9; 0x86; 0xc1; 0x1d; 0x9e;
   0xe1; 0xf8; 0x98; 0x11; 0x69; 0xd9; 0x8e; 0x94; 0x9b; 0x1e; 0x87; 0xe9; 0xce; 0x55; 0x28; 0xdf;
   0x8c; 0xa1; 0x89; 0x0d; 0xbf; 0xe6; 0x42; 0x68; 0x41; 0x99; 0x2d; 0x0f; 0xb0; 0x54; 0xbb; 0x16].

Definition AES_INV_SBOX : list Z :=
  [0x52; 0x09; 0x6a; 0xd5; 0x30; 0x36; 0xa5; 0x38; 0xbf; 0x40; 0xa3; 0x9e; 0x81; 0xf3; 0xd7; 0xfb;
   0x7c; 0xe3; 0x39; 0x82; 0x9b; 0x2f; 0xff; 0x87; 0x34; 0x8e; 0x43; 0x44; 0xc4; 0xde; 0xe9; 0xcb;
   0x54; 0x7b; 0x94; 0x32; 0xa6; 0xc2; 0x23; 0x3d; 0xee; 0x4c; 0x95; 0x0b; 0x42; 0xfa; 0xc3; 0x4e;
   0x08; 0x2e; 0xa1; 0x66; 0x28; 0xd9; 0x24; 0xb2; 0x76; 0x5b; 0xa2; 0x49; 0x6d; 0x8b; 0xd1; 0x25;
   0x72; 0xf8; 0xf6; 0x64; 0x86; 0x68; 0x98; 0x16; 0xd4; 0xa4; 0x5c; 0xcc; 0x5d; 0x65; 0xb6; 0x92;
   0x6c; 0x70; 0x48; 0x50; 0xfd; 0xed; 0xb9; 0xda; 0x5e; 0x15; 0x46; 0x57; 0xa7; 0x8d; 0x9d; 0x84;
   0x90; 0xd8; 0xab; 0x00; 0x8c; 0xbc; 0xd3; 0x0a; 0xf7; 0xe4; 0x58; 0x05; 0xb8; 0xb3; 0x45; 0x06;
   0xd0; 0x2c; 0x1e; 0x8f; 0xca; 0x3f; 0x0f; 0x02; 0xc1; 0xaf; 0xbd; 0x03; 0x01; 0x13; 0x8a; 0x6b;
   0x3a; 0x91; 0x11; 0x41; 0x4f; 0x67; 0xdc; 0xea; 0x97; 0xf2; 0xcf; 0xce; 0xf0; 0xb4; 0xe6; 0x73;
   0x96; 0xac; 0x74; 0x22; 0xe7; 0xad; 0x35; 0x85; 0xe2; 0xf9; 0x37; 0xe8; 0x1c; 0x75; 0xdf; 0x6e;
   0x47; 0xf1; 0x1a; 0x71; 0x1d; 0x29; 0xc5; 0x89; 0x6f; 0xb7; 0x62; 0x0e; 0xaa; 0x18; 0xbe; 0x1b;
   0xfc; 0x56; 0x3e; 0x4b; 0xc6; 0xd2; 0x79; 0x20; 0x9a; 0xdb; 0xc0; 0xfe; 0x78; 0xcd; 0x5a; 0xf4;
   0x1f; 0xdd; 0xa8; 0x33; 0x88; 0x07; 0xc7; 0x31; 0xb1; 0x12; 0x10; 0x59; 0x27; 0x80; 0xec; 0x5f;
   0x60; 0x51; 0x7f; 0xa9; 0x19; 0xb5; 0x4a; 0x0d; 0x2d; 0xe5; 0x7a; 0x9f; 0x93; 0xc9; 0x9c; 0xef;
   0xa0; 0xe0; 0x3b; 0x4d; 0xae; 0x2a; 0xf5; 0xb0; 0xc8; 0xeb; 0xbb; 0x3c; 0x83; 0x53; 0x99; 0x61;
   0x17; 0x2b; 0x04; 0x7e; 0xba; 0x77; 0xd6; 0x26; 0xe1; 0x69; 0x14; 0x63; 0x55; 0x21; 0x0c; 0x7d].

(** GF(2^8) multiply by [x]. *)
Definition xtime (a : Z) : Z :=
  let h := Z.land (wshr 8 a 7) 1 in
  Z.land (Z.lxor (wshl 8 a 1) (h * 0x1b)) 0xff.

(** GF(2^8) multiply: eight rounds of shift and add. *)
Definition gfmul_step (s : Z * Z * Z) : Z * Z * Z :=
  let '(a, b, p) := s in
  let p := if any_bits b 1 then Z.lxor p a else p in
  let hi := Z.land a 0x80 in
  let a := wshl 8 a 1 in
  let a := if negb (hi =? 0) then Z.lxor a 0x1b else a in
  (a, Z.shiftr b 1, p).
Definition gfmul (a b : Z) : Z :=
  let '(_, _, p) := for_range 8 0 (fun _ s => gfmul_step s) (a, b, 0) in p.

Definition subbytes (t : list Z) (x : Z) : Z :=
  for_range 8 0 (fun i out =>
    Z.lor out (wshl 64 (sbox t (Z.land (wshr 64 x (i * 8)) 0xff)) (i * 8))) 0.
Definition subbytes_fwd (x : Z) : Z := subbytes AES_SBOX x.
Definition subbytes_inv (x : Z) : Z := subbytes AES_INV_SBOX x.

(** [b[i]] of [col.to_le_bytes()]. *)
Definition col_byte (col i : Z) : Z := Z.land (Z.shiftr col (8 * i)) 0xff.
Definition xor4 (a b c d : Z) : Z := Z.lxor (xor3 a b c) d.

Definition mixcol_fwd (col : Z) : Z :=
  let b0 := col_byte col 0 in let b1 := col_byte col 1 in
  let b2 := col_byte col 2 in let b3 := col_byte col 3 in
  from_le_bytes
    [xor4 (xtime b0) (Z.lxor (xtime b1) b1) b2 b3;
     xor4 b0 (xtime b1) (Z.lxor (xtime b2) b2) b3;
     xor4 b0 b1 (xtime b2) (Z.lxor (xtime b3) b3);
     xor4 (Z.lxor (xtime b0) b0) b1 b2 (xtime b3)].

Definition mixcol_inv (col : Z) : Z :=
  let b0 := col_byte col 0 in let b1 := col_byte col 1 in
  let b2 := col_byte col 2 in let b3 := col_byte col 3 in
  from_le_bytes
    [xor4 (gfmul b0 14) (gfmul b1 11) (gfmul b2 13) (gfmul b3 9);
     xor4 (gfmul b0 9) (gfmul b1 14) (gfmul b2 11) (gfmul b3 13);
     xor4 (gfmul b0 13) (gfmul b1 9) (gfmul b2 14) (gfmul b3 11);
     xor4 (gfmul b0 11) (gfmul b1 13) (gfmul b2 9) (gfmul b3 14)].

Definition mixcols (f : Z -> Z) (x : Z) : Z :=
  let lo := f (as_u32 x) in
  let hi := f (as_u32 (wshr 64 x 32)) in
  Z.lor lo (wshl 64 hi 32).
Definition mixcols_fwd (x : Z) : Z := mixcols mixcol_fwd x.
Definition mixcols_inv (x : Z) : Z := mixcols mixcol_inv x.

Definition aes32esi (rs1 rs2 bs : Z) : Z :=
  let shamt := Z.land bs 3 * 8 in
  let si := Z.land (wshr 32 (as_u32 rs2) shamt) 0xff in
  let so := sbox AES_SBOX si in
  sext32 (Z.lxor (as_u32 rs1) (rol32 so shamt)).
Definition aes32esmi (rs1 rs2 bs : Z) : Z :=
  let shamt := Z.land bs 3 * 8 in
  let si := Z.land (wshr 32 (as_u32 rs2) shamt) 0xff in
  let so := sbox AES_SBOX si in
  let mixed := mixcol_fwd so in
  sext32 (Z.lxor (as_u32 rs1) (rol32 mixed shamt)).
Definition aes32dsi (rs1 rs2 bs : Z) : Z :=
  let shamt := Z.land bs 3 * 8 in
  let si := Z.land (wshr 32 (as_u32 rs2) shamt) 0xff in
  let so := sbox AES_INV_SBOX si in
  sext32 (Z.lxor (as_u32 rs1) (rol32 so shamt)).
Definition aes32dsmi (rs1 rs2 bs : Z) : Z :=
  let shamt := Z.land bs 3 * 8 in
  let si := Z.land (wshr 32 (as_u32 rs2) shamt) 0xff in
  let so := sbox AES_INV_SBOX si in
  let mixed := mixcol_inv so in
  sext32 (Z.lxor (as_u32 rs1) (rol32 mixed shamt)).

(** ShiftRows on the 128-bit state [rs2:rs1], low 64 bits. *)
Definition shiftrows_fwd (rs1 rs2 : Z) : Z :=
  foldl Z.lor (byte_at rs1 0)
    [wshl 64 (byte_at rs1 5) 8; wshl 64 (byte_at rs2 2) 16; wshl 64 (byte_at rs2 7) 24;
     wshl 64 (byte_at rs1 4) 32; wshl 64 (byte_at rs2 1) 40; wshl 64 (byte_at rs2 6) 48;
     wshl 64 (byte_at rs1 3) 56].
Definition shiftrows_inv (rs1 rs2 : Z) : Z :=
  foldl Z.lor (byte_at rs1 0)
    [wshl 64 (byte_at rs2 5) 8; wshl 64 (byte_at rs2 2) 16; wshl 64 (byte_at rs1 7) 24;
     wshl 64 (byte_at rs1 4) 32; wshl 64 (byte_at rs1 1) 40; wshl 64 (byte_at rs2 6) 48;
     wshl 64 (byte_at rs2 3) 56].

Definition aes64es (rs1 rs2 : Z) : Z := subbytes_fwd (shiftrows_fwd rs1 rs2).
Definition aes64esm (rs1 rs2 : Z) : Z := mixcols_fwd (subbytes_fwd (shiftrows_fwd rs1 rs2)).
Definition aes64ds (rs1 rs2 : Z) : Z := subbytes_inv (shiftrows_inv rs1 rs2).
Definition aes64dsm (rs1 rs2 : Z) : Z := mixcols_inv (subbytes_inv (shiftrows_inv rs1 rs2)).
Definition aes64im (rs1 : Z) : Z := mixcols_inv rs1.

Definition AES_RCON : list Z :=
  [0x01; 0x02; 0x04; 0x08; 0x10; 0x20; 0x40; 0x80; 0x1b; 0x36].

(** [aes64ks1i]: the index into [AES_RCON] panics past its end ([None]). *)
Definition aes64ks1i (rs1 rnum : Z) : option Z :=
  let tmp1 := as_u32 (wshr 64 rs1 32) in
  match (if rnum =? 0xA then Some (tmp1, 0)
         else rc ← nth_error AES_RCON (Z.to_nat rnum); Some (rotate_right 32 tmp1 8, rc)) with
  | None => None
  | Some (tmp2, rc) =>
      let tmp3 := as_u32 (subbytes_fwd tmp2) in
      let result := Z.lxor tmp3 rc in
      Some (Z.lor result (wshl 64 result 32))
  end.

Definition aes64ks2 (rs1 rs2 : Z) : Z :=
  let w0 := Z.lxor (as_u32 (wshr 64 rs1 32)) (as_u32 rs2) in
  let w1 := Z.lxor w0 (as_u32 (wshr 64 rs2 32)) in
  Z.lor w0 (wshl 64 w1 32).

(** The single-source evaluator shared with the SMIR lift.  The outer option
    is the [Option] of the source; the inner one is [None] on a panic. *)
Definition eval_int_crypto (op : Op) (a b imm xbits : Z) : option (option Z) :=
  option_map (option_map (fun res => mask_xbits res xbits))
  match op with
  | Clmul => Some (Some (clmul a b xbits))
  | Clmulh => Some (Some (clmulh a b xbits))
  | Clmulr => Some (Some (clmulr a b xbits))
  | Xperm4 => Some (Some (xperm4 a b xbits))
  | Xperm8 => Some (Some (xperm8 a b xbits))
  | Sha512Sig0l => Some (Some (sha512sig0l a b))
  | Sha512Sig0h => Some (Some (sha512sig0h a b))
  | Sha512Sig1l => Some (Some (sha512sig1l a b))
  | Sha512Sig1h => Some (Some (sha512sig1h a b))
  | Sha512Sum0r => Some (Some (sha512sum0r a b))
  | Sha512Sum1r => Some (Some (sha512sum1r a b))
  | Sm4ed => Some (Some (sm4ed a b imm))
  | Sm4ks => Some (Some (sm4ks a b imm))
  | Aes32esi => Some (Some (aes32esi a b imm))
  | Aes32esmi => Some (Some (aes32esmi a b imm))
  | Aes32dsi => Some (Some (aes32dsi a b imm))
  | Aes32dsmi => Some (Some (aes32dsmi a b imm))
  | Aes64es => Some (Some (aes64es a b))
  | Aes64esm => Some (Some (aes64esm a b))
  | Aes64ds => Some (Some (aes64ds a b))
  | Aes64dsm => Some (Some (aes64dsm a b))
  | Aes64im => Some (Some (aes64im a))
  | Aes64ks1i => Some (aes64ks1i a imm)
  | Aes64ks2 => Some (Some (aes64ks2 a b))
  | _ => None
  end.
