(* ===== verification/RvFloat.v ===== *)
(** * Soft-float arithmetic

    The integer-significand part of src/isa/riscv/float.rs: the binary formats,
    the decomposition of a bit pattern, the one rounding routine [round_pack]
    and the operations built on it.  A float is its bit pattern.  The accrued
    exception flags, a [&mut u32] of the source, are the last argument and the
    second component of the result.  Exponents are i32 values of a few thousand
    at most, kept as integers. *)

From S2P Require Import Prelude.

(** ** Rounding modes and flags *)

Inductive RoundingMode : Type := Rne | Rtz | Rdn | Rup | Rmm | Dyn.

#[export] Instance RoundingMode_eq_dec : EqDecision RoundingMode.
Proof. solve_decision. Defined.

(** Decode a 3-bit rounding-mode field; 5 and 6 are reserved. *)
Definition rm_from_bits (bits : Z) : option RoundingMode :=
  arms (Z.land bits 0x7)
    [(0, true, Rne); (1, true, Rtz); (2, true, Rdn); (3, true, Rup); (4, true, Rmm);
     (7, true, Dyn)].

Module fflags.
Definition NX : Z := 0x01.
Definition UF : Z := 0x02.
Definition OF : Z := 0x04.
Definition DZ : Z := 0x08.
Definition NV : Z := 0x10.
End fflags.

(** [if c { *flags |= f }]. *)
Definition raise_if (c : bool) (f flags : Z) : Z := if c then Z.lor flags f else flags.

Definition CANONICAL_NAN_F32 : Z := 0x7fc00000.
Definition CANONICAL_NAN_F64 : Z := 0x7ff8000000000000.

(** ** Formats *)

Module Fmt.
(** Precision in bits, the implicit one included, and exponent field width. *)
Record t : Type := mk { p : Z; exp_bits : Z }.

Section Methods.
Variable self : t.

Definition width : Z := p self + exp_bits self.
Definition bias : Z := Z.shiftl 1 (exp_bits self - 1) - 1.
Definition mant_bits : Z := p self - 1.
Definition max_field : Z := Z.shiftl 1 (exp_bits self) - 1.
Definition frac_mask : Z := wshl 64 1 mant_bits - 1.
Definition sign_bit : Z := wshl 64 1 (width - 1).
Definition canon : Z := Z.lor (wshl 64 max_field mant_bits) (wshl 64 1 (mant_bits - 1)).
Definition pack_zero (sign : bool) : Z := if sign then sign_bit else 0.
Definition pack_inf (sign : bool) : Z := Z.lor (pack_zero sign) (wshl 64 max_field mant_bits).
Definition pack_max (sign : bool) : Z :=
  Z.lor (Z.lor (pack_zero sign) (wshl 64 (max_field - 1) mant_bits)) frac_mask.
Definition pack (sign : bool) (field frac : Z) : Z :=
  Z.lor (Z.lor (pack_zero sign) (wshl 64 field mant_bits)) (Z.land frac frac_mask).
End Methods.
End Fmt.

Definition F16 : Fmt.t := Fmt.mk 11 5.
Definition F32 : Fmt.t := Fmt.mk 24 8.
Definition F64 : Fmt.t := Fmt.mk 53 11.

(** ** Decomposition *)

(** A decomposed operand; the flag of [Nan] is that of a signaling NaN and a
    finite nonzero one is [(-1)^sign * mant * 2^exp]. *)
Inductive Dec : Type :=
  | DZero (sign : bool)
  | DInf (sign : bool)
  | DNan (signaling : bool)
  | DFinite (sign : bool) (mant exp : Z).

Definition decompose (fmt : Fmt.t) (bits : Z) : Dec :=
  let sign := negb (Z.land (wshr 64 bits (Fmt.width fmt - 1)) 1 =? 0) in
  let field := as_u32 (Z.land (wshr 64 bits (Fmt.mant_bits fmt)) (Fmt.max_field fmt)) in
  let frac := Z.land bits (Fmt.frac_mask fmt) in
  if field =? Fmt.max_field fmt then
    if frac =? 0 then DInf sign
    else DNan (Z.land (wshr 64 frac (Fmt.mant_bits fmt - 1)) 1 =? 0)
  else if field =? 0 then
    if frac =? 0 then DZero sign
    else DFinite sign frac (1 - Fmt.bias fmt - Fmt.mant_bits fmt)
  else
    DFinite sign (Z.lor frac (wshl 64 1 (Fmt.mant_bits fmt)))
      (field - Fmt.bias fmt - Fmt.mant_bits fmt).

Definition is_nan_dec (d : Dec) : bool := match d with DNan _ => true | _ => false end.
Definition is_snan_dec (d : Dec) : bool := match d with DNan true => true | _ => false end.
Definition is_zero_dec (d : Dec) : bool := match d with DZero _ => true | _ => false end.
Definition is_inf_dec (d : Dec) : bool := match d with DInf _ => true | _ => false end.

Definition dec_sign (d : Dec) : bool :=
  match d with DZero s | DInf s | DNan s => s | DFinite sign _ _ => sign end.

Definition fin (d : Dec) : Z * Z :=
  match d with DFinite _ mant exp => (mant, exp) | _ => (0, 0) end.

(** ** Rounding *)

Definition overflow_value (fmt : Fmt.t) (sign : bool) (mode : RoundingMode) : Z :=
  match mode with
  | Rtz => Fmt.pack_max fmt sign
  | Rdn => if sign then Fmt.pack_inf fmt sign else Fmt.pack_max fmt sign
  | Rup => if sign then Fmt.pack_max fmt sign else Fmt.pack_inf fmt sign
  | _ => Fmt.pack_inf fmt sign
  end.

(** The significand, the guard bit and the sticky bit left by a right shift of
    the normalized 128-bit magnitude. *)
Definition round_split (mag rshift : Z) (sticky_in : bool) : Z * Z * bool :=
  if 128 <? rshift then (0, 0, sticky_in || negb (mag =? 0))
  else if rshift =? 128 then
    (0, Z.land (wshr 128 mag 127) 1, sticky_in || any_bits mag (wshl 128 1 127 - 1))
  else
    (wshr 128 mag rshift, Z.land (wshr 128 mag (rshift - 1)) 1,
     sticky_in || any_bits mag (wshl 128 1 (rshift - 1) - 1)).

(** Whether the significand is incremented. *)
Definition round_increment (mode : RoundingMode) (sign inexact : bool) (guard sigm : Z)
    (sticky : bool) : bool :=
  match mode with
  | Rtz => false
  | Rdn => sign && inexact
  | Rup => negb sign && inexact
  | Rmm => negb (guard =? 0)
  | _ => negb (guard =? 0) && (sticky || negb (Z.land sigm 1 =? 0))
  end.

(** Packing a rounded significand. *)
Definition round_finish (fmt : Fmt.t) (sign inexact : bool) (biased sigm : Z)
    (mode : RoundingMode) (flags : Z) : Z * Z :=
  if biased =? 0 then
    if negb (wshr 64 sigm (Fmt.mant_bits fmt) =? 0) then (Fmt.pack fmt sign 1 0, flags)
    else (Fmt.pack fmt sign 0 sigm, raise_if inexact fflags.UF flags)
  else
    let '(sigm, biased) :=
      if negb (wshr 64 sigm (Fmt.p fmt) =? 0) then (wshr 64 sigm 1, biased + 1)
      else (sigm, biased) in
    if Fmt.max_field fmt <=? biased then
      (overflow_value fmt sign mode, Z.lor flags (Z.lor fflags.OF fflags.NX))
    else (Fmt.pack fmt sign biased (Z.land sigm (Fmt.frac_mask fmt)), flags).

(** Round [(-1)^sign * mag * 2^exp], with extra sticky bits below the LSB of
    [mag], to [fmt]. *)
Definition round_pack (fmt : Fmt.t) (sign : bool) (mag exp : Z) (sticky_in : bool)
    (mode : RoundingMode) (flags : Z) : Z * Z :=
  if mag =? 0 then (Fmt.pack_zero fmt sign, raise_if sticky_in fflags.NX flags)
  else
    let lz := leading_zeros 128 mag in
    let mag := wshl 128 mag lz in
    let e := 127 + (exp - lz) in
    let biased := e + Fmt.bias fmt in
    let rshift := 128 - Fmt.p fmt in
    let '(rshift, biased) :=
      if biased <? 1 then (rshift + (1 - biased), 0) else (rshift, biased) in
    let '(sig, guard, sticky) := round_split mag rshift sticky_in in
    let sigm := as_u64 sig in
    let inexact := negb (guard =? 0) || sticky in
    let sigm :=
      if round_increment mode sign inexact guard sigm sticky then wadd 64 sigm 1 else sigm in
    round_finish fmt sign inexact biased sigm mode (raise_if inexact fflags.NX flags).

(** ** Square root of an integer *)

(** The digit loop, [while bit != 0]; the fuel bounds its iterations. *)
Fixpoint isqrt_loop (fuel : nat) (bit res rem : Z) : Z * Z * Z :=
  match fuel with
  | O => (bit, res, rem)
  | S fuel =>
      if bit =? 0 then (bit, res, rem)
      else if wadd 128 res bit <=? rem
      then isqrt_loop fuel (wshr 128 bit 2) (wadd 128 (wshr 128 res 1) bit)
             (rem - wadd 128 res bit)
      else isqrt_loop fuel (wshr 128 bit 2) (wshr 128 res 1) rem
  end.

(** [floor (sqrt n)] and whether there is a remainder. *)
Definition isqrt_u128 (n : Z) : Z * bool :=
  if n =? 0 then (0, false)
  else
    let bit := wshl 128 1 (Z.land (127 - leading_zeros 128 n) (wnot 32 1)) in
    let '(_, res, rem) := isqrt_loop 64 bit 0 n in
    (res, negb (rem =? 0)).

(** ** Multiplication, division, square root *)

Definition sf_mul (fmt : Fmt.t) (a b : Z) (mode : RoundingMode) (flags : Z) : Z * Z :=
  let da := decompose fmt a in
  let db := decompose fmt b in
  let sign := xorb (dec_sign da) (dec_sign db) in
  match da, db with
  | DNan _, _ | _, DNan _ =>
      (Fmt.canon fmt, raise_if (is_snan_dec da || is_snan_dec db) fflags.NV flags)
  | DInf _, DZero _ | DZero _, DInf _ => (Fmt.canon fmt, Z.lor flags fflags.NV)
  | DInf _, _ | _, DInf _ => (Fmt.pack_inf fmt sign, flags)
  | DZero _, _ | _, DZero _ => (Fmt.pack_zero fmt sign, flags)
  | DFinite _ ma ea, DFinite _ mb eb =>
      round_pack fmt sign (wmul 128 ma mb) (ea + eb) false mode flags
  end.

Definition sf_div (fmt : Fmt.t) (a b : Z) (mode : RoundingMode) (flags : Z) : Z * Z :=
  let da := decompose fmt a in
  let db := decompose fmt b in
  let sign := xorb (dec_sign da) (dec_sign db) in
  match da, db with
  | DNan s, _ =>
      (Fmt.canon fmt, raise_if (is_snan_dec db) fflags.NV (raise_if s fflags.NV flags))
  | _, DNan s => (Fmt.canon fmt, raise_if s fflags.NV flags)
  | DInf _, DInf _ | DZero _, DZero _ => (Fmt.canon fmt, Z.lor flags fflags.NV)
  | DInf _, _ => (Fmt.pack_inf fmt sign, flags)
  | _, DInf _ => (Fmt.pack_zero fmt sign, flags)
  | DZero _, _ => (Fmt.pack_zero fmt sign, flags)
  | _, DZero _ => (Fmt.pack_inf fmt sign, Z.lor flags fflags.DZ)
  | DFinite _ ma ea, DFinite _ mb eb =>
      let na := leading_zeros 64 ma in
      let nb := leading_zeros 64 mb in
      let ma := wshl 128 ma na in
      let mb := wshl 128 mb nb in
      let num := wshl 128 ma 64 in
      round_pack fmt sign (num / mb) (ea - na - (eb - nb) - 64) (negb (num mod mb =? 0))
        mode flags
  end.

Definition sf_sqrt (fmt : Fmt.t) (a : Z) (mode : RoundingMode) (flags : Z) : Z * Z :=
  match decompose fmt a with
  | DNan s => (Fmt.canon fmt, raise_if s fflags.NV flags)
  | DZero s => (Fmt.pack_zero fmt s, flags)
  | DInf false => (Fmt.pack_inf fmt false, flags)
  | DInf true => (Fmt.canon fmt, Z.lor flags fflags.NV)
  | DFinite true _ _ => (Fmt.canon fmt, Z.lor flags fflags.NV)
  | DFinite false mant e =>
      let '(m, e) := if negb (Z.land e 1 =? 0) then (wshl 128 mant 1, e - 1) else (mant, e) in
      let want := 2 * Fmt.p fmt + 4 in
      let cur := 128 - leading_zeros 128 m in
      let '(m, e) :=
        if cur <? want then
          let s := want - cur in
          let s := if negb (Z.land s 1 =? 0) then s + 1 else s in
          (wshl 128 m s, e - s)
        else (m, e) in
      let '(root, rem) := isqrt_u128 m in
      round_pack fmt false root (Z.quot e 2) rem mode flags
  end.

(** ** Addition and fused multiply-add *)

(** [(v1, m1) >= (v2, m2)], the lexicographic order on pairs. *)
Definition pair_ge (v1 m1 v2 m2 : Z) : bool := (v2 <? v1) || ((v1 =? v2) && (m2 <=? m1)).

(** The term of smaller leading exponent, aligned to the last place [h_lsb] of
    the other: the magnitude and whether bits were lost. *)
Definition add_align (ml shift : Z) : Z * bool :=
  if 0 <=? shift then
    if 128 <=? shift then (0, negb (ml =? 0)) else (wshl 128 ml shift, false)
  else
    let rs := - shift in
    if 128 <=? rs then (0, negb (ml =? 0))
    else (wshr 128 ml rs, any_bits ml (wshl 128 1 rs - 1)).

(** The sum of the ordered terms [(sh, mh * 2^eh)] and [(sl, ml * 2^el)]. *)
Definition add_ordered (fmt : Fmt.t) (sh : bool) (mh eh : Z) (sl : bool) (ml el : Z)
    (mode : RoundingMode) (flags : Z) : Z * Z :=
  let mh_msb := 127 - leading_zeros 128 mh in
  let up := 120 - mh_msb in
  let hm := if 0 <=? up then wshl 128 mh up else wshr 128 mh (- up) in
  let h_lsb := eh - up in
  let '(lm, sticky) := add_align ml (el - h_lsb) in
  if eqb sh sl then round_pack fmt sh (wadd 128 hm lm) h_lsb sticky mode flags
  else
    let hm2 := wshl 128 hm 2 in
    let lm2 := Z.lor (wshl 128 lm 2) (of_bool sticky) in
    if lm2 <=? hm2 then
      let mag := hm2 - lm2 in
      if mag =? 0 then (Fmt.pack_zero fmt (bool_decide (mode = Rdn)), flags)
      else round_pack fmt sh mag (h_lsb - 2) false mode flags
    else round_pack fmt sl (lm2 - hm2) (h_lsb - 2) false mode flags.

(** Add [(s1, m1 * 2^e1)] and [(s2, m2 * 2^e2)], both nonzero, and round. *)
Definition add_wide (fmt : Fmt.t) (s1 : bool) (m1 e1 : Z) (s2 : bool) (m2 e2 : Z)
    (mode : RoundingMode) (flags : Z) : Z * Z :=
  let v1 := e1 + (127 - leading_zeros 128 m1) in
  let v2 := e2 + (127 - leading_zeros 128 m2) in
  if pair_ge v1 m1 v2 m2 then add_ordered fmt s1 m1 e1 s2 m2 e2 mode flags
  else add_ordered fmt s2 m2 e2 s1 m1 e1 mode flags.

Definition sf_add (fmt : Fmt.t) (a b : Z) (mode : RoundingMode) (flags : Z) : Z * Z :=
  let da := decompose fmt a in
  let db := decompose fmt b in
  match da, db with
  | DNan _, _ | _, DNan _ =>
      (Fmt.canon fmt, raise_if (is_snan_dec da || is_snan_dec db) fflags.NV flags)
  | DInf s1, DInf s2 =>
      if negb (eqb s1 s2) then (Fmt.canon fmt, Z.lor flags fflags.NV)
      else (Fmt.pack_inf fmt s1, flags)
  | DInf s, _ | _, DInf s => (Fmt.pack_inf fmt s, flags)
  | DZero s1, DZero s2 =>
      (if eqb s1 s2 then Fmt.pack_zero fmt s1
       else Fmt.pack_zero fmt (bool_decide (mode = Rdn)), flags)
  | DZero _, _ => (b, flags)
  | _, DZero _ => (a, flags)
  | DFinite s1 m1 e1, DFinite s2 m2 e2 => add_wide fmt s1 m1 e1 s2 m2 e2 mode flags
  end.

Definition sf_sub (fmt : Fmt.t) (a b : Z) (mode : RoundingMode) (flags : Z) : Z * Z :=
  sf_add fmt a (Z.lxor b (Fmt.sign_bit fmt)) mode flags.

Definition sf_fma (fmt : Fmt.t) (a b c : Z) (mode : RoundingMode) (flags : Z) : Z * Z :=
  let da := decompose fmt a in
  let db := decompose fmt b in
  let dc := decompose fmt c in
  let a_zero := is_zero_dec da in
  let b_zero := is_zero_dec db in
  let a_inf := is_inf_dec da in
  let b_inf := is_inf_dec db in
  let snan := is_snan_dec da || is_snan_dec db || is_snan_dec dc in
  let invalid := (a_zero && b_inf) || (b_zero && a_inf) in
  let flags := raise_if (snan || invalid) fflags.NV flags in
  if is_nan_dec da || is_nan_dec db || is_nan_dec dc then (Fmt.canon fmt, flags)
  else
    let psign := xorb (dec_sign da) (dec_sign db) in
    if invalid then (Fmt.canon fmt, flags)
    else if a_inf || b_inf then
      match dc with
      | DInf sc =>
          if negb (eqb sc psign) then (Fmt.canon fmt, Z.lor flags fflags.NV)
          else (Fmt.pack_inf fmt psign, flags)
      | _ => (Fmt.pack_inf fmt psign, flags)
      end
    else
      match dc with
      | DInf sc => (Fmt.pack_inf fmt sc, flags)
      | _ =>
          if a_zero || b_zero then
            match dc with
            | DZero sc =>
                (if eqb sc psign then Fmt.pack_zero fmt sc
                 else Fmt.pack_zero fmt (bool_decide (mode = Rdn)), flags)
            | _ => (c, flags)
            end
          else
            let '(ma, ea) := fin da in
            let '(mb, eb) := fin db in
            let pmant := wmul 128 ma mb in
            let pexp := ea + eb in
            match dc with
            | DFinite sc mc ec => add_wide fmt psign pmant pexp sc mc ec mode flags
            | _ => round_pack fmt psign pmant pexp false mode flags
            end
      end.

(** ** Conversions and classification *)

Definition fcvt_round (src dst : Fmt.t) (bits : Z) (mode : RoundingMode) (flags : Z) : Z * Z :=
  match decompose src bits with
  | DNan sig => (Fmt.canon dst, raise_if sig fflags.NV flags)
  | DInf s => (Fmt.pack_inf dst s, flags)
  | DZero s => (Fmt.pack_zero dst s, flags)
  | DFinite sign mant exp => round_pack dst sign mant exp false mode flags
  end.

(** [v] is an i128. *)
Definition itof_fmt (fmt : Fmt.t) (v : Z) (mode : RoundingMode) (flags : Z) : Z * Z :=
  if v =? 0 then (0, flags) else round_pack fmt (v <? 0) (Z.abs v) 0 false mode flags.

Definition fclass_bits (fmt : Fmt.t) (bits : Z) : Z :=
  match decompose fmt bits with
  | DNan sig => if sig then Z.shiftl 1 8 else Z.shiftl 1 9
  | DInf s => if s then Z.shiftl 1 0 else Z.shiftl 1 7
  | DZero s => if s then Z.shiftl 1 3 else Z.shiftl 1 4
  | DFinite sign mant _ =>
      let subnormal := mant <? wshl 64 1 (Fmt.p fmt - 1) in
      match sign, subnormal with
      | true, true => Z.shiftl 1 2
      | false, true => Z.shiftl 1 5
      | true, false => Z.shiftl 1 1
      | false, false => Z.shiftl 1 6
      end
  end.
