(* ===== verification/RvHostFloat.v ===== *)
(** * The floating-point types of the language

    Rust's [f32] and [f64] as their bit patterns, with the operations that
    src/isa/riscv/float.rs uses through its trait [Sf]: IEEE-754 arithmetic
    rounded to nearest, ties to even, comparison, conversion and rounding to an
    integral value.  Every definition takes the format, [F32] or [F64], that
    stands for the type. *)

From S2P Require Import Prelude RvFloat.

(** ** Encoding *)

Section Encoding.
Variable fmt : Fmt.t.

Abbreviation mb := (Fmt.mant_bits fmt).

(** The exponent of the last place of the subnormal numbers. *)
Definition emin : Z := 1 - Fmt.bias fmt - mb.

(** The magnitude pattern of infinity; smaller ones are the finite numbers. *)
Definition inf_mag : Z := Fmt.max_field fmt * 2 ^ mb.

(** The bit pattern of a sign and a magnitude. *)
Definition signed_pat (sign : bool) (n : Z) : Z := of_bool sign * 2 ^ (Fmt.width fmt - 1) + n.

(** The magnitude pattern of [s * 2 ^ t]: the encoding is continuous, so a
    significand that reaches [2 ^ p] gives the first pattern of the next binade. *)
Definition pat (t s : Z) : Z := (t - emin) * 2 ^ mb + s.
End Encoding.

Module Sf.
Section Ops.
Variable fmt : Fmt.t.

Abbreviation mb := (Fmt.mant_bits fmt).
Abbreviation inf := (inf_mag fmt).

(** ** Fields *)

Definition mag (x : Z) : Z := x mod 2 ^ (Fmt.width fmt - 1).
Definition is_sign_negative (x : Z) : bool := Z.testbit x (Fmt.width fmt - 1).
Definition is_nan (x : Z) : bool := inf <? mag x.
Definition is_infinite (x : Z) : bool := mag x =? inf.
Definition is_finite (x : Z) : bool := mag x <? inf.
Definition is_zero (x : Z) : bool := mag x =? 0.
Definition abs (x : Z) : Z := mag x.
Definition neg (x : Z) : Z := Z.lxor x (2 ^ (Fmt.width fmt - 1)).
Definition signaling_nan (x : Z) : bool := is_nan x && negb (Z.testbit x (mb - 1)).

Definition canon : Z := inf + 2 ^ (mb - 1).
Definition max_finite : Z := inf - 1.
Definition min_normal : Z := 2 ^ mb.

(** The significand and exponent of a finite number: [mag x] is [m * 2 ^ e]. *)
Definition parts (x : Z) : Z * Z :=
  let field := mag x / 2 ^ mb in
  let frac := mag x mod 2 ^ mb in
  if field =? 0 then (frac, emin fmt) else (2 ^ mb + frac, emin fmt + field - 1).

(** ** Order *)

(** The position of a number among all numbers; both zeros are at 0. *)
Definition key (x : Z) : Z := if is_sign_negative x then - mag x else mag x.
Definition lt (a b : Z) : bool := negb (is_nan a) && negb (is_nan b) && (key a <? key b).
Definition le (a b : Z) : bool := negb (is_nan a) && negb (is_nan b) && (key a <=? key b).
Definition eq (a b : Z) : bool := negb (is_nan a) && negb (is_nan b) && (key a =? key b).

(** ** Arithmetic *)

(** [m * 2 ^ e] in units of [2 ^ t], rounded to nearest, ties to even. *)
Definition nearest_even (m e t : Z) : Z :=
  if t <=? e then m * 2 ^ (e - t)
  else
    let q := m / 2 ^ (t - e) in
    let r := m mod 2 ^ (t - e) in
    match 2 * r ?= 2 ^ (t - e) with
    | Lt => q
    | Gt => q + 1
    | Eq => q + q mod 2
    end.

(** The number nearest to [(-1) ^ sign * m * 2 ^ e]. *)
Definition round (sign : bool) (m e : Z) : Z :=
  if m =? 0 then signed_pat fmt sign 0
  else
    let t := Z.max (Z.log2 m + e - mb) (emin fmt) in
    signed_pat fmt sign (Z.min (pat fmt t (nearest_even m e t)) inf).

Definition add (a b : Z) : Z :=
  if is_nan a || is_nan b then canon
  else if is_infinite a then
    if is_infinite b && negb (eqb (is_sign_negative a) (is_sign_negative b)) then canon else a
  else if is_infinite b then b
  else
    let '(ma, ea) := parts a in
    let '(mb, eb) := parts b in
    let e := Z.min ea eb in
    let sa := if is_sign_negative a then - (ma * 2 ^ (ea - e)) else ma * 2 ^ (ea - e) in
    let sb := if is_sign_negative b then - (mb * 2 ^ (eb - e)) else mb * 2 ^ (eb - e) in
    let z := sa + sb in
    if z =? 0 then signed_pat fmt (is_sign_negative a && is_sign_negative b) 0
    else round (z <? 0) (Z.abs z) e.

Definition sub (a b : Z) : Z := add a (neg b).

(** ** Integers *)

(** [v as f32] and [v as f64]. *)
Definition from_i128 (v : Z) : Z := round (v <? 0) (Z.abs v) 0.

(** [x as i128]: truncation, saturating, with NaN at zero. *)
Definition to_i128 (x : Z) : Z :=
  if is_nan x then 0
  else
    let '(m, e) := parts x in
    let t := if 0 <=? e then m * 2 ^ e else m / 2 ^ (- e) in
    let t := if is_infinite x then 2 ^ 127 else t in
    if is_sign_negative x then Z.max (- t) (- 2 ^ 127) else Z.min t (2 ^ 127 - 1).

(** The integer magnitude that [trunc], [floor], [ceil], [round] and
    [round_ties_even] give to [(-1) ^ sign * m * 2 ^ (- k)]. *)
Definition integral_mag (mode : RoundingMode) (sign : bool) (m k : Z) : Z :=
  let q := m / 2 ^ k in
  let r := m mod 2 ^ k in
  match mode with
  | Rtz => q
  | Rdn => if sign && negb (r =? 0) then q + 1 else q
  | Rup => if negb sign && negb (r =? 0) then q + 1 else q
  | Rmm => if 2 ^ k <=? 2 * r then q + 1 else q
  | _ => nearest_even m (- k) 0
  end.

Definition round_integral (mode : RoundingMode) (x : Z) : Z :=
  if negb (is_finite x) then x
  else
    let '(m, e) := parts x in
    if 0 <=? e then x
    else round (is_sign_negative x) (integral_mag mode (is_sign_negative x) m (- e)) 0.
End Ops.

(** [x as f32] of an f64 and [x as f64] of an f32. *)
Definition cast (src dst : Fmt.t) (x : Z) : Z :=
  if is_nan src x then canon dst
  else if is_infinite src x then signed_pat dst (is_sign_negative src x) (inf_mag dst)
  else let '(m, e) := parts src x in round dst (is_sign_negative src x) m e.
End Sf.
