(* ===== verification/RvFloatOps.v ===== *)
(** * Floating-point operations on the types of the language

    The part of src/isa/riscv/float.rs that is generic over the trait [Sf], or
    stated for [f32], [f64] or half precision: neighbours, the correction of a
    nearest result to a directed mode, addition by an exact residual, selection
    and comparison, classification, conversions from and to integers, and the
    estimate tables of the vector unit. *)

From S2P Require Import Prelude RvFloat RvHostFloat.

(** The bounds of the integer types. *)
Definition umax (w : Z) : Z := 2 ^ w - 1.
Definition imin (w : Z) : Z := - 2 ^ (w - 1).
Definition imax (w : Z) : Z := 2 ^ (w - 1) - 1.

(** ** Neighbours and correction *)

Section Generic.
Variable fmt : Fmt.t.

(** Add [delta] to a raw bit pattern; a decrement adds [u64::MAX]. *)
Definition add_bits (b delta : Z) : Z :=
  if Fmt.width fmt =? 32 then wadd 32 (as_u32 b) (as_u32 delta) else wadd 64 b delta.
Definition inc_bits (b : Z) : Z := add_bits b 1.
Definition dec_bits (b : Z) : Z := add_bits b (umax 64).

Definition next_up (x : Z) : Z :=
  if Sf.is_nan fmt x || (Sf.is_infinite fmt x && negb (Sf.is_sign_negative fmt x)) then x
  else if Sf.is_zero fmt x then inc_bits 0
  else if Sf.is_sign_negative fmt x then dec_bits x else inc_bits x.

Definition next_down (x : Z) : Z := Sf.neg fmt (next_up (Sf.neg fmt x)).

Definition min_mag (a b : Z) : Z := if Sf.le fmt (Sf.abs fmt a) (Sf.abs fmt b) then a else b.
Definition max_mag (a b : Z) : Z := if Sf.le fmt (Sf.abs fmt b) (Sf.abs fmt a) then a else b.

(** The value for [mode], given the nearest result [rne] and the exact residual
    [delta]. *)
Definition correct (rne delta : Z) (mode : RoundingMode) (inputs_finite : bool) (flags : Z) :
    Z * Z :=
  let max := Sf.max_finite fmt in
  if Sf.is_infinite fmt rne && inputs_finite then
    let neg := Sf.is_sign_negative fmt rne in
    (match mode with
     | Rtz => if neg then Sf.neg fmt max else max
     | Rdn => if neg then rne else max
     | Rup => if neg then Sf.neg fmt max else rne
     | _ => rne
     end, Z.lor flags (Z.lor fflags.OF fflags.NX))
  else if Sf.is_zero fmt delta then (rne, flags)
  else
    let flags := Z.lor flags fflags.NX in
    let up := Sf.lt fmt 0 delta in
    let '(lo, hi) := if up then (rne, next_up rne) else (next_down rne, rne) in
    let result :=
      match mode with
      | Rne | Dyn => rne
      | Rtz => min_mag lo hi
      | Rdn => lo
      | Rup => hi
      | Rmm =>
          let two_d := Sf.add fmt (Sf.abs fmt delta) (Sf.abs fmt delta) in
          let ulp := Sf.sub fmt hi lo in
          if Sf.eq fmt two_d ulp then max_mag lo hi else rne
      end in
    let flags := raise_if (Sf.is_infinite fmt result && inputs_finite) fflags.OF flags in
    (result,
     raise_if
       (Sf.is_finite fmt result && negb (Sf.is_zero fmt result)
        && Sf.lt fmt (Sf.abs fmt result) (Sf.min_normal fmt))
       fflags.UF flags).

(** ** Addition *)

Definition any_snan (ops : list Z) : bool := existsb (Sf.signaling_nan fmt) ops.
Definition nan_result (sig : bool) (flags : Z) : Z * Z :=
  (Sf.canon fmt, raise_if sig fflags.NV flags).

(** The residual of the sum [r] of [a] and [b]. *)
Definition two_sum_residual (a b r : Z) : Z :=
  let bv := Sf.sub fmt r a in
  Sf.add fmt (Sf.sub fmt a (Sf.sub fmt r bv)) (Sf.sub fmt b bv).

Definition add (a b : Z) (mode : RoundingMode) (flags : Z) : Z * Z :=
  if Sf.is_nan fmt a || Sf.is_nan fmt b then nan_result (any_snan [a; b]) flags
  else if Sf.is_infinite fmt a && Sf.is_infinite fmt b
          && negb (eqb (Sf.is_sign_negative fmt a) (Sf.is_sign_negative fmt b))
  then (Sf.canon fmt, Z.lor flags fflags.NV)
  else if Sf.is_infinite fmt a || Sf.is_infinite fmt b then (Sf.add fmt a b, flags)
  else
    let r := Sf.add fmt a b in
    if Sf.is_infinite fmt r then correct r 0 mode true flags
    else
      let both_pos_zero :=
        Sf.is_zero fmt a && negb (Sf.is_sign_negative fmt a)
        && (Sf.is_zero fmt b && negb (Sf.is_sign_negative fmt b)) in
      if Sf.is_zero fmt r && negb (Sf.is_sign_negative fmt r) && bool_decide (mode = Rdn)
         && negb both_pos_zero
      then (Sf.neg fmt 0, flags)
      else correct r (two_sum_residual a b r) mode true flags.

Definition sub (a b : Z) (mode : RoundingMode) (flags : Z) : Z * Z :=
  add a (Sf.neg fmt b) mode flags.

(** ** Selection and comparison *)

Definition either_snan (a b : Z) : bool := Sf.signaling_nan fmt a || Sf.signaling_nan fmt b.

Definition fmin (a b : Z) (flags : Z) : Z * Z :=
  (if Sf.is_nan fmt a && Sf.is_nan fmt b then Sf.canon fmt
   else if Sf.is_nan fmt a then b
   else if Sf.is_nan fmt b then a
   else if Sf.is_zero fmt a && Sf.is_zero fmt b
   then if Sf.is_sign_negative fmt a then a else b
   else if Sf.lt fmt a b then a else b,
   raise_if (either_snan a b) fflags.NV flags).

Definition fmax (a b : Z) (flags : Z) : Z * Z :=
  (if Sf.is_nan fmt a && Sf.is_nan fmt b then Sf.canon fmt
   else if Sf.is_nan fmt a then b
   else if Sf.is_nan fmt b then a
   else if Sf.is_zero fmt a && Sf.is_zero fmt b
   then if Sf.is_sign_negative fmt a then b else a
   else if Sf.lt fmt b a then a else b,
   raise_if (either_snan a b) fflags.NV flags).

Definition feq (a b : Z) (flags : Z) : bool * Z :=
  (if Sf.is_nan fmt a || Sf.is_nan fmt b then false else Sf.eq fmt a b,
   raise_if (either_snan a b) fflags.NV flags).

Definition flt (a b : Z) (flags : Z) : bool * Z :=
  if Sf.is_nan fmt a || Sf.is_nan fmt b then (false, Z.lor flags fflags.NV)
  else (Sf.lt fmt a b, flags).

Definition fle (a b : Z) (flags : Z) : bool * Z :=
  if Sf.is_nan fmt a || Sf.is_nan fmt b then (false, Z.lor flags fflags.NV)
  else (Sf.le fmt a b, flags).

Definition fclass (x : Z) : Z :=
  let neg := Sf.is_sign_negative fmt x in
  if Sf.is_nan fmt x then Z.shiftl 1 (if Sf.signaling_nan fmt x then 8 else 9)
  else if Sf.is_infinite fmt x then Z.shiftl 1 (if neg then 0 else 7)
  else if Sf.is_zero fmt x then Z.shiftl 1 (if neg then 3 else 4)
  else if Sf.lt fmt (Sf.abs fmt x) (Sf.min_normal fmt) then Z.shiftl 1 (if neg then 2 else 5)
  else Z.shiftl 1 (if neg then 1 else 6).

Definition fminm (a b : Z) (flags : Z) : Z * Z :=
  (if Sf.is_nan fmt a || Sf.is_nan fmt b then Sf.canon fmt
   else if Sf.is_zero fmt a && Sf.is_zero fmt b
   then if Sf.is_sign_negative fmt a then a else b
   else if Sf.lt fmt a b then a else b,
   raise_if (either_snan a b) fflags.NV flags).

Definition fmaxm (a b : Z) (flags : Z) : Z * Z :=
  (if Sf.is_nan fmt a || Sf.is_nan fmt b then Sf.canon fmt
   else if Sf.is_zero fmt a && Sf.is_zero fmt b
   then if Sf.is_sign_negative fmt a then b else a
   else if Sf.lt fmt b a then a else b,
   raise_if (either_snan a b) fflags.NV flags).

Definition fleq (a b : Z) (flags : Z) : bool * Z :=
  (if Sf.is_nan fmt a || Sf.is_nan fmt b then false else Sf.le fmt a b,
   raise_if (either_snan a b) fflags.NV flags).

Definition fltq (a b : Z) (flags : Z) : bool * Z :=
  (if Sf.is_nan fmt a || Sf.is_nan fmt b then false else Sf.lt fmt a b,
   raise_if (either_snan a b) fflags.NV flags).

Definition fround (x : Z) (mode : RoundingMode) (set_nx : bool) (flags : Z) : Z * Z :=
  if Sf.is_nan fmt x
  then (Sf.canon fmt, raise_if (Sf.signaling_nan fmt x) fflags.NV flags)
  else if Sf.is_infinite fmt x || Sf.is_zero fmt x then (x, flags)
  else
    let r := Sf.round_integral fmt mode x in
    (r, raise_if (set_nx && negb (r =? x)) fflags.NX flags).

(** ** Conversion to and from integers *)

(** The least and the greatest integer of a destination and the width at which
    its values are extended, with their sign, into the 64-bit result. *)
Definition int_dest (signed : bool) (width : Z) : option (Z * Z * Z) :=
  match signed with
  | true => arms width
      [(8, true, (imin 8, imax 8, 8)); (16, true, (imin 16, imax 16, 16));
       (32, true, (imin 32, imax 32, 32)); (64, true, (imin 64, imax 64, 64))]
  | false => arms width
      [(8, true, (0, umax 8, 64)); (16, true, (0, umax 16, 64));
       (32, true, (0, umax 32, 32)); (64, true, (0, umax 64, 64))]
  end.

(** [v as i<w> as i64 as u64]. *)
Definition ext64 (w v : Z) : Z := as_u64 (as_i w v).

Definition ftoi (x : Z) (signed : bool) (width : Z) (mode : RoundingMode) (flags : Z) : Z * Z :=
  if Sf.is_nan fmt x then
    (match int_dest signed width with Some (_, hi, w) => ext64 w hi | None => 0 end,
     Z.lor flags fflags.NV)
  else
    let intg := Sf.round_integral fmt mode x in
    let inexact := negb (intg =? x) && negb (Sf.is_zero fmt intg && Sf.is_zero fmt x) in
    let v := Sf.to_i128 fmt intg in
    match int_dest signed width with
    | Some (lo, hi, w) =>
        if v <? lo then (ext64 w lo, Z.lor flags fflags.NV)
        else if hi <? v then (ext64 w hi, Z.lor flags fflags.NV)
        else (ext64 w v, raise_if inexact fflags.NX flags)
    | None => (0, flags)
    end.

Definition itof (v : Z) (mode : RoundingMode) (flags : Z) : Z * Z :=
  if v =? 0 then (0, flags)
  else
    let r := Sf.from_i128 fmt v in
    let delta := v - Sf.to_i128 fmt r in
    if delta =? 0 then (r, flags)
    else
      let '(lo, hi) := if 0 <? delta then (r, next_up r) else (next_down r, r) in
      (match mode with
       | Rtz => min_mag lo hi
       | Rdn => lo
       | Rup => hi
       | Rmm =>
           if 2 * Z.abs delta =? Sf.to_i128 fmt hi - Sf.to_i128 fmt lo then max_mag lo hi
           else r
       | _ => r
       end, Z.lor flags fflags.NX).
End Generic.

(** ** Constants and conversions between the formats *)

(** The f64 literals of the table of [fli]: [m * 2 ^ e]. *)
Definition lit (m e : Z) : Z := Sf.round F64 (m <? 0) (Z.abs m) e.

Definition fli_table : list Z :=
  [lit (-1) 0; lit 0 0; lit 1 (-16); lit 1 (-15); lit 1 (-8); lit 1 (-7); lit 1 (-4); lit 1 (-3);
   lit 1 (-2); lit 5 (-4); lit 3 (-3); lit 7 (-4); lit 1 (-1); lit 5 (-3); lit 3 (-2); lit 7 (-3);
   lit 1 0; lit 5 (-2); lit 3 (-1); lit 7 (-2); lit 1 1; lit 5 (-1); lit 3 0; lit 1 2;
   lit 1 3; lit 1 4; lit 1 7; lit 1 8; lit 1 15; lit 1 16; lit 0 0; lit 0 0].

Definition fli (fmt : Fmt.t) (idx : Z) : Z :=
  let i := Z.land idx 31 in
  if i =? 1 then Fmt.pack fmt false 1 0
  else if i =? 30 then Fmt.pack_inf fmt false
  else if i =? 31 then Fmt.canon fmt
  else
    let v := nth (Z.to_nat i) fli_table 0 in
    if Fmt.p fmt =? Fmt.p F64 then v
    else if Fmt.p fmt =? Fmt.p F32 then Sf.cast F64 F32 v
    else fst (fcvt_round F64 fmt v Rne 0).

Definition fcvtmod_w_d (x : Z) (flags : Z) : Z * Z :=
  if Sf.is_nan F64 x || Sf.is_infinite F64 x then (0, Z.lor flags fflags.NV)
  else
    match decompose F64 x with
    | DFinite sign mant exp =>
        let inexact := (exp <? 0) && any_bits mant (wshl 64 1 (Z.min (- exp) 63) - 1) in
        let msb_exp := 63 - leading_zeros 64 mant + exp in
        let out_of_range :=
          if 32 <=? msb_exp then true
          else
            let v := if 0 <=? exp then Z.shiftl mant exp
                     else Z.shiftr mant (Z.min (- exp) 127) in
            let v := if sign then - v else v in
            negb ((- Z.shiftl 1 31 <=? v) && (v <? Z.shiftl 1 31)) in
        let flags :=
          if out_of_range then Z.lor flags fflags.NV else raise_if inexact fflags.NX flags in
        let vmod :=
          if 32 <=? exp then 0
          else if 0 <=? exp then Z.land (wshl 128 mant exp) 0xffffffff
          else if 128 <=? - exp then 0
          else Z.land (wshr 128 mant (- exp)) 0xffffffff in
        let r32 := if sign then wsub 32 0 vmod else vmod in
        (ext64 32 r32, flags)
    | _ => (0, flags)
    end.

Definition f64_to_f32 (x : Z) (mode : RoundingMode) (flags : Z) : Z * Z :=
  if Sf.is_nan F64 x
  then (CANONICAL_NAN_F32, raise_if (Sf.signaling_nan F64 x) fflags.NV flags)
  else if Sf.is_infinite F64 x
  then (signed_pat F32 (Sf.is_sign_negative F64 x) (inf_mag F32), flags)
  else
    let r := Sf.cast F64 F32 x in
    if Sf.is_infinite F32 r then
      let '(res, f) := correct F32 r 0 mode true 0 in (res, Z.lor flags f)
    else
      let delta := Sf.sub F64 x (Sf.cast F32 F64 r) in
      if Sf.is_zero F64 delta then (r, flags)
      else
        let flags := Z.lor flags fflags.NX in
        let '(lo, hi) :=
          if Sf.lt F64 0 delta then (r, next_up F32 r) else (next_down F32 r, r) in
        let result :=
          match mode with
          | Rtz => min_mag F32 lo hi
          | Rdn => lo
          | Rup => hi
          | Rmm =>
              (* [delta.abs() * 2.0] is the sum of two equal terms *)
              let two_d := Sf.add F64 (Sf.abs F64 delta) (Sf.abs F64 delta) in
              let ulp := Sf.sub F64 (Sf.cast F32 F64 hi) (Sf.cast F32 F64 lo) in
              if Sf.eq F64 two_d ulp then max_mag F32 lo hi else r
          | _ => r
          end in
        let flags := raise_if (Sf.is_infinite F32 result) fflags.OF flags in
        (result,
         raise_if
           (Sf.is_finite F32 result && Sf.lt F32 (Sf.abs F32 result) (Sf.min_normal F32))
           fflags.UF flags).

Definition f32_to_f64 (x : Z) (flags : Z) : Z * Z :=
  if Sf.is_nan F32 x
  then (CANONICAL_NAN_F64, raise_if (Sf.signaling_nan F32 x) fflags.NV flags)
  else (Sf.cast F32 F64 x, flags).

(** ** Half precision *)

Definition h_widen (bits : Z) : Z := as_u32 (fst (fcvt_round F16 F32 bits Rne 0)).
Definition h_snan (bits : Z) : bool := is_snan_dec (decompose F16 bits).
Definition h_nan (bits : Z) : bool := is_nan_dec (decompose F16 bits).
Definition H_CANON : Z := 0x7e00.

Definition hmin (a b : Z) (propagate : bool) (flags : Z) : Z * Z :=
  let an := h_nan a in
  let bn := h_nan b in
  (if propagate && (an || bn) then H_CANON
   else if an && bn then H_CANON
   else if an then b
   else if bn then a
   else if Sf.is_zero F32 (h_widen a) && Sf.is_zero F32 (h_widen b)
   then if Z.land (wshr 16 a 15) 1 =? 1 then a else b
   else if Sf.lt F32 (h_widen a) (h_widen b) then a else b,
   raise_if (h_snan a || h_snan b) fflags.NV flags).

Definition hmax (a b : Z) (propagate : bool) (flags : Z) : Z * Z :=
  let an := h_nan a in
  let bn := h_nan b in
  (if propagate && (an || bn) then H_CANON
   else if an && bn then H_CANON
   else if an then b
   else if bn then a
   else if Sf.is_zero F32 (h_widen a) && Sf.is_zero F32 (h_widen b)
   then if Z.land (wshr 16 a 15) 1 =? 1 then b else a
   else if Sf.lt F32 (h_widen b) (h_widen a) then a else b,
   raise_if (h_snan a || h_snan b) fflags.NV flags).

Definition fmin_h (a b : Z) (flags : Z) : Z * Z := hmin a b false flags.
Definition fmax_h (a b : Z) (flags : Z) : Z * Z := hmax a b false flags.
Definition fminm_h (a b : Z) (flags : Z) : Z * Z := hmin a b true flags.
Definition fmaxm_h (a b : Z) (flags : Z) : Z * Z := hmax a b true flags.

(** The flags of a comparison. *)
Definition hcmp_flags (a b : Z) (signaling : bool) (flags : Z) : Z :=
  raise_if (h_snan a || h_snan b || (signaling && (h_nan a || h_nan b))) fflags.NV flags.

Definition hcmp_eq (a b : Z) (signaling : bool) (flags : Z) : bool * Z :=
  (if h_nan a || h_nan b then false else Sf.eq F32 (h_widen a) (h_widen b),
   hcmp_flags a b signaling flags).
Definition hcmp_lt (a b : Z) (signaling : bool) (flags : Z) : bool * Z :=
  (if h_nan a || h_nan b then false else Sf.lt F32 (h_widen a) (h_widen b),
   hcmp_flags a b signaling flags).
Definition hcmp_le (a b : Z) (signaling : bool) (flags : Z) : bool * Z :=
  (if h_nan a || h_nan b then false else Sf.le F32 (h_widen a) (h_widen b),
   hcmp_flags a b signaling flags).

Definition feq_h (a b : Z) (flags : Z) : bool * Z := hcmp_eq a b false flags.
Definition flt_h (a b : Z) (flags : Z) : bool * Z := hcmp_lt a b true flags.
Definition fle_h (a b : Z) (flags : Z) : bool * Z := hcmp_le a b true flags.
Definition fleq_h (a b : Z) (flags : Z) : bool * Z := hcmp_le a b false flags.
Definition fltq_h (a b : Z) (flags : Z) : bool * Z := hcmp_lt a b false flags.

Definition fround_h (bits : Z) (mode : RoundingMode) (set_nx : bool) (flags : Z) : Z * Z :=
  match decompose F16 bits with
  | DNan sig => (H_CANON, raise_if sig fflags.NV flags)
  | DInf _ | DZero _ => (bits, flags)
  | DFinite _ _ _ =>
      let r := Sf.round_integral F32 mode (h_widen bits) in
      let rbits := as_u16 (fst (fcvt_round F32 F16 r mode 0)) in
      (rbits, raise_if (set_nx && negb (rbits =? bits)) fflags.NX flags)
  end.

(** ** Estimates *)

Definition RSQRT7_TABLE : list Z :=
  [52; 51; 50; 48; 47; 46; 44; 43; 42; 41; 40; 39; 38; 36; 35; 34;
   33; 32; 31; 30; 30; 29; 28; 27; 26; 25; 24; 23; 23; 22; 21; 20;
   19; 19; 18; 17; 16; 16; 15; 14; 14; 13; 12; 12; 11; 10; 10; 9;
   9; 8; 7; 7; 6; 6; 5; 4; 4; 3; 3; 2; 2; 1; 1; 0;
   127; 125; 123; 121; 119; 118; 116; 114; 113; 111; 109; 108; 106; 105; 103; 102;
   100; 99; 97; 96; 95; 93; 92; 91; 90; 88; 87; 86; 85; 84; 83; 82;
   80; 79; 78; 77; 76; 75; 74; 73; 72; 71; 70; 70; 69; 68; 67; 66;
   65; 64; 63; 63; 62; 61; 60; 59; 59; 58; 57; 56; 56; 55; 54; 53].

Definition REC7_TABLE : list Z :=
  [127; 125; 123; 121; 119; 117; 116; 114; 112; 110; 109; 107; 105; 104; 102; 100;
   99; 97; 96; 94; 93; 91; 90; 88; 87; 85; 84; 83; 81; 80; 79; 77;
   76; 75; 74; 72; 71; 70; 69; 68; 66; 65; 64; 63; 62; 61; 60; 59;
   58; 57; 56; 55; 54; 53; 52; 51; 50; 49; 48; 47; 46; 45; 44; 43;
   42; 41; 40; 40; 39; 38; 37; 36; 35; 35; 34; 33; 32; 31; 31; 30;
   29; 28; 28; 27; 26; 25; 25; 24; 23; 23; 22; 21; 21; 20; 19; 19;
   18; 17; 17; 16; 15; 15; 14; 14; 13; 12; 12; 11; 11; 10; 9; 9;
   8; 8; 7; 7; 6; 5; 5; 4; 4; 3; 3; 2; 2; 1; 1; 0].

Section Estimates.
Variable fmt : Fmt.t.

Abbreviation m := (Fmt.p fmt - 1).
Abbreviation eb := (Fmt.exp_bits fmt).
Abbreviation bias := (Z.shiftl 1 (eb - 1) - 1).
Abbreviation exp_mask := (wshl 64 1 eb - 1).
Abbreviation sig_mask := (wshl 64 1 m - 1).
Abbreviation canon_nan := (Z.lor (wshl 64 exp_mask m) (wshl 64 1 (m - 1))).

(** The exponent and fraction of a nonzero finite input, a subnormal one
    normalised. *)
Definition norm_input (exp sig : Z) : Z * Z :=
  if negb (exp =? 0) then (exp, sig)
  else
    let lz := leading_zeros 64 (wshl 64 sig (64 - m)) in
    (- lz, Z.land (wshl 64 sig (1 + lz)) sig_mask).

Definition vfrsqrt7 (bits : Z) (flags : Z) : Z * Z :=
  let sign := Z.land (wshr 64 bits (m + eb)) 1 in
  let exp := Z.land (wshr 64 bits m) exp_mask in
  let sig := Z.land bits sig_mask in
  if exp =? exp_mask then
    if sig =? 0 then
      if sign =? 1 then (canon_nan, Z.lor flags fflags.NV) else (0, flags)
    else (canon_nan, raise_if (Z.land sig (wshl 64 1 (m - 1)) =? 0) fflags.NV flags)
  else if (exp =? 0) && (sig =? 0) then
    (Z.lor (wshl 64 sign (m + eb)) (wshl 64 exp_mask m), Z.lor flags fflags.DZ)
  else if sign =? 1 then (canon_nan, Z.lor flags fflags.NV)
  else
    let '(norm_exp, norm_sig) := norm_input exp sig in
    let idx := Z.lor (wshl 64 (Z.land norm_exp 1) 6) (wshr 64 norm_sig (m - 6)) in
    let sig_out := nth (Z.to_nat idx) RSQRT7_TABLE 0 in
    let out_exp := Z.quot (3 * bias - 1 - norm_exp) 2 in
    (Z.lor (wshl 64 (as_u64 out_exp) m) (wshl 64 sig_out (m - 7)), flags).

Definition vfrec7 (bits : Z) (mode : RoundingMode) (flags : Z) : Z * Z :=
  let sign := Z.land (wshr 64 bits (m + eb)) 1 in
  let exp := Z.land (wshr 64 bits m) exp_mask in
  let sig := Z.land bits sig_mask in
  let sbit := wshl 64 sign (m + eb) in
  if exp =? exp_mask then
    if sig =? 0 then (sbit, flags)
    else (canon_nan, raise_if (Z.land sig (wshl 64 1 (m - 1)) =? 0) fflags.NV flags)
  else if (exp =? 0) && (sig =? 0) then
    (Z.lor sbit (wshl 64 exp_mask m), Z.lor flags fflags.DZ)
  else
    let '(norm_exp, norm_sig) := norm_input exp sig in
    let out_exp := 2 * bias - 1 - norm_exp in
    if 2 * bias <? out_exp then
      let max_finite := Z.lor (wshl 64 (exp_mask - 1) m) sig_mask in
      let inf := wshl 64 exp_mask m in
      let mag :=
        if sign =? 0 then match mode with Rup | Rne | Rmm => inf | _ => max_finite end
        else match mode with Rup | Rtz => max_finite | _ => inf end in
      (Z.lor sbit mag, Z.lor flags (Z.lor fflags.NX fflags.OF))
    else
      let sig_out := nth (Z.to_nat (wshr 64 norm_sig (m - 7))) REC7_TABLE 0 in
      if 1 <=? out_exp then
        (Z.lor (Z.lor sbit (wshl 64 (as_u64 out_exp) m)) (wshl 64 sig_out (m - 7)), flags)
      else
        let full := Z.lor (wshl 64 1 m) (wshl 64 sig_out (m - 7)) in
        (Z.lor sbit (wshr 64 full (1 - out_exp)), flags).
End Estimates.
