(* ===== verification/RvTwoSum.v ===== *)
(** * Exactness of the 2Sum residual

    The addition of src/isa/riscv/float.rs recovers the rounding error of a sum
    with five further additions.  The numbers of a format are integers in units
    of its smallest subnormal; this file shows, for integers with at most [p]
    significant bits and any rounding to a nearest one, that the residual is the
    error exactly. *)

From S2P Require Import Prelude.

Section TwoSum.
Variable p : Z.
Hypothesis Hp : 2 <= p.

(** The integers with at most [p] significant bits. *)
Definition rep (n : Z) : Prop := exists m k, 0 <= k /\ Z.abs m < 2 ^ p /\ n = m * 2 ^ k.

Lemma pow_p_pos : 4 <= 2 ^ p.
Proof. change 4 with (2 ^ 2). apply Z.pow_le_mono_r; lia. Qed.

Lemma rep_opp n : rep n -> rep (- n).
Proof. intros (m & k & Hk & Hm & ->). exists (- m), k. split_and!; lia. Qed.

Lemma rep_0 : rep 0.
Proof. exists 0, 0. pose proof pow_p_pos. split_and!; lia. Qed.

(** A multiple of [2 ^ k] of at most [2 ^ p] units is representable. *)
Lemma rep_mult m k : 0 <= k -> Z.abs m <= 2 ^ p -> rep (m * 2 ^ k).
Proof.
  intros Hk Hm. destruct (decide (Z.abs m < 2 ^ p)) as [Hlt|]; [by exists m, k|].
  assert (2 ^ p = 2 * 2 ^ (p - 1)) by (rewrite <- Z.pow_succ_r by lia; f_equal; lia).
  pose proof (Z.pow_pos_nonneg 2 (p - 1) ltac:(lia) ltac:(lia)).
  assert (m = 2 * 2 ^ (p - 1) \/ m = - (2 * 2 ^ (p - 1))) as [-> | ->] by lia;
    [exists (2 ^ (p - 1)), (k + 1) | exists (- 2 ^ (p - 1)), (k + 1)];
    (split; [lia|]; split; [lia|]; rewrite Z.pow_add_r by lia; ring).
Qed.

Definition divides_pow (k n : Z) : Prop := (2 ^ k | n).

Lemma rep_div n k : 0 <= k -> divides_pow k n -> Z.abs n <= 2 ^ p * 2 ^ k -> rep n.
Proof.
  intros Hk [m ->] Hn. pose proof (Z.pow_pos_nonneg 2 k ltac:(lia) Hk).
  apply rep_mult; [done|]. rewrite Z.abs_mul, (Z.abs_eq (2 ^ k)) in Hn by lia. nia.
Qed.

(** A representable number of at least [2 ^ (p - 1)] units of [2 ^ k] is a
    multiple of that unit. *)
Lemma rep_large n k : 0 <= k -> rep n -> 2 ^ (p - 1) * 2 ^ k <= Z.abs n -> divides_pow k n.
Proof.
  intros Hk (m & j & Hj & Hm & ->) Hn. destruct (decide (k <= j)).
  - exists (m * 2 ^ (j - k)). rewrite <- Z.mul_assoc, <- Z.pow_add_r by lia. do 2 f_equal. lia.
  - exfalso. rewrite Z.abs_mul, (Z.abs_eq (2 ^ j)) in Hn by (apply Z.pow_nonneg; lia).
    assert (2 ^ (p - 1) * 2 ^ k >= 2 ^ p * 2 ^ j); [|pose proof (Z.pow_pos_nonneg 2 j); nia].
    rewrite <- !Z.pow_add_r by lia. apply Z.le_ge, Z.pow_le_mono_r; lia.
Qed.

(** The unit in the last place: every nonzero representable number is a
    multiple of a power of two of which it has fewer than [2 ^ p], and if that
    power is not 1, at least [2 ^ (p - 1)]. *)
Lemma rep_ulp n :
  rep n -> exists k, 0 <= k /\ divides_pow k n /\ Z.abs n < 2 ^ p * 2 ^ k
    /\ (k = 0 \/ 2 ^ (p - 1) * 2 ^ k <= Z.abs n).
Proof.
  intros Hn. set (k := Z.max 0 (Z.log2 (Z.abs n) - (p - 1))). exists k.
  assert (Hk : 0 <= k) by lia. split; [done|].
  destruct (decide (n = 0)) as [->|Hz].
  { pose proof pow_p_pos. pose proof (Z.pow_pos_nonneg 2 k ltac:(lia) Hk).
    split; [by apply Z.divide_0_r|]. split; [lia|]. left. unfold k. simpl. lia. }
  pose proof (Z.log2_spec (Z.abs n) ltac:(lia)) as [H1 H2].
  assert (Hlt : Z.abs n < 2 ^ p * 2 ^ k).
  { rewrite <- Z.pow_add_r by lia. eapply Z.lt_le_trans; [exact H2|].
    apply Z.pow_le_mono_r; lia. }
  destruct (decide (Z.log2 (Z.abs n) <= p - 1)).
  { assert (E : k = 0) by lia. rewrite E in *. split_and!; [apply Z.divide_1_l | lia | by left]. }
  assert (Hge : 2 ^ (p - 1) * 2 ^ k <= Z.abs n).
  { rewrite <- Z.pow_add_r by lia. replace (p - 1 + k) with (Z.log2 (Z.abs n)) by lia. done. }
  split_and!; [by apply rep_large | done | by right].
Qed.

(** ** Rounding to nearest *)

(** [near x r]: [r] is a representable number nearest to [x]. *)
Definition near (x r : Z) : Prop :=
  rep r /\ forall f, rep f -> Z.abs (x - r) <= Z.abs (x - f).

Lemma near_exact x r : near x r -> rep x -> r = x.
Proof. intros [_ Hr] Hx. specialize (Hr x Hx). lia. Qed.

Lemma near_opp x r : near x r -> near (- x) (- r).
Proof.
  intros [Hr Hn]. split; [by apply rep_opp|]. intros f Hf.
  specialize (Hn (- f) (rep_opp _ Hf)). lia.
Qed.

(** Rounding keeps the bounds that are representable. *)
Lemma near_ge x r a : near x r -> rep a -> a <= x -> a <= r.
Proof. intros [Hr Hn] Ha Hx. specialize (Hn a Ha). lia. Qed.
Lemma near_le x r a : near x r -> rep a -> x <= a -> r <= a.
Proof. intros [Hr Hn] Ha Hx. specialize (Hn a Ha). lia. Qed.

(** The error of a sum is representable, and no larger than either term. *)
Lemma error_le x y r : near (x + y) r -> rep x -> Z.abs (x + y - r) <= Z.abs y.
Proof. intros [_ Hn] Hx. specialize (Hn x Hx). lia. Qed.

Lemma error_rep_ordered a b r :
  rep a -> rep b -> Z.abs b <= Z.abs a -> near (a + b) r -> rep (a + b - r).
Proof.
  intros Ha Hb Hab Hr. destruct (rep_ulp b Hb) as (k & Hk & Hd & Hlt & Hge).
  assert (Hda : divides_pow k a).
  { destruct Hge as [-> | Hge]; [apply Z.divide_1_l | apply rep_large; (done || lia)]. }
  pose proof (Z.divide_add_r _ _ _ Hda Hd) as Hs.
  pose proof (error_le a b r Hr Ha) as He.
  destruct (decide (Z.abs (a + b) <= 2 ^ p * 2 ^ k)) as [Hsmall|Hbig].
  { rewrite (near_exact (a + b) r Hr) by (by apply (rep_div _ k)).
    replace (a + b - (a + b)) with 0 by lia. apply rep_0. }
  apply (rep_div _ k); [done| |lia]. apply Z.divide_sub_r; [done|].
  apply rep_large; [done|apply Hr|].
  assert (2 ^ p = 2 * 2 ^ (p - 1)) by (rewrite <- Z.pow_succ_r by lia; f_equal; lia).
  pose proof (Z.pow_pos_nonneg 2 k ltac:(lia) Hk).
  assert (Hrep : rep (2 ^ p * 2 ^ k)) by (apply rep_mult; lia).
  destruct (decide (0 <= a + b)).
  - pose proof (near_ge _ _ _ Hr Hrep ltac:(lia)). nia.
  - pose proof (near_le _ _ (- (2 ^ p * 2 ^ k)) Hr (rep_opp _ Hrep) ltac:(lia)). nia.
Qed.

Lemma error_rep a b r : rep a -> rep b -> near (a + b) r -> rep (a + b - r).
Proof.
  intros Ha Hb Hr. destruct (decide (Z.abs b <= Z.abs a)); [by apply error_rep_ordered|].
  rewrite (Z.add_comm a) in *. apply error_rep_ordered; (done || lia).
Qed.

(** ** The residual *)

Lemma pow_p_half : 2 ^ p = 2 * 2 ^ (p - 1) /\ 2 <= 2 ^ (p - 1).
Proof.
  split; [rewrite <- Z.pow_succ_r by lia; f_equal; lia|].
  change 2 with (2 ^ 1) at 1. apply Z.pow_le_mono_r; lia.
Qed.

Lemma pow_half k : 1 <= k -> 2 ^ k = 2 * 2 ^ (k - 1).
Proof. intros. rewrite <- Z.pow_succ_r by lia. f_equal. lia. Qed.

(** Sterbenz: the difference of two close numbers is representable. *)
Lemma sterbenz a b : rep a -> rep b -> 0 <= a <= b -> b <= 2 * a -> rep (b - a).
Proof.
  intros Ha Hb Hab H2. destruct (rep_ulp a Ha) as (k & Hk & Hd & Hlt & Hge).
  apply (rep_div _ k); [done| |lia]. apply Z.divide_sub_r; [|done].
  destruct Hge as [-> | Hge]; [apply Z.divide_1_l | apply rep_large; (done || lia)].
Qed.

(** A nonnegative number and one of no larger magnitude: their rounded sum
    less the first is representable. *)
Lemma sum_minus_large_pos a b r :
  rep a -> rep b -> 0 <= a -> Z.abs b <= a -> near (a + b) r -> rep (r - a) /\ Z.abs (r - a) <= a.
Proof.
  intros Ha Hb H0 Hab Hr. destruct (rep_ulp a Ha) as (k & Hk & Hd & Hlt & Hge).
  destruct pow_p_half as [Hpp Hp1]. pose proof (Z.pow_pos_nonneg 2 k ltac:(lia) Hk) as Hu.
  destruct (decide (0 <= b)) as [Hb0|Hb0].
  - pose proof (near_ge _ _ _ Hr Ha ltac:(lia)) as H1.
    assert (H2a : rep (2 * a)).
    { destruct Hd as [m Hm]. replace (2 * a) with (m * 2 ^ (k + 1))
        by (rewrite Z.pow_add_r by lia; lia). apply rep_mult; [lia|]. nia. }
    pose proof (near_le _ _ _ Hr H2a ltac:(lia)) as H2.
    split; [|lia]. apply (rep_div _ k); [done| |lia]. apply Z.divide_sub_r; [|done].
    destruct Hge as [-> | Hge]; [apply Z.divide_1_l | apply rep_large; [done|apply Hr|lia]].
  - destruct (decide (a <= 2 * - b)).
    { pose proof (sterbenz (- b) a (rep_opp _ Hb) Ha ltac:(lia) ltac:(lia)) as Hs.
      rewrite (near_exact (a + b) r Hr) by (replace (a + b) with (a - - b) by lia; done).
      replace (a + b - a) with b by lia. split; [done|lia]. }
    pose proof (near_le _ _ _ Hr Ha ltac:(lia)) as H1.
    destruct (decide (k = 0)) as [->|Hk1].
    { rewrite (near_exact (a + b) r Hr) by (apply (rep_div _ 0); [lia|apply Z.divide_1_l|lia]).
      replace (a + b - a) with b by lia. split; [done|lia]. }
    destruct Hge as [|Hge]; [done|]. pose proof (pow_half k ltac:(lia)) as Hh. set (g := 2 ^ (k - 1)) in *.
    assert (Hg : rep (2 ^ (p - 1) * g)) by (apply rep_mult; lia).
    pose proof (near_ge _ _ _ Hr Hg ltac:(nia)) as H2.
    assert (Hf : rep (a - 2 ^ (p - 1) * 2 ^ k)).
    { apply (rep_div _ k); [done| |nia]. apply Z.divide_sub_r; [done | apply Z.divide_factor_r]. }
    pose proof (near_ge _ _ _ Hr Hf ltac:(nia)) as H3.
    split; [|nia]. apply (rep_div _ (k - 1)); [lia| |fold g; nia].
    apply Z.divide_sub_r.
    + apply rep_large; [lia|apply Hr|]. fold g. nia.
    + apply (Z.divide_trans _ (2 ^ k)); [|done]. rewrite Hh. apply Z.divide_factor_r.
Qed.

Lemma sum_minus_large a b r :
  rep a -> rep b -> Z.abs b <= Z.abs a -> near (a + b) r ->
  rep (r - a) /\ Z.abs (r - a) <= Z.abs a.
Proof.
  intros Ha Hb Hab Hr. destruct (decide (0 <= a)).
  - rewrite (Z.abs_eq a) in * by lia. by apply (sum_minus_large_pos a b).
  - apply near_opp in Hr. replace (- (a + b)) with (- a + - b) in Hr by lia.
    destruct (sum_minus_large_pos (- a) (- b) (- r)) as [H1 H2];
      [by apply rep_opp | by apply rep_opp | lia | lia | done |].
    split; [|lia]. apply rep_opp in H1. by replace (r - a) with (- (- r - - a)) by lia.
Qed.

(** The error of a rounding is at most half a unit of its grid. *)
Lemma near_unit x r j : 0 <= j -> near x r -> Z.abs x <= 2 ^ p * 2 ^ j -> 2 * Z.abs (x - r) <= 2 ^ j.
Proof.
  intros Hj [_ Hn] Hx. pose proof (Z.pow_pos_nonneg 2 j ltac:(lia) Hj) as Hu.
  pose proof (Z.div_mod x (2 ^ j) ltac:(lia)) as Hdm. pose proof (Z.mod_pos_bound x (2 ^ j) Hu).
  set (q := x / 2 ^ j) in *.
  assert (Hq : - 2 ^ p <= q) by (apply Z.div_le_lower_bound; lia).
  assert (Hq' : q <= 2 ^ p) by (apply Z.div_le_upper_bound; lia).
  assert (R0 : rep (q * 2 ^ j)) by (apply rep_mult; lia). pose proof (Hn _ R0).
  destruct (decide (q = 2 ^ p)); [nia|].
  assert (R1 : rep ((q + 1) * 2 ^ j)) by (apply rep_mult; lia). pose proof (Hn _ R1). nia.
Qed.

(** [b] with its last place [2 ^ k], and what rounding does to a number within
    one unit of it. *)
Section Virtual.
Variables (b k : Z).
Hypothesis Hk : 0 <= k.
Hypothesis Hdiv : divides_pow k b.
Hypothesis Hpos : 0 < b < 2 ^ p * 2 ^ k.
Hypothesis Hnorm : k = 0 \/ 2 ^ (p - 1) * 2 ^ k <= b.

Abbreviation u := (2 ^ k).

Lemma unit_pos : 0 < u.
Proof. apply Z.pow_pos_nonneg; lia. Qed.

Lemma around j : Z.abs j <= 1 -> rep (b + j * u).
Proof.
  intros Hj. pose proof unit_pos. destruct Hdiv as [m Hm]. rewrite Hm in *.
  assert (0 < m < 2 ^ p) by nia. replace (m * u + j * u) with ((m + j) * u) by ring.
  apply rep_mult; [done | lia].
Qed.

Lemma near_virtual x v :
  near x v -> Z.abs (x - b) <= u ->
  Z.abs (b - v) <= u /\ 2 * Z.abs (x - v) <= u /\ (1 <= k -> divides_pow (k - 1) v)
  /\ rep (b - v).
Proof.
  intros Hv Hx. pose proof unit_pos as Hu. destruct pow_p_half as [Hpp Hp1].
  pose proof (around 1 ltac:(lia)) as R1. pose proof (around (-1) ltac:(lia)) as R2.
  pose proof (around 0 ltac:(lia)) as R0.
  pose proof (near_le _ _ _ Hv R1 ltac:(lia)). pose proof (near_ge _ _ _ Hv R2 ltac:(lia)).
  assert (Hbv : Z.abs (b - v) <= u) by lia. split; [done|]. split.
  { destruct Hv as [_ Hn]. pose proof (Hn _ R0). pose proof (Hn _ R1). pose proof (Hn _ R2). lia. }
  assert (Hd : 1 <= k -> divides_pow (k - 1) v).
  { intros H1. pose proof (pow_half k H1) as Hh. pose proof (Z.pow_pos_nonneg 2 (k - 1)).
    apply rep_large; [lia|apply Hv|]. destruct Hnorm; [lia|]. nia. }
  split; [done|]. destruct (decide (k = 0)) as [E|Hne].
  - rewrite E in *. apply (rep_div _ 0); [lia|apply Z.divide_1_l|]. pose proof pow_p_pos. lia.
  - pose proof (pow_half k ltac:(lia)) as Hh. pose proof (Z.pow_pos_nonneg 2 (k - 1)).
    apply (rep_div _ (k - 1)); [lia| |nia]. apply Z.divide_sub_r; [|apply Hd; lia].
    apply (Z.divide_trans _ u); [|done]. rewrite Hh. apply Z.divide_factor_r.
Qed.

(** [r - v] is representable when it is close to a smaller number [a]. *)
Lemma close_coarse a r v :
  divides_pow k r -> divides_pow k v -> 2 * Z.abs (r - v) <= 2 * Z.abs a + u -> Z.abs a < b ->
  rep (r - v).
Proof.
  intros Hr Hv Hrv Ha. pose proof unit_pos. pose proof (Z.divide_sub_r _ _ _ Hr Hv) as [m Hm].
  rewrite Hm in *. apply rep_mult; [done|]. rewrite Z.abs_mul, (Z.abs_eq u) in Hrv by lia. nia.
Qed.

Lemma close_fine a r v :
  1 <= k -> divides_pow (k - 1) r -> divides_pow (k - 1) v ->
  2 * Z.abs (r - v) <= 2 * Z.abs a + u -> Z.abs a < 2 ^ (p - 1) * u -> rep (r - v).
Proof.
  intros Hk1 Hr Hv Hrv Ha. destruct pow_p_half as [Hpp Hp1]. pose proof (pow_half k Hk1) as Hh.
  pose proof (Z.pow_pos_nonneg 2 (k - 1) ltac:(lia) ltac:(lia)).
  pose proof (Z.divide_sub_r _ _ _ Hr Hv) as [m Hm]. rewrite Hm in *. apply rep_mult; [lia|].
  rewrite Z.abs_mul, (Z.abs_eq (2 ^ (k - 1))) in Hrv by lia. nia.
Qed.

Lemma sum_minus_virtual a r v :
  2 * Z.abs (r - a - v) <= u -> Z.abs (b - v) <= u -> Z.abs a < b -> rep r -> rep v ->
  (1 <= k -> divides_pow (k - 1) v) ->
  b <= r \/ (1 <= k /\ divides_pow (k - 1) r /\ 2 * Z.abs a < b) ->
  rep (r - v).
Proof.
  intros Hxv Hbv Ha Hr Hv Hdv Hcase. pose proof unit_pos. destruct pow_p_half as [Hpp Hp1].
  assert (Hrv : 2 * Z.abs (r - v) <= 2 * Z.abs a + u) by lia.
  destruct Hcase as [Hbr | (Hk1 & Hdr & H2a)]; [|apply (close_fine a); (auto || nia)].
  assert (Hdr : divides_pow k r).
  { destruct Hnorm as [-> | Hb]; [apply Z.divide_1_l | apply rep_large; (done || lia)]. }
  destruct (decide (k = 0)) as [E|Hne].
  { apply (close_coarse a); try done. rewrite E. apply Z.divide_1_l. }
  destruct Hnorm as [|Hb]; [done|].
  destruct (decide (2 ^ (p - 1) * u <= v)).
  { apply (close_coarse a); try done. apply rep_large; (done || lia). }
  apply (close_fine a); [lia| |apply Hdv; lia|done|].
  - apply (Z.divide_trans _ u); [|done]. rewrite (pow_half k) by lia. apply Z.divide_factor_r.
  - destruct Hdiv as [m Hm]. assert (m < 2 ^ (p - 1) + 1) by nia. nia.
Qed.
End Virtual.

(** The error of the sum is at most the last place of the larger term, and the
    sum is on the grid that [sum_minus_virtual] asks for. *)
Lemma sum_error a b k r :
  rep a -> rep b -> 0 <= k -> divides_pow k b -> 0 < b < 2 ^ p * 2 ^ k ->
  k = 0 \/ 2 ^ (p - 1) * 2 ^ k <= b -> Z.abs a < b -> near (a + b) r ->
  r = a + b
  \/ Z.abs (a + b - r) <= 2 ^ k
     /\ (b <= r \/ (1 <= k /\ divides_pow (k - 1) r /\ 2 * Z.abs a < b)).
Proof.
  intros Ha Hb Hk Hd Hpos Hnorm Hab Hr. destruct pow_p_half as [Hpp Hp1].
  pose proof (Z.pow_pos_nonneg 2 k ltac:(lia) Hk) as Hu.
  destruct (decide (0 <= a)) as [H0|H0].
  { right. split; [|left; apply (near_ge _ _ _ Hr Hb); lia].
    pose proof (near_unit (a + b) r (k + 1) ltac:(lia) Hr) as He.
    rewrite Z.pow_add_r in He by lia. lia. }
  destruct (decide (b <= 2 * - a)).
  { left. apply near_exact; [done|]. replace (a + b) with (b - - a) by lia.
    apply sterbenz; [by apply rep_opp | done | lia | lia]. }
  destruct (decide (k = 0)) as [->|Hne].
  { left. apply near_exact; [done|]. apply (rep_div _ 0); [lia|apply Z.divide_1_l|lia]. }
  right. destruct Hnorm as [|Hnorm]; [done|].
  pose proof (near_unit (a + b) r k Hk Hr ltac:(lia)) as He. split; [lia|]. right.
  split; [lia|]. split; [|lia]. pose proof (pow_half k ltac:(lia)) as Hh.
  pose proof (Z.pow_pos_nonneg 2 (k - 1) ltac:(lia) ltac:(lia)).
  assert (Hg : rep (2 ^ (p - 1) * 2 ^ (k - 1))) by (apply rep_mult; lia).
  pose proof (near_ge _ _ _ Hr Hg ltac:(nia)). apply rep_large; [lia|apply Hr|lia].
Qed.

(** The residual when the second term is the larger and positive; every value
    on the way stays within a bound [w] above it. *)
Lemma residual_pos a b r v w :
  rep a -> rep b -> rep w -> Z.abs a < b < w -> near (a + b) r -> near (r - a) v ->
  rep (b - v) /\ rep (r - v) /\ Z.abs v <= w /\ Z.abs (r - v) <= w /\ Z.abs (b - v) <= w.
Proof.
  intros Ha Hb Hw Hab Hr Hv. destruct (rep_ulp b Hb) as (k & Hk & Hd & Hlt & Hge).
  rewrite (Z.abs_eq b) in * by lia. pose proof (Z.pow_pos_nonneg 2 k ltac:(lia) Hk) as Hu.
  assert (Hbu : 2 ^ k <= b /\ b + 2 ^ k <= w).
  { assert (divides_pow k w) as [mw Hmw].
    { destruct Hge as [-> | Hge]; [apply Z.divide_1_l | apply rep_large; (done || lia)]. }
    destruct Hd as [m Hm]. assert (0 < m) by nia. assert (m < mw) by nia. nia. }
  destruct (sum_error a b k r) as [E | [He Hcase]]; try done; [lia..| |].
  { subst r. assert (Ev : v = b) by (rewrite (near_exact _ _ Hv); [lia|];
      by replace (a + b - a) with b by lia). subst v.
    replace (b - b) with 0 by lia. replace (a + b - b) with a by lia.
    split_and!; [apply rep_0 | done | lia..]. }
  destruct (near_virtual b k Hk Hd ltac:(lia) Hge (r - a) v Hv ltac:(lia)) as (H1 & H2 & H3 & H4).
  split_and!; [done| |lia..].
  apply (sum_minus_virtual b k Hk Hd ltac:(lia) Hge a r v); try done; [lia | apply Hr | apply Hv].
Qed.

Lemma residual_large a b r v w :
  rep a -> rep b -> rep w -> Z.abs a < Z.abs b < w -> near (a + b) r -> near (r - a) v ->
  rep (b - v) /\ rep (r - v) /\ Z.abs v <= w /\ Z.abs (r - v) <= w /\ Z.abs (b - v) <= w.
Proof.
  intros Ha Hb Hw Hab Hr Hv. destruct (decide (0 <= b)).
  - rewrite (Z.abs_eq b) in * by lia. by apply (residual_pos a b r v w).
  - apply near_opp in Hr. replace (- (a + b)) with (- a + - b) in Hr by lia.
    apply near_opp in Hv. replace (- (r - a)) with (- r - - a) in Hv by lia.
    destruct (residual_pos (- a) (- b) (- r) (- v) w) as (H1 & H2 & H3 & H4 & H5);
      [by apply rep_opp | by apply rep_opp | done | lia | done | done |].
    apply rep_opp in H1, H2. replace (- (- b - - v)) with (b - v) in H1 by lia.
    replace (- (- r - - v)) with (r - v) in H2 by lia. split_and!; (done || lia).
Qed.

(** The 2Sum residual: once the sum [r] and the virtual term [v] are rounded to
    nearest, the remaining steps of the algorithm are exact, their result is
    [a + b - r], and every value on the way stays within a bound [w] of the first
    term that the second one does not reach. *)
Lemma two_sum_exact a b r v w :
  rep a -> rep b -> rep w -> Z.abs a <= w -> Z.abs b < w -> near (a + b) r -> near (r - a) v ->
  Z.abs v <= w /\ (rep (r - v) /\ Z.abs (r - v) <= w)
  /\ (rep (a - (r - v)) /\ Z.abs (a - (r - v)) <= w) /\ (rep (b - v) /\ Z.abs (b - v) <= w)
  /\ rep (a + b - r) /\ Z.abs (a + b - r) <= w.
Proof.
  intros Ha Hb Hw Haw Hbw Hr Hv. pose proof (error_rep a b r Ha Hb Hr) as Herr.
  pose proof (error_le a b r Hr Ha) as Hle.
  destruct (decide (Z.abs b <= Z.abs a)).
  - destruct (sum_minus_large a b r) as [H1 H2]; try done. apply near_exact in Hv; [|done]. subst v.
    replace (r - (r - a)) with a by lia. replace (a - a) with 0 by lia.
    replace (b - (r - a)) with (a + b - r) by lia. split_and!; try done; try lia. apply rep_0.
  - destruct (residual_large a b r v w) as (H1 & H2 & H3 & H4 & H5); try done; [lia|].
    pose proof (error_rep r (- a) v) as Hev. replace (r + - a) with (r - a) in Hev by lia.
    specialize (Hev ltac:(apply Hr) ltac:(by apply rep_opp) Hv). apply rep_opp in Hev.
    pose proof (error_le r (- a) v) as Hle2. replace (r + - a) with (r - a) in Hle2 by lia.
    specialize (Hle2 Hv ltac:(apply Hr)). replace (a - (r - v)) with (- (r - a - v)) by lia.
    split_and!; (done || lia).
Qed.
End TwoSum.
