(* ===== verification/RvRound.v ===== *)
(** * Correct rounding

    What IEEE-754 rounding to a binary format means, stated on the real numbers
    and independently of the code: the result is one of the two representable
    neighbours of the exact value, chosen by the rounding mode.  [round_pack]
    (src/isa/riscv/float.rs) implements it, flags included. *)

From Stdlib Require Import Reals Lra.
From S2P Require Import Prelude RvFloat RvHostFloat.

#[local] Open Scope R_scope.
#[local] Open Scope Z_scope.

(** ** Powers of two *)

Definition bpow (e : Z) : R := powerRZ 2 e.

Lemma bpow_pos e : (0 < bpow e)%R.
Proof. apply powerRZ_lt. lra. Qed.

Lemma bpow_add a b : bpow (a + b) = (bpow a * bpow b)%R.
Proof. apply powerRZ_add. lra. Qed.

Lemma bpow_nonneg e : 0 <= e -> bpow e = IZR (2 ^ e).
Proof.
  intros He. unfold bpow. rewrite <- (Z2Nat.id e) by done. generalize (Z.to_nat e). intros n.
  rewrite <- pow_powerRZ. induction n as [|n IH]; [done|].
  rewrite Nat2Z.inj_succ, Z.pow_succ_r by lia. simpl. by rewrite IH, mult_IZR.
Qed.

Lemma bpow_0 : bpow 0 = 1%R.
Proof. done. Qed.

Lemma bpow_split a b : a <= b -> bpow b = (IZR (2 ^ (b - a)) * bpow a)%R.
Proof. intros. rewrite <- bpow_nonneg, <- bpow_add by lia. f_equal. lia. Qed.

Lemma bpow_le a b : a <= b -> (bpow a <= bpow b)%R.
Proof.
  intros. rewrite (bpow_split a b) by done. pose proof (bpow_pos a).
  assert (1 <= IZR (2 ^ (b - a)))%R; [|nra].
  apply IZR_le. pose proof (Z.pow_pos_nonneg 2 (b - a)). lia.
Qed.

(** ** Formats and their values *)

Section Format.
Variable fmt : Fmt.t.

Abbreviation p := (Fmt.p fmt).
Abbreviation mb := (Fmt.mant_bits fmt).

(** The value of a magnitude pattern, with infinity read as the power of two
    after the largest finite number. *)
Definition mag_val (n : Z) : R :=
  let field := n / 2 ^ mb in
  let frac := n mod 2 ^ mb in
  if field =? 0 then (IZR frac * bpow (emin fmt))%R
  else (IZR (2 ^ mb + frac) * bpow (emin fmt + field - 1))%R.

(** ** Rounding *)

(** [lo] is the largest finite magnitude not above [x]. *)
Definition below (x : R) (lo : Z) : Prop :=
  0 <= lo < inf_mag fmt /\ (mag_val lo <= x)%R /\ (lo + 1 < inf_mag fmt -> (x < mag_val (lo + 1))%R).

(** Between [lo] and the next magnitude, which one the mode selects for [x]. *)
Definition selects (mode : RoundingMode) (sign : bool) (x : R) (lo n : Z) : Prop :=
  let mid2 := (mag_val lo + mag_val (lo + 1))%R in
  match mode with
  | Rtz => n = lo
  | Rdn => n = if sign then lo + 1 else lo
  | Rup => n = if sign then lo else lo + 1
  | Rmm => ((2 * x < mid2)%R /\ n = lo) \/ ((mid2 <= 2 * x)%R /\ n = lo + 1)
  | Rne | Dyn =>
      ((2 * x < mid2)%R /\ n = lo) \/ ((mid2 < 2 * x)%R /\ n = lo + 1)
      \/ ((2 * x)%R = mid2 /\ n = if Z.even lo then lo else lo + 1)
  end.

(** The magnitude [x > 0] rounds to. *)
Definition rounds_to (mode : RoundingMode) (sign : bool) (x : R) (n : Z) : Prop :=
  exists lo, below x lo
    /\ (((x = mag_val lo) /\ n = lo) \/ ((mag_val lo < x)%R /\ selects mode sign x lo n)).

(** Overflow: the value or its rounding is at least the power of two after the
    largest finite number. *)
Definition overflows (x : R) (n : Z) : Prop := n = inf_mag fmt \/ (mag_val (inf_mag fmt) <= x)%R.

(** The flags of a rounding of [x] to [n]: inexact when the value is not [x],
    overflow, and underflow when an inexact result is below the normal range. *)
Definition rounding_flags (x : R) (n flags flags' : Z) : Prop :=
  exists nx ov uf : bool,
    (nx = true <-> x <> mag_val n \/ overflows x n)
    /\ (ov = true <-> overflows x n)
    /\ (uf = true <-> x <> mag_val n /\ n < 2 ^ mb)
    /\ flags' = raise_if uf fflags.UF (raise_if ov fflags.OF (raise_if nx fflags.NX flags)).

(** [r] is the rounding of [(-1)^sign * x], with its flags added to [flags]. *)
Definition correctly_rounded (mode : RoundingMode) (sign : bool) (x : R) (flags : Z)
    (r : Z * Z) : Prop :=
  exists n, rounds_to mode sign x n /\ r.1 = signed_pat fmt sign n /\ rounding_flags x n flags r.2.
End Format.

(** The formats of the code. *)
Definition fmt_ok (fmt : Fmt.t) : Prop :=
  4 <= Fmt.p fmt <= 53 /\ 3 <= Fmt.exp_bits fmt <= 11.

Lemma F16_ok : fmt_ok F16. Proof. done. Qed.
Lemma F32_ok : fmt_ok F32. Proof. done. Qed.
Lemma F64_ok : fmt_ok F64. Proof. done. Qed.

(** ** Packing *)

Lemma wshl_exact w a s : 0 <= s < w -> 0 <= a -> a * 2 ^ s < 2 ^ w -> wshl w a s = a * 2 ^ s.
Proof.
  intros Hs Ha Hw. unfold wshl. rewrite Z.mod_small, Z.shiftl_mul_pow2 by lia.
  apply as_u_small. split; [|done]. apply Z.mul_nonneg_nonneg; [done|]. apply Z.pow_nonneg. lia.
Qed.

Lemma wshr_div w a s : 0 <= s < w -> wshr w a s = a / 2 ^ s.
Proof. intros Hs. unfold wshr. rewrite Z.mod_small by lia. apply Z.shiftr_div_pow2. lia. Qed.

Section Packing.
Variable fmt : Fmt.t.
Hypothesis Hfmt : fmt_ok fmt.

Abbreviation p := (Fmt.p fmt).
Abbreviation mb := (Fmt.mant_bits fmt).
Abbreviation inf := (inf_mag fmt).

Lemma mb_range : 3 <= mb <= 52.
Proof. unfold Fmt.mant_bits. destruct Hfmt. lia. Qed.

Lemma pow_mb_pos : 0 < 2 ^ mb.
Proof. apply Z.pow_pos_nonneg; pose proof mb_range; lia. Qed.

Lemma pow_p : 2 ^ p = 2 * 2 ^ mb.
Proof.
  unfold Fmt.mant_bits. rewrite <- Z.pow_succ_r by (destruct Hfmt; lia). f_equal. lia.
Qed.

Lemma width_eq : Fmt.width fmt - 1 = Fmt.exp_bits fmt + mb.
Proof. unfold Fmt.width, Fmt.mant_bits. lia. Qed.

Lemma width_pow : 2 ^ (Fmt.width fmt - 1) = 2 ^ Fmt.exp_bits fmt * 2 ^ mb.
Proof. rewrite width_eq. apply Z.pow_add_r; pose proof mb_range; destruct Hfmt; lia. Qed.

Lemma max_field_eq : Fmt.max_field fmt = 2 ^ Fmt.exp_bits fmt - 1.
Proof. unfold Fmt.max_field. rewrite Z.shiftl_1_l. done. Qed.

Lemma eb_pow : 8 <= 2 ^ Fmt.exp_bits fmt <= 2 ^ 11.
Proof.
  destruct Hfmt as [_ H]. change 8 with (2 ^ 3).
  split; apply Z.pow_le_mono_r; lia.
Qed.

Lemma max_field_range : 7 <= Fmt.max_field fmt < 2 ^ Fmt.exp_bits fmt.
Proof. rewrite max_field_eq. pose proof eb_pow. lia. Qed.

Lemma bias_eq : 2 * Fmt.bias fmt = Fmt.max_field fmt - 1.
Proof.
  unfold Fmt.bias. rewrite max_field_eq, Z.shiftl_1_l.
  replace (Fmt.exp_bits fmt) with (Z.succ (Fmt.exp_bits fmt - 1)) at 2 by lia.
  rewrite Z.pow_succ_r by (destruct Hfmt; lia). lia.
Qed.

Lemma pow_width_64 : 2 * 2 ^ (Fmt.width fmt - 1) <= 2 ^ 64.
Proof.
  rewrite <- Z.pow_succ_r by (rewrite width_eq; pose proof mb_range; destruct Hfmt; lia).
  apply Z.pow_le_mono_r; unfold Fmt.width; destruct Hfmt; lia.
Qed.

Lemma inf_range : 0 < inf /\ inf + 2 ^ mb = 2 ^ (Fmt.width fmt - 1).
Proof.
  unfold inf_mag. rewrite width_pow, max_field_eq. pose proof eb_pow. pose proof pow_mb_pos.
  split; nia.
Qed.

Lemma pack_zero_eq sign : Fmt.pack_zero fmt sign = signed_pat fmt sign 0.
Proof.
  unfold Fmt.pack_zero, signed_pat, Fmt.sign_bit. destruct sign; simpl of_bool; [|lia].
  pose proof pow_width_64. pose proof mb_range. pose proof width_eq.
  rewrite wshl_exact; [lia|unfold Fmt.width in *; destruct Hfmt; lia|lia|].
  pose proof (Z.pow_pos_nonneg 2 (Fmt.width fmt - 1)). unfold Fmt.width in *. destruct Hfmt. lia.
Qed.

(** [or] of a sign and a magnitude. *)
Lemma lor_sign sign n :
  fits (Fmt.width fmt - 1) n -> Z.lor (Fmt.pack_zero fmt sign) n = signed_pat fmt sign n.
Proof.
  intros Hn. rewrite pack_zero_eq. unfold signed_pat. rewrite Z.add_0_r. apply lor_join; [|done].
  rewrite width_eq. pose proof mb_range. destruct Hfmt. lia.
Qed.

Lemma field_shift field :
  0 <= field < 2 ^ Fmt.exp_bits fmt -> wshl 64 field mb = field * 2 ^ mb.
Proof.
  intros Hf. pose proof mb_range. apply wshl_exact; [lia|lia|].
  pose proof pow_width_64. rewrite width_pow in *. pose proof pow_mb_pos. nia.
Qed.

Lemma frac_mask_eq : Fmt.frac_mask fmt = Z.ones mb.
Proof.
  unfold Fmt.frac_mask. pose proof mb_range. rewrite wshl_exact; [|lia|lia|].
  - rewrite Z.ones_equiv. lia.
  - rewrite Z.mul_1_l. apply Z.pow_lt_mono_r; lia.
Qed.

Lemma pack_eq sign field frac :
  0 <= field < 2 ^ Fmt.exp_bits fmt ->
  Fmt.pack fmt sign field frac = signed_pat fmt sign (field * 2 ^ mb + frac mod 2 ^ mb).
Proof.
  intros Hf. pose proof pow_mb_pos as Hp. pose proof mb_range. unfold Fmt.pack.
  rewrite field_shift, frac_mask_eq, Z.land_ones by lia.
  pose proof (Z.mod_pos_bound frac _ Hp). rewrite <- Z.lor_assoc, lor_join by (done || lia).
  apply lor_sign. split; [nia|]. rewrite width_pow. nia.
Qed.

Lemma pack_inf_eq sign : Fmt.pack_inf fmt sign = signed_pat fmt sign inf.
Proof.
  pose proof max_field_range. unfold Fmt.pack_inf. rewrite field_shift by lia. apply lor_sign.
  pose proof inf_range. pose proof pow_mb_pos. unfold fits, inf_mag in *. lia.
Qed.

Lemma pack_max_eq sign : Fmt.pack_max fmt sign = signed_pat fmt sign (inf - 1).
Proof.
  pose proof max_field_range. pose proof pow_mb_pos. pose proof mb_range.
  unfold Fmt.pack_max. rewrite field_shift by lia.
  rewrite frac_mask_eq, Z.ones_equiv, <- Z.lor_assoc, lor_join by (unfold fits; lia).
  rewrite lor_sign; [f_equal; unfold inf_mag; lia|].
  pose proof inf_range. unfold fits, inf_mag in *. nia.
Qed.
End Packing.

(** ** Significands and patterns *)

Section Patterns.
Variable fmt : Fmt.t.
Hypothesis Hfmt : fmt_ok fmt.

Abbreviation p := (Fmt.p fmt).
Abbreviation mb := (Fmt.mant_bits fmt).
Abbreviation inf := (inf_mag fmt).
Abbreviation em := (emin fmt).
Abbreviation pt := (pat fmt).
Abbreviation mval := (mag_val fmt).

Lemma mag_val_pat t s :
  em <= t -> 0 <= s <= 2 ^ p -> t = em \/ 2 ^ mb <= s -> mval (pt t s) = (IZR s * bpow t)%R.
Proof.
  intros Ht Hs Hn. pose proof (pow_mb_pos _ Hfmt) as Hp. rewrite (pow_p _ Hfmt) in Hs.
  unfold mag_val, pat.
  destruct (Z.lt_ge_cases s (2 ^ mb)) as [Hlt|Hge].
  { destruct Hn as [->|]; [|lia].
    rewrite Z.sub_diag, Z.mul_0_l, Z.add_0_l, Z.div_small, Z.mod_small by lia. done. }
  destruct (Z.eq_dec s (2 * 2 ^ mb)) as [->|Hne].
  - replace ((t - em) * 2 ^ mb + 2 * 2 ^ mb) with ((t - em + 2) * 2 ^ mb) by ring.
    rewrite Z.div_mul, Z.mod_mul by lia. destruct (Z.eqb_spec (t - em + 2) 0); [lia|].
    replace (em + (t - em + 2) - 1) with (1 + t) by lia.
    rewrite bpow_add, Z.add_0_r, mult_IZR. change (bpow 1) with (2 * 1)%R. ring.
  - replace ((t - em) * 2 ^ mb + s) with (s - 2 ^ mb + (t - em + 1) * 2 ^ mb) by ring.
    rewrite Z.div_add, Z.mod_add, Z.div_small, Z.mod_small by lia.
    destruct (Z.eqb_spec (0 + (t - em + 1)) 0); [lia|].
    replace (2 ^ mb + (s - 2 ^ mb)) with s by ring. do 2 f_equal. lia.
Qed.

Lemma pat_succ t s : pt t (s + 1) = pt t s + 1.
Proof. unfold pat. lia. Qed.

Lemma inf_pat : inf = pt (Fmt.bias fmt - mb + 1) (2 ^ mb).
Proof.
  unfold inf_mag, pat, emin. pose proof (bias_eq _ Hfmt).
  replace (Fmt.max_field fmt) with (2 * Fmt.bias fmt + 1) by lia. ring.
Qed.

Lemma bias_pos : 3 <= Fmt.bias fmt.
Proof. pose proof (bias_eq _ Hfmt). pose proof (max_field_range _ Hfmt). lia. Qed.

Lemma mag_val_inf : mval inf = bpow (Fmt.bias fmt + 1).
Proof.
  rewrite inf_pat, mag_val_pat.
  - pose proof (mb_range _ Hfmt). rewrite <- bpow_nonneg, <- bpow_add by lia. f_equal. lia.
  - unfold emin. pose proof bias_pos. lia.
  - rewrite (pow_p _ Hfmt). pose proof (pow_mb_pos _ Hfmt). lia.
  - by right.
Qed.

(** The magnitudes before infinity. *)
Lemma max_pat : inf - 1 = pt (Fmt.bias fmt - mb) (2 ^ p - 1).
Proof. rewrite inf_pat, (pow_p _ Hfmt). unfold pat. ring. Qed.

Lemma mag_val_max : (mval (inf - 1) < mval inf)%R.
Proof.
  pose proof (pow_p _ Hfmt). pose proof (pow_mb_pos _ Hfmt). pose proof (mb_range _ Hfmt).
  rewrite mag_val_inf, max_pat, mag_val_pat.
  - replace (Fmt.bias fmt + 1) with (p + (Fmt.bias fmt - mb)) by (unfold Fmt.mant_bits; lia).
    rewrite bpow_add, (bpow_nonneg p) by (unfold Fmt.mant_bits in *; lia). rewrite minus_IZR.
    pose proof (bpow_pos (Fmt.bias fmt - mb)). nra.
  - unfold emin. pose proof bias_pos. lia.
  - lia.
  - right. lia.
Qed.
End Patterns.

(** ** Splitting the exact value at the last place *)

(** How the significand [s], the guard bit and the sticky bit describe the
    value [(s + f) * 2 ^ t]. *)
Definition split_of (x : R) (t s guard : Z) (sticky : bool) : Prop :=
  exists f : R, x = ((IZR s + f) * bpow t)%R
    /\ match guard, sticky with
       | 0, false => f = 0%R
       | 0, true => (0 < f < 1 / 2)%R
       | 1, false => f = (1 / 2)%R
       | 1, true => (1 / 2 < f < 1)%R
       | _, _ => False
       end.

(** The residue of a shift, as guard and sticky bits. *)
Lemma split_of_residue (m d : R) (x : R) e r s guard low (sticky : bool) :
  1 <= r -> (x = (m + d) * bpow e)%R ->
  m = IZR (s * 2 ^ r + guard * 2 ^ (r - 1) + low) ->
  0 <= guard <= 1 -> 0 <= low -> (0 <= d)%R -> (IZR low + d < IZR (2 ^ (r - 1)))%R ->
  (sticky = true <-> low <> 0 \/ d <> 0%R) ->
  split_of x (e + r) s guard sticky.
Proof.
  intros Hr -> -> Hg Hl Hd Hlt Hst.
  pose proof (Z.pow_pos_nonneg 2 (r - 1) ltac:(lia) ltac:(lia)) as Hp.
  assert (Hpow : 2 ^ r = 2 * 2 ^ (r - 1)) by (rewrite <- Z.pow_succ_r by lia; f_equal; lia).
  set (h := 2 ^ (r - 1)) in *. clearbody h.
  assert (HR : (0 < IZR h)%R) by (by apply IZR_lt).
  exists ((IZR guard * IZR h + IZR low + d) / (2 * IZR h))%R. split.
  { rewrite bpow_add, (bpow_nonneg r) by lia. rewrite Hpow, !plus_IZR, !mult_IZR. field. lra. }
  assert (Hlow : (0 <= IZR low)%R) by (by apply IZR_le).
  assert (Hf : forall y, (y / (2 * IZR h) * (2 * IZR h) = y)%R) by (intros; field; lra).
  set (q := ((IZR low + d) / (2 * IZR h))%R).
  assert (Hq : (q * (2 * IZR h) = IZR low + d)%R) by apply Hf.
  destruct sticky.
  - assert (0 < IZR low + d)%R.
    { destruct (proj1 Hst eq_refl) as [?|?]; [|lra].
      assert (0 < IZR low)%R by (apply IZR_lt; lia). lra. }
    assert (Hgc : guard = 0 \/ guard = 1) by lia. destruct Hgc as [-> | ->].
    + replace ((0 * IZR h + IZR low + d) / (2 * IZR h))%R with q by (unfold q; field; lra). nra.
    + replace ((1 * IZR h + IZR low + d) / (2 * IZR h))%R with (1 / 2 + q)%R by (unfold q; field; lra).
      nra.
  - assert (low = 0 /\ d = 0%R) as [-> ->].
    { split; [destruct (Z.eq_dec low 0)|destruct (Req_dec d 0)]; try done;
        exfalso; [assert (false = true) by (apply Hst; by left) |
                  assert (false = true) by (apply Hst; by right)]; done. }
    assert (Hgc : guard = 0 \/ guard = 1) by lia. destruct Hgc as [-> | ->]; field; lra.
Qed.

Lemma any_bits_mod w m k :
  0 <= k < w -> any_bits m (wshl w 1 k - 1) = negb (m mod 2 ^ k =? 0).
Proof.
  intros Hk. unfold any_bits. rewrite wshl_exact; [|done|lia|].
  - rewrite Z.mul_1_l. replace (2 ^ k - 1) with (Z.ones k) by (rewrite Z.ones_equiv; lia).
    by rewrite Z.land_ones by lia.
  - rewrite Z.mul_1_l. apply Z.pow_lt_mono_r; lia.
Qed.

Lemma mod_pow_mult m j k : 0 <= j <= k -> m mod 2 ^ j = 0 -> (m mod 2 ^ k) mod 2 ^ j = 0.
Proof.
  intros Hjk Hm. rewrite Z.mod_mod_divide; [done|].
  exists (2 ^ (k - j)). rewrite <- Z.pow_add_r by lia. f_equal. lia.
Qed.

(** A multiple of [2 ^ j] below [2 ^ k] leaves room for a fraction of [2 ^ j]. *)
Lemma room_below low (d : R) j k :
  0 <= j <= k -> low mod 2 ^ j = 0 -> low < 2 ^ k -> (d < IZR (2 ^ j))%R ->
  (IZR low + d < IZR (2 ^ k))%R.
Proof.
  intros Hjk Hm Hl Hd.
  assert (low + 2 ^ j <= 2 ^ k).
  { pose proof (Z.pow_pos_nonneg 2 j ltac:(lia) ltac:(lia)).
    replace (2 ^ k) with (2 ^ (k - j) * 2 ^ j) in *
      by (rewrite <- Z.pow_add_r by lia; f_equal; lia).
    pose proof (Z.div_mod low (2 ^ j) ltac:(lia)) as Hdm. rewrite Hm in Hdm.
    assert (low / 2 ^ j < 2 ^ (k - j)) by (apply (Z.mul_lt_mono_pos_l (2 ^ j)); lia). nia. }
  assert (H' : (IZR (low + 2 ^ j) <= IZR (2 ^ k))%R) by (by apply IZR_le).
  rewrite plus_IZR in H'. lra.
Qed.

(** The bits of [m] at, just below and further below position [r]. *)
Lemma bits_at m r : 1 <= r ->
  m = m / 2 ^ r * 2 ^ r + (m / 2 ^ (r - 1)) mod 2 * 2 ^ (r - 1) + m mod 2 ^ (r - 1).
Proof.
  intros Hr. pose proof (Z.pow_pos_nonneg 2 (r - 1) ltac:(lia) ltac:(lia)).
  assert (Hpow : 2 ^ r = 2 ^ (r - 1) * 2).
  { rewrite Z.mul_comm, <- Z.pow_succ_r by lia. f_equal. lia. }
  pose proof (Z.div_mod m (2 ^ (r - 1)) ltac:(lia)).
  pose proof (Z.div_mod (m / 2 ^ (r - 1)) 2 ltac:(lia)) as H2.
  rewrite Zdiv.Zdiv_Zdiv in H2 by lia. rewrite <- Hpow in H2. nia.
Qed.

Lemma round_split_spec m r lz (d x : R) (sticky_in : bool) e :
  0 < m < 2 ^ 128 -> 1 <= r -> (x = (IZR m + d) * bpow e)%R ->
  (0 <= d < IZR (2 ^ lz))%R -> (sticky_in = true <-> d <> 0%R) ->
  0 <= lz <= 127 -> m mod 2 ^ lz = 0 -> (sticky_in = true -> lz <= r - 1) ->
  let '(s, guard, sticky) := round_split m r sticky_in in
  s = m / 2 ^ r /\ split_of x (e + r) s guard sticky.
Proof.
  intros Hm Hr Hx Hd Hst Hlz Hmult Hlow.
  assert (Hroom : forall low k, low mod 2 ^ lz = 0 -> low < 2 ^ k -> r - 1 <= k ->
            (IZR low + d < IZR (2 ^ k))%R).
  { intros low k H1 H2 H3. destruct sticky_in.
    - apply (room_below low d lz); [|done..|apply Hd]. specialize (Hlow eq_refl). lia.
    - replace d with 0%R; [rewrite Rplus_0_r; by apply IZR_lt|].
      destruct (Req_dec d 0) as [->|Hne]; [done|].
      assert (false = true) by (by apply Hst). done. }
  unfold round_split. destruct (Z.ltb_spec 128 r) as [Hbig|Hsmall].
  - assert (Hm' : m < 2 ^ (r - 1)).
    { pose proof (Z.pow_le_mono_r 2 128 (r - 1)). lia. }
    split; [symmetry; apply Z.div_small; pose proof (Z.pow_le_mono_r 2 (r - 1) r); lia|].
    apply (split_of_residue (IZR m) d x e r 0 0 m); try done; try lia; try lra.
    apply Hroom; [done|done|lia].
  - assert (Hsp : forall s' : bool, s' = sticky_in || negb (m mod 2 ^ (r - 1) =? 0) ->
        split_of x (e + r) (m / 2 ^ r) ((m / 2 ^ (r - 1)) mod 2) s').
    { intros s' ->. pose proof (Z.pow_pos_nonneg 2 (r - 1) ltac:(lia) ltac:(lia)) as Hp.
      pose proof (Z.mod_pos_bound m _ Hp).
      pose proof (Z.mod_pos_bound (m / 2 ^ (r - 1)) 2 ltac:(lia)).
      apply (split_of_residue (IZR m) d x e r _ _ (m mod 2 ^ (r - 1))); try done; try lia; try lra.
      + apply (f_equal IZR), bits_at. lia.
      + destruct (Z.le_gt_cases lz (r - 1)).
        * apply Hroom; [apply mod_pow_mult; [lia|done]|lia|lia].
        * destruct sticky_in; [specialize (Hlow eq_refl); lia|].
          destruct (Req_dec d 0) as [->|Hne].
          { rewrite Rplus_0_r. apply IZR_lt. lia. }
          assert (false = true) by (by apply Hst). done.
      + rewrite orb_true_iff, Hst. destruct (Z.eqb_spec (m mod 2 ^ (r - 1)) 0); simpl; intuition discriminate. }
    change 1 with (Z.ones 1). rewrite !Z.land_ones by lia. change (2 ^ 1) with 2.
    change (Z.ones 1) with 1.
    destruct (Z.eqb_spec r 128) as [->|Hne].
    + split; [symmetry; apply Z.div_small; lia|].
      rewrite wshr_div, any_bits_mod by lia.
      pose proof (Hsp _ eq_refl) as H. change (128 - 1) with 127 in H.
      by rewrite (Z.div_small m (2 ^ 128)) in H by lia.
    + rewrite !wshr_div, any_bits_mod by lia. by split; [|apply Hsp].
Qed.

(** ** The choice between the neighbours *)

Lemma split_guard x t s guard sticky : split_of x t s guard sticky -> guard = 0 \/ guard = 1.
Proof. intros (f & _ & H). destruct guard as [|[]|]; auto; destruct sticky; done. Qed.

(** The fraction is zero exactly when neither bit is set. *)
Lemma split_exact x t s guard sticky :
  split_of x t s guard sticky ->
  negb (guard =? 0) || sticky = false <-> x = (IZR s * bpow t)%R.
Proof.
  intros Hs. pose proof (bpow_pos t) as Hu.
  destruct (split_guard _ _ _ _ _ Hs) as [-> | ->]; destruct sticky, Hs as (f & -> & Hf);
    simpl; split; intros H; try done; nra.
Qed.

Lemma selects_increment fmt mode sign x t s guard sticky lo :
  split_of x t s guard sticky -> mag_val fmt lo = (IZR s * bpow t)%R ->
  mag_val fmt (lo + 1) = (IZR (s + 1) * bpow t)%R -> Z.even lo = Z.even s ->
  let inexact := negb (guard =? 0) || sticky in
  let inc := round_increment mode sign inexact guard s sticky in
  inexact = true -> selects fmt mode sign x lo (if inc then lo + 1 else lo).
Proof.
  intros Hs Hlo Hhi Hev inexact inc Hin. pose proof (bpow_pos t) as Hu.
  unfold selects, inc, round_increment. rewrite Hin, Hlo, Hhi, plus_IZR.
  assert (Hodd : Z.land s 1 = 0 <-> Z.even s = true).
  { rewrite Zeven_mod, Z.eqb_eq. change 1 with (Z.ones 1). by rewrite Z.land_ones by lia. }
  destruct (split_guard _ _ _ _ _ Hs) as [-> | ->]; destruct sticky, Hs as (f & -> & Hf);
    try (unfold inexact in Hin; done); destruct mode, sign; simpl; auto; try (left; split; [nra|done]);
    try (right; split; [nra|done]); try (right; left; split; [nra|done]).
  all: right; right; split; [rewrite Hf; field|]; rewrite Hev;
    destruct (Z.eqb_spec (Z.land s 1) 0), (Z.even s);
    (done || exfalso; intuition discriminate).
Qed.

(** ** Packing the rounded significand *)

Section Finish.
Variable fmt : Fmt.t.
Hypothesis Hfmt : fmt_ok fmt.

Abbreviation p := (Fmt.p fmt).
Abbreviation mb := (Fmt.mant_bits fmt).
Abbreviation inf := (inf_mag fmt).
Abbreviation em := (emin fmt).
Abbreviation pt := (pat fmt).

(** The biased exponent and the significand that [round_pack] works with. *)
Definition placed (t biased s : Z) : Prop :=
  (biased = 0 /\ t = em /\ 0 <= s <= 2 ^ mb)
  \/ (biased = t - em + 1 /\ em <= t /\ 2 ^ mb <= s <= 2 ^ p).

Lemma pow_p_64 : 2 ^ p < 2 ^ 64.
Proof. apply Z.pow_lt_mono_r; destruct Hfmt; lia. Qed.

Lemma normal_field t s :
  2 ^ mb <= s < 2 ^ p -> pt t s = (t - em + 1) * 2 ^ mb + s mod 2 ^ mb.
Proof.
  intros Hs. rewrite (pow_p _ Hfmt) in Hs. pose proof (pow_mb_pos _ Hfmt).
  unfold pat. replace (s mod 2 ^ mb) with (s - 2 ^ mb); [ring|].
  replace s with (s - 2 ^ mb + 1 * 2 ^ mb) at 2 by ring.
  rewrite Z.mod_add, Z.mod_small by lia. done.
Qed.

Lemma field_below b f : 0 <= f < 2 ^ mb -> b * 2 ^ mb + f < inf <-> b < Fmt.max_field fmt.
Proof. intros Hf. unfold inf_mag. split; intros; nia. Qed.

Lemma round_finish_spec sign inexact t biased s mode flags :
  placed t biased s ->
  round_finish fmt sign inexact biased s mode flags
  = if pt t s <? inf
    then (signed_pat fmt sign (pt t s), raise_if (inexact && (pt t s <? 2 ^ mb)) fflags.UF flags)
    else (overflow_value fmt sign mode, Z.lor flags (Z.lor fflags.OF fflags.NX)).
Proof.
  intros Hpl. pose proof (pow_mb_pos _ Hfmt) as Hp. pose proof (pow_p _ Hfmt) as Hpp.
  pose proof (mb_range _ Hfmt). pose proof (max_field_range _ Hfmt). pose proof pow_p_64.
  unfold round_finish. destruct Hpl as [(-> & -> & Hs)|(-> & Ht & Hs)].
  - simpl (0 =? 0). cbv iota. rewrite wshr_div by lia.
    assert (Hpat : pt em s = s) by (unfold pat; lia). rewrite Hpat.
    assert (s < inf) by (unfold inf_mag; nia).
    destruct (Z.ltb_spec s inf); [|lia]. destruct (Z.eq_dec s (2 ^ mb)) as [->|Hne].
    + rewrite Z.div_same, Z.ltb_irrefl, andb_false_r, pack_eq by (done || lia).
      rewrite Z.mod_0_l by lia. simpl. do 2 f_equal. lia.
    + rewrite Z.div_small by lia. simpl. rewrite pack_eq, Z.mod_small by (done || lia).
      destruct (Z.ltb_spec s (2 ^ mb)); [|lia]. by rewrite andb_true_r.
  - destruct (Z.eqb_spec (t - em + 1) 0); [lia|]. rewrite wshr_div by (destruct Hfmt; lia).
    destruct (Z.eq_dec s (2 ^ p)) as [->|Hne].
    + rewrite Z.div_same by lia. simpl. rewrite wshr_div by lia.
      rewrite Hpp, Z.mul_comm, Z.div_mul by lia.
      assert (Hpat : pt t (2 ^ mb * 2) = (t - em + 1 + 1) * 2 ^ mb + 0)
        by (unfold pat; ring).
      rewrite Hpat. pose proof (field_below (t - em + 1 + 1) 0) as Hfb.
      destruct (Z.leb_spec (Fmt.max_field fmt) (t - em + 1 + 1)),
        (Z.ltb_spec ((t - em + 1 + 1) * 2 ^ mb + 0) inf); try lia; [done|].
      destruct (Z.ltb_spec ((t - em + 1 + 1) * 2 ^ mb + 0) (2 ^ mb)); [nia|].
      rewrite andb_false_r, pack_eq, frac_mask_eq, !Z.land_ones by (done || lia).
      by rewrite Z.mod_same, Z.mod_0_l by lia.
    + rewrite Z.div_small by lia. simpl. rewrite normal_field by lia.
      pose proof (Z.mod_pos_bound s _ Hp) as Hm. pose proof (field_below (t - em + 1) _ Hm) as Hfb.
      destruct (Z.leb_spec (Fmt.max_field fmt) (t - em + 1)),
        (Z.ltb_spec ((t - em + 1) * 2 ^ mb + s mod 2 ^ mb) inf); try lia; [done|].
      destruct (Z.ltb_spec ((t - em + 1) * 2 ^ mb + s mod 2 ^ mb) (2 ^ mb)); [nia|].
      rewrite andb_false_r, pack_eq, frac_mask_eq, !Z.land_ones by (done || lia).
      by rewrite Z.mod_mod by lia.
Qed.

(** ** Values around the rounding position *)

(** The value lies in the unit that starts at significand [s]. *)
Lemma split_bounds x t s guard sticky :
  split_of x t s guard sticky -> (IZR s * bpow t <= x < IZR (s + 1) * bpow t)%R.
Proof.
  intros Hs. pose proof (bpow_pos t) as Hu. rewrite plus_IZR.
  destruct (split_guard _ _ _ _ _ Hs) as [-> | ->]; destruct sticky, Hs as (f & -> & Hf); nra.
Qed.

(** A significand before its binade is full, and whether it is below infinity. *)
Definition open_place (t s : Z) : Prop :=
  (t = em /\ 0 <= s < 2 ^ mb) \/ (em <= t /\ 2 ^ mb <= s < 2 ^ p).

Lemma open_val t s :
  open_place t s ->
  mag_val fmt (pt t s) = (IZR s * bpow t)%R
  /\ mag_val fmt (pt t s + 1) = (IZR (s + 1) * bpow t)%R.
Proof.
  intros Ho. pose proof (pow_p _ Hfmt). pose proof (pow_mb_pos _ Hfmt).
  rewrite <- pat_succ. unfold open_place in Ho. split; apply mag_val_pat; (done || lia).
Qed.

Lemma open_inf t s : open_place t s -> pt t s < inf <-> t <= Fmt.bias fmt - mb.
Proof.
  intros Ho. pose proof (pow_p _ Hfmt). pose proof (pow_mb_pos _ Hfmt).
  pose proof (bias_pos _ Hfmt). rewrite inf_pat by done. unfold pat, open_place, emin in *.
  split; intros; nia.
Qed.

Lemma open_even t s : Z.even (pt t s) = Z.even s.
Proof.
  unfold pat. rewrite Z.even_add, Z.even_mul, (Z.even_pow 2) by (pose proof (mb_range _ Hfmt); lia).
  rewrite orb_true_r. by destruct (Z.even s).
Qed.

(** Below infinity the next value is at most the overflow threshold. *)
Lemma open_next t s :
  open_place t s -> pt t s < inf -> (IZR (s + 1) * bpow t <= mag_val fmt inf)%R.
Proof.
  intros Ho Hlt. apply open_inf in Hlt; [|done]. rewrite mag_val_inf by done.
  pose proof (pow_p _ Hfmt). pose proof (pow_mb_pos _ Hfmt).
  apply Rle_trans with (bpow (p + t)).
  - rewrite bpow_add, (bpow_nonneg p) by (destruct Hfmt; lia). apply Rmult_le_compat_r.
    + apply Rlt_le, bpow_pos.
    + apply IZR_le. unfold open_place in Ho. lia.
  - apply bpow_le. unfold Fmt.mant_bits in Hlt. lia.
Qed.

(** From infinity on the value is at least the overflow threshold. *)
Lemma open_over t s :
  open_place t s -> inf <= pt t s -> (mag_val fmt inf <= IZR s * bpow t)%R.
Proof.
  intros Ho Hge. pose proof (open_inf _ _ Ho) as Hi. pose proof (bias_pos _ Hfmt).
  pose proof (mb_range _ Hfmt). rewrite mag_val_inf by done.
  destruct Ho as [[-> Hs]|[Ht Hs]]; [assert (em <= Fmt.bias fmt - mb) by (unfold emin; lia); lia|].
  replace (Fmt.bias fmt + 1) with (mb + (Fmt.bias fmt - mb + 1)) by lia.
  rewrite bpow_add, (bpow_nonneg mb) by lia.
  apply Rmult_le_compat; [apply IZR_le; lia|apply Rlt_le, bpow_pos|apply IZR_le; lia|].
  apply bpow_le. lia.
Qed.

Lemma overflow_increment mode sign inexact guard s sticky :
  round_increment mode sign inexact guard s sticky = true ->
  overflow_value fmt sign mode = signed_pat fmt sign inf.
Proof. rewrite <- pack_inf_eq by done. by destruct mode, sign. Qed.

(** The magnitude of [overflow_value]. *)
Definition over_mag (mode : RoundingMode) (sign : bool) : Z :=
  match mode, sign with Rtz, _ | Rdn, false | Rup, true => inf - 1 | _, _ => inf end.

Lemma overflow_value_eq sign mode :
  overflow_value fmt sign mode = signed_pat fmt sign (over_mag mode sign).
Proof.
  unfold overflow_value, over_mag.
  destruct mode, sign; rewrite ?pack_inf_eq, ?pack_max_eq by done; done.
Qed.

Lemma selects_over mode sign x :
  (mag_val fmt inf <= x)%R -> selects fmt mode sign x (inf - 1) (over_mag mode sign).
Proof.
  intros Hx. pose proof (mag_val_max _ Hfmt). unfold selects, over_mag.
  replace (inf - 1 + 1) with inf by lia.
  destruct mode, sign; try done; right; try left; split; (done || lra).
Qed.

(** ** From the split to the rounded result *)

Lemma flags_overflow nx flags :
  Z.lor (raise_if nx fflags.NX flags) (Z.lor fflags.OF fflags.NX)
  = raise_if true fflags.OF (raise_if true fflags.NX flags).
Proof.
  unfold raise_if. apply Z.bits_inj'. intros k _. destruct nx; rewrite !Z.lor_spec; btauto.
Qed.

(** No overflow: the result is the selected neighbour. *)
Lemma rounded_in_range mode sign x t s guard sticky flags :
  let inexact := negb (guard =? 0) || sticky in
  let s' := if round_increment mode sign inexact guard s sticky then s + 1 else s in
  open_place t s -> split_of x t s guard sticky -> pt t s' < inf ->
  correctly_rounded fmt mode sign x flags
    (signed_pat fmt sign (pt t s'),
     raise_if (inexact && (pt t s' <? 2 ^ mb)) fflags.UF (raise_if inexact fflags.NX flags)).
Proof.
  intros inexact s' Ho Hs Hlt. destruct (open_val _ _ Ho) as [Hlo Hhi].
  pose proof (split_bounds _ _ _ _ _ Hs) as Hb. pose proof (split_exact _ _ _ _ _ Hs) as Hex.
  fold inexact in Hex. assert (Hs' : s' = s \/ s' = s + 1) by (unfold s'; destruct round_increment; auto).
  assert (Hpos : 0 <= pt t s).
  { pose proof (pow_mb_pos _ Hfmt). destruct Ho as [[-> ?]|[? ?]]; unfold pat; nia. }
  assert (Hbelow : below fmt x (pt t s)).
  { split; [destruct Hs' as [E | E]; rewrite E, ?pat_succ in Hlt; lia|].
    rewrite Hlo, Hhi. split; [|intros _]; apply Hb. }
  assert (Hno : ~ overflows fmt x (pt t s')).
  { intros [?|Hge]; [lia|]. pose proof (open_next t s Ho).
    assert (pt t s < inf) by (destruct Hs' as [E | E]; rewrite E, ?pat_succ in Hlt; lia).
    lra || (specialize (H ltac:(done)); lra). }
  destruct inexact eqn:Hin.
  - assert (Hne : x <> (IZR s * bpow t)%R) by (intros E; apply Hex in E; congruence).
    assert (Hsel : selects fmt mode sign x (pt t s) (pt t s')).
    { pose proof (selects_increment fmt mode sign x t s guard sticky (pt t s) Hs Hlo Hhi
                    (open_even t s)) as H. cbv zeta in H.
      fold inexact in H. rewrite Hin in H. specialize (H eq_refl).
      unfold s'. destruct round_increment; [by rewrite pat_succ|done]. }
    assert (Hv : x <> mag_val fmt (pt t s')).
    { destruct Hs' as [-> | ->]; rewrite ?pat_succ, ?Hlo, ?Hhi; [done|lra]. }
    exists (pt t s'). split; [exists (pt t s); split; [done|]; right; rewrite Hlo; split; [lra|done]|].
    split; [done|]. exists true, false, (pt t s' <? 2 ^ mb). rewrite Z.ltb_lt. simpl.
    repeat split; try done; intuition.
  - assert (Hx : x = (IZR s * bpow t)%R) by (by apply Hex).
    assert (s' = s) as ->.
    { unfold s'. unfold inexact in Hin. rewrite orb_false_iff, negb_false_iff in Hin. destruct Hin as [Hg ->].
      unfold round_increment. rewrite Hg. by destruct mode, sign. }
    exists (pt t s). split; [exists (pt t s); split; [done|]; left; by rewrite Hlo|].
    split; [done|]. exists false, false, false. rewrite Hlo. simpl.
    repeat split; try done; intuition.
Qed.

(** Overflow. *)
Lemma rounded_over mode sign x t s guard sticky flags :
  let inexact := negb (guard =? 0) || sticky in
  let s' := if round_increment mode sign inexact guard s sticky then s + 1 else s in
  open_place t s -> split_of x t s guard sticky -> inf <= pt t s' ->
  correctly_rounded fmt mode sign x flags
    (overflow_value fmt sign mode,
     Z.lor (raise_if inexact fflags.NX flags) (Z.lor fflags.OF fflags.NX)).
Proof.
  intros inexact s' Ho Hs Hge. destruct (open_val _ _ Ho) as [Hlo Hhi].
  pose proof (split_bounds _ _ _ _ _ Hs) as Hb. pose proof (mag_val_max _ Hfmt) as Hmax.
  pose proof (pow_mb_pos _ Hfmt). pose proof (max_field_range _ Hfmt).
  assert (Hbig : 2 ^ mb <= inf - 1) by (unfold inf_mag; nia).
  rewrite flags_overflow. destruct (Z.lt_ge_cases (pt t s) inf) as [Hlt|Hov].
  - assert (Hinc : round_increment mode sign inexact guard s sticky = true).
    { unfold s' in Hge. destruct round_increment; [done|lia]. }
    unfold s' in Hge. rewrite Hinc, pat_succ in Hge. assert (Hpt : pt t s = inf - 1) by lia.
    rewrite Hpt in Hlo, Hhi. replace (inf - 1 + 1) with inf in Hhi by lia.
    assert (Hin : inexact = true).
    { destruct inexact eqn:Hin; [done|]. exfalso. unfold inexact in Hin.
      rewrite orb_false_iff, negb_false_iff in Hin. destruct Hin as [Hg ->].
      unfold round_increment in Hinc. rewrite Hg in Hinc. by destruct mode, sign. }
    exists inf. split; [|split; [by apply (overflow_increment mode sign inexact guard s sticky)|]].
    + exists (inf - 1). split; [|right; split].
      * split; [lia|]. rewrite Hlo. split; [apply Hb|lia].
      * rewrite Hlo. destruct (Rle_lt_or_eq_dec _ _ (proj1 Hb)) as [|E]; [done|]. exfalso.
        assert (inexact = false) by (by apply (split_exact _ _ _ _ _ Hs)). congruence.
      * pose proof (selects_increment fmt mode sign x t s guard sticky (inf - 1) Hs Hlo) as Hsel.
        replace (inf - 1 + 1) with inf in Hsel by lia. rewrite <- Hpt, open_even in Hsel.
        specialize (Hsel Hhi eq_refl Hin). fold inexact in Hsel. rewrite Hinc in Hsel.
        by rewrite <- Hpt.
    + exists true, true, false. repeat split; try done; [by right; left|by left|lia].
  - pose proof (open_over _ _ Ho Hov) as Hx. assert (Hx' : (mag_val fmt inf <= x)%R) by lra.
    exists (over_mag mode sign). split; [|split; [apply overflow_value_eq|]].
    + exists (inf - 1). split; [|right; split; [lra|by apply selects_over]].
      split; [lia|]. split; [lra|lia].
    + exists true, true, false. repeat split; try done; [by right; right|by right|].
      intros [_ Hlt]. unfold over_mag in Hlt. destruct mode, sign; lia.
Qed.

Lemma rounded mode sign x t s guard sticky flags biased :
  let inexact := negb (guard =? 0) || sticky in
  let s' := if round_increment mode sign inexact guard s sticky then s + 1 else s in
  open_place t s -> biased = (if s <? 2 ^ mb then 0 else t - em + 1) ->
  split_of x t s guard sticky ->
  correctly_rounded fmt mode sign x flags
    (round_finish fmt sign inexact biased s' mode (raise_if inexact fflags.NX flags)).
Proof.
  intros inexact s' Ho Hbi Hs.
  assert (Hpl : placed t biased s').
  { pose proof (pow_p _ Hfmt). subst biased. unfold s'.
    destruct Ho as [[-> ?]|[? ?]]; [left|right]; destruct (Z.ltb_spec s (2 ^ mb));
      destruct round_increment; lia. }
  rewrite (round_finish_spec _ _ _ _ _ _ _ Hpl). destruct (Z.ltb_spec (pt t s') inf).
  - by apply rounded_in_range.
  - by apply (rounded_over mode sign x t s guard sticky).
Qed.

(** ** The rounding routine *)

Lemma log2_bounds m : 0 < m -> 2 ^ Z.log2 m <= m < 2 * 2 ^ Z.log2 m.
Proof.
  intros Hm. pose proof (Z.log2_spec m Hm) as [H1 H2].
  rewrite Z.pow_succ_r in H2 by apply Z.log2_nonneg. lia.
Qed.

(** The magnitude shifted so that its leading bit is bit 127. *)
Lemma normalize mag :
  0 < mag < 2 ^ 128 ->
  let lz := leading_zeros 128 mag in
  lz = 127 - Z.log2 mag /\ 0 <= lz <= 127
  /\ wshl 128 mag lz = mag * 2 ^ lz /\ 2 ^ 127 <= mag * 2 ^ lz < 2 ^ 128.
Proof.
  intros Hm lz. assert (Hlz : lz = 127 - Z.log2 mag).
  { unfold lz, leading_zeros. destruct (Z.eqb_spec mag 0); lia. }
  pose proof (Z.log2_nonneg mag). pose proof (log2_bounds mag ltac:(lia)) as Hb.
  assert (Z.log2 mag < 128) by (apply Z.log2_lt_pow2; lia).
  assert (Hpow : 2 ^ Z.log2 mag * 2 ^ lz = 2 ^ 127) by (rewrite <- Z.pow_add_r by lia; f_equal; lia).
  pose proof (Z.pow_pos_nonneg 2 lz ltac:(lia) ltac:(lia)).
  assert (2 ^ 127 <= mag * 2 ^ lz < 2 ^ 128) by (change (2 ^ 128) with (2 * 2 ^ 127); nia).
  split; [done|]. split; [lia|]. split; [|done]. apply wshl_exact; lia.
Qed.

(** The significand taken from the normalized magnitude. *)
Lemma top_bits m r :
  2 ^ 127 <= m < 2 ^ 128 -> 128 - p <= r ->
  (r = 128 - p -> 2 ^ mb <= m / 2 ^ r < 2 ^ p) /\ (128 - p < r -> 0 <= m / 2 ^ r < 2 ^ mb).
Proof.
  intros Hm Hr. destruct Hfmt as [Hp _].
  pose proof (Z.pow_pos_nonneg 2 r ltac:(lia) ltac:(lia)) as Hpos. split; intros Hc.
  - assert (E1 : 2 ^ mb * 2 ^ r = 2 ^ 127).
    { unfold Fmt.mant_bits. rewrite <- Z.pow_add_r by lia. f_equal. lia. }
    assert (E2 : 2 ^ p * 2 ^ r = 2 ^ 128) by (rewrite <- Z.pow_add_r by lia; f_equal; lia).
    split; [apply Z.div_le_lower_bound; lia|apply Z.div_lt_upper_bound; lia].
  - split; [apply Z.div_pos; lia|]. apply Z.div_lt_upper_bound; [done|].
    apply Z.lt_le_trans with (2 ^ 128); [lia|]. unfold Fmt.mant_bits.
    rewrite <- Z.pow_add_r by lia. apply Z.pow_le_mono_r; lia.
Qed.

(** Where the significand of a normalized magnitude [m * 2 ^ (e - 127)] is cut. *)
Lemma placement m e :
  2 ^ 127 <= m < 2 ^ 128 ->
  let t := Z.max (e - mb) em in
  let r := t - (e - 127) in
  let s := m / 2 ^ r in
  (if e + Fmt.bias fmt <? 1 then (128 - p + (1 - (e + Fmt.bias fmt)), 0)
   else (128 - p, e + Fmt.bias fmt)) = (r, if s <? 2 ^ mb then 0 else t - em + 1)
  /\ 128 - p <= r /\ open_place t s.
Proof.
  intros HM t r s. pose proof (pow_mb_pos _ Hfmt).
  assert (Hr : r = 128 - p + Z.max 0 (1 - (e + Fmt.bias fmt)))
    by (unfold r, t, emin, Fmt.mant_bits; lia).
  assert (Hr' : 128 - p <= r) by lia.
  destruct (top_bits m r HM Hr') as [Hn Hsub]. fold s in Hn, Hsub. clearbody s.
  unfold open_place. destruct (Z.ltb_spec (e + Fmt.bias fmt) 1).
  - specialize (Hsub ltac:(lia)). assert (t = em) by (unfold t, emin; lia).
    destruct (Z.ltb_spec s (2 ^ mb)); [|lia]. split; [f_equal; lia|]. split; [done|]. by left.
  - specialize (Hn ltac:(lia)). assert (t = e - mb) by (unfold t, emin; lia).
    destruct (Z.ltb_spec s (2 ^ mb)); [lia|].
    split; [f_equal; [lia|unfold emin; lia]|]. split; [done|]. right. split; [unfold t; lia|done].
Qed.

(** What a value in [[mag, mag + 1) * 2 ^ exp] exceeds the normalized magnitude by. *)
Lemma residual mag exp lz x :
  0 <= lz -> (IZR mag * bpow exp <= x < IZR (mag + 1) * bpow exp)%R ->
  exists d : R, (x = (IZR (mag * 2 ^ lz) + d) * bpow (exp - lz))%R
    /\ (0 <= d < IZR (2 ^ lz))%R /\ (d = 0%R <-> x = (IZR mag * bpow exp)%R).
Proof.
  intros Hlz Hx. pose proof (bpow_pos (exp - lz)) as Hu. rewrite mult_IZR.
  assert (Exp : bpow exp = (IZR (2 ^ lz) * bpow (exp - lz))%R).
  { rewrite (bpow_split (exp - lz) exp) by lia. do 3 f_equal. lia. }
  rewrite Exp, plus_IZR in Hx. rewrite Exp.
  exists (x * / bpow (exp - lz) - IZR mag * IZR (2 ^ lz))%R.
  set (d := (x * / bpow (exp - lz) - IZR mag * IZR (2 ^ lz))%R).
  assert (Hxd : x = ((IZR mag * IZR (2 ^ lz) + d) * bpow (exp - lz))%R) by (unfold d; field; lra).
  clearbody d. clear Exp Hlz. split; [done|]. split; [split; nra|]. split; intros; nra.
Qed.

Lemma round_pack_correct sign mag exp (sticky : bool) mode flags x :
  0 < mag < 2 ^ 128 ->
  (IZR mag * bpow exp <= x < IZR (mag + 1) * bpow exp)%R ->
  (sticky = false <-> x = (IZR mag * bpow exp)%R) -> (sticky = true -> 2 ^ p <= mag) ->
  correctly_rounded fmt mode sign x flags (round_pack fmt sign mag exp sticky mode flags).
Proof.
  intros Hm Hx Hst Hbig. unfold round_pack. destruct (Z.eqb_spec mag 0); [lia|].
  destruct (normalize mag Hm) as (Elz & Hlz & -> & HM). set (lz := leading_zeros 128 mag) in *.
  destruct (residual mag exp lz x ltac:(lia) Hx) as (d & Hxd & Hd & Hd0).
  pose proof (Z.pow_pos_nonneg 2 lz ltac:(lia) ltac:(lia)) as Hp2.
  pose proof (Z.mod_mul mag (2 ^ lz) ltac:(lia)) as Hmult.
  set (m := mag * 2 ^ lz) in *. set (e := 127 + (exp - lz)) in *.
  destruct (placement m e HM) as (-> & Hr & Ho).
  set (t := Z.max (e - mb) em) in *. set (r := t - (e - 127)) in *.
  assert (Hlow : sticky = true -> lz <= r - 1).
  { intros Hs. specialize (Hbig Hs). destruct Hfmt as [? _].
    apply Z.log2_le_pow2 in Hbig; lia. }
  assert (Hst' : sticky = true <-> d <> 0%R) by (rewrite Hd0, <- Hst; by destruct sticky).
  assert (Hr1 : 1 <= r) by (destruct Hfmt; lia).
  pose proof (round_split_spec m r lz d x sticky (exp - lz) ltac:(lia) Hr1 Hxd Hd Hst' Hlz
                Hmult Hlow) as Hsp.
  destruct (round_split m r sticky) as [[s guard] st]. destruct Hsp as [-> Hsp].
  replace (exp - lz + r) with t in Hsp by (unfold r, e; lia).
  assert (H64 : fits 64 (m / 2 ^ r) /\ fits 64 (m / 2 ^ r + 1)).
  { pose proof pow_p_64. pose proof (pow_p _ Hfmt). pose proof (pow_mb_pos _ Hfmt).
    unfold fits. destruct Ho as [[_ ?]|[_ ?]]; lia. }
  destruct H64 as [H64 H64']. unfold wadd. rewrite (as_u_small 64 (m / 2 ^ r)) by done.
  rewrite as_u_small by done. by apply (rounded mode sign x t (m / 2 ^ r) guard st).
Qed.
End Finish.
