(* ===== verification/RvFloatSpec.v ===== *)
(** * Soft-float arithmetic against the real numbers

    The reading of a bit pattern as an IEEE-754 datum, and the proofs that the
    soft-float operations of src/isa/riscv/float.rs return the correctly
    rounded result of the exact operation on the reals, with the right flags,
    and the prescribed results for zeros, infinities and NaNs. *)

From Stdlib Require Import Reals Lra.
From S2P Require Import Prelude RvFloat RvHostFloat RvRound.

(** ** Data *)

(** An IEEE-754 datum; the value of a finite nonzero one is positive and its
    sign is separate. *)
Inductive datum : Type :=
  | Zero (sign : bool)
  | Inf (sign : bool)
  | NaN (signaling : bool)
  | Finite (sign : bool) (x : R).

Definition datum_sign (d : datum) : bool :=
  match d with Zero s | Inf s | Finite s _ => s | NaN _ => false end.
Definition is_signaling (d : datum) : bool := match d with NaN s => s | _ => false end.

(** The datum a bit pattern encodes. *)
Definition interp (fmt : Fmt.t) (bits : Z) : datum :=
  let sign := Z.testbit bits (Fmt.width fmt - 1) in
  let n := bits mod 2 ^ (Fmt.width fmt - 1) in
  if inf_mag fmt <? n then NaN (negb (Z.testbit bits (Fmt.mant_bits fmt - 1)))
  else if n =? inf_mag fmt then Inf sign
  else if n =? 0 then Zero sign
  else Finite sign (mag_val fmt n).

(** The canonical quiet NaN and the signed infinities and zeros. *)
Definition qnan (fmt : Fmt.t) : Z := inf_mag fmt + 2 ^ (Fmt.mant_bits fmt - 1).
Definition inf_pat_of (fmt : Fmt.t) (sign : bool) : Z := signed_pat fmt sign (inf_mag fmt).
Definition zero_of (fmt : Fmt.t) (sign : bool) : Z := signed_pat fmt sign 0.

(** The real number of a sign and a magnitude. *)
Definition signed (sign : bool) (x : R) : R := if sign then (- x)%R else x.

(** ** Decomposition *)

Lemma land_1_testbit a k : 0 <= k -> negb (Z.land (Z.shiftr a k) 1 =? 0) = Z.testbit a k.
Proof.
  intros Hk. rewrite (Z.land_ones _ 1 ltac:(lia)), <- Z.bit0_mod, Z.shiftr_spec by lia.
  rewrite Z.add_0_l. by destruct (Z.testbit a k).
Qed.

Section Decompose.
Variable fmt : Fmt.t.
Hypothesis Hfmt : fmt_ok fmt.

Abbreviation p := (Fmt.p fmt).
Abbreviation mb := (Fmt.mant_bits fmt).
Abbreviation w1 := (Fmt.width fmt - 1).

Lemma w1_range : 0 <= w1 < 64.
Proof. unfold Fmt.width. destruct Hfmt. lia. Qed.

Lemma canon_eq : Fmt.canon fmt = qnan fmt.
Proof.
  pose proof (mb_range _ Hfmt). pose proof (max_field_range _ Hfmt).
  pose proof (pow_mb_pos _ Hfmt). unfold Fmt.canon, qnan, inf_mag.
  assert (2 ^ (mb - 1) < 2 ^ mb) by (apply Z.pow_lt_mono_r; lia).
  rewrite field_shift by (done || lia). rewrite wshl_exact, Z.mul_1_l; [|lia|lia|].
  - apply lor_join; [lia|]. split; [apply Z.pow_nonneg; lia|done].
  - rewrite Z.mul_1_l. apply Z.pow_lt_mono_r; lia.
Qed.

(** Sign, exponent field and fraction of a pattern. *)
Lemma pattern_fields bits :
  fits (Fmt.width fmt) bits ->
  let n := bits mod 2 ^ w1 in
  negb (Z.land (wshr 64 bits w1) 1 =? 0) = Z.testbit bits w1
  /\ as_u32 (Z.land (wshr 64 bits mb) (Fmt.max_field fmt)) = n / 2 ^ mb
  /\ Z.land bits (Fmt.frac_mask fmt) = n mod 2 ^ mb
  /\ 0 <= n < 2 ^ w1 /\ n / 2 ^ mb <= Fmt.max_field fmt.
Proof.
  intros Hb n. pose proof w1_range. pose proof (mb_range _ Hfmt). pose proof (pow_mb_pos _ Hfmt).
  pose proof (eb_pow _ Hfmt). pose proof (max_field_eq fmt) as Hmf.
  assert (Hn : 0 <= n < 2 ^ w1) by (apply Z.mod_pos_bound, Z.pow_pos_nonneg; lia).
  assert (Hw : 2 ^ w1 = 2 ^ mb * 2 ^ Fmt.exp_bits fmt) by (rewrite width_pow by done; ring).
  assert (Hq : n / 2 ^ mb < 2 ^ Fmt.exp_bits fmt) by (apply Z.div_lt_upper_bound; lia).
  pose proof (Z.div_pos n (2 ^ mb) ltac:(lia) ltac:(lia)).
  split; [|split; [|split; [|split; [done|lia]]]].
  - unfold wshr. rewrite Z.mod_small by lia. apply land_1_testbit. lia.
  - rewrite wshr_div by lia. rewrite Hmf.
    replace (2 ^ Fmt.exp_bits fmt - 1) with (Z.ones (Fmt.exp_bits fmt))
      by (rewrite Z.ones_equiv; lia).
    rewrite Z.land_ones by (destruct Hfmt; lia).
    unfold n. rewrite Hw, Z.rem_mul_r by lia.
    pose proof (Z.mod_pos_bound bits (2 ^ mb) ltac:(lia)).
    rewrite (Z.mul_comm (2 ^ mb)), Z.div_add, (Z.div_small (bits mod _)), Z.add_0_l by lia.
    apply as_u_small. pose proof (Z.mod_pos_bound (bits / 2 ^ mb) (2 ^ Fmt.exp_bits fmt)).
    unfold fits. change (2 ^ 11) with 2048 in *. change (2 ^ 32) with 4294967296. lia.
  - rewrite frac_mask_eq, Z.land_ones by (done || lia). unfold n. rewrite Z.mod_mod_divide; [done|].
    rewrite Hw. exists (2 ^ Fmt.exp_bits fmt). ring.
Qed.

(** A decomposed operand and the datum it stands for. *)
Definition decoded (d : Dec) (v : datum) : Prop :=
  match d with
  | DZero s => v = Zero s
  | DInf s => v = Inf s
  | DNan g => v = NaN g
  | DFinite s m e =>
      v = Finite s (IZR m * bpow e) /\ 0 < m < 2 ^ p
      /\ emin fmt <= e <= Fmt.bias fmt - mb
  end.

Lemma decompose_interp bits :
  fits (Fmt.width fmt) bits -> decoded (decompose fmt bits) (interp fmt bits).
Proof.
  intros Hb. destruct (pattern_fields bits Hb) as (Hs & Hf & Hfr & Hn & Hq).
  pose proof (mb_range _ Hfmt). pose proof (pow_mb_pos _ Hfmt) as Hp. pose proof (pow_p _ Hfmt).
  pose proof (max_field_range _ Hfmt). pose proof (bias_eq _ Hfmt).
  unfold decompose, interp. rewrite Hs, Hf. set (n := bits mod 2 ^ w1) in *.
  pose proof (Z.div_mod n (2 ^ mb) ltac:(lia)) as Hdm.
  pose proof (Z.mod_pos_bound n (2 ^ mb) Hp) as Hm.
  pose proof (Z.div_pos n (2 ^ mb) ltac:(lia) Hp) as Hnf.
  destruct (Z.eqb_spec (n / 2 ^ mb) (Fmt.max_field fmt)) as [E|E].
  - rewrite E in Hdm. destruct (Z.eqb_spec (Z.land bits (Fmt.frac_mask fmt)) 0) as [E0|E0].
    + rewrite Hfr in E0. assert (n = inf_mag fmt) by (unfold inf_mag; lia).
      destruct (Z.ltb_spec (inf_mag fmt) n); [lia|]. destruct (Z.eqb_spec n (inf_mag fmt)); [done|lia].
    + rewrite Hfr in E0. destruct (Z.ltb_spec (inf_mag fmt) n); [|unfold inf_mag in *; lia].
      unfold decoded. f_equal. unfold wshr. rewrite Z.mod_small by lia.
      rewrite <- (negb_involutive (_ =? 0)), land_1_testbit by lia. f_equal.
      rewrite frac_mask_eq, Z.land_spec, Z.testbit_ones by (done || lia).
      destruct (Z.leb_spec 0 (mb - 1)), (Z.ltb_spec (mb - 1) mb); try lia. by rewrite andb_true_r.
  - assert (n < inf_mag fmt) by (unfold inf_mag; nia).
    destruct (Z.ltb_spec (inf_mag fmt) n); [lia|]. destruct (Z.eqb_spec n (inf_mag fmt)); [lia|].
    rewrite Hfr. destruct (Z.eqb_spec (n / 2 ^ mb) 0) as [E0|E0].
    + rewrite E0 in Hdm. assert (En : n mod 2 ^ mb = n) by lia. rewrite En.
      destruct (Z.eqb_spec n 0); [done|]. unfold decoded, mag_val. rewrite E0, En.
      split; [done|]. unfold emin. lia.
    + destruct (Z.eqb_spec n 0) as [->|]; [by rewrite Z.div_0_l in E0 by lia|].
      rewrite wshl_exact, Z.mul_1_l; [|lia|lia|rewrite Z.mul_1_l; apply Z.pow_lt_mono_r; lia].
      pose proof (lor_join mb 1 (n mod 2 ^ mb) ltac:(lia) Hm) as Hlor.
      rewrite Z.mul_1_l in Hlor. rewrite Z.lor_comm, Hlor. unfold decoded, mag_val.
      destruct (Z.eqb_spec (n / 2 ^ mb) 0); [done|]. split.
      * do 2 f_equal. f_equal. unfold emin. lia.
      * unfold emin. lia.
Qed.
End Decompose.

(** Rounding an exact dyadic value. *)
Lemma round_exact fmt sign mag exp mode flags :
  fmt_ok fmt -> 0 < mag < 2 ^ 128 ->
  correctly_rounded fmt mode sign (IZR mag * bpow exp) flags
    (round_pack fmt sign mag exp false mode flags).
Proof.
  intros Hf Hm. apply round_pack_correct; [done|done| |done|done].
  pose proof (bpow_pos exp). rewrite plus_IZR. split; nra.
Qed.

Lemma pow_p_53 fmt : fmt_ok fmt -> 2 ^ Fmt.p fmt <= 2 ^ 53.
Proof. intros [? _]. apply Z.pow_le_mono_r; lia. Qed.

(** ** Multiplication *)

(** What multiplication returns, on every kind of operands. *)
Definition ieee_mul (fmt : Fmt.t) (mode : RoundingMode) (flags : Z) (x y : datum) (r : Z * Z) :
    Prop :=
  let sign := xorb (datum_sign x) (datum_sign y) in
  match x, y with
  | NaN _, _ | _, NaN _ =>
      r = (qnan fmt, raise_if (is_signaling x || is_signaling y) fflags.NV flags)
  | Inf _, Zero _ | Zero _, Inf _ => r = (qnan fmt, Z.lor flags fflags.NV)
  | Inf _, _ | _, Inf _ => r = (inf_pat_of fmt sign, flags)
  | Zero _, _ | _, Zero _ => r = (zero_of fmt sign, flags)
  | Finite _ a, Finite _ b => correctly_rounded fmt mode sign (a * b) flags r
  end.

(** Read an operand as [interp fmt bits = datum], with the bounds of a significand. *)
Ltac read_operand D H :=
  unfold decoded in D; match type of D with _ /\ _ => destruct D as (D & H & _) | _ => idtac end.
Lemma is_snan_nan g : is_snan_dec (DNan g) = g.
Proof. by destruct g. Qed.
Lemma raise_if_or a b f flags : raise_if b f (raise_if a f flags) = raise_if (a || b) f flags.
Proof. destruct a, b; simpl; try done. by rewrite <- Z.lor_assoc, Z.lor_diag. Qed.
Ltac special_results fmt Hf :=
  rewrite ?is_snan_nan, ?raise_if_or, ?(canon_eq fmt Hf), ?(pack_inf_eq fmt Hf), ?(pack_zero_eq fmt Hf).

(** The product of two significands is exact. *)
Lemma exact_product fmt ma ea mb eb :
  fmt_ok fmt -> 0 < ma < 2 ^ Fmt.p fmt -> 0 < mb < 2 ^ Fmt.p fmt ->
  wmul 128 ma mb = ma * mb /\ 0 < ma * mb < 2 ^ 106
  /\ (IZR ma * bpow ea * (IZR mb * bpow eb) = IZR (ma * mb) * bpow (ea + eb))%R.
Proof.
  intros Hf Hma Hmb. pose proof (pow_p_53 fmt Hf).
  assert (2 ^ 53 * 2 ^ 53 = 2 ^ 106) by done. assert (2 ^ 106 < 2 ^ 128) by done.
  set (q := 2 ^ 53) in *. assert (0 < ma * mb < q * q) by (clearbody q; nia).
  split; [apply as_u_small; unfold fits; lia|]. split; [lia|].
  rewrite mult_IZR, bpow_add. ring.
Qed.

Lemma sf_mul_ieee fmt a b mode flags :
  fmt_ok fmt -> fits (Fmt.width fmt) a -> fits (Fmt.width fmt) b ->
  ieee_mul fmt mode flags (interp fmt a) (interp fmt b) (sf_mul fmt a b mode flags).
Proof.
  intros Hf Ha Hb. pose proof (decompose_interp fmt Hf a Ha) as Da.
  pose proof (decompose_interp fmt Hf b Hb) as Db. unfold sf_mul.
  destruct (decompose fmt a) as [sa|sa|ga|sa ma ea], (decompose fmt b) as [sb|sb|gb|sb mb eb];
    read_operand Da Hma; read_operand Db Hmb; rewrite Da, Db; special_results fmt Hf; try done.
  unfold ieee_mul. destruct (exact_product fmt ma ea mb eb Hf Hma Hmb) as (-> & Hm & ->).
  assert (2 ^ 106 < 2 ^ 128) by done. apply round_exact; [done|lia].
Qed.

(** ** Division *)

Definition ieee_div (fmt : Fmt.t) (mode : RoundingMode) (flags : Z) (x y : datum) (r : Z * Z) :
    Prop :=
  let sign := xorb (datum_sign x) (datum_sign y) in
  match x, y with
  | NaN _, _ | _, NaN _ =>
      r = (qnan fmt, raise_if (is_signaling x || is_signaling y) fflags.NV flags)
  | Inf _, Inf _ | Zero _, Zero _ => r = (qnan fmt, Z.lor flags fflags.NV)
  | Inf _, _ => r = (inf_pat_of fmt sign, flags)
  | Finite _ _, Zero _ => r = (inf_pat_of fmt sign, Z.lor flags fflags.DZ)
  | _, Inf _ | Zero _, _ => r = (zero_of fmt sign, flags)
  | Finite _ a, Finite _ b => correctly_rounded fmt mode sign (a / b) flags r
  end.

(** A 64-bit significand shifted to bit 63. *)
Lemma normalize64 m :
  0 < m < 2 ^ 64 ->
  let n := leading_zeros 64 m in
  0 <= n /\ wshl 128 m n = m * 2 ^ n /\ 2 ^ 63 <= m * 2 ^ n < 2 ^ 64.
Proof.
  intros Hm n. pose proof (Z.log2_nonneg m). pose proof (log2_bounds m ltac:(lia)) as Hb.
  assert (Z.log2 m < 64) by (apply Z.log2_lt_pow2; lia).
  assert (Hn : n = 63 - Z.log2 m) by (unfold n, leading_zeros; destruct (Z.eqb_spec m 0); lia).
  assert (Hpow : 2 ^ Z.log2 m * 2 ^ n = 2 ^ 63) by (rewrite <- Z.pow_add_r by lia; f_equal; lia).
  pose proof (Z.pow_pos_nonneg 2 n ltac:(lia) ltac:(lia)).
  assert (2 ^ 63 <= m * 2 ^ n < 2 ^ 64) by (change (2 ^ 64) with (2 * 2 ^ 63); nia).
  split; [lia|]. split; [|done]. apply wshl_exact; [lia|lia|].
  change (2 ^ 128) with (2 ^ 64 * 2 ^ 64). lia.
Qed.

(** The quotient with its remainder as a sticky bit. *)
Lemma quotient_rounds fmt sign a b e mode flags :
  fmt_ok fmt -> 2 ^ 63 <= a < 2 ^ 64 -> 2 ^ 63 <= b < 2 ^ 64 ->
  let num := a * 2 ^ 64 in
  correctly_rounded fmt mode sign (IZR a / IZR b * bpow e) flags
    (round_pack fmt sign (num / b) (e - 64) (negb (num mod b =? 0)) mode flags).
Proof.
  intros Hf Ha Hb num. pose proof (Z.div_mod num b ltac:(lia)) as Hdm.
  pose proof (Z.mod_pos_bound num b ltac:(lia)) as Hr.
  set (q := num / b) in *. set (r := num mod b) in *.
  assert (Hq : 2 ^ 63 <= q < 2 ^ 66).
  { unfold num in Hdm. change (2 ^ 66) with (4 * 2 ^ 64) in *. change (2 ^ 64) with (2 * 2 ^ 63) in *.
    set (h := 2 ^ 63) in *. assert (0 < h) by done. clearbody h q r. split; nia. }
  assert (Hbr : (0 < IZR b)%R) by (apply IZR_lt; lia).
  pose proof (bpow_pos (e - 64)) as Hu.
  assert (Hx : (IZR a / IZR b * bpow e = (IZR q + IZR r / IZR b) * bpow (e - 64))%R).
  { replace (bpow e) with (IZR (2 ^ 64) * bpow (e - 64))%R
      by (rewrite <- bpow_nonneg, <- bpow_add by lia; f_equal; lia).
    apply (f_equal IZR) in Hdm. unfold num in Hdm. rewrite plus_IZR, !mult_IZR in Hdm.
    apply (Rmult_eq_reg_r (IZR b)); [|lra]. field_simplify; [|lra|lra].
    rewrite (Rmult_comm (IZR a)). nra. }
  assert (Hfr : (0 <= IZR r / IZR b < 1)%R).
  { assert (0 <= IZR r)%R by (apply IZR_le; lia). assert (IZR r < IZR b)%R by (apply IZR_lt; lia).
    split; [apply Rmult_le_pos; [done|]; apply Rlt_le, Rinv_0_lt_compat, Hbr|].
    apply (Rmult_lt_reg_r (IZR b)); [done|]. field_simplify; lra. }
  rewrite Hx. apply round_pack_correct; [done| | | |].
  - change (2 ^ 66) with 73786976294838206464 in Hq. split; [lia|].
    apply Z.lt_trans with (2 ^ 66); [lia|done].
  - rewrite plus_IZR. split; nra.
  - assert (Hz : (IZR r / IZR b = 0)%R <-> r = 0).
    { split; [|intros ->; field; lra]. intros E. apply eq_IZR.
      replace (IZR r) with (IZR r / IZR b * IZR b)%R by (field; lra). rewrite E. ring. }
    rewrite negb_false_iff, Z.eqb_eq, <- Hz. split; intros; nra.
  - intros _. pose proof (pow_p_53 fmt Hf). apply Z.le_trans with (2 ^ 53); [done|].
    apply Z.le_trans with (2 ^ 63); [done|lia].
Qed.

Lemma sf_div_ieee fmt a b mode flags :
  fmt_ok fmt -> fits (Fmt.width fmt) a -> fits (Fmt.width fmt) b ->
  ieee_div fmt mode flags (interp fmt a) (interp fmt b) (sf_div fmt a b mode flags).
Proof.
  intros Hf Ha Hb. pose proof (decompose_interp fmt Hf a Ha) as Da.
  pose proof (decompose_interp fmt Hf b Hb) as Db. unfold sf_div.
  destruct (decompose fmt a) as [sa|sa|ga|sa ma ea], (decompose fmt b) as [sb|sb|gb|sb mb eb];
    read_operand Da Hma; read_operand Db Hmb; rewrite Da, Db; special_results fmt Hf; try done.
  unfold ieee_div. simpl. pose proof (pow_p_53 fmt Hf).
  assert (2 ^ 53 < 2 ^ 64) by done.
  destruct (normalize64 ma ltac:(lia)) as (Hna & -> & Hma').
  destruct (normalize64 mb ltac:(lia)) as (Hnb & -> & Hmb').
  set (na := leading_zeros 64 ma) in *. set (nb := leading_zeros 64 mb) in *.
  rewrite (wshl_exact 128 (ma * 2 ^ na) 64);
    [|lia|lia|change (2 ^ 128) with (2 ^ 64 * 2 ^ 64); lia].
  pose proof (quotient_rounds fmt (xorb sa sb) _ _ (ea - na - (eb - nb)) mode flags Hf Hma' Hmb')
    as Hq.
  replace (IZR ma * bpow ea / (IZR mb * bpow eb))%R
    with (IZR (ma * 2 ^ na) / IZR (mb * 2 ^ nb) * bpow (ea - na - (eb - nb)))%R; [exact Hq|].
  assert (IZR mb <> 0)%R by (apply not_0_IZR; lia).
  rewrite !mult_IZR, <- !bpow_nonneg by lia.
  set (g := ea - na - (eb - nb)).
  replace (bpow ea) with (bpow g * bpow na * bpow (eb - nb))%R
    by (rewrite <- !bpow_add; f_equal; unfold g; lia).
  replace (bpow eb) with (bpow (eb - nb) * bpow nb)%R by (rewrite <- bpow_add; f_equal; lia).
  pose proof (bpow_pos nb). pose proof (bpow_pos (eb - nb)). field. repeat split; lra.
Qed.

(** ** Square root *)

(** The digit weight of iteration [j], counted down to zero. *)
Definition digit_bit (j : nat) : Z := match j with O => 0 | S k => 4 ^ Z.of_nat k end.

Lemma digit_bit_next j : wshr 128 (digit_bit (S j)) 2 = digit_bit j.
Proof.
  rewrite wshr_div by lia. change (2 ^ 2) with 4. destruct j as [|j]; [done|]. simpl digit_bit.
  rewrite Nat2Z.inj_succ, Z.pow_succ_r, Z.mul_comm, Z.div_mul by lia. done.
Qed.

Lemma pow4_sq k : 0 <= k -> 4 ^ k = 2 ^ k * 2 ^ k.
Proof. intros. change 4 with (2 * 2). by rewrite Z.pow_mul_l. Qed.

(** The loop invariant: [r] is the root found so far, to the precision of the
    current digit, and the code keeps [res = r * 2 ^ j] and [rem = n - r * r]. *)
Lemma isqrt_loop_spec n j : forall fuel r,
  (j <= fuel)%nat -> 0 <= r -> r + 2 ^ Z.of_nat j <= 2 ^ 64 ->
  r * r <= n < (r + 2 ^ Z.of_nat j) * (r + 2 ^ Z.of_nat j) ->
  isqrt_loop fuel (digit_bit j) (r * 2 ^ Z.of_nat j) (n - r * r)
  = (0, Z.sqrt n, n - Z.sqrt n * Z.sqrt n).
Proof.
  induction j as [|j IH]; intros fuel r Hfuel Hr Hb Hn.
  - change (2 ^ Z.of_nat 0) with 1 in *. rewrite (Z.sqrt_unique n r), Z.mul_1_r by lia.
    by destruct fuel.
  - destruct fuel as [|fuel]; [lia|]. cbn [isqrt_loop]. rewrite digit_bit_next.
    pose proof (Z.pow_pos_nonneg 2 (Z.of_nat j) ltac:(lia) ltac:(lia)) as Hp.
    assert (Hpow : 2 ^ Z.of_nat (S j) = 2 * 2 ^ Z.of_nat j)
      by (rewrite Nat2Z.inj_succ, Z.pow_succ_r; lia).
    assert (Hbit : digit_bit (S j) = 2 ^ Z.of_nat j * 2 ^ Z.of_nat j) by (apply pow4_sq; lia).
    rewrite Hbit, Hpow in *. set (h := 2 ^ Z.of_nat j) in *. set (bj := digit_bit j) in *.
    assert (H128 : 2 ^ 128 = 2 ^ 64 * 2 ^ 64) by done. set (q := 2 ^ 64) in *.
    assert (Hsum : fits 128 (r * (2 * h) + h * h)) by (unfold fits; rewrite H128; clearbody h q; nia).
    destruct (Z.eqb_spec (h * h) 0); [nia|].
    assert (Hhalf : wshr 128 (r * (2 * h)) 1 = r * h).
    { rewrite wshr_div by lia. change (2 ^ 1) with 2.
      replace (r * (2 * h)) with (r * h * 2) by ring. by rewrite Z.div_mul. }
    unfold wadd. rewrite (as_u_small 128 (r * (2 * h) + h * h)), Hhalf by done.
    destruct (Z.leb_spec (r * (2 * h) + h * h) (n - r * r)).
    + rewrite as_u_small by (unfold fits; rewrite H128; clearbody h q; nia).
      replace (r * h + h * h) with ((r + h) * h) by ring.
      replace (n - r * r - (r * (2 * h) + h * h)) with (n - (r + h) * (r + h)) by ring.
      apply IH; [lia|lia|lia|]. fold h. split; nia.
    + apply IH; [lia|lia|lia|]. fold h. split; nia.
Qed.

Lemma log2_even n : 0 < n < 2 ^ 128 ->
  exists j : nat, (j <= 64)%nat /\ n < 4 ^ Z.of_nat j
    /\ wshl 128 1 (Z.land (127 - leading_zeros 128 n) (wnot 32 1)) = digit_bit j.
Proof.
  intros Hn. destruct (normalize n Hn) as (Elz & Hlz & _ & _).
  replace (127 - leading_zeros 128 n) with (Z.log2 n) by lia.
  pose proof (log2_bounds n ltac:(lia)) as Hb. set (l := Z.log2 n) in *.
  assert (Hl : 0 <= l <= 127) by lia.
  assert (Hland : Z.land l (wnot 32 1) = 2 * (l / 2)).
  { apply Z.eqb_eq, (all_below 7 (fun l => Z.land l (wnot 32 1) =? 2 * (l / 2))); [done|].
    unfold fits. change (2 ^ Z.of_nat 7) with 128. lia. }
  exists (S (Z.to_nat (l / 2))). pose proof (Z.div_mod l 2 ltac:(lia)).
  pose proof (Z.mod_pos_bound l 2 ltac:(lia)). rewrite Nat2Z.inj_succ, Z2Nat.id by lia.
  split; [lia|]. change 4 with (2 ^ 2). rewrite <- Z.pow_mul_r by lia. split.
  - apply Z.lt_le_trans with (2 * 2 ^ l); [lia|]. rewrite <- Z.pow_succ_r by lia.
    apply Z.pow_le_mono_r; lia.
  - rewrite Hland, wshl_exact, Z.mul_1_l.
    + simpl digit_bit. change 4 with (2 ^ 2). rewrite <- Z.pow_mul_r, Z2Nat.id by lia. done.
    + lia.
    + lia.
    + rewrite Z.mul_1_l. apply Z.pow_lt_mono_r; lia.
Qed.

(** The digit loop stops at its own exit condition within 64 iterations. *)
Lemma isqrt_loop_exit n fuel :
  0 < n < 2 ^ 128 -> (64 <= fuel)%nat ->
  isqrt_loop fuel (wshl 128 1 (Z.land (127 - leading_zeros 128 n) (wnot 32 1))) 0 n
  = (0, Z.sqrt n, n - Z.sqrt n * Z.sqrt n).
Proof.
  intros Hn Hfuel. destruct (log2_even n Hn) as (j & Hj & Hlt & ->).
  pose proof (isqrt_loop_spec n j fuel 0) as H. rewrite Z.mul_0_l, Z.sub_0_r in H.
  rewrite pow4_sq in Hlt by lia.
  apply H; [lia|lia| |lia]. rewrite Z.add_0_l. apply Z.pow_le_mono_r; lia.
Qed.

Lemma isqrt_u128_spec n :
  fits 128 n -> isqrt_u128 n = (Z.sqrt n, negb (Z.sqrt n * Z.sqrt n =? n)).
Proof.
  intros Hn. unfold isqrt_u128. destruct (Z.eqb_spec n 0) as [->|]; [done|].
  rewrite isqrt_loop_exit by (unfold fits in Hn; lia). do 2 f_equal.
  destruct (Z.eqb_spec (n - Z.sqrt n * Z.sqrt n) 0), (Z.eqb_spec (Z.sqrt n * Z.sqrt n) n); lia.
Qed.

(** C24. The digit loop of the integer square root ends: within 64 iterations its bit
    is zero, with the square root and the remainder of any 128-bit operand, and
    more iterations change nothing. *)
Theorem isqrt_terminates n fuel :
  0 < n < 2 ^ 128 -> (64 <= fuel)%nat ->
  let '(bit, root, rest) :=
    isqrt_loop fuel (wshl 128 1 (Z.land (127 - leading_zeros 128 n) (wnot 32 1))) 0 n in
  bit = 0 /\ 0 <= root < 2 ^ 64 /\ root * root + rest = n /\ n < (root + 1) * (root + 1).
Proof.
  intros Hn Hf. rewrite isqrt_loop_exit by done. pose proof (Z.sqrt_spec n ltac:(lia)) as H. cbv zeta in H.
  pose proof (Z.sqrt_nonneg n). split; [done|]. split; [|lia]. split; [done|].
  apply (proj1 (Z.sqrt_lt_square n (2 ^ 64) ltac:(lia) ltac:(lia))). lia.
Qed.

Lemma isqrt_terminates_witness :
  isqrt_loop 64 (2 ^ 6) 0 99 = (0, 9, 18) /\ 0 <= 9 < 2 ^ 64 /\ 9 * 9 + 18 = 99 /\ 99 < 10 * 10.
Proof. split; [reflexivity|]. exact (proj2 (isqrt_terminates 99 64 ltac:(lia) ltac:(lia))). Defined.

Definition ieee_sqrt (fmt : Fmt.t) (mode : RoundingMode) (flags : Z) (x : datum) (r : Z * Z) :
    Prop :=
  match x with
  | NaN s => r = (qnan fmt, raise_if s fflags.NV flags)
  | Zero s => r = (zero_of fmt s, flags)
  | Inf false => r = (inf_pat_of fmt false, flags)
  | Inf true | Finite true _ => r = (qnan fmt, Z.lor flags fflags.NV)
  | Finite false a => correctly_rounded fmt mode false (sqrt a) flags r
  end.

Lemma sqrt_scale m h : 0 <= m -> sqrt (IZR m * bpow (2 * h)) = (sqrt (IZR m) * bpow h)%R.
Proof.
  intros Hm. assert (0 <= IZR m)%R by (by apply IZR_le). pose proof (bpow_pos h).
  rewrite sqrt_mult by (try apply Rlt_le, bpow_pos; done).
  replace (2 * h) with (h + h) by lia. rewrite bpow_add, sqrt_square by lra. done.
Qed.

(** The integer root with its remainder as a sticky bit. *)
Lemma root_rounds fmt m h mode flags :
  fmt_ok fmt -> 2 ^ (2 * Fmt.p fmt + 2) <= m < 2 ^ 128 ->
  correctly_rounded fmt mode false (sqrt (IZR m * bpow (2 * h))) flags
    (round_pack fmt false (Z.sqrt m) h (negb (Z.sqrt m * Z.sqrt m =? m)) mode flags).
Proof.
  intros Hf Hm. assert (Hp : 0 < 2 ^ (2 * Fmt.p fmt + 2)) by (apply Z.pow_pos_nonneg; destruct Hf; lia).
  pose proof (Z.sqrt_spec m ltac:(lia)) as Hs. cbv zeta in Hs.
  set (r := Z.sqrt m) in *.
  assert (Hr : 2 ^ (Fmt.p fmt + 1) <= r).
  { unfold r. apply Z.sqrt_le_square; [lia|apply Z.pow_nonneg; lia|].
    rewrite <- Z.pow_add_r by (destruct Hf; lia). etrans; [|apply Hm].
    apply Z.pow_le_mono_r; lia. }
  assert (Hp1 : 2 ^ (Fmt.p fmt + 1) = 2 * 2 ^ Fmt.p fmt).
  { rewrite Z.add_1_r, Z.pow_succ_r; destruct Hf; lia. }
  assert (0 < 2 ^ Fmt.p fmt) by (apply Z.pow_pos_nonneg; destruct Hf; lia).
  assert (Hru : r < 2 ^ 128).
  { assert (1 <= r) by lia. pose proof (Z.mul_le_mono_nonneg_r 1 r r). lia. }
  rewrite sqrt_scale by lia. pose proof (bpow_pos h) as Hu.
  assert (Hrr : (0 <= IZR r)%R) by (apply IZR_le; lia).
  assert (Hlo : (IZR r <= sqrt (IZR m))%R).
  { rewrite <- (sqrt_square (IZR r)) by done. rewrite <- mult_IZR. apply sqrt_le_1_alt, IZR_le. lia. }
  assert (Hhi : (sqrt (IZR m) < IZR (r + 1))%R).
  { assert (0 <= IZR (r + 1))%R by (apply IZR_le; lia).
    rewrite <- (sqrt_square (IZR (r + 1))) by done. rewrite <- mult_IZR.
    apply sqrt_lt_1_alt. split; [apply IZR_le; lia|apply IZR_lt; lia]. }
  apply round_pack_correct; [done|lia| | |lia].
  - split; [apply Rmult_le_compat_r; lra|apply Rmult_lt_compat_r; lra].
  - rewrite negb_false_iff, Z.eqb_eq. split.
    + intros E. rewrite <- E. by rewrite mult_IZR, sqrt_square.
    + intros E. apply Rmult_eq_reg_r in E; [|lra]. apply eq_IZR. rewrite mult_IZR, <- E.
      apply sqrt_sqrt, IZR_le. lia.
Qed.

Lemma land_1_odd z : negb (Z.land z 1 =? 0) = Z.odd z.
Proof.
  change 1 with (Z.ones 1). rewrite Z.land_ones, Zodd_mod by lia. change (2 ^ 1) with 2.
  pose proof (Z.mod_pos_bound z 2).
  destruct (Z.eqb_spec (z mod 2) 0), (Z.eqb_spec (z mod 2) 1); try done; lia.
Qed.

(** The radicand scaled to an even exponent and enough bits. *)
Lemma radicand fmt mant e :
  fmt_ok fmt -> 0 < mant < 2 ^ Fmt.p fmt ->
  let '(m, e') := if negb (Z.land e 1 =? 0) then (wshl 128 mant 1, e - 1) else (mant, e) in
  let want := 2 * Fmt.p fmt + 4 in
  let cur := 128 - leading_zeros 128 m in
  let '(m, e') :=
    if cur <? want then
      let s := want - cur in
      let s := if negb (Z.land s 1 =? 0) then s + 1 else s in (wshl 128 m s, e' - s)
    else (m, e') in
  exists h, e' = 2 * h /\ (IZR m * bpow e' = IZR mant * bpow e)%R
    /\ 2 ^ (2 * Fmt.p fmt + 2) <= m < 2 ^ 128.
Proof.
  intros Hf Hm. assert (Hp : 2 ^ Fmt.p fmt <= 2 ^ 53) by (by apply pow_p_53). destruct Hf as [Hp4 _].
  assert (Hstep : exists m1 e1 h1, (if negb (Z.land e 1 =? 0) then (wshl 128 mant 1, e - 1)
            else (mant, e)) = (m1, e1) /\ e1 = 2 * h1
            /\ (IZR m1 * bpow e1 = IZR mant * bpow e)%R /\ 0 < m1 < 2 ^ (Fmt.p fmt + 1)).
  { rewrite land_1_odd, Z.pow_add_r by lia. change (2 ^ 1) with 2.
    destruct (Z.odd e) eqn:Ho.
    - apply Z.odd_spec in Ho as [h ->]. exists (mant * 2), (2 * h + 1 - 1), h.
      assert (2 ^ 53 * 2 < 2 ^ 128) by done.
      rewrite wshl_exact by (try change (2 ^ 1) with 2; lia). repeat split; try lia.
      replace (2 * h + 1) with (2 * h + 1 - 1 + 1) at 2 by lia.
      rewrite bpow_add, mult_IZR. change (bpow 1) with (2 * 1)%R. ring.
    - rewrite <- Z.negb_even, negb_false_iff in Ho. apply Z.even_spec in Ho as [h ->].
      exists mant, (2 * h), h. repeat split; lia. }
  destruct Hstep as (m1 & e1 & h1 & -> & -> & Hv & Hm1). cbv beta iota zeta.
  rewrite land_1_odd.
  pose proof (Z.log2_nonneg m1). assert (Z.log2 m1 < Fmt.p fmt + 1) by (apply Z.log2_lt_pow2; lia).
  assert (Hlz : 128 - leading_zeros 128 m1 = Z.log2 m1 + 1).
  { unfold leading_zeros. destruct (Z.eqb_spec m1 0); lia. }
  rewrite Hlz. destruct (Z.ltb_spec (Z.log2 m1 + 1) (2 * Fmt.p fmt + 4)); [|lia].
  set (s := 2 * Fmt.p fmt + 4 - (Z.log2 m1 + 1)).
  assert (Hs : exists k, (if Z.odd s then s + 1 else s) = 2 * k /\ s <= 2 * k <= s + 1).
  { destruct (Z.odd s) eqn:Ho.
    - apply Z.odd_spec in Ho as [k ->]. exists (k + 1). lia.
    - rewrite <- Z.negb_even, negb_false_iff in Ho. apply Z.even_spec in Ho as [k ->].
      exists k. lia. }
  destruct Hs as (k & -> & Hk). exists (h1 - k). split; [lia|].
  pose proof (log2_bounds m1 ltac:(lia)) as Hb.
  pose proof (Z.pow_pos_nonneg 2 (2 * k) ltac:(lia) ltac:(lia)) as Hpk.
  assert (E : 2 ^ Z.log2 m1 * 2 ^ (2 * k) = 2 ^ (Z.log2 m1 + 2 * k)) by (by rewrite Z.pow_add_r by lia).
  assert (Hlow : 2 ^ (2 * Fmt.p fmt + 2) <= m1 * 2 ^ (2 * k)).
  { etrans; [apply (Z.pow_le_mono_r 2 _ (Z.log2 m1 + 2 * k)); lia|]. nia. }
  assert (Hup : m1 * 2 ^ (2 * k) < 2 ^ 128).
  { apply Z.lt_le_trans with (2 * 2 ^ (Z.log2 m1 + 2 * k)); [nia|].
    rewrite <- Z.pow_succ_r by lia. apply Z.pow_le_mono_r; lia. }
  rewrite wshl_exact by lia. split; [|done]. rewrite <- Hv, mult_IZR, <- bpow_nonneg by lia.
  replace (2 * h1) with (2 * k + (2 * h1 - 2 * k)) at 2 by lia. rewrite bpow_add. ring.
Qed.

Lemma sf_sqrt_ieee fmt a mode flags :
  fmt_ok fmt -> fits (Fmt.width fmt) a ->
  ieee_sqrt fmt mode flags (interp fmt a) (sf_sqrt fmt a mode flags).
Proof.
  intros Hf Ha. pose proof (decompose_interp fmt Hf a Ha) as Da. unfold sf_sqrt.
  destruct (decompose fmt a) as [sa|[]|ga|[] ma ea]; read_operand Da Hma; rewrite Da;
    special_results fmt Hf; try done.
  pose proof (radicand fmt ma ea Hf Hma) as Hr. cbv zeta in *.
  destruct (if negb (Z.land ea 1 =? 0) then _ else _) as [m1 e1].
  destruct (if _ <? _ then _ else _) as [m e]. destruct Hr as (h & -> & Hv & Hm).
  rewrite isqrt_u128_spec by (unfold fits; pose proof (Z.pow_nonneg 2 (2 * Fmt.p fmt + 2)); lia).
  rewrite (Z.mul_comm 2 h), Z.quot_mul by lia.
  unfold ieee_sqrt. rewrite <- Hv.
  by apply root_rounds.
Qed.
