(* ===== verification/RvFloatAdd.v ===== *)
(** * Soft-float addition and fused multiply-add

    [add_wide] of src/isa/riscv/float.rs returns the correctly rounded sum of
    two scaled significands, so [sf_add] and [sf_fma] round once, from the exact
    result. *)

From Stdlib Require Import Reals Lra.
From S2P Require Import Prelude RvFloat RvHostFloat RvRound RvFloatSpec.

(** ** A sticky bit as two low bits *)

Lemma div_low m c j k :
  0 <= j <= k -> m mod 2 ^ j = 0 -> 0 <= c < 2 ^ j -> (m + c) / 2 ^ k = m / 2 ^ k.
Proof.
  intros Hjk Hm Hc. pose proof (Z.pow_pos_nonneg 2 j ltac:(lia) ltac:(lia)).
  pose proof (Z.pow_pos_nonneg 2 (k - j) ltac:(lia) ltac:(lia)).
  replace (2 ^ k) with (2 ^ j * 2 ^ (k - j)) by (rewrite <- Z.pow_add_r by lia; f_equal; lia).
  rewrite <- !Z.div_div by lia. f_equal.
  rewrite (Z.div_mod m (2 ^ j)) at 1 by lia. rewrite Hm, Z.add_0_r.
  rewrite Z.add_comm, Z.mul_comm, Z.div_add, (Z.div_small c) by lia. lia.
Qed.

Lemma mod_low m c j k :
  0 <= j <= k -> m mod 2 ^ j = 0 -> 0 < c < 2 ^ j -> (m + c) mod 2 ^ k <> 0.
Proof.
  intros Hjk Hm Hc Hz. pose proof (Z.pow_pos_nonneg 2 j ltac:(lia) ltac:(lia)).
  assert (Hj : (m + c) mod 2 ^ j = 0).
  { rewrite <- (Z.mod_mod_divide (m + c) (2 ^ k) (2 ^ j)), Hz; [by apply Z.mod_0_l; lia|].
    exists (2 ^ (k - j)). rewrite <- Z.pow_add_r by lia. f_equal. lia. }
  rewrite Z.add_mod, Hm, Z.add_0_l, Z.mod_mod, Z.mod_small in Hj by lia. lia.
Qed.

Lemma round_split_low m c j r :
  0 <= j <= 127 -> j <= r - 1 -> m mod 2 ^ j = 0 -> 0 < c < 2 ^ j -> 0 <= m ->
  round_split (m + c) r false = round_split m r true.
Proof.
  intros Hj Hr Hm Hc H0. unfold round_split. simpl.
  destruct (Z.ltb_spec 128 r).
  - destruct (Z.eqb_spec (m + c) 0); [lia|done].
  - destruct (Z.eqb_spec r 128).
    + rewrite !wshr_div, any_bits_mod, (div_low m c j) by lia.
      destruct (Z.eqb_spec ((m + c) mod 2 ^ 127) 0) as [E|]; [|done].
      by apply (mod_low m c j) in E; try lia.
    + rewrite !wshr_div, any_bits_mod, !(div_low m c j) by lia.
      destruct (Z.eqb_spec ((m + c) mod 2 ^ (r - 1)) 0) as [E|]; [|done].
      by apply (mod_low m c j) in E; try lia.
Qed.

(** Three quarters of a unit stand for any fraction of it. *)
Lemma round_pack_sticky fmt sign q e mode flags :
  fmt_ok fmt -> 2 ^ Fmt.p fmt <= q < 2 ^ 126 ->
  round_pack fmt sign (4 * q + 3) (e - 2) false mode flags = round_pack fmt sign q e true mode flags.
Proof.
  intros Hf Hq. pose proof (Z.pow_pos_nonneg 2 (Fmt.p fmt) ltac:(lia) ltac:(destruct Hf; lia)).
  assert (Hlog : Z.log2 (4 * q + 3) = Z.log2 q + 2).
  { pose proof (log2_bounds q ltac:(lia)). pose proof (Z.log2_nonneg q).
    apply Z.log2_unique; [lia|]. rewrite <- (Z.add_succ_l (Z.log2 q)), !Z.pow_add_r by lia.
    rewrite Z.pow_succ_r by lia. change (2 ^ 2) with 4. lia. }
  assert (Hlp : Fmt.p fmt <= Z.log2 q) by (apply Z.log2_le_pow2; lia).
  assert (Hl126 : Z.log2 q < 126) by (apply Z.log2_lt_pow2; lia).
  assert (H128 : 2 ^ 126 * 4 = 2 ^ 128) by done.
  destruct (normalize (4 * q + 3) ltac:(lia)) as (Elz' & _ & Hshl' & _).
  destruct (normalize q ltac:(lia)) as (Elz & Hlz & Hshl & _).
  unfold round_pack. destruct (Z.eqb_spec (4 * q + 3) 0); [lia|]. destruct (Z.eqb_spec q 0); [lia|].
  rewrite Hshl, Hshl'. set (lz := leading_zeros 128 q) in *.
  assert (E' : leading_zeros 128 (4 * q + 3) = lz - 2) by lia. rewrite E'.
  replace (127 + (e - 2 - (lz - 2))) with (127 + (e - lz)) by lia.
  set (b := 127 + (e - lz) + Fmt.bias fmt).
  pose proof (Z.pow_pos_nonneg 2 (lz - 2) ltac:(lia) ltac:(lia)).
  assert (Hpow : 2 ^ lz = 4 * 2 ^ (lz - 2)).
  { change 4 with (2 ^ 2). rewrite <- Z.pow_add_r by lia. f_equal. lia. }
  replace ((4 * q + 3) * 2 ^ (lz - 2)) with (q * 2 ^ lz + 3 * 2 ^ (lz - 2)) by (rewrite Hpow; ring).
  assert (Hsplit : forall r, 128 - Fmt.p fmt <= r ->
    round_split (q * 2 ^ lz + 3 * 2 ^ (lz - 2)) r false = round_split (q * 2 ^ lz) r true).
  { intros r Hr. apply (round_split_low _ _ lz); try lia. apply Z.mod_mul. lia. }
  destruct (Z.ltb_spec b 1); rewrite Hsplit by lia; done.
Qed.

(** ** The exact sum *)

(** [r] rounds the real [z]: a zero takes the sign the mode gives to an exact
    cancellation, and anything else is rounded by magnitude. *)
Definition sum_rounds (fmt : Fmt.t) (mode : RoundingMode) (z : R) (flags : Z) (r : Z * Z) : Prop :=
  (z = 0%R /\ r = (zero_of fmt (bool_decide (mode = Rdn)), flags))
  \/ (exists sign x, (0 < x)%R /\ z = signed sign x /\ correctly_rounded fmt mode sign x flags r).

(** The smaller term in units of the last place of the larger. *)
Lemma add_align_spec ml shift :
  0 < ml < 2 ^ 106 -> (0 <= shift -> ml * 2 ^ shift < 2 ^ 121) ->
  let '(lm, sticky) := add_align ml shift in
  exists f : R, (IZR ml * bpow shift = IZR lm + f)%R /\ (0 <= f < 1)%R
    /\ (sticky = false <-> f = 0%R) /\ 0 <= lm < 2 ^ 121 /\ (sticky = true -> lm < 2 ^ 106).
Proof.
  intros Hml Hs. unfold add_align. destruct (Z.leb_spec 0 shift) as [H0|H0].
  - specialize (Hs H0). destruct (Z.leb_spec 128 shift) as [Hbig|Hlt].
    + pose proof (Z.pow_le_mono_r 2 128 shift ltac:(lia) Hbig).
      assert (2 ^ 121 < 2 ^ 128) by done. nia.
    + assert (2 ^ 121 < 2 ^ 128) by done. rewrite wshl_exact by lia.
      pose proof (Z.pow_pos_nonneg 2 shift ltac:(lia) H0).
      exists 0%R. rewrite bpow_nonneg, mult_IZR by done. repeat split; try done; try lra; nia.
  - set (rs := - shift). assert (Hrs : 0 < rs) by (unfold rs; lia).
    pose proof (bpow_pos shift) as Hu. assert (0 < IZR ml)%R by (apply IZR_lt; lia).
    assert (Hinv : (IZR (2 ^ rs) * bpow shift = 1)%R).
    { rewrite <- bpow_nonneg, <- bpow_add by lia. unfold rs. by rewrite Z.add_opp_diag_l. }
    pose proof (Z.pow_pos_nonneg 2 rs ltac:(lia) ltac:(lia)) as Hp.
    assert (2 ^ 106 < 2 ^ 121) by done.
    destruct (Z.leb_spec 128 rs) as [Hbig|Hlt].
    + destruct (Z.eqb_spec ml 0); [lia|]. exists (IZR ml * bpow shift)%R.
      assert (IZR ml < IZR (2 ^ rs))%R.
      { apply IZR_lt. pose proof (Z.pow_le_mono_r 2 128 rs ltac:(lia) Hbig).
        assert (2 ^ 106 < 2 ^ 128) by done. lia. }
      repeat split; try done; try lra; try nra.
    + rewrite wshr_div, any_bits_mod by lia. pose proof (Z.div_mod ml (2 ^ rs) ltac:(lia)) as Hdm.
      pose proof (Z.mod_pos_bound ml (2 ^ rs) Hp) as Hm.
      set (q := ml / 2 ^ rs) in *. set (c := ml mod 2 ^ rs) in *.
      assert (Hq : 0 <= q < 2 ^ 106) by (clear -Hdm Hm Hml Hp; split; nia).
      assert (Hc : (0 <= IZR c < IZR (2 ^ rs))%R) by (split; [apply IZR_le|apply IZR_lt]; lia).
      exists (IZR c * bpow shift)%R. apply (f_equal IZR) in Hdm.
      rewrite plus_IZR, mult_IZR in Hdm. split; [rewrite Hdm; nra|]. split; [nra|].
      split; [|split; lia]. rewrite negb_false_iff, Z.eqb_eq. split; [intros ->; ring|].
      intros E. apply eq_IZR. nra.
Qed.

Lemma signed_neg s x : signed (negb s) x = (- signed s x)%R.
Proof. destruct s; simpl; lra. Qed.

(** Two guard bits below the last place [h]. *)
Lemma quarter mag h : (IZR (4 * mag) * bpow (h - 2) = IZR mag * bpow h)%R.
Proof.
  replace h with (2 + (h - 2)) at 2 by lia. rewrite mult_IZR, (bpow_add 2).
  rewrite (bpow_nonneg 2) by lia. change (IZR (2 ^ 2)) with 4%R. ring.
Qed.

Section Ordered.
Variable fmt : Fmt.t.
Hypothesis Hf : fmt_ok fmt.

(** Terms of one sign: the aligned magnitudes are added. *)
Lemma add_same sign hm lm (f : R) (sticky : bool) h mode flags :
  2 ^ 120 <= hm < 2 ^ 121 -> 0 <= lm < 2 ^ 121 -> (0 <= f < 1)%R -> (sticky = false <-> f = 0%R) ->
  correctly_rounded fmt mode sign ((IZR hm + (IZR lm + f)) * bpow h) flags
    (round_pack fmt sign (wadd 128 hm lm) h sticky mode flags).
Proof.
  intros Hh Hl Hfr Hst. pose proof (bpow_pos h). unfold wadd.
  assert (2 ^ 121 + 2 ^ 121 < 2 ^ 128) by done. rewrite as_u_small by (unfold fits; lia).
  apply round_pack_correct; [done|lia| | |].
  - rewrite !plus_IZR. split; nra.
  - rewrite Hst, plus_IZR. split; [intros ->; ring|]. nra.
  - intros _. pose proof (pow_p_53 fmt Hf). assert (2 ^ 53 <= 2 ^ 120) by done. lia.
Qed.

(** Terms of opposite signs without lost bits. *)
Lemma sub_exact (sh : bool) hm lm h mode flags :
  2 ^ 120 <= hm < 2 ^ 121 -> 0 <= lm < 2 ^ 121 ->
  sum_rounds fmt mode (signed sh (IZR hm * bpow h) - signed sh (IZR lm * bpow h)) flags
    (if 4 * lm <=? 4 * hm then
       if 4 * hm - 4 * lm =? 0 then (Fmt.pack_zero fmt (bool_decide (mode = Rdn)), flags)
       else round_pack fmt sh (4 * hm - 4 * lm) (h - 2) false mode flags
     else round_pack fmt (negb sh) (4 * lm - 4 * hm) (h - 2) false mode flags).
Proof.
  intros Hh Hl. pose proof (bpow_pos h). assert (4 * 2 ^ 121 < 2 ^ 128) by done.
  destruct (Z.leb_spec (4 * lm) (4 * hm)); [destruct (Z.eqb_spec (4 * hm - 4 * lm) 0)|].
  - left. rewrite pack_zero_eq by done. replace lm with hm by lia. split; [ring|done].
  - right. exists sh, (IZR (hm - lm) * bpow h)%R.
    assert (0 < IZR (hm - lm))%R by (apply IZR_lt; lia).
    rewrite <- quarter, <- Z.mul_sub_distr_l. split; [rewrite quarter; nra|].
    split; [|apply round_exact; [done|lia]]. rewrite quarter, minus_IZR. destruct sh; simpl; ring.
  - right. exists (negb sh), (IZR (lm - hm) * bpow h)%R.
    assert (0 < IZR (lm - hm))%R by (apply IZR_lt; lia).
    rewrite <- quarter, <- Z.mul_sub_distr_l. split; [rewrite quarter; nra|].
    split; [|apply round_exact; [done|lia]]. rewrite quarter, minus_IZR. destruct sh; simpl; ring.
Qed.

(** Terms of opposite signs with lost bits: the larger one is far larger. *)
Lemma sub_sticky (sh : bool) hm lm (f : R) h mode flags :
  2 ^ 120 <= hm < 2 ^ 121 -> 0 <= lm < 2 ^ 106 -> (0 < f < 1)%R ->
  sum_rounds fmt mode (signed sh (IZR hm * bpow h) - signed sh ((IZR lm + f) * bpow h)) flags
    (round_pack fmt sh (4 * hm - (4 * lm + 1)) (h - 2) false mode flags).
Proof.
  intros Hh Hl Hfr. pose proof (bpow_pos h). pose proof (pow_p_53 fmt Hf).
  assert (2 ^ 53 + 2 ^ 106 + 1 < 2 ^ 120) by done. assert (2 ^ 121 < 2 ^ 126) by done.
  assert (2 ^ 126 < 2 ^ 128) by done.
  replace (4 * hm - (4 * lm + 1)) with (4 * (hm - lm - 1) + 3) by lia.
  rewrite round_pack_sticky by (done || lia). right.
  exists sh, ((IZR hm - (IZR lm + f)) * bpow h)%R.
  assert (Hq : (0 < IZR (hm - lm - 1))%R) by (apply IZR_lt; lia).
  rewrite !minus_IZR in Hq. split; [nra|]. split; [destruct sh; simpl; ring|].
  apply round_pack_correct; [done|lia| | |lia].
  - rewrite plus_IZR, !minus_IZR. split; nra.
  - split; [done|]. rewrite !minus_IZR. nra.
Qed.

Lemma add_ordered_rounds sh mh eh sl ml el mode flags :
  0 < mh < 2 ^ 106 -> 0 < ml < 2 ^ 106 -> el + Z.log2 ml <= eh + Z.log2 mh ->
  sum_rounds fmt mode
    (signed sh (IZR mh * bpow eh) + signed sl (IZR ml * bpow el)) flags
    (add_ordered fmt sh mh eh sl ml el mode flags).
Proof.
  intros Hmh Hml Hord. assert (H106 : 2 ^ 106 < 2 ^ 128) by done. unfold add_ordered.
  destruct (normalize mh ltac:(lia)) as (-> & _ & _ & _).
  replace (120 - (127 - (127 - Z.log2 mh))) with (120 - Z.log2 mh) by lia.
  pose proof (Z.log2_nonneg mh). assert (Z.log2 mh < 106) by (apply Z.log2_lt_pow2; lia).
  set (up := 120 - Z.log2 mh). set (h := eh - up).
  destruct (Z.leb_spec 0 up); [|unfold up in *; lia].
  pose proof (log2_bounds mh ltac:(lia)) as Hb. pose proof (log2_bounds ml ltac:(lia)) as Hbl.
  pose proof (Z.pow_pos_nonneg 2 up ltac:(lia) ltac:(lia)) as Hup.
  assert (E120 : 2 ^ Z.log2 mh * 2 ^ up = 2 ^ 120)
    by (rewrite <- Z.pow_add_r by (unfold up; lia); f_equal; unfold up; lia).
  assert (Hhm : 2 ^ 120 <= mh * 2 ^ up < 2 ^ 121) by (change (2 ^ 121) with (2 * 2 ^ 120); nia).
  assert (H121 : 4 * 2 ^ 121 < 2 ^ 128) by done.
  rewrite (wshl_exact 128 mh up) by (unfold up in *; lia).
  assert (Hshift : 0 <= el - h -> ml * 2 ^ (el - h) < 2 ^ 121).
  { intros Hs. pose proof (Z.pow_pos_nonneg 2 (el - h) ltac:(lia) Hs). pose proof (Z.log2_nonneg ml).
    apply Z.lt_le_trans with (2 * 2 ^ Z.log2 ml * 2 ^ (el - h)); [nia|].
    rewrite <- Z.pow_succ_r, <- Z.pow_add_r by lia. apply Z.pow_le_mono_r; unfold h, up in *; lia. }
  pose proof (add_align_spec ml (el - h) Hml Hshift) as Ha.
  destruct (add_align ml (el - h)) as [lm sticky]. destruct Ha as (f & Hv & Hfr & Hst & Hlm & Hsm).
  replace (IZR mh * bpow eh)%R with (IZR (mh * 2 ^ up) * bpow h)%R.
  2: { rewrite mult_IZR, <- bpow_nonneg by lia. rewrite Rmult_assoc, <- bpow_add.
       do 2 f_equal. unfold h. lia. }
  replace (IZR ml * bpow el)%R with ((IZR lm + f) * bpow h)%R.
  2: { rewrite <- Hv, Rmult_assoc, <- bpow_add. do 2 f_equal. lia. }
  set (hm := mh * 2 ^ up) in *. pose proof (bpow_pos h).
  destruct (eqb sh sl) eqn:Es.
  - apply eqb_prop in Es as ->. right. exists sl, ((IZR hm + (IZR lm + f)) * bpow h)%R.
    assert (0 < IZR hm)%R by (apply IZR_lt; lia). assert (0 <= IZR lm)%R by (apply IZR_le; lia).
    split; [nra|]. split; [destruct sl; simpl; ring|]. by apply add_same.
  - assert (sl = negb sh) as -> by (by destruct sh, sl). rewrite signed_neg.
    rewrite !wshl_exact by (change (2 ^ 2) with 4; lia). change (2 ^ 2) with 4.
    assert (Hlor : Z.lor (lm * 4) (of_bool sticky) = 4 * lm + of_bool sticky).
    { change 4 with (2 ^ 2) at 1. rewrite lor_join by (destruct sticky; done).
      change (2 ^ 2) with 4. lia. }
    rewrite Hlor, (Z.mul_comm hm). destruct sticky; simpl of_bool.
    + specialize (Hsm eq_refl). assert (2 ^ 106 < 2 ^ 120) by done.
      assert (Hf0 : f <> 0%R) by (intros E; by apply Hst in E).
      destruct (Z.leb_spec (4 * lm + 1) (4 * hm)); [|lia].
      destruct (Z.eqb_spec (4 * hm - (4 * lm + 1)) 0); [lia|]. apply sub_sticky; [done|lia|lra].
    + assert (f = 0%R) as -> by (by apply Hst). rewrite Z.add_0_r, Rplus_0_r. by apply sub_exact.
Qed.
End Ordered.

Lemma leading_exponent e m : 0 < m < 2 ^ 128 -> e + (127 - leading_zeros 128 m) = e + Z.log2 m.
Proof. intros Hm. destruct (normalize m Hm) as (E & _). lia. Qed.

Lemma add_wide_rounds fmt s1 m1 e1 s2 m2 e2 mode flags :
  fmt_ok fmt -> 0 < m1 < 2 ^ 106 -> 0 < m2 < 2 ^ 106 ->
  sum_rounds fmt mode (signed s1 (IZR m1 * bpow e1) + signed s2 (IZR m2 * bpow e2)) flags
    (add_wide fmt s1 m1 e1 s2 m2 e2 mode flags).
Proof.
  intros Hf H1 H2. assert (2 ^ 106 < 2 ^ 128) by done. unfold add_wide, pair_ge.
  rewrite !leading_exponent by lia.
  destruct (Z.ltb_spec (e2 + Z.log2 m2) (e1 + Z.log2 m1)),
    (Z.eqb_spec (e1 + Z.log2 m1) (e2 + Z.log2 m2)), (Z.leb_spec m2 m1); simpl;
    first [apply add_ordered_rounds; (done || lia)
          | rewrite Rplus_comm; apply add_ordered_rounds; (done || lia)].
Qed.

(** ** Addition *)

(** An operand returned as it is. *)
Definition returns (fmt : Fmt.t) (d : datum) (flags : Z) (r : Z * Z) : Prop :=
  interp fmt r.1 = d /\ r.2 = flags.

Definition ieee_add (fmt : Fmt.t) (mode : RoundingMode) (flags : Z) (x y : datum) (r : Z * Z) :
    Prop :=
  match x, y with
  | NaN _, _ | _, NaN _ =>
      r = (qnan fmt, raise_if (is_signaling x || is_signaling y) fflags.NV flags)
  | Inf s1, Inf s2 =>
      r = if eqb s1 s2 then (inf_pat_of fmt s1, flags) else (qnan fmt, Z.lor flags fflags.NV)
  | Inf s, _ | _, Inf s => r = (inf_pat_of fmt s, flags)
  | Zero s1, Zero s2 =>
      r = (zero_of fmt (if eqb s1 s2 then s1 else bool_decide (mode = Rdn)), flags)
  | Zero _, d | d, Zero _ => returns fmt d flags r
  | Finite s a, Finite t b => sum_rounds fmt mode (signed s a + signed t b) flags r
  end.

Lemma sf_add_ieee fmt a b mode flags :
  fmt_ok fmt -> fits (Fmt.width fmt) a -> fits (Fmt.width fmt) b ->
  ieee_add fmt mode flags (interp fmt a) (interp fmt b) (sf_add fmt a b mode flags).
Proof.
  intros Hf Ha Hb. pose proof (decompose_interp fmt Hf a Ha) as Da.
  pose proof (decompose_interp fmt Hf b Hb) as Db. unfold sf_add.
  assert (E : forall d, d = interp fmt a -> returns fmt d flags (a, flags)) by (by intros d ->).
  assert (E' : forall d, d = interp fmt b -> returns fmt d flags (b, flags)) by (by intros d ->).
  pose proof (pow_p_53 fmt Hf). assert (2 ^ 53 < 2 ^ 106) by done.
  destruct (decompose fmt a) as [sa|sa|ga|sa ma ea], (decompose fmt b) as [sb|sb|gb|sb mb eb];
    read_operand Da Hma; read_operand Db Hmb; specialize (E _ (eq_sym Da));
    specialize (E' _ (eq_sym Db)); rewrite Da, Db; special_results fmt Hf; try done.
  - unfold ieee_add. by destruct (eqb sa sb).
  - unfold ieee_add. by destruct (eqb sa sb).
  - apply add_wide_rounds; (done || lia).
Qed.

(** Subtraction is addition of the operand with the opposite sign. *)
Definition neg_datum (d : datum) : datum :=
  match d with Zero s => Zero (negb s) | Inf s => Inf (negb s) | NaN g => NaN g
          | Finite s x => Finite (negb s) x end.

Lemma sign_bit_eq fmt : fmt_ok fmt -> Fmt.sign_bit fmt = 2 ^ (Fmt.width fmt - 1).
Proof.
  intros Hf. pose proof (pack_zero_eq fmt Hf true) as H. unfold Fmt.pack_zero, signed_pat in H.
  simpl in H. lia.
Qed.

Lemma interp_neg fmt b :
  fmt_ok fmt -> interp fmt (Z.lxor b (Fmt.sign_bit fmt)) = neg_datum (interp fmt b).
Proof.
  intros Hf. rewrite sign_bit_eq by done. pose proof (w1_range fmt Hf). pose proof (mb_range fmt Hf).
  unfold interp. set (w := Fmt.width fmt - 1) in *.
  assert (Hmod : Z.lxor b (2 ^ w) mod 2 ^ w = b mod 2 ^ w).
  { rewrite <- !Z.land_ones by lia. apply Z.bits_inj'. intros k Hk.
    rewrite !Z.land_spec, Z.lxor_spec, Z.testbit_ones, Z.pow2_bits_eqb by lia.
    destruct (Z.leb_spec 0 k), (Z.ltb_spec k w), (Z.eqb_spec w k); try lia; btauto. }
  assert (Hbit : forall k, 0 <= k -> Z.testbit (Z.lxor b (2 ^ w)) k = xorb (Z.testbit b k) (w =? k)).
  { intros k Hk. by rewrite Z.lxor_spec, Z.pow2_bits_eqb by lia. }
  rewrite Hmod, !Hbit, Z.eqb_refl by lia.
  assert (Hw : (w =? Fmt.mant_bits fmt - 1) = false).
  { apply Z.eqb_neq. unfold w, Fmt.width, Fmt.mant_bits. destruct Hf. lia. }
  rewrite Hw, xorb_true_r, xorb_false_r.
  destruct (_ <? _); [done|]. destruct (b mod _ =? inf_mag fmt); [done|].
  by destruct (b mod _ =? 0).
Qed.

(** ** Fused multiply-add *)

Definition ieee_fma (fmt : Fmt.t) (mode : RoundingMode) (flags : Z) (x y z : datum) (r : Z * Z) :
    Prop :=
  let psign := xorb (datum_sign x) (datum_sign y) in
  let invalid := match x, y with Inf _, Zero _ | Zero _, Inf _ => true | _, _ => false end in
  let nan_flags :=
    raise_if (is_signaling x || is_signaling y || is_signaling z || invalid) fflags.NV flags in
  match x, y, z with
  | NaN _, _, _ | _, NaN _, _ | _, _, NaN _ => r = (qnan fmt, nan_flags)
  | Inf _, Zero _, _ | Zero _, Inf _, _ => r = (qnan fmt, nan_flags)
  | Inf _, _, Inf s | _, Inf _, Inf s =>
      r = if eqb s psign then (inf_pat_of fmt psign, flags) else (qnan fmt, Z.lor flags fflags.NV)
  | Inf _, _, _ | _, Inf _, _ => r = (inf_pat_of fmt psign, flags)
  | _, _, Inf s => r = (inf_pat_of fmt s, flags)
  | Zero _, _, Zero s | _, Zero _, Zero s =>
      r = (zero_of fmt (if eqb s psign then s else bool_decide (mode = Rdn)), flags)
  | Zero _, _, d | _, Zero _, d => returns fmt d flags r
  | Finite _ a, Finite _ b, Zero _ => correctly_rounded fmt mode psign (a * b) flags r
  | Finite _ a, Finite _ b, Finite s c =>
      sum_rounds fmt mode (signed psign (a * b) + signed s c) flags r
  end.

Lemma sf_fma_ieee fmt a b c mode flags :
  fmt_ok fmt -> fits (Fmt.width fmt) a -> fits (Fmt.width fmt) b -> fits (Fmt.width fmt) c ->
  ieee_fma fmt mode flags (interp fmt a) (interp fmt b) (interp fmt c) (sf_fma fmt a b c mode flags).
Proof.
  intros Hf Ha Hb Hc. pose proof (decompose_interp fmt Hf a Ha) as Da.
  pose proof (decompose_interp fmt Hf b Hb) as Db. pose proof (decompose_interp fmt Hf c Hc) as Dc.
  unfold sf_fma.
  assert (E : forall d, d = interp fmt c -> returns fmt d flags (c, flags)) by (by intros d ->).
  pose proof (pow_p_53 fmt Hf). assert (2 ^ 53 * 2 ^ 53 = 2 ^ 106) by done.
  assert (2 ^ 106 < 2 ^ 128) by done.
  destruct (decompose fmt a) as [sa|sa|ga|sa ma ea], (decompose fmt b) as [sb|sb|gb|sb mb eb],
    (decompose fmt c) as [sc|sc|gc|sc mc ec].
  all: read_operand Da Hma; read_operand Db Hmb; read_operand Dc Hmc;
    specialize (E _ (eq_sym Dc)); rewrite Da, Db, Dc; special_results fmt Hf; simpl;
    rewrite ?orb_false_r; try done; try (by destruct (eqb sc (xorb sa sb))).
  all: destruct (exact_product fmt ma ea mb eb Hf Hma Hmb) as (-> & Hm & ->).
  - apply round_exact; [done|lia].
  - apply add_wide_rounds; (done || lia).
Qed.

(** ** Conversions *)

(** Conversion between formats: the value is rounded to the destination. *)
Definition ieee_convert (dst : Fmt.t) (mode : RoundingMode) (flags : Z) (x : datum) (r : Z * Z) :
    Prop :=
  match x with
  | NaN s => r = (qnan dst, raise_if s fflags.NV flags)
  | Inf s => r = (inf_pat_of dst s, flags)
  | Zero s => r = (zero_of dst s, flags)
  | Finite s a => correctly_rounded dst mode s a flags r
  end.

Lemma fcvt_round_ieee src dst a mode flags :
  fmt_ok src -> fmt_ok dst -> fits (Fmt.width src) a ->
  ieee_convert dst mode flags (interp src a) (fcvt_round src dst a mode flags).
Proof.
  intros Hs Hd Ha. pose proof (decompose_interp src Hs a Ha) as Da. unfold fcvt_round.
  pose proof (pow_p_53 src Hs). assert (2 ^ 53 < 2 ^ 128) by done.
  destruct (decompose src a) as [sa|sa|ga|sa ma ea]; read_operand Da Hma; rewrite Da;
    special_results dst Hd; try done.
  apply round_exact; [done|lia].
Qed.

(** Conversion of an i128 integer. *)
Lemma itof_fmt_rounds fmt v mode flags :
  fmt_ok fmt -> - 2 ^ 127 <= v < 2 ^ 127 ->
  (v = 0 /\ itof_fmt fmt v mode flags = (zero_of fmt false, flags))
  \/ (v <> 0 /\ correctly_rounded fmt mode (v <? 0) (IZR (Z.abs v)) flags
        (itof_fmt fmt v mode flags)).
Proof.
  intros Hf Hv. unfold itof_fmt. destruct (Z.eqb_spec v 0) as [->|Hne]; [by left|right].
  split; [done|]. rewrite <- (Rmult_1_r (IZR _)). rewrite <- bpow_0. apply round_exact; [done|].
  assert (2 ^ 127 < 2 ^ 128) by done. lia.
Qed.
