(* ===== verification/RvFloatWf.v ===== *)
(** * Well-formed floating-point results

    Bit patterns as a sign and a magnitude, and the proof that every
    floating-point operation returns a pattern of its format in which the only
    NaN is the canonical one. *)

From S2P Require Import Prelude RvFloat RvHostFloat RvFloatOps RvRound RvFloatSpec RvFloatAdd.

(** A pattern of the format, and no NaN but the canonical one. *)
Definition fp_wf (fmt : Fmt.t) (r : Z) : Prop :=
  fits (Fmt.width fmt) r /\ (Sf.is_nan fmt r = true -> r = Fmt.canon fmt).

(** ** Signs and magnitudes *)

Section Patterns.
Variable fmt : Fmt.t.
Hypothesis Hfmt : fmt_ok fmt.

Abbreviation w1 := (Fmt.width fmt - 1).
Abbreviation inf := (inf_mag fmt).
Abbreviation sp := (signed_pat fmt).

Lemma width_pos : 0 <= w1 < 64 /\ 2 ^ Fmt.width fmt = 2 * 2 ^ w1 /\ 0 < 2 ^ w1.
Proof.
  pose proof (w1_range fmt Hfmt). split; [done|]. split; [|apply Z.pow_pos_nonneg; lia].
  rewrite <- Z.pow_succ_r by lia. f_equal. lia.
Qed.

Lemma mag_range x : 0 <= Sf.mag fmt x < 2 ^ w1.
Proof. apply Z.mod_pos_bound, width_pos. Qed.

(** Every pattern is that of its sign and magnitude. *)
Lemma pattern_split x :
  fits (Fmt.width fmt) x -> x = sp (Sf.is_sign_negative fmt x) (Sf.mag fmt x).
Proof.
  intros [H0 H1]. destruct width_pos as (Hw & Hp & Hpos). rewrite Hp in H1.
  unfold signed_pat, Sf.is_sign_negative, Sf.mag.
  rewrite Z.testbit_eqb by lia. pose proof (Z.div_mod x (2 ^ w1) ltac:(lia)).
  pose proof (Z.div_lt_upper_bound x (2 ^ w1) 2 ltac:(lia) ltac:(lia)).
  pose proof (Z.div_pos x (2 ^ w1) ltac:(lia) Hpos). rewrite (Z.mod_small (x / _)) by lia.
  destruct (Z.eqb_spec (x / 2 ^ w1) 1); simpl; nia.
Qed.

Lemma signed_pat_fits s n : 0 <= n < 2 ^ w1 -> fits (Fmt.width fmt) (sp s n).
Proof.
  intros Hn. destruct width_pos as (_ & Hp & _). unfold fits, signed_pat. rewrite Hp.
  destruct s; simpl; lia.
Qed.

Lemma mag_signed_pat s n : 0 <= n < 2 ^ w1 -> Sf.mag fmt (sp s n) = n.
Proof.
  intros Hn. unfold Sf.mag, signed_pat. rewrite Z.add_comm, Z_mod_plus_full. by apply Z.mod_small.
Qed.

Lemma sign_signed_pat s n : 0 <= n < 2 ^ w1 -> Sf.is_sign_negative fmt (sp s n) = s.
Proof.
  intros Hn. destruct width_pos as (Hw & _ & Hpos). unfold Sf.is_sign_negative, signed_pat.
  rewrite Z.testbit_eqb, Z.div_add_l, Z.div_small by lia. by destruct s.
Qed.

Lemma inf_lt_width : 0 < inf < 2 ^ w1.
Proof. pose proof (inf_range fmt Hfmt). pose proof (pow_mb_pos fmt Hfmt). lia. Qed.

Lemma canon_mag : Sf.canon fmt = Fmt.canon fmt /\ fits (Fmt.width fmt) (Fmt.canon fmt)
  /\ inf < Sf.mag fmt (Fmt.canon fmt).
Proof.
  rewrite canon_eq by done. unfold Sf.canon, qnan.
  pose proof (mb_range fmt Hfmt). pose proof (inf_range fmt Hfmt) as [? Hi].
  destruct width_pos as (_ & Hp & _).
  assert (0 < 2 ^ (Fmt.mant_bits fmt - 1) < 2 ^ Fmt.mant_bits fmt)
    by (split; [apply Z.pow_pos_nonneg; lia | apply Z.pow_lt_mono_r; lia]).
  split; [done|]. split; [unfold fits; lia|]. unfold Sf.mag. rewrite Z.mod_small; lia.
Qed.

(** A number, that is a pattern that is no NaN. *)
Definition number (x : Z) : Prop := fits (Fmt.width fmt) x /\ Sf.mag fmt x <= inf.

Lemma number_pat s n : 0 <= n <= inf -> number (sp s n).
Proof.
  intros Hn. pose proof inf_lt_width. split; [apply signed_pat_fits; lia|].
  rewrite mag_signed_pat; lia.
Qed.

Lemma number_inv x : number x -> exists s n, x = sp s n /\ 0 <= n <= inf.
Proof.
  intros [Hf Hm]. exists (Sf.is_sign_negative fmt x), (Sf.mag fmt x).
  split; [by apply pattern_split | pose proof (mag_range x); lia].
Qed.

Lemma number_wf x : number x -> fp_wf fmt x.
Proof. intros [Hf Hm]. split; [done|]. unfold Sf.is_nan. destruct (Z.ltb_spec inf (Sf.mag fmt x)); lia. Qed.

Lemma not_nan_number x : fits (Fmt.width fmt) x -> Sf.is_nan fmt x = false -> number x.
Proof. intros Hf Hn. split; [done|]. unfold Sf.is_nan in Hn. lia. Qed.

Lemma canon_wf : fp_wf fmt (Fmt.canon fmt).
Proof. destruct canon_mag as (_ & Hf & _). by split. Qed.

Lemma wf_not_nan x : fp_wf fmt x -> Sf.is_nan fmt x = false -> number x.
Proof. intros [Hf _]. by apply not_nan_number. Qed.

(** ** Soft-float *)

Lemma number_zero s : number (Fmt.pack_zero fmt s).
Proof. rewrite pack_zero_eq by done. apply number_pat. pose proof inf_lt_width. lia. Qed.
Lemma number_inf s : number (Fmt.pack_inf fmt s).
Proof. rewrite pack_inf_eq by done. apply number_pat. pose proof inf_lt_width. lia. Qed.

Lemma number_pack s field frac : 0 <= field < Fmt.max_field fmt -> number (Fmt.pack fmt s field frac).
Proof.
  intros Hf. pose proof (max_field_range fmt Hfmt). pose proof (pow_mb_pos fmt Hfmt).
  pose proof (Z.mod_pos_bound frac (2 ^ Fmt.mant_bits fmt) ltac:(lia)).
  rewrite pack_eq by (done || lia). apply number_pat. unfold inf_mag. nia.
Qed.

Lemma number_overflow s mode : number (overflow_value fmt s mode).
Proof.
  pose proof inf_lt_width. rewrite overflow_value_eq by done. apply number_pat.
  unfold over_mag. destruct mode, s; lia.
Qed.

Lemma number_round_pack s mag exp sticky mode flags :
  number (round_pack fmt s mag exp sticky mode flags).1.
Proof.
  pose proof (max_field_range fmt Hfmt). unfold round_pack.
  destruct (mag =? 0); [apply number_zero|]. cbv zeta.
  match goal with |- context [if ?b <? 1 then _ else _] => destruct (Z.ltb_spec b 1) end;
    destruct (round_split _ _ _) as [[sig guard] sticky']; unfold round_finish.
  - change (0 =? 0) with true. cbv iota.
    destruct (negb _); apply number_pack; lia.
  - destruct (Z.eqb_spec (127 + (exp - leading_zeros 128 mag) + Fmt.bias fmt) 0); [lia|].
    destruct (negb (wshr 64 _ (Fmt.p fmt) =? 0));
      (match goal with |- context [if ?c then _ else _] => destruct c eqn:E end;
       [apply number_overflow | apply number_pack; lia]).
Qed.

Lemma number_decompose x :
  fits (Fmt.width fmt) x -> is_nan_dec (decompose fmt x) = false -> number x.
Proof.
  intros Hx Hn. pose proof (decompose_interp fmt Hfmt x Hx) as D. apply not_nan_number; [done|].
  unfold Sf.is_nan. unfold interp in D. destruct (inf <? _) eqn:E; [|done].
  unfold decoded in D. destruct (decompose fmt x); try done; by destruct D.
Qed.
End Patterns.

Create HintDb fpwf discriminated.
#[export] Hint Constants Opaque : fpwf.
#[export] Hint Resolve number_zero number_inf number_round_pack number_overflow canon_wf : fpwf.
#[export] Hint Extern 3 (fp_wf _ _) => apply number_wf : fpwf.
Ltac fp_wf := cbn [fst]; auto with fpwf.

Section Soft.
Variable fmt : Fmt.t.
Hypothesis Hfmt : fmt_ok fmt.

Lemma sf_mul_wf a b mode flags : fp_wf fmt (sf_mul fmt a b mode flags).1.
Proof. unfold sf_mul. repeat case_match; fp_wf. Qed.
Lemma sf_div_wf a b mode flags : fp_wf fmt (sf_div fmt a b mode flags).1.
Proof. unfold sf_div. repeat case_match; fp_wf. Qed.
Lemma sf_sqrt_wf a mode flags : fp_wf fmt (sf_sqrt fmt a mode flags).1.
Proof.
  unfold sf_sqrt. destruct (decompose fmt a) as [|[]| |[]]; fp_wf. cbv zeta.
  repeat match goal with
  | |- context [let '(_, _) := ?x in _] => destruct x
  end; fp_wf.
Qed.

Lemma add_ordered_wf sh mh eh sl ml el mode flags :
  fp_wf fmt (add_ordered fmt sh mh eh sl ml el mode flags).1.
Proof. unfold add_ordered. cbv zeta. destruct (add_align _ _). repeat case_match; fp_wf. Qed.
Lemma add_wide_wf s1 m1 e1 s2 m2 e2 mode flags :
  fp_wf fmt (add_wide fmt s1 m1 e1 s2 m2 e2 mode flags).1.
Proof. unfold add_wide. cbv zeta. case_match; apply add_ordered_wf. Qed.
Hint Resolve add_wide_wf : fpwf.

Lemma decompose_wf x :
  fits (Fmt.width fmt) x -> is_nan_dec (decompose fmt x) = false -> fp_wf fmt x.
Proof. intros. by apply number_wf, number_decompose. Qed.

Lemma sf_add_wf a b mode flags :
  fits (Fmt.width fmt) a -> fits (Fmt.width fmt) b -> fp_wf fmt (sf_add fmt a b mode flags).1.
Proof.
  intros Ha Hb. pose proof (decompose_wf a Ha) as Wa. pose proof (decompose_wf b Hb) as Wb.
  unfold sf_add. destruct (decompose fmt a), (decompose fmt b); repeat case_match; fp_wf.
Qed.

Lemma sf_fma_wf a b c mode flags :
  fits (Fmt.width fmt) c -> fp_wf fmt (sf_fma fmt a b c mode flags).1.
Proof.
  intros Hc. pose proof (decompose_wf c Hc) as Wc. unfold sf_fma. cbv zeta.
  destruct (decompose fmt c) eqn:Ec; cbn [is_nan_dec] in *; rewrite ?orb_true_r;
    repeat match goal with
    | |- context [if ?b then _ else _] => destruct b
    | |- context [let '(_, _) := ?x in _] => destruct x
    end; fp_wf.
Qed.

Lemma fcvt_round_wf src a mode flags : fp_wf fmt (fcvt_round src fmt a mode flags).1.
Proof. unfold fcvt_round. repeat case_match; fp_wf. Qed.

Lemma itof_fmt_wf v mode flags : fp_wf fmt (itof_fmt fmt v mode flags).1.
Proof.
  unfold itof_fmt. case_match; [|fp_wf].
  pose proof (number_zero fmt Hfmt false). fp_wf.
Qed.
End Soft.

(** ** The types of the language *)

Section Host.
Variable fmt : Fmt.t.
Hypothesis Hfmt : fmt_ok fmt.

Abbreviation w1 := (Fmt.width fmt - 1).
Abbreviation inf := (inf_mag fmt).
Abbreviation sp := (signed_pat fmt).
Abbreviation number := (number fmt).

Lemma nearest_even_nonneg m e t : 0 <= m -> 0 <= Sf.nearest_even m e t.
Proof.
  intros Hm. unfold Sf.nearest_even. destruct (Z.leb_spec t e).
  - apply Z.mul_nonneg_nonneg; [done|]. apply Z.pow_nonneg. lia.
  - pose proof (Z.div_pos m (2 ^ (t - e)) Hm ltac:(apply Z.pow_pos_nonneg; lia)) as Hq.
    cbv zeta. pose proof (Z.mod_pos_bound (m / 2 ^ (t - e)) 2). case_match; lia.
Qed.

Lemma number_round s m e : 0 <= m -> number (Sf.round fmt s m e).
Proof.
  intros Hm. pose proof (inf_lt_width fmt Hfmt). unfold Sf.round.
  destruct (m =? 0); [apply number_pat; (done || lia)|]. cbv zeta. apply number_pat; [done|].
  set (t := Z.max _ _). pose proof (nearest_even_nonneg m e t Hm).
  pose proof (pow_mb_pos fmt Hfmt). assert (0 <= pat fmt t (Sf.nearest_even m e t)); [|lia].
  unfold pat. assert (emin fmt <= t) by lia. nia.
Qed.

Lemma mag_neg x : Sf.mag fmt (Sf.neg fmt x) = Sf.mag fmt x.
Proof.
  destruct (width_pos fmt Hfmt) as ([Hw _] & _ & _). unfold Sf.mag, Sf.neg.
  rewrite <- !Z.land_ones by lia. apply Z.bits_inj'. intros k Hk.
  rewrite !Z.land_spec, Z.lxor_spec, Z.testbit_ones, Z.pow2_bits_eqb by lia.
  destruct (Z.eqb_spec w1 k), (Z.leb_spec 0 k), (Z.ltb_spec k w1); try lia;
    rewrite ?andb_false_r, ?xorb_false_r; done.
Qed.

Lemma sign_neg x : Sf.is_sign_negative fmt (Sf.neg fmt x) = negb (Sf.is_sign_negative fmt x).
Proof.
  destruct (width_pos fmt Hfmt) as ([Hw _] & _ & _). unfold Sf.is_sign_negative, Sf.neg.
  rewrite Z.lxor_spec, Z.pow2_bits_true by lia. apply xorb_true_r.
Qed.

Lemma fits_neg x : fits (Fmt.width fmt) x -> fits (Fmt.width fmt) (Sf.neg fmt x).
Proof.
  intros Hx. destruct (width_pos fmt Hfmt) as ([Hw _] & Hp & Hpos). unfold Sf.neg.
  apply fits_lxor; [done|]. unfold fits. lia.
Qed.

Lemma number_neg x : number x -> number (Sf.neg fmt x).
Proof. intros [Hx Hm]. split; [by apply fits_neg | by rewrite mag_neg]. Qed.

(** The pattern of the negation. *)
Lemma neg_pat s n : 0 <= n < 2 ^ w1 -> Sf.neg fmt (sp s n) = sp (negb s) n.
Proof.
  intros Hn. rewrite (pattern_split fmt Hfmt (Sf.neg fmt (sp s n))).
  - by rewrite sign_neg, mag_neg, sign_signed_pat, mag_signed_pat by done.
  - by apply fits_neg, signed_pat_fits.
Qed.

Lemma parts_nonneg x : 0 <= (Sf.parts fmt x).1.
Proof.
  pose proof (mag_range fmt Hfmt x). pose proof (pow_mb_pos fmt Hfmt).
  pose proof (Z.mod_pos_bound (Sf.mag fmt x) (2 ^ Fmt.mant_bits fmt) ltac:(lia)).
  unfold Sf.parts. case_match; simpl; lia.
Qed.

Lemma host_add_wf a b : number a -> number b -> fp_wf fmt (Sf.add fmt a b).
Proof.
  intros Ha Hb. unfold Sf.add. pose proof (canon_mag fmt Hfmt) as [E _].
  rewrite E. destruct (_ || _); [fp_wf|].
  destruct (Sf.is_infinite fmt a); [destruct (_ && _); fp_wf|].
  destruct (Sf.is_infinite fmt b); [fp_wf|].
  destruct (Sf.parts fmt a), (Sf.parts fmt b). cbv zeta. destruct (_ =? 0); apply number_wf.
  - apply number_pat; [done|]. pose proof (inf_lt_width fmt Hfmt). lia.
  - apply number_round. lia.
Qed.

Lemma host_add_number a b :
  number a -> number b -> Sf.is_infinite fmt a = false -> Sf.is_infinite fmt b = false ->
  number (Sf.add fmt a b).
Proof.
  intros Ha Hb Ia Ib. unfold Sf.add. rewrite Ia, Ib. unfold Sf.is_nan.
  destruct Ha as [_ Ha], Hb as [_ Hb].
  destruct (Z.ltb_spec inf (Sf.mag fmt a)), (Z.ltb_spec inf (Sf.mag fmt b)); try lia. simpl.
  destruct (Sf.parts fmt a), (Sf.parts fmt b). case_match; [|apply number_round; lia].
  apply number_pat; [done|]. pose proof (inf_lt_width fmt Hfmt). lia.
Qed.
End Host.

(** ** Operations on the types of the language *)

Definition host_fmt (fmt : Fmt.t) : Prop := fmt = F32 \/ fmt = F64.

Lemma host_fmt_ok fmt : host_fmt fmt -> fmt_ok fmt.
Proof. intros [-> | ->]; [apply F32_ok | apply F64_ok]. Qed.

Section Generic.
Variable fmt : Fmt.t.
Hypothesis Hhost : host_fmt fmt.

Abbreviation w1 := (Fmt.width fmt - 1).
Abbreviation inf := (inf_mag fmt).
Abbreviation sp := (signed_pat fmt).
Abbreviation number := (number fmt).
Let Hfmt : fmt_ok fmt := host_fmt_ok fmt Hhost.

Lemma add_bits_eq b d : fits (Fmt.width fmt) b -> add_bits fmt b d = (b + d) mod 2 ^ Fmt.width fmt.
Proof.
  intros Hb. unfold add_bits, wadd. destruct Hhost as [-> | ->]; [|reflexivity].
  change (Fmt.width F32) with 32 in *. cbv iota. rewrite (as_u_small 32 b Hb).
  apply Zplus_mod_idemp_r.
Qed.

Lemma inc_pat s n : 0 <= n < inf -> inc_bits fmt (sp s n) = sp s (n + 1).
Proof.
  intros Hn. pose proof (inf_lt_width fmt Hfmt).
  pose proof (signed_pat_fits fmt Hfmt s n ltac:(lia)) as H1.
  pose proof (signed_pat_fits fmt Hfmt s (n + 1) ltac:(lia)) as H2.
  unfold inc_bits. rewrite add_bits_eq by done.
  replace (sp s n + 1) with (sp s (n + 1)) by (unfold signed_pat; lia). by apply Z.mod_small.
Qed.

Lemma dec_pat s n : 0 < n <= inf -> dec_bits fmt (sp s n) = sp s (n - 1).
Proof.
  intros Hn. pose proof (inf_lt_width fmt Hfmt).
  pose proof (signed_pat_fits fmt Hfmt s n ltac:(lia)) as H1.
  pose proof (signed_pat_fits fmt Hfmt s (n - 1) ltac:(lia)) as H2.
  unfold dec_bits. rewrite add_bits_eq by done. unfold umax.
  assert (Hd : exists k, 2 ^ 64 = k * 2 ^ Fmt.width fmt)
    by (destruct Hhost as [-> | ->]; [by exists (2 ^ 32) | by exists 1]).
  destruct Hd as [k ->].
  replace (sp s n + (k * 2 ^ Fmt.width fmt - 1)) with (sp s (n - 1) + k * 2 ^ Fmt.width fmt)
    by (unfold signed_pat; lia).
  rewrite Z_mod_plus_full. by apply Z.mod_small.
Qed.

(** The number after [x], in signed magnitudes. *)
Lemma next_up_pat s n :
  0 <= n <= inf -> (s = false -> n < inf) ->
  next_up fmt (sp s n) =
    if n =? 0 then sp false 1 else if s then sp true (n - 1) else sp false (n + 1).
Proof.
  intros Hn Hs. pose proof (inf_lt_width fmt Hfmt). unfold next_up, Sf.is_nan, Sf.is_infinite, Sf.is_zero.
  rewrite mag_signed_pat, sign_signed_pat by (apply Hfmt || lia).
  destruct (Z.ltb_spec inf n), (Z.eqb_spec n inf); try lia; destruct s; try specialize (Hs eq_refl);
    try lia; simpl; destruct (Z.eqb_spec n 0); try lia.
  - apply dec_pat. lia.
  - apply (inc_pat false 0). lia.
  - apply dec_pat. lia.
  - apply (inc_pat false 0). lia.
  - apply inc_pat. lia.
Qed.

Lemma number_next_up x : number x -> number (next_up fmt x).
Proof.
  intros Hx. pose proof (inf_lt_width fmt Hfmt). destruct (decide (x = sp false inf)) as [->|Hne].
  - unfold next_up, Sf.is_nan, Sf.is_infinite.
    rewrite mag_signed_pat, sign_signed_pat by (apply Hfmt || lia).
    by rewrite Z.eqb_refl, orb_true_r.
  - destruct (number_inv fmt Hfmt x Hx) as (s & n & -> & Hn).
    assert (Hi : s = false -> n < inf) by
      (intros ->; destruct (decide (n = inf)) as [-> |]; [done|lia]).
    rewrite next_up_pat by (done || lia).
    destruct (Z.eqb_spec n 0); [|destruct s]; apply number_pat; try apply Hfmt; try lia.
Qed.

Lemma number_next_down x : number x -> number (next_down fmt x).
Proof. intros Hx. unfold next_down. auto using number_neg, number_next_up. Qed.

Lemma number_0 : number 0.
Proof.
  pose proof (number_pat fmt Hfmt false 0) as H0. pose proof (inf_lt_width fmt Hfmt).
  apply H0. lia.
Qed.
Lemma number_max : number (Sf.max_finite fmt).
Proof.
  pose proof (number_pat fmt Hfmt false (inf - 1)) as H0. pose proof (inf_lt_width fmt Hfmt).
  apply H0. lia.
Qed.

Lemma number_correct rne delta mode fin flags :
  number rne -> number (correct fmt rne delta mode fin flags).1.
Proof.
  intros Hr. pose proof (number_next_up rne Hr). pose proof (number_next_down rne Hr).
  pose proof number_max as Hm. pose proof (number_neg fmt Hfmt _ Hm).
  unfold correct, min_mag, max_mag. cbv zeta.
  repeat match goal with |- context [if ?c then _ else _] => destruct c end;
    destruct mode; simpl; auto.
Qed.

Lemma add_wf a b mode flags :
  fits (Fmt.width fmt) a -> fits (Fmt.width fmt) b -> fp_wf fmt (add fmt a b mode flags).1.
Proof.
  intros Ha Hb. pose proof (canon_mag fmt Hfmt) as [E _]. pose proof (canon_wf fmt Hfmt) as Hc.
  unfold add, nan_result. rewrite E.
  destruct (Sf.is_nan fmt a) eqn:Na; [done|]. destruct (Sf.is_nan fmt b) eqn:Nb; [done|].
  pose proof (not_nan_number fmt a Ha Na) as Ha'. pose proof (not_nan_number fmt b Hb Nb) as Hb'.
  simpl orb. cbv iota. destruct (_ && negb _); [done|].
  destruct (Sf.is_infinite fmt a) eqn:Ia; [apply host_add_wf; (apply Hfmt || done)|].
  destruct (Sf.is_infinite fmt b) eqn:Ib; [apply host_add_wf; (apply Hfmt || done)|].
  pose proof (host_add_number fmt Hfmt a b Ha' Hb' Ia Ib) as Hr. simpl orb. cbv zeta iota.
  apply number_wf. destruct (Sf.is_infinite fmt (Sf.add fmt a b)); [by apply number_correct|].
  destruct (_ && negb _); [|by apply number_correct].
  apply number_neg; [apply Hfmt | apply number_0].
Qed.

Lemma sub_wf a b mode flags :
  fits (Fmt.width fmt) a -> fits (Fmt.width fmt) b -> fp_wf fmt (sub fmt a b mode flags).1.
Proof. intros. unfold sub. apply add_wf; [done|]. apply fits_neg; [apply Hfmt | done]. Qed.

(** The selections return the canonical NaN or an operand that is a number. *)
Lemma select_wf a b :
  fits (Fmt.width fmt) a -> fits (Fmt.width fmt) b ->
  (Sf.is_nan fmt a = false -> fp_wf fmt a) /\ (Sf.is_nan fmt b = false -> fp_wf fmt b)
  /\ fp_wf fmt (Sf.canon fmt).
Proof.
  intros. destruct (canon_mag fmt Hfmt) as [-> _]. split_and!; intros;
    [by apply number_wf, not_nan_number..|]. by apply canon_wf, Hfmt.
Qed.

Ltac selection a b :=
  intros Ha Hb; destruct (select_wf a b Ha Hb) as (Wa & Wb & Wc);
  destruct (Sf.is_nan fmt a), (Sf.is_nan fmt b); simpl; repeat case_match; auto.

Lemma fmin_wf a b flags :
  fits (Fmt.width fmt) a -> fits (Fmt.width fmt) b -> fp_wf fmt (fmin fmt a b flags).1.
Proof. unfold fmin. selection a b. Qed.
Lemma fmax_wf a b flags :
  fits (Fmt.width fmt) a -> fits (Fmt.width fmt) b -> fp_wf fmt (fmax fmt a b flags).1.
Proof. unfold fmax. selection a b. Qed.
Lemma fminm_wf a b flags :
  fits (Fmt.width fmt) a -> fits (Fmt.width fmt) b -> fp_wf fmt (fminm fmt a b flags).1.
Proof. unfold fminm. selection a b. Qed.
Lemma fmaxm_wf a b flags :
  fits (Fmt.width fmt) a -> fits (Fmt.width fmt) b -> fp_wf fmt (fmaxm fmt a b flags).1.
Proof. unfold fmaxm. selection a b. Qed.

Lemma integral_mag_nonneg mode s m k : 0 <= m -> 0 <= k -> 0 <= Sf.integral_mag mode s m k.
Proof.
  intros Hm Hk. pose proof (Z.div_pos m (2 ^ k) Hm ltac:(apply Z.pow_pos_nonneg; lia)).
  unfold Sf.integral_mag. cbv zeta.
  destruct mode; repeat case_match; try lia; by apply nearest_even_nonneg.
Qed.

Lemma number_round_integral mode x : number x -> number (Sf.round_integral fmt mode x).
Proof.
  intros Hx. unfold Sf.round_integral. destruct (negb _); [done|].
  pose proof (parts_nonneg fmt Hfmt x) as Hm. destruct (Sf.parts fmt x) as [m e]. simpl in Hm.
  destruct (Z.leb_spec 0 e); [done|]. apply number_round; [apply Hfmt|].
  apply integral_mag_nonneg; lia.
Qed.

Lemma fround_wf x mode nx flags :
  fits (Fmt.width fmt) x -> fp_wf fmt (fround fmt x mode nx flags).1.
Proof.
  intros Hx. destruct (select_wf x x Hx Hx) as (Wx & _ & Wc). unfold fround.
  destruct (Sf.is_nan fmt x) eqn:N; [done|]. destruct (_ || _); [by apply Wx|].
  apply number_wf, number_round_integral. by apply not_nan_number.
Qed.

Lemma itof_wf v mode flags : fp_wf fmt (itof fmt v mode flags).1.
Proof.
  unfold itof. destruct (v =? 0); [apply number_wf, number_0|]. cbv zeta.
  assert (Hr : number (Sf.from_i128 fmt v)) by (apply number_round; [apply Hfmt | lia]).
  pose proof (number_next_up _ Hr). pose proof (number_next_down _ Hr).
  unfold min_mag, max_mag. apply number_wf.
  repeat match goal with |- context [if ?c then _ else _] => destruct c end; destruct mode;
    simpl; auto.
Qed.
End Generic.

(** ** Conversions, constants and half precision *)

Lemma cast_wf src dst x : fmt_ok src -> fmt_ok dst -> fp_wf dst (Sf.cast src dst x).
Proof.
  intros Hs Hd. unfold Sf.cast. destruct (canon_mag dst Hd) as [-> _].
  destruct (Sf.is_nan src x); [by apply canon_wf|]. apply number_wf.
  destruct (Sf.is_infinite src x).
  - apply number_pat; [done|]. pose proof (inf_lt_width dst Hd). lia.
  - pose proof (parts_nonneg src Hs x). destruct (Sf.parts src x). by apply number_round.
Qed.

Lemma canonical_nans :
  CANONICAL_NAN_F32 = Fmt.canon F32 /\ CANONICAL_NAN_F64 = Fmt.canon F64 /\ H_CANON = Fmt.canon F16.
Proof. by vm_compute. Qed.

Lemma f32_to_f64_wf x flags : fp_wf F64 (f32_to_f64 x flags).1.
Proof.
  unfold f32_to_f64. destruct canonical_nans as (_ & -> & _).
  case_match; [apply (canon_wf F64 F64_ok) | apply cast_wf; [apply F32_ok | apply F64_ok]].
Qed.

Lemma f64_to_f32_wf x mode flags : fp_wf F32 (f64_to_f32 x mode flags).1.
Proof.
  assert (H32 : host_fmt F32) by (by left). unfold f64_to_f32. destruct canonical_nans as (-> & _ & _).
  destruct (Sf.is_nan F64 x) eqn:Nx; [apply (canon_wf F32 F32_ok)|].
  destruct (Sf.is_infinite F64 x) eqn:Ix.
  { apply number_wf, number_pat; [apply F32_ok | by vm_compute]. }
  assert (Hr : number F32 (Sf.cast F64 F32 x)).
  { unfold Sf.cast. rewrite Nx, Ix. pose proof (parts_nonneg F64 F64_ok x).
    destruct (Sf.parts F64 x). by apply number_round; [apply F32_ok|]. }
  pose proof (number_next_up F32 H32 _ Hr). pose proof (number_next_down F32 H32 _ Hr).
  apply number_wf. cbv zeta. destruct (Sf.is_infinite F32 _).
  - pose proof (number_correct F32 H32 _ 0 mode true 0 Hr) as Hc.
    by destruct (correct F32 (Sf.cast F64 F32 x) 0 mode true 0).
  - destruct (Sf.is_zero F64 _); [done|]. unfold min_mag, max_mag.
    repeat match goal with |- context [if ?c then _ else _] => destruct c end; destruct mode;
      simpl; auto.
Qed.

Lemma lit_number m e : number F64 (lit m e).
Proof. apply number_round; [apply F64_ok | lia]. Qed.

Lemma fli_wf fmt idx : fmt = F16 \/ fmt = F32 \/ fmt = F64 -> fp_wf fmt (fli fmt idx).
Proof.
  intros Hf. assert (Hok : fmt_ok fmt)
    by (destruct Hf as [-> | [-> | ->]]; [apply F16_ok | apply F32_ok | apply F64_ok]).
  unfold fli. destruct (_ =? 1).
  { apply number_wf, number_pack; [done|]. pose proof (max_field_range fmt Hok). lia. }
  destruct (_ =? 30); [by apply number_wf, number_inf|]. destruct (_ =? 31); [by apply canon_wf|].
  set (v := nth _ _ _). assert (Hv : number F64 v).
  { unfold v. rewrite nth_lookup. destruct (fli_table !! _) as [y|] eqn:E; simpl.
    - apply (Forall_lookup_1 (number F64) fli_table _ _) in E; [done|].
      unfold fli_table. repeat (apply Forall_cons; split; [apply lit_number|]). apply Forall_nil_2.
    - apply (number_0 F64). by right. }
  clearbody v. destruct Hf as [-> | [-> | ->]]; cbn [Fmt.p F16 F32 F64 Z.eqb Pos.eqb].
  - apply fcvt_round_wf, F16_ok.
  - apply cast_wf; [apply F64_ok | apply F32_ok].
  - by apply number_wf.
Qed.

Lemma h_nan_wf a : fits 16 a -> h_nan a = false -> fp_wf F16 a.
Proof. intros. apply decompose_wf; [apply F16_ok | done | done]. Qed.

Lemma h_canon_wf : fp_wf F16 H_CANON.
Proof. destruct canonical_nans as (_ & _ & ->). apply canon_wf, F16_ok. Qed.

Lemma hmin_wf a b pr flags : fits 16 a -> fits 16 b -> fp_wf F16 (hmin a b pr flags).1.
Proof.
  intros Ha Hb. pose proof (h_nan_wf a Ha). pose proof (h_nan_wf b Hb).
  pose proof h_canon_wf. unfold hmin. cbv zeta.
  destruct (h_nan a), (h_nan b), pr; cbn [andb orb fst];
    repeat match goal with |- context [if ?c then _ else _] => destruct c end; auto.
Qed.
Lemma hmax_wf a b pr flags : fits 16 a -> fits 16 b -> fp_wf F16 (hmax a b pr flags).1.
Proof.
  intros Ha Hb. pose proof (h_nan_wf a Ha). pose proof (h_nan_wf b Hb).
  pose proof h_canon_wf. unfold hmax. cbv zeta.
  destruct (h_nan a), (h_nan b), pr; cbn [andb orb fst];
    repeat match goal with |- context [if ?c then _ else _] => destruct c end; auto.
Qed.

Lemma select_h_wf a b flags :
  fits 16 a -> fits 16 b ->
  fp_wf F16 (fmin_h a b flags).1 /\ fp_wf F16 (fmax_h a b flags).1
  /\ fp_wf F16 (fminm_h a b flags).1 /\ fp_wf F16 (fmaxm_h a b flags).1.
Proof.
  intros. unfold fmin_h, fmax_h, fminm_h, fmaxm_h. split_and!; by (apply hmin_wf || apply hmax_wf).
Qed.

Lemma fround_h_wf x mode nx flags : fits 16 x -> fp_wf F16 (fround_h x mode nx flags).1.
Proof.
  intros Hx. pose proof (decompose_wf F16 F16_ok x Hx) as Wx. unfold fround_h.
  pose proof h_canon_wf.
  destruct (decompose F16 x); cbn [fst is_nan_dec] in *; auto.
  match goal with |- context [fcvt_round F32 F16 ?r mode 0] =>
    pose proof (fcvt_round_wf F16 F16_ok F32 r mode 0) as Hw end.
  rewrite as_u_small; [done | apply Hw].
Qed.
