(* ===== verification/RvHostSpec.v ===== *)
(** * The floating-point types against the real numbers

    The arithmetic of [f32] and [f64] rounds to nearest, ties to even, and the
    operations of src/isa/riscv/float.rs that are built on it return what
    IEEE-754 prescribes in every rounding mode. *)

From Stdlib Require Import Reals Lra.
From S2P Require Import Prelude RvFloat RvHostFloat RvFloatOps RvTwoSum RvRound RvFloatSpec RvFloatAdd.
From S2P Require Import RvFloatWf.

(** ** Rounding *)

Section Round.
Variable fmt : Fmt.t.
Hypothesis Hfmt : fmt_ok fmt.

Abbreviation p := (Fmt.p fmt).
Abbreviation mb := (Fmt.mant_bits fmt).
Abbreviation inf := (inf_mag fmt).
Abbreviation sp := (signed_pat fmt).
Abbreviation em := (emin fmt).

(** The place [round] chooses. *)
Lemma round_place m e t :
  0 < m -> t = Z.max (Z.log2 m + e - mb) em ->
  open_place fmt t (if t <=? e then m * 2 ^ (e - t) else m / 2 ^ (t - e)).
Proof.
  intros Hm Ht. pose proof (log2_bounds m Hm) as Hl. pose proof (Z.log2_nonneg m).
  pose proof (mb_range fmt Hfmt). pose proof (pow_p fmt Hfmt) as Hp.
  rewrite <- Z.pow_succ_r in Hl by lia. set (L := Z.log2 m) in *.
  destruct (Z.leb_spec t e) as [Hte|Hte].
  - pose proof (Z.pow_pos_nonneg 2 (e - t) ltac:(lia) ltac:(lia)).
    assert (E1 : 2 ^ L * 2 ^ (e - t) = 2 ^ (L + e - t)) by (rewrite <- Z.pow_add_r by lia; f_equal; lia).
    assert (E2 : 2 ^ Z.succ L * 2 ^ (e - t) = 2 * 2 ^ (L + e - t))
      by (rewrite Z.pow_succ_r, <- Z.mul_assoc, E1 by lia; done).
    destruct (Z.max_spec (L + e - mb) em) as [[Hc E]|[Hc E]]; rewrite E in Ht.
    + left. split; [done|]. split; [nia|].
      assert (2 * 2 ^ (L + e - t) <= 2 ^ mb); [|nia].
      rewrite <- Z.pow_succ_r by lia. apply Z.pow_le_mono_r; lia.
    + right. split; [lia|]. replace (L + e - t) with mb in * by lia. nia.
  - pose proof (Z.pow_pos_nonneg 2 (t - e) ltac:(lia) ltac:(lia)).
    destruct (Z.max_spec (L + e - mb) em) as [[Hc E]|[Hc E]]; rewrite E in Ht.
    + left. split; [done|]. split; [apply Z.div_pos; lia|]. apply Z.div_lt_upper_bound; [lia|].
      rewrite <- Z.pow_add_r by lia. eapply Z.lt_le_trans; [apply Hl|]. apply Z.pow_le_mono_r; lia.
    + right. split; [lia|]. assert (E1 : 2 ^ L = 2 ^ mb * 2 ^ (t - e))
        by (rewrite <- Z.pow_add_r by lia; f_equal; lia).
      rewrite Z.pow_succ_r in Hl by lia. split.
      * apply Z.div_le_lower_bound; lia.
      * apply Z.div_lt_upper_bound; lia.
Qed.

(** The significand [nearest_even] gives is the one rounding to even gives. *)
Lemma nearest_even_split sign m e t :
  0 < m ->
  let s := if t <=? e then m * 2 ^ (e - t) else m / 2 ^ (t - e) in
  exists guard sticky, split_of (IZR m * bpow e) t s guard sticky
    /\ Sf.nearest_even m e t
       = if round_increment Rne sign (negb (guard =? 0) || sticky) guard s sticky then s + 1 else s.
Proof.
  intros Hm s. unfold Sf.nearest_even. unfold s. clear s. destruct (Z.leb_spec t e) as [Hte|Hte].
  - exists 0, false. split; [|done]. exists 0%R. split; [|done].
    rewrite (bpow_split t e), mult_IZR by done. ring.
  - set (k := t - e). assert (Hk : 1 <= k) by lia.
    pose proof (bits_at m k Hk) as Hb. set (h := 2 ^ (k - 1)) in *.
    assert (Hh : 0 < h) by (apply Z.pow_pos_nonneg; lia).
    assert (Hkh : 2 ^ k = 2 * h) by (unfold h; rewrite <- Z.pow_succ_r by lia; f_equal; lia).
    set (q := m / 2 ^ k) in *. set (g := (m / h) mod 2) in *. set (low := m mod h) in *.
    assert (Hg : 0 <= g <= 1) by (pose proof (Z.mod_pos_bound (m / h) 2); lia).
    pose proof (Z.mod_pos_bound m h Hh) as Hl. fold low in Hl.
    assert (Hr : m mod 2 ^ k = g * h + low).
    { pose proof (Z.div_mod m (2 ^ k) ltac:(lia)) as Hdm. fold q in Hdm. lia. }
    exists g, (negb (low =? 0)). split.
    + replace t with (e + k) by lia. apply (split_of_residue (IZR m) 0 _ e k q g low); try done; try lia; try lra.
      * by rewrite Hb at 1.
      * rewrite Rplus_0_r. apply IZR_lt. fold h. lia.
      * destruct (Z.eqb_spec low 0); simpl; split; try done; [|by left].
        intros [?|?]; [done|lra].
    + cbv zeta. rewrite Hr, Hkh. unfold round_increment.
      assert (El : Z.land q 1 = q mod 2) by (by apply (Z.land_ones q 1)). rewrite El.
      assert (g = 0 \/ g = 1) as [-> | ->] by lia.
      * destruct (Z.compare_spec (2 * (0 * h + low)) (2 * h)); [lia|done|lia].
      * destruct (Z.compare_spec (2 * (1 * h + low)) (2 * h)); [|lia|].
        2: { destruct (Z.eqb_spec low 0); [lia|done]. }
        destruct (Z.eqb_spec low 0); [|lia]. pose proof (Z.mod_pos_bound q 2). destruct (Z.eqb_spec (q mod 2) 0); simpl; lia.
Qed.

Lemma signed_pat_inj s n n' : sp s n = sp s n' -> n = n'.
Proof. unfold signed_pat. lia. Qed.

(** [Sf.round] is rounding to nearest, ties to even. *)
Lemma host_round_rounds sign m e :
  0 < m -> exists n, rounds_to fmt Rne sign (IZR m * bpow e) n /\ Sf.round fmt sign m e = sp sign n.
Proof.
  intros Hm. unfold Sf.round. destruct (Z.eqb_spec m 0) as [|_]; [lia|]. cbv zeta.
  set (t := Z.max _ _). pose proof (round_place m e t Hm eq_refl) as Ho.
  destruct (nearest_even_split sign m e t Hm) as (g & st & Hs & ->).
  set (s := if t <=? e then _ else _) in *.
  set (s' := if round_increment _ _ _ _ _ _ then s + 1 else s).
  destruct (Z.lt_ge_cases (pat fmt t s') inf) as [Hlt|Hge].
  - destruct (rounded_in_range fmt Hfmt Rne sign _ t s g st 0 Ho Hs Hlt) as (n & Hr & Hn & _).
    exists n. split; [done|]. apply signed_pat_inj in Hn as <-. by rewrite Z.min_l by lia.
  - destruct (rounded_over fmt Hfmt Rne sign _ t s g st 0 Ho Hs Hge) as (n & Hr & Hn & _).
    exists n. split; [done|]. cbn [fst] in Hn. rewrite <- Hn. rewrite overflow_value_eq by done.
    by rewrite Z.min_r by lia.
Qed.
End Round.

(** ** Integer units

    A finite number in units of the smallest subnormal. *)

Section Units.
Variable fmt : Fmt.t.
Hypothesis Hfmt : fmt_ok fmt.

Abbreviation p := (Fmt.p fmt).
Abbreviation mb := (Fmt.mant_bits fmt).
Abbreviation inf := (inf_mag fmt).
Abbreviation sp := (signed_pat fmt).
Abbreviation em := (emin fmt).

Definition mag_units (n : Z) : Z :=
  if n / 2 ^ mb =? 0 then n mod 2 ^ mb else (2 ^ mb + n mod 2 ^ mb) * 2 ^ (n / 2 ^ mb - 1).

Definition units (x : Z) : Z :=
  if Sf.is_sign_negative fmt x then - mag_units (Sf.mag fmt x) else mag_units (Sf.mag fmt x).

Lemma mag_val_units n : 0 <= n -> mag_val fmt n = (IZR (mag_units n) * bpow em)%R.
Proof.
  intros Hn. pose proof (pow_mb_pos fmt Hfmt). unfold mag_val, mag_units.
  destruct (Z.eqb_spec (n / 2 ^ mb) 0); [done|].
  pose proof (Z.div_pos n (2 ^ mb) Hn ltac:(lia)).
  rewrite (bpow_split em (em + n / 2 ^ mb - 1)) by lia.
  replace (em + n / 2 ^ mb - 1 - em) with (n / 2 ^ mb - 1) by lia. rewrite mult_IZR. ring.
Qed.

(** The next magnitude is one unit of the last place away. *)
Lemma mag_units_succ n :
  0 <= n ->
  exists k, 0 <= k /\ mag_units (n + 1) = mag_units n + 2 ^ k /\ divides_pow k (mag_units n)
    /\ 0 <= mag_units n < 2 ^ p * 2 ^ k /\ (k = 0 \/ 2 ^ (p - 1) * 2 ^ k <= mag_units n).
Proof.
  intros Hn. pose proof (pow_mb_pos fmt Hfmt) as Hp. pose proof (pow_p fmt Hfmt) as Hpp.
  change (p - 1) with mb. pose proof (Z.div_mod n (2 ^ mb) ltac:(lia)) as Hdm.
  pose proof (Z.mod_pos_bound n (2 ^ mb) Hp) as Hr. pose proof (Z.div_pos n (2 ^ mb) Hn Hp) as Hq.
  set (q := n / 2 ^ mb) in *. set (r := n mod 2 ^ mb) in *.
  assert (Hu : mag_units n = if q =? 0 then r else (2 ^ mb + r) * 2 ^ (q - 1)) by done.
  exists (Z.max 0 (q - 1)). split; [lia|].
  assert (Hnext : mag_units (n + 1) = mag_units n + 2 ^ Z.max 0 (q - 1)).
  { rewrite Hu. unfold mag_units. destruct (Z.lt_ge_cases (r + 1) (2 ^ mb)).
    - rewrite <- (Z.div_unique (n + 1) (2 ^ mb) q (r + 1)) by lia.
      rewrite <- (Z.mod_unique (n + 1) (2 ^ mb) q (r + 1)) by lia.
      destruct (Z.eqb_spec q 0) as [->|]; [done|]. rewrite Z.max_r by lia. ring.
    - rewrite <- (Z.div_unique (n + 1) (2 ^ mb) (q + 1) 0) by lia.
      rewrite <- (Z.mod_unique (n + 1) (2 ^ mb) (q + 1) 0) by lia.
      destruct (Z.eqb_spec (q + 1) 0); [lia|]. replace (q + 1 - 1) with q by lia.
      assert (r = 2 ^ mb - 1) as -> by lia. destruct (Z.eqb_spec q 0) as [->|].
      + change (2 ^ 0) with 1. change (2 ^ Z.max 0 (0 - 1)) with 1. lia.
      + rewrite Z.max_r by lia. replace q with (Z.succ (q - 1)) at 1 by lia.
        rewrite Z.pow_succ_r by lia. ring. }
  split; [done|]. rewrite Hu. destruct (Z.eqb_spec q 0) as [->|Hq0].
  - change (2 ^ Z.max 0 (0 - 1)) with 1. split; [apply Z.divide_1_l|]. split; [lia | by left].
  - rewrite Z.max_r by lia. pose proof (Z.pow_pos_nonneg 2 (q - 1) ltac:(lia) ltac:(lia)).
    split; [apply Z.divide_factor_r|]. split; [nia|]. right. nia.
Qed.

Lemma mag_units_0 : mag_units 0 = 0.
Proof. unfold mag_units. by rewrite Z.div_0_l, Z.mod_0_l by (pose proof (pow_mb_pos fmt Hfmt); lia). Qed.

Lemma mag_units_nonneg n : 0 <= n -> 0 <= mag_units n.
Proof. intros Hn. destruct (mag_units_succ n Hn) as (k & _ & _ & _ & H & _). lia. Qed.

Lemma mag_units_lt n n' : 0 <= n -> n < n' -> mag_units n < mag_units n'.
Proof.
  intros Hn Hlt. assert (Hd : 0 <= n' - n - 1) by lia.
  replace n' with (n + 1 + (n' - n - 1)) by lia. revert Hd. generalize (n' - n - 1). clear n' Hlt.
  apply natlike_ind.
  - destruct (mag_units_succ n Hn) as (k & Hk & E & _). rewrite Z.add_0_r, E.
    pose proof (Z.pow_pos_nonneg 2 k). lia.
  - intros d Hd IH. destruct (mag_units_succ (n + 1 + d) ltac:(lia)) as (k & Hk & E & _).
    replace (n + 1 + Z.succ d) with (n + 1 + d + 1) by lia. rewrite E.
    pose proof (Z.pow_pos_nonneg 2 k). lia.
Qed.

Lemma mag_units_rep n : 0 <= n -> rep p (mag_units n).
Proof.
  intros Hn. destruct (mag_units_succ n Hn) as (k & Hk & _ & Hd & Hr & _).
  apply (rep_div p ltac:(destruct Hfmt; lia) _ k); [done|done|lia].
Qed.

(** No representable number lies strictly between consecutive magnitudes. *)
Lemma rep_gap n f :
  0 <= n -> rep p f -> f <= mag_units n \/ mag_units (n + 1) <= f.
Proof.
  intros Hn Hf. assert (Hp2 : 2 <= p) by (destruct Hfmt; lia).
  destruct (mag_units_succ n Hn) as (k & Hk & E & Hd & Hr & Hnorm). rewrite E.
  pose proof (Z.pow_pos_nonneg 2 k ltac:(lia) Hk).
  destruct (decide (f <= mag_units n)); [by left|right].
  assert (divides_pow k f) as [m Hm].
  { destruct Hnorm as [-> | Hnorm]; [apply Z.divide_1_l|]. apply (rep_large p Hp2); (done || lia). }
  destruct Hd as [m' Hm']. assert (m' < m) by nia. nia.
Qed.

(** A place [t] of at least the subnormal one, in units. *)
Lemma open_units t s :
  open_place fmt t s ->
  0 <= pat fmt t s /\ mag_units (pat fmt t s) = s * 2 ^ (t - em)
  /\ mag_units (pat fmt t s + 1) = (s + 1) * 2 ^ (t - em).
Proof.
  intros Ho. pose proof (pow_mb_pos fmt Hfmt). assert (Ht : em <= t) by (destruct Ho; lia).
  assert (Hn : 0 <= pat fmt t s) by (destruct Ho as [[-> ?]|[? ?]]; unfold pat; nia).
  destruct (open_val fmt Hfmt t s Ho) as [H1 H2]. pose proof (bpow_pos em) as Hb.
  rewrite mag_val_units, (bpow_split em t) in H1, H2 by lia. split; [done|].
  split; apply eq_IZR; rewrite mult_IZR; apply (Rmult_eq_reg_r (bpow em)); lra.
Qed.

(** [Sf.round] gives a nearest number, when exponents were unbounded, cut at
    infinity. *)
Lemma host_round_near sign m e :
  0 < m -> em <= e ->
  exists n, 0 <= n /\ near p (m * 2 ^ (e - em)) (mag_units n)
    /\ Sf.round fmt sign m e = sp sign (Z.min n inf).
Proof.
  intros Hm He. unfold Sf.round. destruct (Z.eqb_spec m 0) as [|_]; [lia|]. cbv zeta.
  set (t := Z.max _ _). assert (Ht : em <= t) by lia.
  pose proof (round_place fmt Hfmt m e t Hm eq_refl) as Ho.
  destruct (nearest_even_split sign m e t Hm) as (g & st & (f & Hx & Hf) & ->).
  set (s := if t <=? e then _ else _) in *.
  destruct (open_units t s Ho) as (Hn & H1 & H2).
  set (s' := if round_increment _ _ _ _ _ _ then s + 1 else s).
  exists (pat fmt t s'). pose proof (bpow_pos em) as Hb.
  assert (Hs' : s' = s \/ s' = s + 1) by (unfold s'; destruct (round_increment _ _ _ _ _ _); auto).
  assert (Hn' : 0 <= pat fmt t s').
  { destruct Hs' as [-> | ->]; [done|]. rewrite pat_succ. lia. }
  split; [done|]. split; [|done].
  set (X := m * 2 ^ (e - em)). set (w := 2 ^ (t - em)) in *.
  assert (Hw : 0 < w) by (apply Z.pow_pos_nonneg; lia).
  assert (HwR : (0 < IZR w)%R) by (by apply IZR_lt).
  assert (HX : (IZR X = (IZR s + f) * IZR w)%R).
  { apply (Rmult_eq_reg_r (bpow em)); [|lra]. unfold X, w.
    rewrite (bpow_split em e), (bpow_split em t) in Hx by done. rewrite mult_IZR. lra. }
  assert (Hu : mag_units (pat fmt t s') = s' * w).
  { destruct Hs' as [-> | ->]; [done | by rewrite pat_succ]. }
  split; [apply mag_units_rep; done|]. intros y Hy. rewrite Hu.
  pose proof (rep_gap (pat fmt t s) y Hn Hy) as Hgap. rewrite H1, H2 in Hgap.
  assert (Hbounds : s * w <= X < (s + 1) * w /\ (s' = s -> 2 * X <= (2 * s + 1) * w)
    /\ (s' = s + 1 -> (2 * s + 1) * w <= 2 * X)).
  { assert (Hfr : (0 <= f < 1)%R) by (destruct g as [|[]|], st; lra || done).
    split; [split; [apply le_IZR | apply lt_IZR]; rewrite ?mult_IZR, ?plus_IZR; nra|].
    split; intros E; apply le_IZR; rewrite !mult_IZR, plus_IZR, mult_IZR, HX;
      unfold s' in E; destruct g as [|[]|], st; cbn in E; try done; try lia; try nra;
      destruct (negb (Z.land s 1 =? 0)); try lia; nra. }
  destruct Hbounds as (B1 & B2 & B3). destruct Hs' as [E|E]; [specialize (B2 E)|specialize (B3 E)];
    rewrite E; destruct Hgap; lia.
Qed.
End Units.

(** ** Sums *)

Section Sums.
Variable fmt : Fmt.t.
Hypothesis Hfmt : fmt_ok fmt.

Abbreviation p := (Fmt.p fmt).
Abbreviation mb := (Fmt.mant_bits fmt).
Abbreviation inf := (inf_mag fmt).
Abbreviation sp := (signed_pat fmt).
Abbreviation em := (emin fmt).
Abbreviation U := (mag_units fmt).
Abbreviation units := (units fmt).

(** A finite number. *)
Definition finite (x : Z) : Prop := fits (Fmt.width fmt) x /\ Sf.mag fmt x < inf.

Lemma finite_inv x : finite x -> exists s n, x = sp s n /\ 0 <= n < inf.
Proof.
  intros [Hf Hm]. exists (Sf.is_sign_negative fmt x), (Sf.mag fmt x).
  split; [by apply pattern_split | pose proof (mag_range fmt Hfmt x); lia].
Qed.

Lemma finite_pat s n : 0 <= n < inf -> finite (sp s n).
Proof.
  intros Hn. destruct (number_pat fmt Hfmt s n ltac:(lia)) as [H _]. split; [done|].
  pose proof (inf_lt_width fmt Hfmt). rewrite mag_signed_pat by (done || lia). lia.
Qed.

Lemma finite_number x : finite x -> number fmt x.
Proof. intros [? ?]. split; [done|lia]. Qed.

Lemma units_pat s n : 0 <= n <= inf -> units (sp s n) = if s then - U n else U n.
Proof.
  intros Hn. pose proof (inf_lt_width fmt Hfmt). unfold RvHostSpec.units.
  by rewrite mag_signed_pat, sign_signed_pat by (done || lia).
Qed.

Lemma parts_units x :
  let '(m, e) := Sf.parts fmt x in
  em <= e /\ m * 2 ^ (e - em) = U (Sf.mag fmt x).
Proof.
  pose proof (mag_range fmt Hfmt x) as Hr. pose proof (pow_mb_pos fmt Hfmt).
  pose proof (Z.div_pos (Sf.mag fmt x) (2 ^ mb) ltac:(lia) ltac:(lia)).
  unfold Sf.parts, mag_units. cbv zeta. destruct (Z.eqb_spec (Sf.mag fmt x / 2 ^ mb) 0).
  - split; [lia|]. replace (em - em) with 0 by lia. lia.
  - split; [lia|]. f_equal. f_equal. lia.
Qed.

Lemma finite_test x : finite x -> Sf.is_nan fmt x = false /\ Sf.is_infinite fmt x = false.
Proof.
  intros [_ Hm]. unfold Sf.is_nan, Sf.is_infinite.
  destruct (Z.ltb_spec inf (Sf.mag fmt x)), (Z.eqb_spec (Sf.mag fmt x) inf); lia || done.
Qed.

(** The sum of two finite numbers, rounded. *)
Lemma host_add_units a b :
  finite a -> finite b ->
  let z := units a + units b in
  (z = 0 /\ Sf.add fmt a b = sp (Sf.is_sign_negative fmt a && Sf.is_sign_negative fmt b) 0)
  \/ (z <> 0 /\ exists n, 0 <= n /\ near p (Z.abs z) (U n)
       /\ rounds_to fmt Rne (z <? 0) (IZR (Z.abs z) * bpow em) (Z.min n inf)
       /\ Sf.add fmt a b = sp (z <? 0) (Z.min n inf)).
Proof.
  intros Ha Hb z. destruct (finite_test a Ha) as [Na Ia]. destruct (finite_test b Hb) as [Nb Ib].
  unfold Sf.add. rewrite Na, Ia, Nb, Ib. cbn [orb].
  pose proof (parts_units a) as Pa. pose proof (parts_units b) as Pb.
  destruct (Sf.parts fmt a) as [ma ea], (Sf.parts fmt b) as [mb' eb].
  destruct Pa as [Hea Pa], Pb as [Heb Pb]. set (e := Z.min ea eb).
  set (zs := _ + _). assert (Hz : z = zs * 2 ^ (e - em)).
  { assert (E : forall ex, e <= ex -> em <= e -> 2 ^ (ex - em) = 2 ^ (ex - e) * 2 ^ (e - em))
      by (intros; rewrite <- Z.pow_add_r by lia; f_equal; lia).
    unfold z, RvHostSpec.units. rewrite <- Pa, <- Pb, (E ea), (E eb) by lia. unfold zs.
    destruct (Sf.is_sign_negative fmt a), (Sf.is_sign_negative fmt b); ring. }
  pose proof (Z.pow_pos_nonneg 2 (e - em) ltac:(lia) ltac:(lia)) as Hw.
  destruct (Z.eqb_spec zs 0) as [E0|E0]; [left; split; [rewrite Hz, E0; lia|done]|right].
  split; [nia|]. assert (Habs : Z.abs z = Z.abs zs * 2 ^ (e - em)) by (rewrite Hz, Z.abs_mul; lia).
  assert (Hneg : (zs <? 0) = (z <? 0)) by (destruct (Z.ltb_spec zs 0), (Z.ltb_spec z 0); (done || nia)).
  rewrite Hneg.
  destruct (host_round_near fmt Hfmt (z <? 0) (Z.abs zs) e) as (n & Hn & Hnear & E); [lia|lia|].
  destruct (host_round_rounds fmt Hfmt (z <? 0) (Z.abs zs) e) as (n' & Hr & E'); [lia|].
  rewrite E in E'. apply signed_pat_inj in E'. subst n'. exists n. rewrite Habs. split_and!; try done.
  by rewrite mult_IZR, Rmult_assoc, <- bpow_split by lia.
Qed.

(** The largest finite number. *)
Definition Omega : Z := U (inf - 1).

Lemma U_le n n' : 0 <= n -> n <= n' -> U n <= U n'.
Proof.
  intros Hn Hle. destruct (decide (n = n')) as [->|]; [done|].
  apply Z.lt_le_incl, mag_units_lt; (done || lia).
Qed.

Lemma Omega_bound n : 0 <= n -> U n <= Omega -> n < inf.
Proof.
  intros Hn Hle. apply Z.nle_gt. intros Hge. unfold Omega in Hle.
  pose proof (inf_lt_width fmt Hfmt).
  pose proof (mag_units_lt fmt Hfmt (inf - 1) n ltac:(lia) ltac:(lia)). lia.
Qed.

(** A sum whose nearest number is in range is that number. *)
Lemma host_add_in_range a b :
  finite a -> finite b ->
  exists u, near p (units a + units b) u
    /\ (Z.abs u <= Omega -> finite (Sf.add fmt a b) /\ units (Sf.add fmt a b) = u).
Proof.
  intros Ha Hb. pose proof (inf_lt_width fmt Hfmt). assert (Hp2 : 2 <= p) by (destruct Hfmt; lia).
  destruct (host_add_units a b Ha Hb) as [[Hz E]|(Hz & n & Hn & Hnear & _ & E)].
  - exists 0. rewrite Hz. split; [split; [by apply rep_0|intros; lia]|]. intros _. rewrite E.
    split; [apply finite_pat; lia|]. rewrite units_pat, mag_units_0 by (done || lia). by case_match.
  - set (z := units a + units b) in *. pose proof (mag_units_nonneg fmt Hfmt n Hn).
    exists (if z <? 0 then - U n else U n). destruct (Z.ltb_spec z 0).
    + split; [apply (near_opp p) in Hnear; by replace (- Z.abs z) with z in Hnear by lia|].
      intros Hle. assert (n < inf) by (apply Omega_bound; lia). rewrite E, Z.min_l by lia.
      split; [apply finite_pat; lia|]. rewrite units_pat by lia.
      by destruct (Z.ltb_spec z 0); [|lia].
    + split; [by rewrite Z.abs_eq in Hnear by lia|].
      intros Hle. assert (n < inf) by (apply Omega_bound; lia). rewrite E, Z.min_l by lia.
      split; [apply finite_pat; lia|]. rewrite units_pat by lia.
      by destruct (Z.ltb_spec z 0); [lia|].
Qed.

Lemma host_add_exact a b :
  finite a -> finite b -> rep p (units a + units b) -> Z.abs (units a + units b) <= Omega ->
  finite (Sf.add fmt a b) /\ units (Sf.add fmt a b) = units a + units b.
Proof.
  intros Ha Hb Hr Hle. destruct (host_add_in_range a b Ha Hb) as (u & Hu & Hin).
  rewrite (near_exact p _ _ Hu Hr) in Hin. auto.
Qed.

Lemma finite_neg x : finite x -> finite (Sf.neg fmt x) /\ units (Sf.neg fmt x) = - units x.
Proof.
  intros [Hf Hm]. split; [split; [by apply fits_neg | by rewrite mag_neg]|].
  unfold RvHostSpec.units. rewrite mag_neg, sign_neg by done.
  destruct (Sf.is_sign_negative fmt x); simpl; lia.
Qed.

Lemma finite_bound x : finite x -> rep p (units x) /\ Z.abs (units x) <= Omega.
Proof.
  intros Hx. destruct (finite_inv x Hx) as (s & n & -> & Hn). rewrite units_pat by lia.
  pose proof (U_le n (inf - 1) ltac:(lia) ltac:(lia)). fold Omega in H.
  pose proof (mag_units_nonneg fmt Hfmt n ltac:(lia)).
  pose proof (mag_units_rep fmt Hfmt n ltac:(lia)) as Hr. destruct s.
  - split; [apply rep_opp; [destruct Hfmt; lia | exact Hr] | lia].
  - split; [exact Hr | lia].
Qed.

Lemma host_add_near a b :
  finite a -> finite b -> finite (Sf.add fmt a b) ->
  near p (units a + units b) (units (Sf.add fmt a b)).
Proof.
  intros Ha Hb Hr. destruct (host_add_in_range a b Ha Hb) as (u & Hu & Hin).
  destruct (finite_bound _ Hr) as [_ Hle]. pose proof (inf_lt_width fmt Hfmt).
  destruct (host_add_units a b Ha Hb) as [[Hz E]|(Hz & n & Hn & Hnear & _ & E)].
  - rewrite E, units_pat, mag_units_0, Hz by (done || lia).
    match goal with |- near _ _ ?y => assert (Ey : y = 0) by (by case_match); rewrite Ey end.
    split; [apply rep_0; destruct Hfmt; lia | intros; lia].
  - rewrite E in Hr. destruct Hr as [_ Hr].
    rewrite mag_signed_pat in Hr by (done || lia). rewrite E, Z.min_l, units_pat by lia.
    set (z := units a + units b) in *. destruct (Z.ltb_spec z 0).
    + apply near_opp in Hnear; [|destruct Hfmt; lia]. by replace (- Z.abs z) with z in Hnear by lia.
    + by rewrite Z.abs_eq in Hnear by lia.
Qed.

Lemma host_sub_exact a b :
  finite a -> finite b -> rep p (units a - units b) -> Z.abs (units a - units b) <= Omega ->
  finite (Sf.sub fmt a b) /\ units (Sf.sub fmt a b) = units a - units b.
Proof.
  intros Ha Hb Hr Hle. destruct (finite_neg b Hb) as [Hn En].
  replace (units a - units b) with (units a + units (Sf.neg fmt b)) in * by lia.
  by apply host_add_exact.
Qed.

(** The residual of a finite sum is its error, unless the second term is the
    largest finite number or its negation. *)
Lemma two_sum_residual_exact a b :
  finite a -> finite b -> finite (Sf.add fmt a b) -> Sf.mag fmt b <> inf - 1 ->
  let r := Sf.add fmt a b in
  finite (two_sum_residual fmt a b r)
  /\ units (two_sum_residual fmt a b r) = units a + units b - units r.
Proof.
  intros Ha Hb Hr Hmax r. assert (Hp2 : 2 <= p) by (destruct Hfmt; lia).
  pose proof (host_add_near a b Ha Hb Hr) as Hnear. fold r in Hr, Hnear.
  destruct (finite_bound a Ha) as [Ra La]. destruct (finite_bound b Hb) as [Rb _].
  assert (Lb : Z.abs (units b) < Omega).
  { destruct Hb as [_ Hb]. pose proof (mag_range fmt Hfmt b).
    pose proof (mag_units_lt fmt Hfmt (Sf.mag fmt b) (inf - 1) ltac:(lia) ltac:(lia)) as Hlt.
    pose proof (mag_units_nonneg fmt Hfmt (Sf.mag fmt b) ltac:(lia)).
    unfold RvHostSpec.units, Omega. case_match; lia. }
  assert (RO : rep p Omega).
  { apply mag_units_rep; [done|]. pose proof (inf_lt_width fmt Hfmt). lia. }
  destruct (finite_neg a Ha) as [Hna Ena].
  destruct (host_add_in_range r (Sf.neg fmt a) Hr Hna) as (v & Hv & Hin).
  rewrite Ena in Hv. replace (units r + - units a) with (units r - units a) in Hv by lia.
  destruct (two_sum_exact p Hp2 (units a) (units b) (units r) v Omega)
    as (L1 & [R2 L2] & [R3 L3] & [R4 L4] & R5 & L5); try done.
  destruct (Hin L1) as [Hbv Ebv]. fold (Sf.sub fmt r a) in Hbv, Ebv.
  unfold two_sum_residual. set (bv := Sf.sub fmt r a) in *. rewrite <- Ebv in *.
  clearbody bv r. destruct (host_sub_exact r bv Hr Hbv R2 L2) as [H1 E1]. rewrite <- E1 in R3, L3.
  destruct (host_sub_exact a (Sf.sub fmt r bv) Ha H1 R3 L3) as [H2 E2].
  destruct (host_sub_exact b bv Hb Hbv R4 L4) as [H3 E3].
  assert (Es : units (Sf.sub fmt a (Sf.sub fmt r bv)) + units (Sf.sub fmt b bv)
    = units a + units b - units r) by lia.
  destruct (host_add_exact _ _ H2 H3) as [H4 E4]; rewrite ?Es in *; done.
Qed.
End Sums.
