(* ===== verification/RvHostAdd.v ===== *)
(** * Addition in every rounding mode

    The correction of a nearest sum by its exact residual, and the proof that
    [add] and [sub] of src/isa/riscv/float.rs return the correctly rounded sum;
    with the operands for which they do not. *)

From Stdlib Require Import Reals Lra.
From S2P Require Import Prelude RvFloat RvHostFloat RvFloatOps RvTwoSum RvRound RvFloatSpec RvFloatAdd.
From S2P Require Import RvFloatWf RvHostSpec.

(** ** Order *)

Section Order.
Variable fmt : Fmt.t.
Hypothesis Hfmt : fmt_ok fmt.

Abbreviation inf := (inf_mag fmt).
Abbreviation sp := (signed_pat fmt).
Abbreviation U := (mag_units fmt).
Abbreviation units := (units fmt).
Abbreviation number := (number fmt).

Lemma units_mono (s : bool) n (s' : bool) n' :
  0 <= n -> 0 <= n' ->
  ((if s then - n else n) <? (if s' then - n' else n'))
  = ((if s then - U n else U n) <? (if s' then - U n' else U n')).
Proof.
  intros Hn Hn'. pose proof (mag_units_0 fmt Hfmt) as H0.
  assert (Hpos : forall k, 0 <= k -> 0 <= U k /\ (0 < k -> 0 < U k)).
  { intros k Hk. split; [by apply mag_units_nonneg|]. intros. rewrite <- H0.
    apply mag_units_lt; (done || lia). }
  destruct (Hpos n Hn) as [P1 P2], (Hpos n' Hn') as [P3 P4].
  assert (Hm : forall a b, 0 <= a -> 0 <= b -> (a < b <-> U a < U b)).
  { intros a b Ha Hb. split; intros Hlt; [by apply mag_units_lt|]. apply Z.nle_gt. intros Hle.
    pose proof (U_le fmt Hfmt b a Hb Hle). lia. }
  pose proof (Hm n n' Hn Hn') as M1. pose proof (Hm n' n Hn' Hn) as M2.
  assert (Hz : (n = 0 -> U n = 0) /\ (n' = 0 -> U n' = 0)) by (split; by intros ->).
  destruct s, s'; repeat match goal with |- context [?a <? ?b] => destruct (Z.ltb_spec a b) end;
    (done || lia).
Qed.

Lemma number_tests x : number x -> Sf.is_nan fmt x = false.
Proof. intros [_ Hm]. unfold Sf.is_nan. by destruct (Z.ltb_spec inf (Sf.mag fmt x)); [lia|]. Qed.

Lemma lt_units a b : number a -> number b -> Sf.lt fmt a b = (units a <? units b).
Proof.
  intros Ha Hb. unfold Sf.lt. rewrite !number_tests by done. cbn [negb andb].
  unfold Sf.key, RvHostSpec.units. apply units_mono; by apply mag_range.
Qed.

Lemma le_units a b : number a -> number b -> Sf.le fmt a b = (units a <=? units b).
Proof.
  intros Ha Hb. pose proof (lt_units b a Hb Ha) as H. unfold Sf.lt, Sf.le in *.
  rewrite !number_tests in * by done. cbn [negb andb] in *.
  rewrite !Z.leb_antisym. by rewrite H.
Qed.

Lemma eq_units a b : number a -> number b -> Sf.eq fmt a b = (units a =? units b).
Proof.
  intros Ha Hb. pose proof (lt_units b a Hb Ha) as H1. pose proof (lt_units a b Ha Hb) as H2.
  unfold Sf.lt, Sf.eq in *. rewrite !number_tests in * by done. cbn [negb andb] in *.
  destruct (Z.eqb_spec (Sf.key fmt a) (Sf.key fmt b)), (Z.eqb_spec (units a) (units b)); try done;
    repeat match goal with H : (_ <? _) = _ |- _ => revert H end;
    repeat match goal with |- context [?x <? ?y] => destruct (Z.ltb_spec x y) end; (done || lia).
Qed.

Lemma is_zero_units x : number x -> Sf.is_zero fmt x = (units x =? 0).
Proof.
  intros Hx. destruct (number_inv fmt Hfmt x Hx) as (s & n & -> & Hn).
  pose proof (inf_lt_width fmt Hfmt). rewrite units_pat by (done || lia). unfold Sf.is_zero.
  rewrite mag_signed_pat by (done || lia). pose proof (mag_units_0 fmt Hfmt) as H0.
  destruct (Z.eqb_spec n 0) as [->|]; [rewrite H0; by destruct s|].
  pose proof (mag_units_lt fmt Hfmt 0 n ltac:(lia) ltac:(lia)).
  destruct s; symmetry; apply Z.eqb_neq; lia.
Qed.

Lemma abs_units x : finite fmt x -> finite fmt (Sf.abs fmt x) /\ units (Sf.abs fmt x) = Z.abs (units x).
Proof.
  intros Hx. destruct (finite_inv fmt Hfmt x Hx) as (s & n & -> & Hn).
  pose proof (inf_lt_width fmt Hfmt). pose proof (mag_units_nonneg fmt Hfmt n ltac:(lia)).
  assert (E : Sf.abs fmt (sp s n) = sp false n).
  { unfold Sf.abs. rewrite mag_signed_pat by (done || lia). done. }
  rewrite E. split; [apply finite_pat; (done || lia)|]. rewrite !units_pat by (done || lia).
  destruct s; lia.
Qed.
End Order.

(** ** Between consecutive magnitudes *)

Section Between.
Variable fmt : Fmt.t.
Hypothesis Hfmt : fmt_ok fmt.

Abbreviation inf := (inf_mag fmt).
Abbreviation U := (mag_units fmt).
Abbreviation em := (emin fmt).
Abbreviation val X := (IZR X * bpow em)%R.

Lemma val_lt a b : (val a < val b)%R <-> a < b.
Proof.
  pose proof (bpow_pos em). split; intros Hlt.
  - apply lt_IZR. nra.
  - apply IZR_lt in Hlt. nra.
Qed.
Lemma val_le a b : (val a <= val b)%R <-> a <= b.
Proof.
  pose proof (bpow_pos em). split; intros Hle.
  - apply le_IZR. nra.
  - apply IZR_le in Hle. nra.
Qed.
Lemma val_inj a b : val a = val b <-> a = b.
Proof.
  split; [intros E|by intros ->]. assert (a <= b) by (apply val_le; lra).
  assert (b <= a) by (apply val_le; lra). lia.
Qed.
Lemma val_mid_lt a b c : (2 * val a < val b + val c)%R <-> 2 * a < b + c.
Proof.
  rewrite <- val_lt, mult_IZR, plus_IZR. split; lra.
Qed.
Lemma val_mid_gt a b c : (val b + val c < 2 * val a)%R <-> b + c < 2 * a.
Proof. rewrite <- val_lt, mult_IZR, plus_IZR. split; lra. Qed.
Lemma val_mid_eq a b c : (2 * val a)%R = (val b + val c)%R <-> 2 * a = b + c.
Proof. rewrite <- val_inj, mult_IZR, plus_IZR. split; lra. Qed.

Lemma magval n : 0 <= n -> mag_val fmt n = val (U n).
Proof. by apply mag_val_units. Qed.

Lemma inf_even : Z.even inf = true.
Proof.
  unfold inf_mag. rewrite Z.even_mul, (Z.even_pow 2) by (pose proof (mb_range fmt Hfmt); lia).
  apply orb_true_r.
Qed.

(** What rounding a positive number of units to nearest means. *)
Definition rne_choice (X lo n : Z) : Prop :=
  (n = lo /\ (2 * X < U lo + U (lo + 1) \/ (2 * X = U lo + U (lo + 1) /\ Z.even lo = true)))
  \/ (n = lo + 1
      /\ (U lo + U (lo + 1) < 2 * X \/ (2 * X = U lo + U (lo + 1) /\ Z.even lo = false))).

Lemma rne_cases s X n :
  0 < X -> rounds_to fmt Rne s (val X) n -> n < inf ->
  1 <= n /\ (X = U n \/ exists lo, 1 <= lo < inf /\ U lo < X < U (lo + 1) /\ rne_choice X lo n).
Proof.
  intros HX (lo & (Hlo & H1 & H2) & Hsel) Hn. pose proof (mag_units_0 fmt Hfmt) as U0.
  rewrite magval in H1 by lia. apply val_le in H1.
  assert (Hlo1 : 1 <= lo).
  { assert (lo <> 0); [|lia]. intros ->. rewrite !magval in Hsel, H2 by lia. rewrite U0 in *.
    assert (E1 : U (0 + 1) = 1).
    { destruct (mag_units_succ fmt Hfmt 0 ltac:(lia)) as (k & Hk & E & _ & _ & Hn0).
      rewrite U0 in *. pose proof (Z.pow_pos_nonneg 2 k ltac:(lia) Hk).
      pose proof (Z.pow_pos_nonneg 2 (Fmt.p fmt - 1) ltac:(lia) ltac:(destruct Hfmt; lia)).
      destruct Hn0 as [->|]; [by rewrite E|nia]. }
    assert (Hi : 0 + 1 < inf).
    { pose proof (inf_range fmt Hfmt). pose proof (pow_mb_pos fmt Hfmt).
      pose proof (max_field_range fmt Hfmt). unfold inf_mag. nia. }
    specialize (H2 Hi). rewrite E1 in H2. apply val_lt in H2. lia. }
  destruct Hsel as [[E ->] | [Hlt Hsel]].
  { split; [lia|]. left. rewrite magval in E by lia. by apply val_inj in E. }
  rewrite magval in Hlt by lia. apply val_lt in Hlt.
  unfold selects in Hsel. rewrite !magval, val_mid_lt, val_mid_gt, val_mid_eq in Hsel by lia.
  assert (Hc : rne_choice X lo n).
  { unfold rne_choice. destruct Hsel as [[? ?]|[[? ?]|[? E]]]; [by left; auto | by right; auto|].
    destruct (Z.even lo); [left|right]; auto. }
  split; [destruct Hc as [[-> _]|[-> _]]; lia|]. right. exists lo. split; [lia|]. split; [|done].
  split; [done|]. destruct (decide (lo + 1 < inf)) as [Hi|Hi].
  - specialize (H2 Hi). rewrite magval in H2 by lia. by apply val_lt in H2.
  - destruct Hc as [[_ Hc]|[-> _]]; [|lia].
    pose proof (mag_units_lt fmt Hfmt lo (lo + 1) ltac:(lia) ltac:(lia)). destruct Hc; lia.
Qed.

(** The magnitude a mode gives to a number strictly between two. *)
Definition directed (mode : RoundingMode) (s : bool) (X lo n : Z) : Z :=
  match mode with
  | Rtz => lo
  | Rdn => if s then lo + 1 else lo
  | Rup => if s then lo else lo + 1
  | Rmm => if 2 * X =? U lo + U (lo + 1) then lo + 1 else n
  | _ => n
  end.

Lemma directed_rounds mode s X lo n :
  1 <= lo < inf -> U lo < X < U (lo + 1) -> rne_choice X lo n -> n < inf ->
  rounds_to fmt mode s (val X) (directed mode s X lo n).
Proof.
  intros Hlo HX Hc Hn. exists lo. split.
  { split; [lia|]. rewrite !magval, val_le, val_lt by lia. split; [lia|]. intros _. lia. }
  right. rewrite magval, val_lt by lia. split; [lia|]. unfold selects, directed.
  rewrite !magval by lia.
  assert (Hne : (2 * val X < val (U lo) + val (U (lo + 1)))%R /\ n = lo
    \/ (val (U lo) + val (U (lo + 1)) < 2 * val X)%R /\ n = lo + 1
    \/ (2 * val X)%R = (val (U lo) + val (U (lo + 1)))%R /\ n = if Z.even lo then lo else lo + 1).
  { rewrite val_mid_lt, val_mid_gt, val_mid_eq.
    destruct Hc as [[-> [?|[? E]]]|[-> [?|[? E]]]]; rewrite ?E; auto. }
  destruct mode; try done.
  destruct (Z.eqb_spec (2 * X) (U lo + U (lo + 1))) as [E|E].
  - right. split; [|done]. apply val_mid_eq in E. lra.
  - destruct Hne as [[? ->]|[[? ->]|[E' _]]]; [by left | right; split; [lra|done] |].
    by apply val_mid_eq in E'.
Qed.
End Between.

(** ** The correction *)

Section Correct.
Variable fmt : Fmt.t.
Hypothesis Hhost : host_fmt fmt.
Let Hfmt : fmt_ok fmt := host_fmt_ok fmt Hhost.

Abbreviation p := (Fmt.p fmt).
Abbreviation inf := (inf_mag fmt).
Abbreviation sp := (signed_pat fmt).
Abbreviation U := (mag_units fmt).
Abbreviation units := (units fmt).
Abbreviation em := (emin fmt).
Abbreviation val X := (IZR X * bpow em)%R.

Lemma next_down_pat s n :
  0 < n <= inf -> (s = true -> n < inf) ->
  next_down fmt (sp s n) = if s then sp true (n + 1) else sp false (n - 1).
Proof.
  intros Hn Hs. pose proof (inf_lt_width fmt Hfmt). unfold next_down.
  rewrite neg_pat by (done || lia). rewrite next_up_pat; [|done|lia|destruct s; (done || auto)].
  destruct (Z.eqb_spec n 0); [lia|]. destruct s; simpl; rewrite neg_pat by (done || lia); done.
Qed.

Lemma mag_small n : 0 <= n <= inf -> Sf.mag fmt n = n.
Proof.
  intros Hn. pose proof (inf_lt_width fmt Hfmt). apply (mag_signed_pat fmt false n). lia.
Qed.
Lemma sign_small n : 0 <= n <= inf -> Sf.is_sign_negative fmt n = false.
Proof.
  intros Hn. pose proof (inf_lt_width fmt Hfmt). apply (sign_signed_pat fmt Hfmt false n). lia.
Qed.

Lemma min_mag_pat s a b :
  0 <= a <= inf -> 0 <= b <= inf -> min_mag fmt (sp s a) (sp s b) = sp s (Z.min a b).
Proof.
  intros Ha Hb. pose proof (inf_lt_width fmt Hfmt). unfold min_mag, Sf.le, Sf.is_nan, Sf.key, Sf.abs.
  rewrite !(mag_signed_pat fmt s), !mag_small, !sign_small by lia.
  destruct (Z.ltb_spec inf a), (Z.ltb_spec inf b); try lia. simpl.
  destruct (Z.leb_spec a b); [by rewrite Z.min_l by lia | by rewrite Z.min_r by lia].
Qed.

Lemma max_mag_pat s a b :
  0 <= a <= inf -> 0 <= b <= inf -> max_mag fmt (sp s a) (sp s b) = sp s (Z.max a b).
Proof.
  intros Ha Hb. pose proof (inf_lt_width fmt Hfmt). unfold max_mag, Sf.le, Sf.is_nan, Sf.key, Sf.abs.
  rewrite !(mag_signed_pat fmt s), !mag_small, !sign_small by lia.
  destruct (Z.ltb_spec inf a), (Z.ltb_spec inf b); try lia. simpl.
  destruct (Z.leb_spec b a); [by rewrite Z.max_l by lia | by rewrite Z.max_r by lia].
Qed.

(** The neighbours around an inexact nearest result. *)
Lemma neighbours_up (s up : bool) lo n X :
  1 <= lo < inf -> n < inf -> n = lo \/ n = lo + 1 -> U lo < X < U (lo + 1) ->
  up = (if s then X <? U n else U n <? X) ->
  (if up then (sp s n, next_up fmt (sp s n)) else (next_down fmt (sp s n), sp s n))
  = if s then (sp true (lo + 1), sp true lo) else (sp false lo, sp false (lo + 1)).
Proof.
  intros Hlo Hni Hn HX ->. pose proof (inf_lt_width fmt Hfmt). assert (Hpos : 0 < n <= inf) by lia.
  destruct s.
  - destruct Hn as [-> | ->].
    + destruct (Z.ltb_spec X (U lo)); [lia|]. by rewrite next_down_pat by lia.
    + destruct (Z.ltb_spec X (U (lo + 1))); [|lia].
      rewrite next_up_pat; [|done|lia|done]. destruct (Z.eqb_spec (lo + 1) 0); [lia|].
      do 2 f_equal. lia.
  - destruct Hn as [-> | ->].
    + destruct (Z.ltb_spec (U lo) X); [|lia].
      rewrite next_up_pat by (done || lia). by destruct (Z.eqb_spec lo 0); [lia|].
    + destruct (Z.ltb_spec (U (lo + 1)) X); [lia|].
      rewrite next_down_pat by lia. do 2 f_equal. lia.
Qed.

Lemma neighbours (s : bool) lo n delta X :
  1 <= lo < inf -> n < inf -> n = lo \/ n = lo + 1 -> U lo < X < U (lo + 1) -> finite fmt delta ->
  units delta = (if s then U n - X else X - U n) ->
  (if Sf.lt fmt 0 delta then (sp s n, next_up fmt (sp s n)) else (next_down fmt (sp s n), sp s n))
  = if s then (sp true (lo + 1), sp true lo) else (sp false lo, sp false (lo + 1)).
Proof.
  intros Hlo Hni Hn HX Hd Ed. pose proof (inf_lt_width fmt Hfmt). apply (neighbours_up _ _ _ _ X); try done.
  rewrite (lt_units fmt Hfmt) by (apply (number_0 fmt Hhost) || by apply finite_number).
  assert (E0 : units 0 = 0).
  { change 0 with (sp false 0). rewrite (units_pat fmt Hfmt) by lia. apply (mag_units_0 fmt Hfmt). }
  rewrite E0, Ed. destruct s;
    repeat match goal with |- context [?a <? ?b] => destruct (Z.ltb_spec a b) end; (done || lia).
Qed.

(** The gap between consecutive magnitudes is a number of the format, no larger
    than the lower one. *)
Lemma gap_bounds lo :
  1 <= lo < inf ->
  rep p (U (lo + 1) - U lo) /\ 0 < U (lo + 1) - U lo <= U lo /\ U lo <= Omega fmt.
Proof.
  intros Hlo. assert (Hp2 : 2 <= p) by (destruct Hfmt; lia).
  destruct (mag_units_succ fmt Hfmt lo ltac:(lia)) as (k & Hk & E & Hd & Hr & _).
  pose proof (Z.pow_pos_nonneg 2 k ltac:(lia) Hk).
  pose proof (mag_units_lt fmt Hfmt 0 lo ltac:(lia) ltac:(lia)) as Hpos.
  rewrite (mag_units_0 fmt Hfmt) in Hpos. rewrite E.
  replace (U lo + 2 ^ k - U lo) with (1 * 2 ^ k) by lia. split_and!.
  - apply rep_mult; [done|done|]. pose proof (pow_p_pos p Hp2). lia.
  - lia.
  - destruct Hd as [m Hm]. assert (1 <= m) by nia. nia.
  - apply (U_le fmt Hfmt); lia.
Qed.

Lemma rep_double x : rep p x -> rep p (x + x).
Proof.
  intros (m & k & Hk & Hm & ->). exists m, (k + 1). split; [lia|]. split; [done|].
  rewrite Z.pow_add_r by lia. ring.
Qed.

Lemma infinite_difference (s : bool) lo :
  1 <= lo -> lo + 1 = inf ->
  Sf.mag fmt (if s then Sf.sub fmt (sp true lo) (sp true (lo + 1))
              else Sf.sub fmt (sp false (lo + 1)) (sp false lo)) = inf.
Proof.
  intros H1 Hi. pose proof (inf_lt_width fmt Hfmt).
  unfold Sf.sub, Sf.add, Sf.is_nan, Sf.is_infinite.
  destruct s; rewrite !neg_pat by (done || lia); rewrite !mag_signed_pat, !sign_signed_pat by (done || lia);
    rewrite Hi; destruct (Z.ltb_spec inf lo), (Z.ltb_spec inf inf), (Z.eqb_spec lo inf); try lia;
    rewrite Z.eqb_refl; cbn [orb andb negb]; apply mag_signed_pat; lia.
Qed.

(** The test of a tie. *)
Lemma tie_test (s : bool) lo n delta X :
  1 <= lo < inf -> n < inf -> U lo < X < U (lo + 1) -> rne_choice fmt X lo n ->
  finite fmt delta -> units delta = (if s then U n - X else X - U n) ->
  Sf.eq fmt (Sf.add fmt (Sf.abs fmt delta) (Sf.abs fmt delta))
    (if s then Sf.sub fmt (sp true lo) (sp true (lo + 1))
     else Sf.sub fmt (sp false (lo + 1)) (sp false lo))
  = (2 * X =? U lo + U (lo + 1)).
Proof.
  intros Hlo Hni HX Hc Hd Ed. destruct (gap_bounds lo Hlo) as (Rg & Lg & Lo).
  destruct (abs_units fmt Hfmt delta Hd) as [Ha Ea].
  assert (Eabs : Z.abs (units delta) = Z.abs (X - U n)) by (rewrite Ed; destruct s; lia).
  assert (L2 : 2 * Z.abs (X - U n) <= U (lo + 1) - U lo)
    by (destruct Hc as [[-> ?]|[-> ?]]; lia).
  destruct (finite_bound fmt Hfmt _ Ha) as [Ra _].
  destruct (host_add_exact fmt Hfmt _ _ Ha Ha) as [F2 E2]; [by apply rep_double|lia|].
  rewrite Ea, Eabs in E2.
  destruct (decide (lo + 1 = inf)) as [Hi|Hi].
  - pose proof (infinite_difference s lo ltac:(lia) Hi) as Hm.
    match type of Hm with Sf.mag fmt ?g0 = _ => set (g := g0) in * end.
    destruct (Z.eqb_spec (2 * X) (U lo + U (lo + 1))) as [E|_].
    + exfalso. destruct Hc as [[-> [?|[_ He]]]|[-> _]]; [lia| |lia].
      pose proof (inf_even fmt Hfmt) as Hie. rewrite <- Hi, Z.even_add, He in Hie. cbn in Hie. discriminate.
    + unfold Sf.eq. destruct (Sf.is_nan fmt _); [done|]. destruct (Sf.is_nan fmt g); [done|]. simpl.
      apply Z.eqb_neq. unfold Sf.key. rewrite Hm. destruct F2 as [_ F2].
      pose proof (mag_range fmt Hfmt (Sf.add fmt (Sf.abs fmt delta) (Sf.abs fmt delta))).
      destruct (Sf.is_sign_negative fmt _), (Sf.is_sign_negative fmt g); lia.
  - assert (Hh : U (lo + 1) <= Omega fmt) by (apply (U_le fmt Hfmt); lia).
    assert (Fl : forall b, finite fmt (sp b lo)) by (intros; apply finite_pat; (done || lia)).
    assert (Fh : forall b, finite fmt (sp b (lo + 1))) by (intros; apply finite_pat; (done || lia)).
    assert (Hg : exists g, (if s then Sf.sub fmt (sp true lo) (sp true (lo + 1))
       else Sf.sub fmt (sp false (lo + 1)) (sp false lo)) = g /\ finite fmt g
       /\ units g = U (lo + 1) - U lo).
    { eexists. split; [reflexivity|]. destruct s;
        [destruct (host_sub_exact fmt Hfmt (sp true lo) (sp true (lo + 1)) (Fl _) (Fh _)) as [? Es]
        |destruct (host_sub_exact fmt Hfmt (sp false (lo + 1)) (sp false lo) (Fh _) (Fl _)) as [? Es]];
        rewrite !units_pat in * by (done || lia); try done; try lia;
        try (replace (- U lo - - U (lo + 1)) with (U (lo + 1) - U lo) by lia; done);
        (split; [done|]); lia. }
    destruct Hg as (g & -> & Fg & Eg). rewrite (eq_units fmt Hfmt) by (by apply finite_number).
    rewrite E2, Eg. destruct Hc as [[-> Hc]|[-> Hc]];
      repeat match goal with |- context [?x =? ?y] => destruct (Z.eqb_spec x y) end; (done || lia).
Qed.

(** The result selected around an inexact sum. *)
Lemma correct_selects mode (s : bool) lo n delta X flags :
  1 <= lo < inf -> n < inf -> U lo < X < U (lo + 1) -> rne_choice fmt X lo n ->
  finite fmt delta -> units delta = (if s then U n - X else X - U n) ->
  let d := directed fmt mode s X lo n in
  correct fmt (sp s n) delta mode true flags
  = (sp s d,
     raise_if (d <? 2 ^ Fmt.mant_bits fmt) fflags.UF
       (raise_if (d =? inf) fflags.OF (Z.lor flags fflags.NX))).
Proof.
  intros Hlo Hni HX Hc Hd Ed d. pose proof (inf_lt_width fmt Hfmt) as Hw.
  pose proof (inf_range fmt Hfmt). pose proof (pow_mb_pos fmt Hfmt).
  assert (Hn : n = lo \/ n = lo + 1) by (destruct Hc as [[? _]|[? _]]; auto).
  assert (Hdr : 1 <= d <= inf) by (unfold d, directed; destruct mode, s; try case_match; lia).
  assert (Ei : Sf.is_infinite fmt (sp s n) = false).
  { unfold Sf.is_infinite. rewrite mag_signed_pat by lia. apply Z.eqb_neq. lia. }
  assert (Ez : Sf.is_zero fmt delta = false).
  { rewrite (is_zero_units fmt Hfmt) by (by apply finite_number). rewrite Ed. apply Z.eqb_neq.
    destruct Hn as [-> | ->], s; lia. }
  unfold correct. rewrite Ei, Ez. cbn [andb]. cbv zeta.
  pose proof (neighbours s lo n delta X Hlo Hni Hn HX Hd Ed) as Hnb.
  pose proof (tie_test s lo n delta X Hlo Hni HX Hc Hd Ed) as Htie.
  rewrite Hnb. assert (Hres : forall q, q = sp s d -> (q,
     raise_if (Sf.is_finite fmt q && negb (Sf.is_zero fmt q)
       && Sf.lt fmt (Sf.abs fmt q) (Sf.min_normal fmt)) fflags.UF
       (raise_if (Sf.is_infinite fmt q && true) fflags.OF (Z.lor flags fflags.NX)))
    = (sp s d, raise_if (d <? 2 ^ Fmt.mant_bits fmt) fflags.UF
       (raise_if (d =? inf) fflags.OF (Z.lor flags fflags.NX)))).
  { intros q ->. f_equal. unfold Sf.is_finite, Sf.is_zero, Sf.is_infinite, Sf.lt, Sf.is_nan, Sf.key,
      Sf.abs, Sf.min_normal. rewrite mag_signed_pat by lia.
    assert (Hmn : 0 <= 2 ^ Fmt.mant_bits fmt <= inf)
      by (pose proof (max_field_range fmt Hfmt); unfold inf_mag; nia).
    rewrite !mag_small, !sign_small, andb_true_r by lia. f_equal.
    destruct (Z.ltb_spec d inf), (Z.eqb_spec d 0), (Z.ltb_spec inf d),
      (Z.ltb_spec inf (2 ^ Fmt.mant_bits fmt)), (Z.ltb_spec d (2 ^ Fmt.mant_bits fmt)); try lia; done. }
  destruct s; apply Hres; unfold d, directed; destruct mode; try done.
  - rewrite min_mag_pat by lia. f_equal. lia.
  - rewrite Htie. destruct (_ =? _); [|done]. rewrite max_mag_pat by lia. f_equal. lia.
  - rewrite min_mag_pat by lia. f_equal. lia.
  - rewrite Htie. destruct (_ =? _); [|done]. rewrite max_mag_pat by lia. f_equal. lia.
Qed.

(** A value of the format is its own rounding. *)
Lemma exact_rounded mode s n flags :
  0 <= n < inf -> correctly_rounded fmt mode s (val (U n)) flags (sp s n, flags).
Proof.
  intros Hn. exists n.
  assert (Ev : val (U n) = mag_val fmt n) by (by rewrite (magval fmt Hfmt) by lia).
  assert (Hlt : (val (U n) < mag_val fmt inf)%R).
  { rewrite (magval fmt Hfmt inf) by lia. apply val_lt, (mag_units_lt fmt Hfmt); lia. }
  split; [|split; [done|]].
  - exists n. split; [|by left]. split; [lia|]. rewrite Ev. split; [lra|]. intros _.
    rewrite !(magval fmt Hfmt) by lia. apply val_lt, (mag_units_lt fmt Hfmt); lia.
  - exists false, false, false. unfold overflows. repeat split; try done; intuition; (lra || lia).
Qed.

Lemma correct_rounds mode s n delta X flags :
  0 < X -> rounds_to fmt Rne s (val X) n -> n < inf -> finite fmt delta ->
  units delta = (if s then U n - X else X - U n) ->
  correctly_rounded fmt mode s (val X) flags (correct fmt (sp s n) delta mode true flags).
Proof.
  intros HX Hr Hn Hd Ed. pose proof (inf_lt_width fmt Hfmt) as Hw.
  destruct (rne_cases fmt Hfmt s X n HX Hr Hn) as [Hn1 [E | (lo & Hlo & HXb & Hc)]].
  - assert (Ez : Sf.is_zero fmt delta = true).
    { rewrite (is_zero_units fmt Hfmt) by (by apply finite_number). rewrite Ed. apply Z.eqb_eq.
      destruct s; lia. }
    assert (Ei : Sf.is_infinite fmt (sp s n) = false).
    { unfold Sf.is_infinite. rewrite mag_signed_pat by lia. apply Z.eqb_neq. lia. }
    unfold correct. rewrite Ei, Ez. cbn [andb]. subst X. apply exact_rounded. lia.
  - rewrite (correct_selects mode s lo n delta X flags Hlo Hn HXb Hc Hd Ed).
    set (d := directed fmt mode s X lo n). exists d.
    split; [by apply directed_rounds|]. split; [done|].
    assert (Hdd : d = lo \/ d = lo + 1).
    { unfold d, directed. destruct Hc as [[-> _]|[-> _]], mode, s; try case_match; auto. }
    assert (Hne : val X <> mag_val fmt d).
    { rewrite (magval fmt Hfmt) by lia. rewrite val_inj. destruct Hdd as [-> | ->]; lia. }
    assert (Hlt : (val X < mag_val fmt inf)%R).
    { rewrite (magval fmt Hfmt inf) by lia. apply val_lt.
      pose proof (U_le fmt Hfmt (lo + 1) inf ltac:(lia) ltac:(lia)). lia. }
    exists true, (d =? inf), (d <? 2 ^ Fmt.mant_bits fmt). unfold overflows.
    rewrite Z.eqb_eq, Z.ltb_lt. repeat split; try done; intuition; lra.
Qed.
End Correct.

(** ** Addition *)

Section Add.
Variable fmt : Fmt.t.
Hypothesis Hhost : host_fmt fmt.
Let Hfmt : fmt_ok fmt := host_fmt_ok fmt Hhost.

Abbreviation p := (Fmt.p fmt).
Abbreviation inf := (inf_mag fmt).
Abbreviation sp := (signed_pat fmt).
Abbreviation U := (mag_units fmt).
Abbreviation units := (units fmt).
Abbreviation em := (emin fmt).
Abbreviation val X := (IZR X * bpow em)%R.

(** The flags are those of [f], or the overflow flag is raised too early. *)
Definition flags_up_to_overflow (overflowed : bool) (f r : Z) : Prop :=
  r = f \/ (overflowed = true /\ r = Z.lor f fflags.OF).

(** A nearest sum that is infinite. *)
Lemma correct_overflow mode s X delta flags :
  0 < X -> rounds_to fmt Rne s (val X) inf ->
  let r := correct fmt (sp s inf) delta mode true flags in
  exists f, correctly_rounded fmt mode s (val X) flags (r.1, f) /\ flags_up_to_overflow true f r.2.
Proof.
  intros HX (lo & (Hlo & H1 & _) & Hsel) r. pose proof (inf_lt_width fmt Hfmt) as Hw.
  pose proof (mag_val_max fmt Hfmt) as Hmax.
  destruct Hsel as [[_ ?]|[Hlt Hsel]]; [lia|].
  assert (lo = inf - 1) as -> by (unfold selects in Hsel; destruct Hsel as [[_ ?]|[[_ ?]|[_ E]]];
    try lia; destruct (Z.even lo); lia).
  unfold selects in Hsel. replace (inf - 1 + 1) with inf in Hsel by lia.
  assert (Hmid : (mag_val fmt (inf - 1) + mag_val fmt inf <= 2 * val X)%R)
    by (destruct Hsel as [[_ ?]|[[? _]|[-> _]]]; [lia|lra|lra]).
  assert (Er : r = (sp s (over_mag fmt mode s), Z.lor flags (Z.lor fflags.OF fflags.NX))).
  { unfold r, correct, Sf.is_infinite, Sf.max_finite. rewrite mag_signed_pat, sign_signed_pat by (done || lia).
    rewrite Z.eqb_refl. cbn [andb]. f_equal. pose proof (neg_pat fmt Hfmt false (inf - 1) ltac:(lia)) as En.
    unfold over_mag. destruct mode, s; try done; exact En. }
  assert (Hr : rounds_to fmt mode s (val X) (over_mag fmt mode s)).
  { exists (inf - 1). split; [split; [lia|]; split; [lra|lia]|]. right. split; [done|].
    unfold selects, over_mag. replace (inf - 1 + 1) with inf by lia.
    destruct mode, s; try done; try (right; split; (lra || done));
      destruct (Rle_lt_or_eq_dec _ _ Hmid); try (right; left; done);
      right; right; (split; [done|]); destruct Hsel as [[_ ?]|[[? _]|[_ E]]]; (lia || lra || done). }
  assert (Hbig : 2 ^ Fmt.mant_bits fmt <= over_mag fmt mode s).
  { pose proof (pow_mb_pos fmt Hfmt). pose proof (max_field_range fmt Hfmt).
    unfold over_mag, inf_mag. destruct mode, s; nia. }
  rewrite Er. cbn [fst snd]. set (m := over_mag fmt mode s) in *.
  assert (Hov : overflows fmt (val X) m \/ ~ overflows fmt (val X) m).
  { unfold overflows. destruct (Z.eq_dec m inf); [left; by left|].
    destruct (Rle_dec (mag_val fmt inf) (val X)); [left; by right|right]. intros [?|?]; done. }
  assert (Hne : val X <> mag_val fmt m \/ overflows fmt (val X) m).
  { assert (m = inf \/ m = inf - 1) as [-> | ->] by (unfold m, over_mag; destruct mode, s; lia);
      [right; by left | left; lra]. }
  destruct Hov as [Hov|Hov].
  - exists (Z.lor flags (Z.lor fflags.OF fflags.NX)). split; [|by left]. exists m. split; [done|].
    split; [done|]. exists true, true, false. repeat split; try done; [lia|].
    unfold raise_if. rewrite <- Z.lor_assoc. f_equal.
  - exists (Z.lor flags fflags.NX). split; [|right; split; [done|]].
    + exists m. split; [done|]. split; [done|]. exists true, false, false.
      repeat split; try done; intuition; lia.
    + rewrite <- Z.lor_assoc. f_equal.
Qed.

(** The tests that [add] makes on finite operands. *)
Lemma add_finite_unfold a b mode flags :
  finite fmt a -> finite fmt b ->
  add fmt a b mode flags =
    let r := Sf.add fmt a b in
    if Sf.is_infinite fmt r then correct fmt r 0 mode true flags
    else if Sf.is_zero fmt r && negb (Sf.is_sign_negative fmt r) && bool_decide (mode = Rdn)
            && negb (Sf.is_zero fmt a && negb (Sf.is_sign_negative fmt a)
                     && (Sf.is_zero fmt b && negb (Sf.is_sign_negative fmt b)))
    then (sp true 0, flags)
    else correct fmt r (two_sum_residual fmt a b r) mode true flags.
Proof.
  intros Ha Hb. destruct (finite_test fmt a Ha) as [Na Ia]. destruct (finite_test fmt b Hb) as [Nb Ib].
  unfold add. rewrite Na, Nb, Ia, Ib. cbn [orb andb]. pose proof (inf_lt_width fmt Hfmt).
  pose proof (neg_pat fmt Hfmt false 0 ltac:(lia)) as En. change (sp false 0) with 0 in En.
  by rewrite En.
Qed.

(** A nonzero sum. *)
Lemma add_nonzero a b mode flags :
  finite fmt a -> finite fmt b -> Sf.mag fmt b <> inf - 1 -> units a + units b <> 0 ->
  let z := units a + units b in
  let r := add fmt a b mode flags in
  exists f, correctly_rounded fmt mode (z <? 0) (val (Z.abs z)) flags (r.1, f)
    /\ flags_up_to_overflow (Sf.is_infinite fmt (Sf.add fmt a b)) f r.2.
Proof.
  intros Ha Hb Hmax Hz z r. pose proof (inf_lt_width fmt Hfmt) as Hw. unfold r.
  rewrite add_finite_unfold by done. cbv zeta.
  destruct (host_add_units fmt Hfmt a b Ha Hb) as [[? _]|(_ & n & Hn & Hnear & Hr & E)]; [done|].
  fold z in Hr, E, Hnear. pose proof (two_sum_residual_exact fmt Hfmt a b Ha Hb) as Hres.
  rewrite E in *. set (m := Z.min n inf) in *. assert (Hm : 0 <= m <= inf) by lia.
  assert (Einf : Sf.is_infinite fmt (sp (z <? 0) m) = (m =? inf))
    by (unfold Sf.is_infinite; by rewrite mag_signed_pat by lia).
  rewrite Einf. destruct (Z.eqb_spec m inf) as [Ei|Ei].
  { rewrite Ei in *. apply correct_overflow; [lia|done]. }
  assert (Fr : finite fmt (sp (z <? 0) m)) by (apply finite_pat; (done || lia)).
  destruct (Hres Fr Hmax) as [Fd Ed]. fold z in Ed. rewrite (units_pat fmt Hfmt) in Ed by lia.
  destruct (rne_cases fmt Hfmt (z <? 0) (Z.abs z) m ltac:(lia) Hr ltac:(lia)) as [Hm1 _].
  assert (Ezero : Sf.is_zero fmt (sp (z <? 0) m) = false)
    by (unfold Sf.is_zero; rewrite mag_signed_pat by lia; apply Z.eqb_neq; lia).
  rewrite Ezero. cbn [andb]. eexists. split; [|by left]. rewrite <- surjective_pairing.
  apply correct_rounds; try done; [lia|lia|]. rewrite Ed. destruct (Z.ltb_spec z 0); lia.
Qed.

(** A representable nonzero sum is returned exactly. *)
Lemma add_exact a b mode flags :
  finite fmt a -> finite fmt b -> Sf.mag fmt b <> inf - 1 -> units a + units b <> 0 ->
  rep p (units a + units b) -> Z.abs (units a + units b) <= Omega fmt ->
  exists r, finite fmt r /\ units r = units a + units b /\ add fmt a b mode flags = (r, flags).
Proof.
  intros Ha Hb Hmax Hz Hr HO. destruct (host_add_exact fmt Hfmt a b Ha Hb Hr HO) as [Fr Er].
  exists (Sf.add fmt a b). split; [done|]. split; [done|]. rewrite add_finite_unfold by done. cbv zeta.
  destruct (finite_test fmt _ Fr) as [_ ->].
  rewrite (is_zero_units fmt Hfmt) by (by apply finite_number). rewrite Er.
  destruct (Z.eqb_spec (units a + units b) 0); [done|]. cbn [andb].
  destruct (two_sum_residual_exact fmt Hfmt a b Ha Hb Fr Hmax) as [Fd Ed].
  unfold correct. destruct (finite_test fmt _ Fr) as [_ ->].
  rewrite (is_zero_units fmt Hfmt (two_sum_residual _ _ _ _)) by (by apply finite_number).
  rewrite Ed, Er. by replace (units a + units b - (units a + units b)) with 0 by lia.
Qed.

(** A zero sum. *)
Lemma add_zero a b mode flags :
  finite fmt a -> finite fmt b -> Sf.mag fmt b <> inf - 1 -> units a + units b = 0 ->
  add fmt a b mode flags
  = (sp (if eqb (Sf.is_sign_negative fmt a) (Sf.is_sign_negative fmt b)
         then Sf.is_sign_negative fmt a else bool_decide (mode = Rdn)) 0, flags).
Proof.
  intros Ha Hb Hmax Hz. pose proof (inf_lt_width fmt Hfmt) as Hw.
  destruct (host_add_units fmt Hfmt a b Ha Hb) as [[_ E]|[? _]]; [|done].
  rewrite add_finite_unfold by done. cbv zeta.
  pose proof (two_sum_residual_exact fmt Hfmt a b Ha Hb) as Hres. rewrite E in *.
  set (sg := Sf.is_sign_negative fmt a && Sf.is_sign_negative fmt b) in *.
  assert (Fr : finite fmt (sp sg 0)) by (apply finite_pat; (done || lia)).
  destruct (Hres Fr Hmax) as [Fd Ed]. rewrite (units_pat fmt Hfmt), (mag_units_0 fmt Hfmt) in Ed by lia.
  assert (Hsame : Sf.is_sign_negative fmt a = Sf.is_sign_negative fmt b ->
    Sf.is_zero fmt a = true /\ Sf.is_zero fmt b = true).
  { intros Hs. rewrite !(is_zero_units fmt Hfmt), !Z.eqb_eq by (by apply finite_number).
    unfold RvHostSpec.units in *. pose proof (mag_range fmt Hfmt a).
    pose proof (mag_range fmt Hfmt b).
    pose proof (mag_units_nonneg fmt Hfmt (Sf.mag fmt a) ltac:(lia)).
    pose proof (mag_units_nonneg fmt Hfmt (Sf.mag fmt b) ltac:(lia)).
    destruct (Sf.is_sign_negative fmt a), (Sf.is_sign_negative fmt b); (discriminate || lia). }
  assert (Hc : correct fmt (sp sg 0) (two_sum_residual fmt a b (sp sg 0)) mode true flags
    = (sp sg 0, flags)).
  { unfold correct. destruct (finite_test fmt _ Fr) as [_ ->].
    rewrite (is_zero_units fmt Hfmt) by (by apply finite_number). rewrite Ed, Hz. by destruct sg. }
  rewrite Hc. destruct (finite_test fmt _ Fr) as [_ ->]. unfold Sf.is_zero at 1.
  rewrite mag_signed_pat, sign_signed_pat by (done || lia). change (0 =? 0) with true. cbn [andb].
  unfold sg in *. destruct (Sf.is_sign_negative fmt a), (Sf.is_sign_negative fmt b); cbn [andb negb eqb].
  - done.
  - by destruct (Sf.is_zero fmt a), (Sf.is_zero fmt b), (bool_decide (mode = Rdn)).
  - by destruct (Sf.is_zero fmt a), (Sf.is_zero fmt b), (bool_decide (mode = Rdn)).
  - destruct (Hsame eq_refl) as [-> ->]. cbn [andb negb]. by rewrite andb_false_r.
Qed.

Lemma interp_tests x :
  interp fmt x =
    if Sf.is_nan fmt x then NaN (negb (Z.testbit x (Fmt.mant_bits fmt - 1)))
    else if Sf.is_infinite fmt x then Inf (Sf.is_sign_negative fmt x)
    else if Sf.is_zero fmt x then Zero (Sf.is_sign_negative fmt x)
    else Finite (Sf.is_sign_negative fmt x) (mag_val fmt (Sf.mag fmt x)).
Proof. reflexivity. Qed.

Lemma finite_intro x :
  fits (Fmt.width fmt) x -> Sf.is_nan fmt x = false -> Sf.is_infinite fmt x = false -> finite fmt x.
Proof. intros Hf Hn Hi. split; [done|]. unfold Sf.is_nan, Sf.is_infinite in *. lia. Qed.

(** The signed value of a finite number. *)
Lemma signed_units x :
  signed (Sf.is_sign_negative fmt x) (mag_val fmt (Sf.mag fmt x)) = val (units x).
Proof.
  pose proof (mag_range fmt Hfmt x). rewrite (magval fmt Hfmt) by lia. unfold RvHostSpec.units, signed.
  case_match; [rewrite opp_IZR; ring | done].
Qed.

(** The datum of a finite nonzero number is determined by its units. *)
Lemma interp_units x :
  finite fmt x -> units x <> 0 -> interp fmt x = Finite (units x <? 0) (val (Z.abs (units x))).
Proof.
  intros Hx Hz. destruct (finite_test fmt x Hx) as [Hn Hi]. rewrite interp_tests, Hn, Hi.
  rewrite (is_zero_units fmt Hfmt) by (by apply finite_number).
  destruct (Z.eqb_spec (units x) 0); [done|]. pose proof (mag_range fmt Hfmt x).
  rewrite (magval fmt Hfmt) by lia. pose proof (mag_units_nonneg fmt Hfmt (Sf.mag fmt x) ltac:(lia)).
  unfold RvHostSpec.units in *. destruct (Sf.is_sign_negative fmt x);
    match goal with |- context [?y <? 0] => destruct (Z.ltb_spec y 0) end; try lia;
    do 3 f_equal; lia.
Qed.

Lemma finite_datum x :
  finite fmt x ->
  (units x = 0 /\ interp fmt x = Zero (Sf.is_sign_negative fmt x))
  \/ (units x <> 0 /\ interp fmt x = Finite (Sf.is_sign_negative fmt x) (mag_val fmt (Sf.mag fmt x))).
Proof.
  intros Hx. destruct (finite_test fmt x Hx) as [Hn Hi]. rewrite interp_tests, Hn, Hi.
  rewrite (is_zero_units fmt Hfmt) by (by apply finite_number).
  destruct (Z.eqb_spec (units x) 0); [left|right]; done.
Qed.

Lemma opposite_signs a b :
  units a + units b = 0 -> units a <> 0 ->
  Sf.is_sign_negative fmt a <> Sf.is_sign_negative fmt b.
Proof.
  intros Hz Ha E. unfold RvHostSpec.units in *. rewrite E in *. pose proof (mag_range fmt Hfmt a).
  pose proof (mag_range fmt Hfmt b).
  pose proof (mag_units_nonneg fmt Hfmt (Sf.mag fmt a) ltac:(lia)).
  pose proof (mag_units_nonneg fmt Hfmt (Sf.mag fmt b) ltac:(lia)).
  destruct (Sf.is_sign_negative fmt b); lia.
Qed.

(** Adding a zero returns the other operand. *)
Lemma add_returns a b mode flags x :
  finite fmt a -> finite fmt b -> Sf.mag fmt b <> inf - 1 -> units a + units b <> 0 ->
  units a = 0 \/ units b = 0 -> finite fmt x -> units x = units a + units b ->
  returns fmt (interp fmt x) flags (add fmt a b mode flags).
Proof.
  intros Ha Hb Hmax Hz H0 Hx Ex.
  destruct (finite_bound fmt Hfmt a Ha) as [Ra La]. destruct (finite_bound fmt Hfmt b Hb) as [Rb Lb].
  destruct (add_exact a b mode flags) as (q & Fq & Eq & ->); try done;
    [destruct H0 as [E|E]; rewrite E, ?Z.add_0_l, ?Z.add_0_r; done | destruct H0; lia |].
  split; [|done]. cbn [fst]. rewrite !interp_units by (done || lia). by rewrite Eq, Ex.
Qed.

Lemma add_finite_ieee a b mode flags :
  finite fmt a -> finite fmt b -> Sf.mag fmt b <> inf - 1 ->
  let r := add fmt a b mode flags in
  exists f, ieee_add fmt mode flags (interp fmt a) (interp fmt b) (r.1, f)
    /\ flags_up_to_overflow (Sf.is_infinite fmt (Sf.add fmt a b)) f r.2.
Proof.
  intros Ha Hb Hmax r. pose proof (bpow_pos em) as Hpos.
  destruct (Z.eq_dec (units a + units b) 0) as [Ez|Ez].
  - exists flags. unfold r. rewrite add_zero by done. cbn [fst snd]. split; [|by left].
    destruct (finite_datum a Ha) as [[E1 ->]|[E1 ->]], (finite_datum b Hb) as [[E2 ->]|[E2 ->]];
      try lia; [done|].
    left. rewrite !signed_units. split; [apply IZR_eq in Ez; rewrite plus_IZR in Ez; nra|].
    pose proof (opposite_signs a b Ez E1).
    by destruct (Sf.is_sign_negative fmt a), (Sf.is_sign_negative fmt b).
  - destruct (finite_datum a Ha) as [[E1 D1]|[E1 D1]], (finite_datum b Hb) as [[E2 D2]|[E2 D2]]; [lia|..].
    + exists r.2. split; [|by left]. rewrite <- surjective_pairing.
      pose proof (add_returns a b mode flags b Ha Hb Hmax Ez (or_introl E1) Hb ltac:(lia)) as Hr.
      rewrite D2 in Hr. by rewrite D1, D2.
    + exists r.2. split; [|by left]. rewrite <- surjective_pairing.
      pose proof (add_returns a b mode flags a Ha Hb Hmax Ez (or_intror E2) Ha ltac:(lia)) as Hr.
      rewrite D1 in Hr. by rewrite D1, D2.
    + destruct (add_nonzero a b mode flags Ha Hb Hmax Ez) as (f & Hr & Hf). exists f. split; [|done].
      rewrite D1, D2. right. eexists _, _. split; [|split; [|exact Hr]].
      * assert (0 < IZR (Z.abs (units a + units b)))%R by (apply IZR_lt; lia). nra.
      * rewrite !signed_units, <- Rmult_plus_distr_r, <- plus_IZR. unfold signed.
        destruct (Z.ltb_spec (units a + units b) 0).
        -- rewrite Z.abs_neq, opp_IZR by lia. ring.
        -- by rewrite Z.abs_eq by lia.
Qed.

Lemma add_ieee a b mode flags :
  fits (Fmt.width fmt) a -> fits (Fmt.width fmt) b -> Sf.mag fmt b <> inf - 1 ->
  let r := add fmt a b mode flags in
  exists f, ieee_add fmt mode flags (interp fmt a) (interp fmt b) (r.1, f)
    /\ flags_up_to_overflow (Sf.is_infinite fmt (Sf.add fmt a b)) f r.2.
Proof.
  intros Ha Hb Hmax r. destruct (Sf.is_nan fmt a) eqn:Na.
  { exists r.2. split; [|by left]. rewrite <- surjective_pairing, !interp_tests, Na. unfold r, add, nan_result.
    rewrite Na. cbn [orb any_snan existsb]. destruct (canon_mag fmt Hfmt) as [-> _].
    rewrite canon_eq, orb_false_r by done. unfold Sf.signaling_nan. rewrite Na.
    destruct (Sf.is_nan fmt b), (Sf.is_infinite fmt b), (Sf.is_zero fmt b); done. }
  destruct (Sf.is_nan fmt b) eqn:Nb.
  { exists r.2. split; [|by left]. rewrite <- surjective_pairing, !interp_tests, Na, Nb.
    unfold r, add, nan_result. rewrite Na, Nb. cbn [orb any_snan existsb].
    destruct (canon_mag fmt Hfmt) as [-> _]. rewrite canon_eq, orb_false_r by done.
    unfold Sf.signaling_nan. rewrite Na, Nb.
    destruct (Sf.is_infinite fmt a), (Sf.is_zero fmt a); done. }
  destruct (Sf.is_infinite fmt a || Sf.is_infinite fmt b) eqn:Ei.
  2: { apply orb_false_iff in Ei as [Ia Ib]. apply add_finite_ieee; [by apply finite_intro..|done]. }
  exists r.2. split; [|by left]. rewrite <- surjective_pairing, !interp_tests, Na, Nb.
  assert (Hpat : forall x, fits (Fmt.width fmt) x -> Sf.is_infinite fmt x = true ->
    inf_pat_of fmt (Sf.is_sign_negative fmt x) = x).
  { intros x Hx Hi. unfold inf_pat_of. unfold Sf.is_infinite in Hi. apply Z.eqb_eq in Hi.
    rewrite <- Hi. symmetry. by apply pattern_split. }
  unfold r, add. rewrite Na, Nb, Ei. cbn [orb]. unfold Sf.add. rewrite Na, Nb. cbn [orb].
  destruct (canon_mag fmt Hfmt) as [-> _]. rewrite canon_eq by done.
  destruct (Sf.is_infinite fmt a) eqn:Ia, (Sf.is_infinite fmt b) eqn:Ib; try done; cbn [andb].
  - unfold ieee_add. rewrite Hpat by done. by destruct (eqb _ _).
  - destruct (Sf.is_zero fmt b); unfold ieee_add; by rewrite Hpat.
  - destruct (Sf.is_zero fmt a); unfold ieee_add; by rewrite Hpat.
Qed.
End Add.
