(* ===== verification/RvHostConv.v ===== *)
(** * Conversions and comparisons of the floating-point types

    [ftoi] rounds to an integer in the mode given and saturates, [itof] rounds an
    integer correctly in every mode, and the comparisons order the numbers they
    are given, as src/isa/riscv/float.rs means them to. *)

From Stdlib Require Import Reals Lra.
From S2P Require Import Prelude RvFloat RvHostFloat RvFloatOps RvTwoSum RvRound RvFloatSpec RvFloatAdd.
From S2P Require Import RvFloatWf RvHostSpec RvHostAdd.

(** ** Integers in units *)

Section Integers.
Variable fmt : Fmt.t.
Hypothesis Hhost : host_fmt fmt.
Let Hfmt : fmt_ok fmt := host_fmt_ok fmt Hhost.

Abbreviation p := (Fmt.p fmt).
Abbreviation inf := (inf_mag fmt).
Abbreviation sp := (signed_pat fmt).
Abbreviation U := (mag_units fmt).
Abbreviation units := (units fmt).
Abbreviation em := (emin fmt).
Abbreviation val X := (IZR X * bpow em)%R.

(** The units of the integer 1. *)
Definition one_units : Z := 2 ^ (- em).

Lemma emin_neg : em <= - 1.
Proof. destruct Hhost as [-> | ->]; by vm_compute. Qed.

Lemma one_units_pos : 0 < one_units.
Proof. apply Z.pow_pos_nonneg; [lia|]. pose proof emin_neg. lia. Qed.

Lemma val_one k : val (k * one_units) = IZR k.
Proof.
  unfold one_units. pose proof emin_neg. rewrite mult_IZR, <- bpow_nonneg, Rmult_assoc, <- bpow_add by lia.
  replace (- em + em) with 0 by lia. rewrite bpow_0. ring.
Qed.

(** Integers of up to 126 bits are in range, and those of up to [p] bits exact. *)
Lemma int_in_range k : 0 <= k <= 2 ^ 126 -> k * one_units <= Omega fmt.
Proof.
  intros Hk. assert (H : 2 ^ 126 * one_units <= Omega fmt).
  { unfold one_units. clear Hk. apply Z.leb_le. destruct Hhost as [-> | ->]; vm_compute; reflexivity. }
  pose proof one_units_pos. eapply Z.le_trans; [|exact H]. apply Z.mul_le_mono_nonneg_r; lia.
Qed.

Lemma int_rep k : Z.abs k <= 2 ^ p -> rep p (k * one_units).
Proof. intros Hk. apply rep_mult; [destruct Hfmt; lia|pose proof emin_neg; lia|done]. Qed.

(** The integer part of a finite number. *)
Lemma to_i128_units x :
  finite fmt x ->
  Sf.to_i128 fmt x =
    let q := U (Sf.mag fmt x) / one_units in
    if Sf.is_sign_negative fmt x then Z.max (- q) (- 2 ^ 127) else Z.min q (2 ^ 127 - 1).
Proof.
  intros Hx. destruct (finite_test fmt x Hx) as [Hn Hi]. unfold Sf.to_i128. rewrite Hn, Hi.
  pose proof (parts_units fmt Hfmt x) as Hp. destruct (Sf.parts fmt x) as [m e]. destruct Hp as [He Hp].
  pose proof emin_neg. pose proof one_units_pos as Hpos. cbv zeta. rewrite <- Hp.
  assert (E : (if 0 <=? e then m * 2 ^ e else m / 2 ^ (- e)) = m * 2 ^ (e - em) / one_units).
  { unfold one_units in *. destruct (Z.leb_spec 0 e).
    - replace (e - em) with (e + - em) by lia. rewrite Z.pow_add_r, Z.mul_assoc, Z.div_mul by lia. done.
    - replace (- em) with (e - em + - e) by lia. rewrite Z.pow_add_r by lia.
      rewrite Z.mul_comm, Z.div_mul_cancel_l; [done|apply Z.pow_nonzero; lia|apply Z.pow_nonzero; lia]. }
  by rewrite E.
Qed.

(** The number of a small integer, and back. *)
Lemma round_int s k :
  0 <= k <= 2 ^ p -> exists n, 0 <= n < inf /\ Sf.round fmt s k 0 = sp s n /\ U n = k * one_units.
Proof.
  intros Hk. pose proof (inf_lt_width fmt Hfmt) as Hw. pose proof emin_neg.
  assert (H53 : 2 ^ p <= 2 ^ 126) by (apply Z.pow_le_mono_r; [lia|destruct Hfmt; lia]).
  destruct (Z.eq_dec k 0) as [->|Hk0].
  { exists 0. split; [lia|]. split; [done|]. rewrite (mag_units_0 fmt Hfmt). lia. }
  destruct (host_round_near fmt Hfmt s k 0) as (n & Hn & Hnear & E); [lia|lia|].
  replace (0 - em) with (- em) in Hnear by lia. fold one_units in Hnear.
  apply near_exact in Hnear; [|apply int_rep; lia].
  pose proof (int_in_range k ltac:(lia)) as HO.
  assert (n < inf) by (apply (Omega_bound fmt Hfmt); lia).
  exists n. rewrite E, Z.min_l by lia. split; [lia|]. done.
Qed.
End Integers.

(** ** Rounding to an integer *)

(** [k] is the integer a mode gives to [(-1) ^ sign * x]. *)
Definition int_rounds (mode : RoundingMode) (sign : bool) (x : R) (k : Z) : Prop :=
  exists lo, 0 <= lo /\ (IZR lo <= x < IZR (lo + 1))%R
    /\ ((x = IZR lo /\ k = lo)
        \/ ((IZR lo < x)%R /\
            match mode with
            | Rtz => k = lo
            | Rdn => k = if sign then lo + 1 else lo
            | Rup => k = if sign then lo else lo + 1
            | Rmm => ((2 * x < IZR (2 * lo + 1))%R /\ k = lo)
                     \/ ((IZR (2 * lo + 1) <= 2 * x)%R /\ k = lo + 1)
            | Rne | Dyn =>
                ((2 * x < IZR (2 * lo + 1))%R /\ k = lo)
                \/ ((IZR (2 * lo + 1) < 2 * x)%R /\ k = lo + 1)
                \/ ((2 * x)%R = IZR (2 * lo + 1) /\ k = if Z.even lo then lo else lo + 1)
            end)).

Lemma int_rounds_exact mode sign k : 0 <= k -> int_rounds mode sign (IZR k) k.
Proof.
  intros Hk. exists k. split; [done|]. rewrite plus_IZR. split; [lra|]. by left.
Qed.

Lemma integral_mag_rounds mode sign m k :
  0 <= m -> 0 < k -> int_rounds mode sign (IZR m * bpow (- k)) (Sf.integral_mag mode sign m k).
Proof.
  intros Hm Hk. pose proof (Z.pow_pos_nonneg 2 k ltac:(lia) ltac:(lia)) as Hp.
  pose proof (Z.div_mod m (2 ^ k) ltac:(lia)) as Hdm. pose proof (Z.mod_pos_bound m (2 ^ k) Hp) as Hr.
  pose proof (Z.div_pos m (2 ^ k) Hm Hp) as Hq. unfold Sf.integral_mag, Sf.nearest_even. cbv zeta.
  destruct (Z.leb_spec 0 (- k)); [lia|]. replace (0 - - k) with k by lia.
  set (q := m / 2 ^ k) in *. set (r := m mod 2 ^ k) in *. set (w := 2 ^ k) in *.
  assert (Hx : (IZR m * bpow (- k) * IZR w = IZR m)%R).
  { unfold w. rewrite <- bpow_nonneg, Rmult_assoc, <- bpow_add by lia.
    replace (- k + k) with 0 by lia. rewrite bpow_0. ring. }
  set (x := (IZR m * bpow (- k))%R) in *. assert (Hw : (0 < IZR w)%R) by (by apply IZR_lt).
  assert (Hmr : (x * IZR w = IZR q * IZR w + IZR r)%R).
  { rewrite Hx, Hdm, plus_IZR, mult_IZR. ring. }
  assert (Hr0 : (0 <= IZR r)%R) by (apply IZR_le; lia).
  assert (Hr1 : (IZR r < IZR w)%R) by (apply IZR_lt; lia).
  exists q. split; [done|]. rewrite plus_IZR. split; [split; nra|].
  rewrite (plus_IZR (2 * q)), mult_IZR.
  destruct (Z.eqb_spec r 0) as [E|E].
  - left. assert (Er : IZR r = 0%R) by (by rewrite E). split; [nra|].
    destruct mode; rewrite ?andb_false_r; try done.
    + rewrite E. by destruct (Z.compare_spec (2 * 0) w); [lia| |lia].
    + destruct (Z.leb_spec w (2 * r)); [lia|done].
    + rewrite E. by destruct (Z.compare_spec (2 * 0) w); [lia| |lia].
  - right. assert (0 < IZR r)%R by (apply IZR_lt; lia). split; [nra|]. rewrite !andb_true_r.
    assert (Hcmp : (2 * r < w -> (2 * x < 2 * IZR q + 1)%R) /\ (w < 2 * r -> (2 * IZR q + 1 < 2 * x)%R)
      /\ (2 * r = w -> (2 * x)%R = (2 * IZR q + 1)%R)).
    { split; [intros HH; apply IZR_lt in HH; rewrite mult_IZR in HH; nra|].
      split; [intros HH; apply IZR_lt in HH; rewrite mult_IZR in HH; nra|].
      intros HH. apply IZR_eq in HH. rewrite mult_IZR in HH. nra. }
    destruct Hcmp as (C1 & C2 & C3).
    assert (Hodd : q + q mod 2 = if Z.even q then q else q + 1).
    { rewrite Zmod_even. destruct (Z.even q); lia. }
    destruct mode; try (by destruct sign).
    + destruct (Z.compare_spec (2 * r) w); auto.
    + destruct (Z.leb_spec w (2 * r)); [right|left; auto]. split; [|done].
      destruct (Z.eq_dec (2 * r) w); [rewrite C3 by done; lra|]. assert (w < 2 * r) by lia.
      specialize (C2 ltac:(done)). lra.
    + destruct (Z.compare_spec (2 * r) w); auto.
Qed.

Section ToInt.
Variable fmt : Fmt.t.
Hypothesis Hhost : host_fmt fmt.
Let Hfmt : fmt_ok fmt := host_fmt_ok fmt Hhost.

Abbreviation p := (Fmt.p fmt).
Abbreviation inf := (inf_mag fmt).
Abbreviation sp := (signed_pat fmt).
Abbreviation U := (mag_units fmt).
Abbreviation em := (emin fmt).

Lemma int_rounds_le mode sign x k b : int_rounds mode sign x k -> (x <= IZR b)%R -> k <= b.
Proof.
  intros (lo & Hlo & Hx & [[E ->]|[Hlt Hsel]]) Hb.
  - apply le_IZR. lra.
  - assert (lo < b) by (apply lt_IZR; lra). assert (k = lo \/ k = lo + 1); [|lia].
    destruct mode, sign; try (by auto); try (destruct Hsel as [[_ ?]|[_ ?]]; by auto);
      destruct Hsel as [[_ ?]|[[_ ?]|[_ E]]]; auto; destruct (Z.even lo); auto.
Qed.

(** The integral number a finite one rounds to. *)
Lemma round_integral_rounds mode x :
  finite fmt x ->
  let s := Sf.is_sign_negative fmt x in
  exists k n, int_rounds mode s (mag_val fmt (Sf.mag fmt x)) k /\ 0 <= k
    /\ Sf.round_integral fmt mode x = sp s n /\ 0 <= n < inf /\ U n = k * one_units fmt.
Proof.
  intros Hx s. pose proof Hx as [Hf Hm]. pose proof (emin_neg fmt Hhost). pose proof (mag_range fmt Hfmt x).
  unfold Sf.round_integral. unfold Sf.is_finite. destruct (Z.ltb_spec (Sf.mag fmt x) inf); [|lia].
  cbn [negb]. pose proof (parts_units fmt Hfmt x) as Hp. pose proof (parts_nonneg fmt Hfmt x) as Hm0.
  assert (Hmp : (Sf.parts fmt x).1 < 2 ^ p).
  { pose proof (pow_p fmt Hfmt). pose proof (pow_mb_pos fmt Hfmt).
    pose proof (Z.mod_pos_bound (Sf.mag fmt x) (2 ^ Fmt.mant_bits fmt) ltac:(lia)).
    unfold Sf.parts. cbv zeta. destruct (_ =? 0); cbn [fst]; lia. }
  destruct (Sf.parts fmt x) as [m e]. destruct Hp as [He Hp]. cbn [fst] in *.
  rewrite (magval fmt Hfmt), <- Hp by lia.
  assert (Hv : (IZR (m * 2 ^ (e - em)) * bpow em = IZR m * bpow e)%R).
  { rewrite mult_IZR, Rmult_assoc, <- bpow_split by done. done. }
  rewrite Hv. destruct (Z.leb_spec 0 e).
  - exists (m * 2 ^ e), (Sf.mag fmt x). pose proof (Z.pow_pos_nonneg 2 e ltac:(lia) ltac:(lia)).
    rewrite bpow_nonneg, <- mult_IZR by lia. split; [apply int_rounds_exact; nia|]. split; [nia|].
    split; [by apply pattern_split|]. split; [lia|]. rewrite <- Hp. unfold one_units.
    rewrite <- Z.mul_assoc, <- Z.pow_add_r by lia. do 2 f_equal; lia.
  - pose proof (integral_mag_rounds mode s m (- e) Hm0 ltac:(lia)) as Hr.
    replace (- - e) with e in Hr by lia. set (k := Sf.integral_mag mode s m (- e)) in *.
    assert (Hk0 : 0 <= k) by (apply integral_mag_nonneg; lia).
    assert (Hkp : k <= 2 ^ p).
    { apply (int_rounds_le mode s _ k _ Hr). apply (Rle_trans _ (IZR m)); [|apply IZR_le; lia].
      pose proof (bpow_le e 0 ltac:(lia)). rewrite bpow_0 in *.
      assert (0 <= IZR m)%R by (by apply IZR_le). nra. }
    destruct (round_int fmt Hhost s k ltac:(lia)) as (n & Hn & E & Eu). by exists k, n.
Qed.

(** The integer of an integral number, saturated to 128 bits. *)
Lemma to_i128_int s n k :
  0 <= n < inf -> U n = k * one_units fmt ->
  Sf.to_i128 fmt (sp s n) = if s then Z.max (- k) (- 2 ^ 127) else Z.min k (2 ^ 127 - 1).
Proof.
  intros Hn Eu. pose proof (inf_lt_width fmt Hfmt). rewrite (to_i128_units fmt Hhost)
    by (apply finite_pat; (done || lia)). rewrite mag_signed_pat, sign_signed_pat by (done || lia).
  rewrite Eu, Z.div_mul; [done|]. pose proof (one_units_pos fmt Hhost). lia.
Qed.

(** ** Float to integer *)

(** [v] in a destination of bounds [lo] and [hi], extended from [w] bits. *)
Definition saturates (lo hi w v : Z) (nx : bool) (flags : Z) : Z * Z :=
  if v <? lo then (ext64 w lo, Z.lor flags fflags.NV)
  else if hi <? v then (ext64 w hi, Z.lor flags fflags.NV)
  else (ext64 w v, raise_if nx fflags.NX flags).

Definition ieee_to_int (mode : RoundingMode) (lo hi w flags : Z) (x : datum) (r : Z * Z) : Prop :=
  match x with
  | NaN _ => r = (ext64 w hi, Z.lor flags fflags.NV)
  | Inf s => r = (ext64 w (if s then lo else hi), Z.lor flags fflags.NV)
  | Zero _ => r = (ext64 w 0, flags)
  | Finite s a =>
      exists k (nx : bool), int_rounds mode s a k /\ (nx = true <-> IZR k <> a)
        /\ r = saturates lo hi w (if s then - k else k) nx flags
  end.

Lemma int_dest_bounds sg width lo hi w :
  int_dest sg width = Some (lo, hi, w) -> - 2 ^ 63 <= lo <= 0 /\ 0 < hi < 2 ^ 64.
Proof.
  unfold int_dest. destruct sg; cbn [arms];
    repeat (case_match; [intros [= <- <- <-]; by split|]); done.
Qed.

(** Saturation to 128 bits first does not matter. *)
Lemma saturates_clamp lo hi w (s : bool) k nx flags :
  - 2 ^ 63 <= lo <= 0 -> 0 < hi < 2 ^ 64 -> 0 <= k ->
  saturates lo hi w (if s then Z.max (- k) (- 2 ^ 127) else Z.min k (2 ^ 127 - 1)) nx flags
  = saturates lo hi w (if s then - k else k) nx flags.
Proof.
  intros Hlo Hhi Hk. assert (2 ^ 64 < 2 ^ 127 - 1) by done. assert (- 2 ^ 127 < - 2 ^ 63) by done.
  unfold saturates. destruct s.
  - destruct (Z.max_spec (- k) (- 2 ^ 127)) as [[? ->]|[? ->]]; [|done].
    repeat match goal with |- context [?a <? ?b] => destruct (Z.ltb_spec a b) end; (done || lia).
  - destruct (Z.min_spec k (2 ^ 127 - 1)) as [[? ->]|[? ->]]; [done|].
    repeat match goal with |- context [?a <? ?b] => destruct (Z.ltb_spec a b) end; (done || lia).
Qed.

Lemma ftoi_infinite x sg width lo hi w mode flags :
  Sf.is_infinite fmt x = true -> int_dest sg width = Some (lo, hi, w) ->
  ftoi fmt x sg width mode flags
  = (ext64 w (if Sf.is_sign_negative fmt x then lo else hi), Z.lor flags fflags.NV).
Proof.
  intros Hi Hd. destruct (int_dest_bounds _ _ _ _ _ Hd) as [Hlo Hhi].
  assert (2 ^ 64 < 2 ^ 127 - 1) by done. assert (- 2 ^ 127 < - 2 ^ 63) by done.
  assert (Hn : Sf.is_nan fmt x = false /\ Sf.is_finite fmt x = false).
  { unfold Sf.is_infinite, Sf.is_nan, Sf.is_finite in *. apply Z.eqb_eq in Hi. rewrite Hi.
    by rewrite Z.ltb_irrefl. }
  destruct Hn as [Hn Hfi]. unfold ftoi, Sf.round_integral. rewrite Hn, Hfi, Hd. cbn [negb].
  unfold Sf.to_i128. rewrite Hn, Hi. destruct (Sf.parts fmt x). cbv zeta.
  destruct (Sf.is_sign_negative fmt x).
  - rewrite Z.max_l by lia. destruct (Z.ltb_spec (- 2 ^ 127) lo); [done|lia].
  - rewrite Z.min_r by lia. destruct (Z.ltb_spec (2 ^ 127 - 1) lo); [lia|].
    destruct (Z.ltb_spec hi (2 ^ 127 - 1)); [done|lia].
Qed.

(** A pattern of the same sign is the number itself exactly when its value is. *)
Lemma same_value x n k :
  fits (Fmt.width fmt) x -> 0 <= n < inf -> U n = k * one_units fmt ->
  sp (Sf.is_sign_negative fmt x) n = x <-> IZR k = mag_val fmt (Sf.mag fmt x).
Proof.
  intros Hf Hn Eu. pose proof (inf_lt_width fmt Hfmt). pose proof (mag_range fmt Hfmt x).
  assert (Hval : mag_val fmt n = IZR k) by (rewrite (magval fmt Hfmt), Eu by lia; by apply val_one).
  rewrite <- Hval. split.
  { intros Es. pose proof (mag_signed_pat fmt (Sf.is_sign_negative fmt x) n ltac:(lia)) as Em.
    rewrite Es in Em. by rewrite Em. }
  intros Ev.
  rewrite !(magval fmt Hfmt), val_inj in Ev by lia.
  assert (n = Sf.mag fmt x) as ->; [|symmetry; by apply pattern_split].
  destruct (Z.lt_trichotomy n (Sf.mag fmt x)) as [Hlt|[?|Hlt]]; [|done|];
    apply (mag_units_lt fmt Hfmt) in Hlt; lia.
Qed.

Lemma ftoi_finite x sg width lo hi w mode flags :
  finite fmt x -> int_dest sg width = Some (lo, hi, w) ->
  let s := Sf.is_sign_negative fmt x in
  exists k (nx : bool), int_rounds mode s (mag_val fmt (Sf.mag fmt x)) k
    /\ (nx = true <-> IZR k <> mag_val fmt (Sf.mag fmt x))
    /\ ftoi fmt x sg width mode flags = saturates lo hi w (if s then - k else k) nx flags.
Proof.
  intros Hx Hd s. destruct (int_dest_bounds _ _ _ _ _ Hd) as [Hlo Hhi].
  destruct (finite_test fmt x Hx) as [Nx _].
  destruct (round_integral_rounds mode x Hx) as (k & n & Hr & Hk & E & Hn & Eu). fold s in Hr, E.
  exists k, (negb (sp s n =? x)). split; [done|]. split.
  { rewrite negb_true_iff, Z.eqb_neq. apply not_iff_compat, same_value; [apply Hx|done|done]. }
  assert (Hz : negb (sp s n =? x) && negb (Sf.is_zero fmt (sp s n) && Sf.is_zero fmt x)
    = negb (sp s n =? x)).
  { destruct (Z.eqb_spec (sp s n) x) as [|Hne]; [done|]. cbn [negb andb].
    pose proof (inf_lt_width fmt Hfmt). unfold Sf.is_zero. rewrite mag_signed_pat by lia.
    destruct (Z.eqb_spec n 0) as [->|]; [|done]. destruct (Z.eqb_spec (Sf.mag fmt x) 0) as [E0|]; [|done].
    exfalso. apply Hne. rewrite (pattern_split fmt Hfmt x) by apply Hx. by rewrite E0. }
  unfold ftoi. rewrite Nx, Hd, E. cbv zeta. rewrite Hz, (to_i128_int s n k) by done.
  by rewrite <- (saturates_clamp lo hi w s k) by done.
Qed.

Lemma ftoi_ieee x sg width lo hi w mode flags :
  fits (Fmt.width fmt) x -> int_dest sg width = Some (lo, hi, w) ->
  ieee_to_int mode lo hi w flags (interp fmt x) (ftoi fmt x sg width mode flags).
Proof.
  intros Hf Hd. destruct (int_dest_bounds _ _ _ _ _ Hd) as [Hlo Hhi].
  rewrite (interp_tests fmt). destruct (Sf.is_nan fmt x) eqn:Nx.
  { unfold ftoi. by rewrite Nx, Hd. }
  destruct (Sf.is_infinite fmt x) eqn:Ix; [by apply ftoi_infinite|].
  assert (Hx : finite fmt x) by (by apply finite_intro).
  destruct (ftoi_finite x sg width lo hi w mode flags Hx Hd) as (k & nx & Hr & Hnx & E).
  destruct (Sf.is_zero fmt x) eqn:Zx; [|by exists k, nx].
  assert (Hm : mag_val fmt (Sf.mag fmt x) = 0%R).
  { apply Z.eqb_eq in Zx. rewrite Zx, (magval fmt Hfmt), (mag_units_0 fmt Hfmt) by lia. ring. }
  rewrite Hm in *. assert (Hk : k = 0).
  { pose proof Hr as (l & Hl & Hlx & _). assert (l = 0) as ->.
    { assert (l <= 0) by (apply le_IZR; lra). lia. }
    pose proof (int_rounds_le mode _ _ k 0 Hr ltac:(lra)).
    destruct Hr as (l & Hl' & Hlx' & [[_ ?]|[? _]]); [lia|].
    assert (0 <= IZR l)%R by (by apply IZR_le). lra. }
  subst k. assert (nx = false) as -> by (destruct nx; [exfalso; by apply Hnx|done]).
  unfold ieee_to_int. rewrite E. unfold saturates.
  destruct (Sf.is_sign_negative fmt x); change (- 0) with 0;
    destruct (Z.ltb_spec 0 lo), (Z.ltb_spec hi 0); (done || lia).
Qed.
End ToInt.

(** ** Integer to float *)

Section FromInt.
Variable fmt : Fmt.t.
Hypothesis Hhost : host_fmt fmt.
Let Hfmt : fmt_ok fmt := host_fmt_ok fmt Hhost.

Abbreviation p := (Fmt.p fmt).
Abbreviation inf := (inf_mag fmt).
Abbreviation sp := (signed_pat fmt).
Abbreviation U := (mag_units fmt).
Abbreviation one := (one_units fmt).
Abbreviation em := (emin fmt).
Abbreviation val X := (IZR X * bpow em)%R.

(** The magnitudes around an integer that is not a number of the format are
    integers too. *)
Lemma int_between k lo :
  1 <= lo < inf -> 0 < k <= 2 ^ 64 -> U lo < k * one < U (lo + 1) ->
  lo + 1 < inf /\ 2 ^ p <= U lo
  /\ exists j j', U lo = j * one /\ U (lo + 1) = j' * one /\ 0 <= j <= 2 ^ 65 /\ 0 <= j' <= 2 ^ 65.
Proof.
  intros Hlo Hk HX. pose proof (one_units_pos fmt Hhost) as H1.
  assert (Hp2 : 2 <= p) by (destruct Hfmt; lia). pose proof (pow_p_pos p Hp2).
  pose proof (emin_neg fmt Hhost).
  assert (Hbig : 2 ^ p < k).
  { apply Z.lt_nge. intros Hle. pose proof (int_rep fmt Hhost k ltac:(lia)) as Hr.
    destruct (rep_gap fmt Hfmt lo _ ltac:(lia) Hr); lia. }
  assert (HU : 2 ^ p * one <= U lo).
  { pose proof (int_rep fmt Hhost (2 ^ p) ltac:(lia)) as Hr.
    destruct (rep_gap fmt Hfmt lo _ ltac:(lia) Hr); [done|]. nia. }
  destruct (gap_bounds fmt Hhost lo Hlo) as (_ & Hgap & _).
  assert (Hmul : forall n, 0 <= n -> 2 ^ p * one <= U n -> exists j, U n = j * one).
  { intros n Hn HUn. apply (rep_large p Hp2 (U n) (- em)); [lia|by apply mag_units_rep|].
    fold one. assert (2 ^ p = 2 * 2 ^ (p - 1)) by (rewrite <- Z.pow_succ_r by lia; f_equal; lia). nia. }
  destruct (Hmul lo ltac:(lia) HU) as [j Ej]. destruct (Hmul (lo + 1) ltac:(lia) ltac:(lia)) as [j' Ej'].
  assert (Hj : 0 <= j <= 2 ^ 65) by nia. assert (Hj' : 0 <= j' <= 2 ^ 65) by nia.
  split; [|split; [nia|by exists j, j']]. apply (Omega_bound fmt Hfmt); [lia|]. rewrite Ej'.
  apply (int_in_range fmt Hhost). lia.
Qed.

(** A number of [2 ^ p] units is above the subnormal range. *)
Lemma normal_units n : 0 <= n -> 2 ^ p <= U n -> 2 ^ Fmt.mant_bits fmt <= n.
Proof.
  intros Hn HU. apply Z.le_ngt. intros Hlt. unfold mag_units in HU.
  rewrite Z.div_small, Z.mod_small in HU by lia. cbn in HU. unfold Fmt.mant_bits in *.
  assert (2 ^ (p - 1) <= 2 ^ p) by (apply Z.pow_le_mono_r; lia). lia.
Qed.

(** The integer of such a number of the format. *)
Lemma int_exact s n j : 0 <= n < inf -> U n = j * one -> 0 <= j <= 2 ^ 65 ->
  Sf.to_i128 fmt (sp s n) = if s then - j else j.
Proof. intros Hn E Hj. rewrite (to_i128_int fmt Hhost s n j) by done. destruct s; lia. Qed.

(** The result selected around an integer that is not a number of the format. *)
Lemma itof_selects v mode flags lo n :
  let s := v <? 0 in let k := Z.abs v in
  v <> 0 -> k <= 2 ^ 64 -> Sf.from_i128 fmt v = sp s n -> 1 <= lo < inf -> n < inf ->
  U lo < k * one < U (lo + 1) -> rne_choice fmt (k * one) lo n ->
  itof fmt v mode flags = (sp s (directed fmt mode s (k * one) lo n), Z.lor flags fflags.NX).
Proof.
  intros s k Hv Hk Ef Hlo Hn HX Hc. pose proof (one_units_pos fmt Hhost) as H1.
  destruct (int_between k lo Hlo ltac:(lia) HX) as (Hlo1 & _ & j & j' & Ej & Ej' & Hj & Hj').
  assert (Hnl : n = lo \/ n = lo + 1) by (destruct Hc as [[? _]|[? _]]; auto).
  pose proof (int_exact s lo j ltac:(lia) Ej Hj) as Il.
  pose proof (int_exact s (lo + 1) j' ltac:(lia) Ej' Hj') as Ih.
  set (i := if decide (n = lo) then j else j').
  assert (Ei : Sf.to_i128 fmt (sp s n) = if s then - i else i).
  { unfold i. destruct (decide (n = lo)) as [->|]; [done|]. destruct Hnl as [ | -> ]; done. }
  assert (Eu : U n = i * one).
  { unfold i. destruct (decide (n = lo)) as [->|]; [done|]. destruct Hnl as [ | -> ]; done. }
  assert (Hjk : j < k < j') by nia. assert (Hij : i = j \/ i = j') by (unfold i; case_decide; auto).
  unfold itof. destruct (Z.eqb_spec v 0); [done|]. rewrite Ef, Ei. cbv zeta.
  set (delta := v - _). assert (Hdelta : delta = if s then i - k else k - i).
  { unfold delta, s, k. destruct (Z.ltb_spec v 0); lia. }
  assert (Hd0 : (delta =? 0) = false) by (apply Z.eqb_neq; rewrite Hdelta; destruct s; lia).
  rewrite Hd0. clearbody delta s k i.
  rewrite (neighbours_up fmt Hhost s (0 <? delta) lo n (k * one) Hlo Hn Hnl HX).
  2:{ rewrite Eu, Hdelta. destruct s;
      repeat match goal with |- context [?a <? ?b] => destruct (Z.ltb_spec a b) end; (done || nia). }
  assert (Ht : (2 * Z.abs delta =? j' - j) = (2 * (k * one) =? U lo + U (lo + 1))).
  { rewrite Ej, Ej', Hdelta. apply eq_bool_prop_intro. rewrite !Is_true_true, !Z.eqb_eq.
    assert (Habs : Z.abs (if s then i - k else k - i) = Z.abs (k - i)) by (destruct s; lia).
    rewrite Habs. destruct Hij as [-> | ->]; nia. }
  destruct s; unfold directed; destruct mode; rewrite ?Il, ?Ih, ?min_mag_pat, ?max_mag_pat by (done || lia);
    do 2 f_equal; try lia.
  - replace (- j - - j') with (j' - j) by lia. rewrite Ht. case_match; [f_equal; lia|done].
  - rewrite Ht. case_match; [f_equal; lia|done].
Qed.

(** [itof] is correctly rounded in every mode, with the inexact flag and no other. *)
Lemma itof_ieee v mode flags :
  v <> 0 -> Z.abs v <= 2 ^ 64 ->
  correctly_rounded fmt mode (v <? 0) (IZR (Z.abs v)) flags (itof fmt v mode flags).
Proof.
  intros Hv Hk. set (s := v <? 0). set (k := Z.abs v) in *. pose proof (one_units_pos fmt Hhost) as H1.
  destruct (host_round_rounds fmt Hfmt s k 0 ltac:(lia)) as (n & Hr & Ef).
  destruct (host_round_near fmt Hfmt s k 0 ltac:(lia) ltac:(pose proof (emin_neg fmt Hhost); lia))
    as (n' & Hn' & Hnear & Ef').
  assert (Hlt : n' < inf).
  { apply (Omega_bound fmt Hfmt); [done|]. eapply Z.le_trans;
      [|apply (int_in_range fmt Hhost (2 ^ 64)); lia].
    replace (0 - em) with (- em) in Hnear by lia. fold one in Hnear.
    apply (near_le p _ _ _ Hnear); [|nia]. rewrite <- (Z.mul_1_l (2 ^ 64)), <- Z.mul_assoc.
    unfold one_units. rewrite <- Z.pow_add_r by (pose proof (emin_neg fmt Hhost); lia).
    pose proof (pow_p_pos p ltac:(destruct Hfmt; lia)).
    apply rep_mult; [destruct Hfmt; lia|pose proof (emin_neg fmt Hhost); lia|lia]. }
  rewrite Z.min_l in Ef' by lia. rewrite Ef in Ef'. apply signed_pat_inj in Ef' as <-.
  rewrite bpow_0, Rmult_1_r in Hr. rewrite <- (val_one fmt Hhost k) in *.
  destruct (rne_cases fmt Hfmt s (k * one) n ltac:(nia) Hr Hlt) as [Hn1 [E | (lo & Hlo & HX & Hc)]].
  - assert (E0 : itof fmt v mode flags = (sp s n, flags)).
    { unfold itof. destruct (Z.eqb_spec v 0); [done|]. unfold Sf.from_i128. fold s k. rewrite Ef.
      rewrite (int_exact s n k) by (done || lia). cbv zeta.
      destruct (Z.eqb_spec (v - (if s then - k else k)) 0) as [_|Hne]; [done|].
      exfalso. apply Hne. unfold s, k. destruct (Z.ltb_spec v 0); lia. }
    rewrite E0, E. apply (exact_rounded fmt Hhost). lia.
  - destruct (int_between k lo Hlo ltac:(lia) HX) as (Hlo1 & Hbig & _).
    rewrite (itof_selects v mode flags lo n) by done. fold s k.
    set (d := directed fmt mode s (k * one) lo n). exists d.
    split; [by apply directed_rounds|]. split; [done|].
    assert (Hdd : d = lo \/ d = lo + 1).
    { unfold d, directed. destruct Hc as [[-> _]|[-> _]], mode, s; try case_match; auto. }
    assert (Hne : val (k * one) <> mag_val fmt d).
    { rewrite (magval fmt Hfmt) by lia. rewrite val_inj. destruct Hdd as [-> | ->]; lia. }
    assert (Hov : (val (k * one) < mag_val fmt inf)%R).
    { rewrite (magval fmt Hfmt inf) by lia. apply val_lt.
      pose proof (U_le fmt Hfmt (lo + 1) inf ltac:(lia) ltac:(lia)). lia. }
    assert (Hmb : 2 ^ Fmt.mant_bits fmt <= d).
    { apply normal_units; [lia|]. pose proof (U_le fmt Hfmt lo d ltac:(lia) ltac:(lia)). lia. }
    exists true, false, false. unfold overflows. cbn [snd raise_if].
    repeat split; try done; intuition; (lra || lia).
Qed.
End FromInt.
