(* ===== verification/RvState.v ===== *)
(** * Hart state

    The data of src/isa/riscv/cpu.rs: privilege levels, trap causes, the
    configuration and the architectural state of [RiscVCpu] with its register
    accessors. *)

From S2P Require Import Prelude RvIsa RvOp RvMemory RvAlu.

(** ** Privilege, causes, traps and exits *)

Inductive Priv : Type := User | Supervisor | Machine.

(** [priv_ as u64]. *)
Definition priv_code (p : Priv) : Z :=
  match p with User => 0 | Supervisor => 1 | Machine => 3 end.

(** Application vector length source for [vsetvl*]. *)
Inductive Avl : Type := AvlKeep | AvlMax | AvlReg (v : Z).

Module cause.
Definition INSTR_MISALIGNED : Z := 0.
Definition INSTR_ACCESS_FAULT : Z := 1.
Definition ILLEGAL_INSTR : Z := 2.
Definition BREAKPOINT : Z := 3.
Definition LOAD_MISALIGNED : Z := 4.
Definition LOAD_ACCESS_FAULT : Z := 5.
Definition STORE_MISALIGNED : Z := 6.
Definition STORE_ACCESS_FAULT : Z := 7.
Definition ECALL_U : Z := 8.
Definition ECALL_S : Z := 9.
Definition ECALL_M : Z := 11.
Definition INT_M_SOFTWARE : Z := 3.
Definition INT_M_TIMER : Z := 7.
Definition INT_M_EXTERNAL : Z := 11.
End cause.

(** A trap raised while executing an instruction or accepting an interrupt. *)
Record Trap : Type := mk_trap {
  trap_cause : Z;
  trap_tval : Z
}.

(** [Trap::illegal]: an illegal instruction carrying its encoding. *)
Definition trap_illegal (raw : Z) : Trap := mk_trap cause.ILLEGAL_INSTR raw.

(** How control left an executed instruction. *)
Module RiscVExit.
Inductive t : Type := Continue | Ecall | Ebreak | Wfi | Trap (tr : Trap).
End RiscVExit.

Record RiscVConfig : Type := mk_config {
  cfg_xlen : Xlen;
  cfg_isa : Isa
}.

(** [RiscVConfig::rv64gc] and [RiscVConfig::rv32]. *)
Definition config_rv64gc : RiscVConfig := mk_config Rv64 rv64gc.
Definition config_rv32 (isa : Isa) : RiscVConfig := mk_config Rv32 isa.

Definition VLEN : Z := 128.
Definition VLENB : Z := VLEN / 8.

(** ** The hart

    [x] and [f] are the 32-entry register files and [v] the 32 * VLENB bytes
    of the vector register file; the memory is a value of the type [M] that
    implements [Memory]. *)
Record RiscVCpu (M : Type) : Type := mk_cpu {
  c_cfg : RiscVConfig;
  c_x : list Z;
  c_f : list Z;
  c_pc : Z;
  c_fcsr : Z;
  c_priv : Priv;
  c_reservation : option Z;
  c_mstatus : Z;
  c_mtvec : Z;
  c_mepc : Z;
  c_mcause : Z;
  c_mtval : Z;
  c_mscratch : Z;
  c_mie : Z;
  c_mip : Z;
  c_medeleg : Z;
  c_mideleg : Z;
  c_mcounteren : Z;
  c_mhartid : Z;
  c_jvt : Z;
  c_cycle : Z;
  c_time : Z;
  c_instret : Z;
  c_vl : Z;
  c_vtype : Z;
  c_vstart : Z;
  c_vxrm : Z;
  c_vxsat : Z;
  c_v : list Z;
  c_ext_csr : gmap Z Z;
  c_mem : M
}.
Arguments mk_cpu {M}.
Arguments c_cfg {M} _. Arguments c_x {M} _. Arguments c_f {M} _. Arguments c_pc {M} _.
Arguments c_fcsr {M} _. Arguments c_priv {M} _. Arguments c_reservation {M} _. Arguments
c_mstatus {M} _. Arguments c_mtvec {M} _. Arguments c_mepc {M} _. Arguments c_mcause {M} _.
Arguments c_mtval {M} _. Arguments c_mscratch {M} _. Arguments c_mie {M} _. Arguments c_mip
{M} _. Arguments c_medeleg {M} _. Arguments c_mideleg {M} _. Arguments c_mcounteren {M} _.
Arguments c_mhartid {M} _. Arguments c_jvt {M} _. Arguments c_cycle {M} _. Arguments c_time
{M} _. Arguments c_instret {M} _. Arguments c_vl {M} _. Arguments c_vtype {M} _. Arguments
c_vstart {M} _. Arguments c_vxrm {M} _. Arguments c_vxsat {M} _. Arguments c_v {M} _.
Arguments c_ext_csr {M} _. Arguments c_mem {M} _.

(** Field updates ([self.field = v]). *)
Definition set_c_x {M} (v : list Z) (s : RiscVCpu M) : RiscVCpu M :=
  mk_cpu (c_cfg s) v (c_f s) (c_pc s) (c_fcsr s) (c_priv s) (c_reservation s) (c_mstatus
    s) (c_mtvec s) (c_mepc s) (c_mcause s) (c_mtval s) (c_mscratch s) (c_mie s) (c_mip
    s) (c_medeleg s) (c_mideleg s) (c_mcounteren s) (c_mhartid s) (c_jvt s) (c_cycle s)
    (c_time s) (c_instret s) (c_vl s) (c_vtype s) (c_vstart s) (c_vxrm s) (c_vxsat s)
    (c_v s) (c_ext_csr s) (c_mem s).
Definition set_c_f {M} (v : list Z) (s : RiscVCpu M) : RiscVCpu M :=
  mk_cpu (c_cfg s) (c_x s) v (c_pc s) (c_fcsr s) (c_priv s) (c_reservation s) (c_mstatus
    s) (c_mtvec s) (c_mepc s) (c_mcause s) (c_mtval s) (c_mscratch s) (c_mie s) (c_mip
    s) (c_medeleg s) (c_mideleg s) (c_mcounteren s) (c_mhartid s) (c_jvt s) (c_cycle s)
    (c_time s) (c_instret s) (c_vl s) (c_vtype s) (c_vstart s) (c_vxrm s) (c_vxsat s)
    (c_v s) (c_ext_csr s) (c_mem s).
Definition set_c_pc {M} (v : Z) (s : RiscVCpu M) : RiscVCpu M :=
  mk_cpu (c_cfg s) (c_x s) (c_f s) v (c_fcsr s) (c_priv s) (c_reservation s) (c_mstatus
    s) (c_mtvec s) (c_mepc s) (c_mcause s) (c_mtval s) (c_mscratch s) (c_mie s) (c_mip
    s) (c_medeleg s) (c_mideleg s) (c_mcounteren s) (c_mhartid s) (c_jvt s) (c_cycle s)
    (c_time s) (c_instret s) (c_vl s) (c_vtype s) (c_vstart s) (c_vxrm s) (c_vxsat s)
    (c_v s) (c_ext_csr s) (c_mem s).
Definition set_c_fcsr {M} (v : Z) (s : RiscVCpu M) : RiscVCpu M :=
  mk_cpu (c_cfg s) (c_x s) (c_f s) (c_pc s) v (c_priv s) (c_reservation s) (c_mstatus s)
    (c_mtvec s) (c_mepc s) (c_mcause s) (c_mtval s) (c_mscratch s) (c_mie s) (c_mip s)
    (c_medeleg s) (c_mideleg s) (c_mcounteren s) (c_mhartid s) (c_jvt s) (c_cycle s)
    (c_time s) (c_instret s) (c_vl s) (c_vtype s) (c_vstart s) (c_vxrm s) (c_vxsat s)
    (c_v s) (c_ext_csr s) (c_mem s).
Definition set_c_priv {M} (v : Priv) (s : RiscVCpu M) : RiscVCpu M :=
  mk_cpu (c_cfg s) (c_x s) (c_f s) (c_pc s) (c_fcsr s) v (c_reservation s) (c_mstatus s)
    (c_mtvec s) (c_mepc s) (c_mcause s) (c_mtval s) (c_mscratch s) (c_mie s) (c_mip s)
    (c_medeleg s) (c_mideleg s) (c_mcounteren s) (c_mhartid s) (c_jvt s) (c_cycle s)
    (c_time s) (c_instret s) (c_vl s) (c_vtype s) (c_vstart s) (c_vxrm s) (c_vxsat s)
    (c_v s) (c_ext_csr s) (c_mem s).
Definition set_c_reservation {M} (v : option Z) (s : RiscVCpu M) : RiscVCpu M :=
  mk_cpu (c_cfg s) (c_x s) (c_f s) (c_pc s) (c_fcsr s) (c_priv s) v (c_mstatus s)
    (c_mtvec s) (c_mepc s) (c_mcause s) (c_mtval s) (c_mscratch s) (c_mie s) (c_mip s)
    (c_medeleg s) (c_mideleg s) (c_mcounteren s) (c_mhartid s) (c_jvt s) (c_cycle s)
    (c_time s) (c_instret s) (c_vl s) (c_vtype s) (c_vstart s) (c_vxrm s) (c_vxsat s)
    (c_v s) (c_ext_csr s) (c_mem s).
Definition set_c_mstatus {M} (v : Z) (s : RiscVCpu M) : RiscVCpu M :=
  mk_cpu (c_cfg s) (c_x s) (c_f s) (c_pc s) (c_fcsr s) (c_priv s) (c_reservation s) v
    (c_mtvec s) (c_mepc s) (c_mcause s) (c_mtval s) (c_mscratch s) (c_mie s) (c_mip s)
    (c_medeleg s) (c_mideleg s) (c_mcounteren s) (c_mhartid s) (c_jvt s) (c_cycle s)
    (c_time s) (c_instret s) (c_vl s) (c_vtype s) (c_vstart s) (c_vxrm s) (c_vxsat s)
    (c_v s) (c_ext_csr s) (c_mem s).
Definition set_c_mtvec {M} (v : Z) (s : RiscVCpu M) : RiscVCpu M :=
  mk_cpu (c_cfg s) (c_x s) (c_f s) (c_pc s) (c_fcsr s) (c_priv s) (c_reservation s)
    (c_mstatus s) v (c_mepc s) (c_mcause s) (c_mtval s) (c_mscratch s) (c_mie s) (c_mip
    s) (c_medeleg s) (c_mideleg s) (c_mcounteren s) (c_mhartid s) (c_jvt s) (c_cycle s)
    (c_time s) (c_instret s) (c_vl s) (c_vtype s) (c_vstart s) (c_vxrm s) (c_vxsat s)
    (c_v s) (c_ext_csr s) (c_mem s).
Definition set_c_mepc {M} (v : Z) (s : RiscVCpu M) : RiscVCpu M :=
  mk_cpu (c_cfg s) (c_x s) (c_f s) (c_pc s) (c_fcsr s) (c_priv s) (c_reservation s)
    (c_mstatus s) (c_mtvec s) v (c_mcause s) (c_mtval s) (c_mscratch s) (c_mie s) (c_mip
    s) (c_medeleg s) (c_mideleg s) (c_mcounteren s) (c_mhartid s) (c_jvt s) (c_cycle s)
    (c_time s) (c_instret s) (c_vl s) (c_vtype s) (c_vstart s) (c_vxrm s) (c_vxsat s)
    (c_v s) (c_ext_csr s) (c_mem s).
Definition set_c_mcause {M} (v : Z) (s : RiscVCpu M) : RiscVCpu M :=
  mk_cpu (c_cfg s) (c_x s) (c_f s) (c_pc s) (c_fcsr s) (c_priv s) (c_reservation s)
    (c_mstatus s) (c_mtvec s) (c_mepc s) v (c_mtval s) (c_mscratch s) (c_mie s) (c_mip
    s) (c_medeleg s) (c_mideleg s) (c_mcounteren s) (c_mhartid s) (c_jvt s) (c_cycle s)
    (c_time s) (c_instret s) (c_vl s) (c_vtype s) (c_vstart s) (c_vxrm s) (c_vxsat s)
    (c_v s) (c_ext_csr s) (c_mem s).
Definition set_c_mtval {M} (v : Z) (s : RiscVCpu M) : RiscVCpu M :=
  mk_cpu (c_cfg s) (c_x s) (c_f s) (c_pc s) (c_fcsr s) (c_priv s) (c_reservation s)
    (c_mstatus s) (c_mtvec s) (c_mepc s) (c_mcause s) v (c_mscratch s) (c_mie s) (c_mip
    s) (c_medeleg s) (c_mideleg s) (c_mcounteren s) (c_mhartid s) (c_jvt s) (c_cycle s)
    (c_time s) (c_instret s) (c_vl s) (c_vtype s) (c_vstart s) (c_vxrm s) (c_vxsat s)
    (c_v s) (c_ext_csr s) (c_mem s).
Definition set_c_mscratch {M} (v : Z) (s : RiscVCpu M) : RiscVCpu M :=
  mk_cpu (c_cfg s) (c_x s) (c_f s) (c_pc s) (c_fcsr s) (c_priv s) (c_reservation s)
    (c_mstatus s) (c_mtvec s) (c_mepc s) (c_mcause s) (c_mtval s) v (c_mie s) (c_mip s)
    (c_medeleg s) (c_mideleg s) (c_mcounteren s) (c_mhartid s) (c_jvt s) (c_cycle s)
    (c_time s) (c_instret s) (c_vl s) (c_vtype s) (c_vstart s) (c_vxrm s) (c_vxsat s)
    (c_v s) (c_ext_csr s) (c_mem s).
Definition set_c_mie {M} (v : Z) (s : RiscVCpu M) : RiscVCpu M :=
  mk_cpu (c_cfg s) (c_x s) (c_f s) (c_pc s) (c_fcsr s) (c_priv s) (c_reservation s)
    (c_mstatus s) (c_mtvec s) (c_mepc s) (c_mcause s) (c_mtval s) (c_mscratch s) v
    (c_mip s) (c_medeleg s) (c_mideleg s) (c_mcounteren s) (c_mhartid s) (c_jvt s)
    (c_cycle s) (c_time s) (c_instret s) (c_vl s) (c_vtype s) (c_vstart s) (c_vxrm s)
    (c_vxsat s) (c_v s) (c_ext_csr s) (c_mem s).
Definition set_c_mip {M} (v : Z) (s : RiscVCpu M) : RiscVCpu M :=
  mk_cpu (c_cfg s) (c_x s) (c_f s) (c_pc s) (c_fcsr s) (c_priv s) (c_reservation s)
    (c_mstatus s) (c_mtvec s) (c_mepc s) (c_mcause s) (c_mtval s) (c_mscratch s) (c_mie
    s) v (c_medeleg s) (c_mideleg s) (c_mcounteren s) (c_mhartid s) (c_jvt s) (c_cycle
    s) (c_time s) (c_instret s) (c_vl s) (c_vtype s) (c_vstart s) (c_vxrm s) (c_vxsat s)
    (c_v s) (c_ext_csr s) (c_mem s).
Definition set_c_medeleg {M} (v : Z) (s : RiscVCpu M) : RiscVCpu M :=
  mk_cpu (c_cfg s) (c_x s) (c_f s) (c_pc s) (c_fcsr s) (c_priv s) (c_reservation s)
    (c_mstatus s) (c_mtvec s) (c_mepc s) (c_mcause s) (c_mtval s) (c_mscratch s) (c_mie
    s) (c_mip s) v (c_mideleg s) (c_mcounteren s) (c_mhartid s) (c_jvt s) (c_cycle s)
    (c_time s) (c_instret s) (c_vl s) (c_vtype s) (c_vstart s) (c_vxrm s) (c_vxsat s)
    (c_v s) (c_ext_csr s) (c_mem s).
Definition set_c_mideleg {M} (v : Z) (s : RiscVCpu M) : RiscVCpu M :=
  mk_cpu (c_cfg s) (c_x s) (c_f s) (c_pc s) (c_fcsr s) (c_priv s) (c_reservation s)
    (c_mstatus s) (c_mtvec s) (c_mepc s) (c_mcause s) (c_mtval s) (c_mscratch s) (c_mie
    s) (c_mip s) (c_medeleg s) v (c_mcounteren s) (c_mhartid s) (c_jvt s) (c_cycle s)
    (c_time s) (c_instret s) (c_vl s) (c_vtype s) (c_vstart s) (c_vxrm s) (c_vxsat s)
    (c_v s) (c_ext_csr s) (c_mem s).
Definition set_c_mcounteren {M} (v : Z) (s : RiscVCpu M) : RiscVCpu M :=
  mk_cpu (c_cfg s) (c_x s) (c_f s) (c_pc s) (c_fcsr s) (c_priv s) (c_reservation s)
    (c_mstatus s) (c_mtvec s) (c_mepc s) (c_mcause s) (c_mtval s) (c_mscratch s) (c_mie
    s) (c_mip s) (c_medeleg s) (c_mideleg s) v (c_mhartid s) (c_jvt s) (c_cycle s)
    (c_time s) (c_instret s) (c_vl s) (c_vtype s) (c_vstart s) (c_vxrm s) (c_vxsat s)
    (c_v s) (c_ext_csr s) (c_mem s).
Definition set_c_jvt {M} (v : Z) (s : RiscVCpu M) : RiscVCpu M :=
  mk_cpu (c_cfg s) (c_x s) (c_f s) (c_pc s) (c_fcsr s) (c_priv s) (c_reservation s)
    (c_mstatus s) (c_mtvec s) (c_mepc s) (c_mcause s) (c_mtval s) (c_mscratch s) (c_mie
    s) (c_mip s) (c_medeleg s) (c_mideleg s) (c_mcounteren s) (c_mhartid s) v (c_cycle
    s) (c_time s) (c_instret s) (c_vl s) (c_vtype s) (c_vstart s) (c_vxrm s) (c_vxsat s)
    (c_v s) (c_ext_csr s) (c_mem s).
Definition set_c_cycle {M} (v : Z) (s : RiscVCpu M) : RiscVCpu M :=
  mk_cpu (c_cfg s) (c_x s) (c_f s) (c_pc s) (c_fcsr s) (c_priv s) (c_reservation s)
    (c_mstatus s) (c_mtvec s) (c_mepc s) (c_mcause s) (c_mtval s) (c_mscratch s) (c_mie
    s) (c_mip s) (c_medeleg s) (c_mideleg s) (c_mcounteren s) (c_mhartid s) (c_jvt s) v
    (c_time s) (c_instret s) (c_vl s) (c_vtype s) (c_vstart s) (c_vxrm s) (c_vxsat s)
    (c_v s) (c_ext_csr s) (c_mem s).
Definition set_c_instret {M} (v : Z) (s : RiscVCpu M) : RiscVCpu M :=
  mk_cpu (c_cfg s) (c_x s) (c_f s) (c_pc s) (c_fcsr s) (c_priv s) (c_reservation s)
    (c_mstatus s) (c_mtvec s) (c_mepc s) (c_mcause s) (c_mtval s) (c_mscratch s) (c_mie
    s) (c_mip s) (c_medeleg s) (c_mideleg s) (c_mcounteren s) (c_mhartid s) (c_jvt s)
    (c_cycle s) (c_time s) v (c_vl s) (c_vtype s) (c_vstart s) (c_vxrm s) (c_vxsat s)
    (c_v s) (c_ext_csr s) (c_mem s).
Definition set_c_vl {M} (v : Z) (s : RiscVCpu M) : RiscVCpu M :=
  mk_cpu (c_cfg s) (c_x s) (c_f s) (c_pc s) (c_fcsr s) (c_priv s) (c_reservation s)
    (c_mstatus s) (c_mtvec s) (c_mepc s) (c_mcause s) (c_mtval s) (c_mscratch s) (c_mie
    s) (c_mip s) (c_medeleg s) (c_mideleg s) (c_mcounteren s) (c_mhartid s) (c_jvt s)
    (c_cycle s) (c_time s) (c_instret s) v (c_vtype s) (c_vstart s) (c_vxrm s) (c_vxsat
    s) (c_v s) (c_ext_csr s) (c_mem s).
Definition set_c_vtype {M} (v : Z) (s : RiscVCpu M) : RiscVCpu M :=
  mk_cpu (c_cfg s) (c_x s) (c_f s) (c_pc s) (c_fcsr s) (c_priv s) (c_reservation s)
    (c_mstatus s) (c_mtvec s) (c_mepc s) (c_mcause s) (c_mtval s) (c_mscratch s) (c_mie
    s) (c_mip s) (c_medeleg s) (c_mideleg s) (c_mcounteren s) (c_mhartid s) (c_jvt s)
    (c_cycle s) (c_time s) (c_instret s) (c_vl s) v (c_vstart s) (c_vxrm s) (c_vxsat s)
    (c_v s) (c_ext_csr s) (c_mem s).
Definition set_c_vstart {M} (v : Z) (s : RiscVCpu M) : RiscVCpu M :=
  mk_cpu (c_cfg s) (c_x s) (c_f s) (c_pc s) (c_fcsr s) (c_priv s) (c_reservation s)
    (c_mstatus s) (c_mtvec s) (c_mepc s) (c_mcause s) (c_mtval s) (c_mscratch s) (c_mie
    s) (c_mip s) (c_medeleg s) (c_mideleg s) (c_mcounteren s) (c_mhartid s) (c_jvt s)
    (c_cycle s) (c_time s) (c_instret s) (c_vl s) (c_vtype s) v (c_vxrm s) (c_vxsat s)
    (c_v s) (c_ext_csr s) (c_mem s).
Definition set_c_vxrm {M} (v : Z) (s : RiscVCpu M) : RiscVCpu M :=
  mk_cpu (c_cfg s) (c_x s) (c_f s) (c_pc s) (c_fcsr s) (c_priv s) (c_reservation s)
    (c_mstatus s) (c_mtvec s) (c_mepc s) (c_mcause s) (c_mtval s) (c_mscratch s) (c_mie
    s) (c_mip s) (c_medeleg s) (c_mideleg s) (c_mcounteren s) (c_mhartid s) (c_jvt s)
    (c_cycle s) (c_time s) (c_instret s) (c_vl s) (c_vtype s) (c_vstart s) v (c_vxsat s)
    (c_v s) (c_ext_csr s) (c_mem s).
Definition set_c_vxsat {M} (v : Z) (s : RiscVCpu M) : RiscVCpu M :=
  mk_cpu (c_cfg s) (c_x s) (c_f s) (c_pc s) (c_fcsr s) (c_priv s) (c_reservation s)
    (c_mstatus s) (c_mtvec s) (c_mepc s) (c_mcause s) (c_mtval s) (c_mscratch s) (c_mie
    s) (c_mip s) (c_medeleg s) (c_mideleg s) (c_mcounteren s) (c_mhartid s) (c_jvt s)
    (c_cycle s) (c_time s) (c_instret s) (c_vl s) (c_vtype s) (c_vstart s) (c_vxrm s) v
    (c_v s) (c_ext_csr s) (c_mem s).
Definition set_c_v {M} (v : list Z) (s : RiscVCpu M) : RiscVCpu M :=
  mk_cpu (c_cfg s) (c_x s) (c_f s) (c_pc s) (c_fcsr s) (c_priv s) (c_reservation s)
    (c_mstatus s) (c_mtvec s) (c_mepc s) (c_mcause s) (c_mtval s) (c_mscratch s) (c_mie
    s) (c_mip s) (c_medeleg s) (c_mideleg s) (c_mcounteren s) (c_mhartid s) (c_jvt s)
    (c_cycle s) (c_time s) (c_instret s) (c_vl s) (c_vtype s) (c_vstart s) (c_vxrm s)
    (c_vxsat s) v (c_ext_csr s) (c_mem s).
Definition set_c_ext_csr {M} (v : gmap Z Z) (s : RiscVCpu M) : RiscVCpu M :=
  mk_cpu (c_cfg s) (c_x s) (c_f s) (c_pc s) (c_fcsr s) (c_priv s) (c_reservation s)
    (c_mstatus s) (c_mtvec s) (c_mepc s) (c_mcause s) (c_mtval s) (c_mscratch s) (c_mie
    s) (c_mip s) (c_medeleg s) (c_mideleg s) (c_mcounteren s) (c_mhartid s) (c_jvt s)
    (c_cycle s) (c_time s) (c_instret s) (c_vl s) (c_vtype s) (c_vstart s) (c_vxrm s)
    (c_vxsat s) (c_v s) v (c_mem s).
Definition set_c_mem {M} (v : M) (s : RiscVCpu M) : RiscVCpu M :=
  mk_cpu (c_cfg s) (c_x s) (c_f s) (c_pc s) (c_fcsr s) (c_priv s) (c_reservation s)
    (c_mstatus s) (c_mtvec s) (c_mepc s) (c_mcause s) (c_mtval s) (c_mscratch s) (c_mie
    s) (c_mip s) (c_medeleg s) (c_mideleg s) (c_mcounteren s) (c_mhartid s) (c_jvt s)
    (c_cycle s) (c_time s) (c_instret s) (c_vl s) (c_vtype s) (c_vstart s) (c_vxrm s)
    (c_vxsat s) (c_v s) (c_ext_csr s) v.


(** ** Construction and reset *)

Definition new_cpu {M} (cfg : RiscVConfig) (mem : M) : RiscVCpu M :=
  {| c_cfg := cfg; c_x := replicate 32 0; c_f := replicate 32 0; c_pc := 0; c_fcsr := 0;
     c_priv := Machine; c_reservation := None; c_mstatus := 0; c_mtvec := 0; c_mepc := 0;
     c_mcause := 0; c_mtval := 0; c_mscratch := 0; c_mie := 0; c_mip := 0; c_medeleg := 0;
     c_mideleg := 0; c_mcounteren := 0; c_mhartid := 0; c_jvt := 0; c_cycle := 0;
     c_time := 0; c_instret := 0; c_vl := 0; c_vtype := 0; c_vstart := 0; c_vxrm := 0;
     c_vxsat := 0; c_v := replicate (Z.to_nat (32 * VLENB)) 0; c_ext_csr := ∅;
     c_mem := mem |}.

(** Warm reset: power-on values, with the configuration, the memory, the hart
    id and the counters kept. *)
Definition reset {M} (entry : Z) (s : RiscVCpu M) : RiscVCpu M :=
  {| c_cfg := c_cfg s; c_x := replicate 32 0; c_f := replicate 32 0; c_pc := entry;
     c_fcsr := 0; c_priv := Machine; c_reservation := None; c_mstatus := 0; c_mtvec := 0;
     c_mepc := 0; c_mcause := 0; c_mtval := 0; c_mscratch := 0; c_mie := 0; c_mip := 0;
     c_medeleg := 0; c_mideleg := 0; c_mcounteren := 0; c_mhartid := c_mhartid s;
     c_jvt := 0; c_cycle := c_cycle s; c_time := c_time s; c_instret := c_instret s;
     c_vl := 0; c_vtype := 0; c_vstart := 0; c_vxrm := 0; c_vxsat := 0;
     c_v := replicate (Z.to_nat (32 * VLENB)) 0; c_ext_csr := ∅; c_mem := c_mem s |}.

(** ** Accessors *)

Section Accessors.
Context {M : Type}.
Implicit Types (s : RiscVCpu M) (i v : Z).

Definition cpu_xlen s : Xlen := cfg_xlen (c_cfg s).
Definition cpu_isa s : Isa := cfg_isa (c_cfg s).
Definition xbits s : Z := xlen_bits (cpu_xlen s).
Definition xmask s : Z := xlen_mask (cpu_xlen s).

(** The register number of an operand field: [(i & 31) as usize]. *)
Definition reg_ix (i : Z) : nat := Z.to_nat (Z.land i 31).

(** Read integer register [i]. *)
Definition get_x s i : Z := nth (reg_ix i) (c_x s) 0.

(** Write integer register [i]; writes to [x0] are ignored. *)
Definition set_x i v s : RiscVCpu M :=
  if Z.land i 31 =? 0 then s
  else set_c_x (<[reg_ix i := Z.land v (xmask s)]> (c_x s)) s.

Definition get_f s i : Z := nth (reg_ix i) (c_f s) 0.
Definition set_f i v s : RiscVCpu M := set_c_f (<[reg_ix i := v]> (c_f s)) s.

Definition fcsr s : Z := Z.land (c_fcsr s) 0xff.
Definition set_fcsr v s : RiscVCpu M := set_c_fcsr (Z.land v 0xff) s.

Definition vcsr s : Z := Z.lor (wshl 64 (c_vxrm s) 1) (c_vxsat s).
Definition set_vcsr v s : RiscVCpu M :=
  set_c_vxrm (Z.land (wshr 64 v 1) 3) (set_c_vxsat (Z.land v 1) s).

(** The raw 16 bytes of vector register [i]. *)
Definition vreg s i : list Z :=
  take (Z.to_nat VLENB) (drop (reg_ix i * Z.to_nat VLENB) (c_v s)).
Definition set_vreg i (val : list Z) s : RiscVCpu M :=
  let base := (reg_ix i * Z.to_nat VLENB)%nat in
  set_c_v (take base (c_v s) ++ val ++ drop (base + Z.to_nat VLENB) (c_v s)) s.

(** Assert or deassert pending interrupt bits in [mip]. *)
Definition set_interrupt_pending (mask : Z) (pending : bool) s : RiscVCpu M :=
  let mask := Z.land mask (xmask s) in
  if pending then set_c_mip (Z.lor (c_mip s) mask) s
  else set_c_mip (Z.land (c_mip s) (wnot 64 mask)) s.
End Accessors.

(** ** Memory accesses of a method on the hart *)

Section MemAccess.
Context {M : Type} `{Memory M}.
Abbreviation Hart := (RiscVCpu M).

(** [self.mem.read..(..).map_err(|_| e)?]. *)
Definition mem_get {A} (rd : M -> MemResult A) (e : Trap) : exec Hart Trap A :=
  fun s => match rd (c_mem s) with
           | inl _ => (Err e, s)
           | inr v => (Ok v, s)
           end.

(** [self.mem.write..(..).map_err(|_| e)?]. *)
Definition mem_put (wr : M -> MemResult unit * M) (e : Trap) : exec Hart Trap unit :=
  fun s => let '(r, m) := wr (c_mem s) in
           match r with
           | inl _ => (Err e, set_c_mem m s)
           | inr _ => (Ok tt, set_c_mem m s)
           end.

Definition acc_fault (store : bool) (addr : Z) : Trap :=
  mk_trap (if store then cause.STORE_ACCESS_FAULT else cause.LOAD_ACCESS_FAULT) addr.
End MemAccess.
