(* ===== verification/RvHart.v ===== *)
(** * The hart invariant and its proof rules

    Register-file laws, the well-formedness invariant [hart_ok] of a hart and
    the rules that show a method of the hart keeps it, raises only
    well-formed traps and never panics. *)

From S2P Require Import Prelude RvIsa RvOp RvMemory RvAlu RvState.

(** ** Register files *)

Lemma reg_ix_mod i : reg_ix i = Z.to_nat (i mod 32).
Proof. unfold reg_ix. change 31 with (Z.ones 5). by rewrite Z.land_ones. Qed.

Lemma reg_ix_lt i : (reg_ix i < 32)%nat.
Proof. rewrite reg_ix_mod. pose proof (Z.mod_pos_bound i 32). lia. Qed.

Lemma reg_ix_small i : fits 5 i -> reg_ix i = Z.to_nat i.
Proof. intros Hi. rewrite reg_ix_mod, Z.mod_small; [done|exact Hi]. Qed.

Lemma reg_ix_inj i j : fits 5 i -> fits 5 j -> reg_ix i = reg_ix j -> i = j.
Proof. intros Hi Hj. rewrite !reg_ix_small by done. unfold fits in *. lia. Qed.

Lemma reg_zero i : (Z.land i 31 =? 0) = (reg_ix i =? 0)%nat.
Proof.
  rewrite reg_ix_mod. change 31 with (Z.ones 5). rewrite Z.land_ones by lia.
  pose proof (Z.mod_pos_bound i 32). change (2 ^ 5) with 32.
  destruct (Z.eqb_spec (i mod 32) 0), (Nat.eqb_spec (Z.to_nat (i mod 32)) 0); lia.
Qed.

Section Regs.
Context {M : Type}.
Implicit Types (s : RiscVCpu M).

(** [set_x] changes only the integer registers. *)
Lemma set_x_spec i v s : set_x i v s = set_c_x (c_x (set_x i v s)) s.
Proof. unfold set_x. by destruct (_ =? _); destruct s. Qed.

Lemma get_x_0 s : nth 0 (c_x s) 0 = 0 -> get_x s 0 = 0.
Proof. done. Qed.

Lemma get_set_x_eq i v s :
  length (c_x s) = 32%nat -> fits 5 i -> i <> 0 ->
  get_x (set_x i v s) i = Z.land v (xmask s).
Proof.
  intros Hl Hi Hz. unfold set_x. rewrite reg_zero, reg_ix_small by done.
  destruct (Nat.eqb_spec (Z.to_nat i) 0); [unfold fits in *; lia|].
  unfold get_x. cbn [set_c_x c_x]. rewrite reg_ix_small by done. rewrite nth_lookup.
  rewrite list_lookup_insert_eq; [done|]. unfold fits in *. lia.
Qed.

Lemma get_set_x_ne i j v s :
  reg_ix i <> reg_ix j -> get_x (set_x i v s) j = get_x s j.
Proof.
  intros Hij. unfold set_x. destruct (_ =? _); [done|]. unfold get_x. cbn [set_c_x c_x].
  by rewrite !nth_lookup, list_lookup_insert_ne.
Qed.

Lemma get_set_x_0 v s : set_x 0 v s = s.
Proof. done. Qed.
End Regs.

(** ** The invariant *)

(** The XLEN-bit CSRs. *)
Definition csr_fields {M} (s : RiscVCpu M) : list Z :=
  [c_mstatus s; c_mtvec s; c_mepc s; c_mcause s; c_mscratch s; c_mie s; c_mip s; c_medeleg s;
   c_mideleg s; c_mcounteren s; c_jvt s].

(** The element-width field of [vtype], and VLMAX = LMUL * VLEN / SEW. *)
Definition vsew (vtype : Z) : Z := Z.land (Z.shiftr vtype 3) 7.
Definition VLMAX (vtype : Z) : Z := Z.shiftl VLEN (as_i 3 vtype) / 2 ^ (3 + vsew vtype).

(** A vector configuration: [vill] alone, or a supported [vtype] with [vl] within
    VLMAX. *)
Definition vconfig_ok (n vtype vl : Z) : Prop :=
  vtype = 2 ^ (n - 1) /\ vl = 0
  \/ fits 8 vtype /\ vsew vtype <= 3 /\ Z.land vtype 7 <> 4 /\ 0 <= vl <= VLMAX vtype.

(** [hart_ok cfg s]: a hart of configuration [cfg] whose registers hold values
    of their widths and whose [x0] is zero. *)
Record hart_ok {M} `{MemoryLaws M} (cfg : RiscVConfig) (s : RiscVCpu M) : Prop := {
  ok_cfg : c_cfg s = cfg;
  ok_x_len : length (c_x s) = 32%nat;
  ok_x0 : nth 0 (c_x s) 0 = 0;
  ok_x : Forall (fits (xlen_bits (cfg_xlen cfg))) (c_x s);
  ok_f_len : length (c_f s) = 32%nat;
  ok_f : Forall (fits 64) (c_f s);
  ok_pc : fits (xlen_bits (cfg_xlen cfg)) (c_pc s);
  ok_fcsr : fits 8 (c_fcsr s);
  ok_csrs : Forall (fits (xlen_bits (cfg_xlen cfg))) (csr_fields s);
  ok_mtval : fits 64 (c_mtval s);
  ok_counters : Forall (fits 64) [c_cycle s; c_time s; c_instret s];
  ok_vstart : fits 64 (c_vstart s);
  ok_vconfig : vconfig_ok (xlen_bits (cfg_xlen cfg)) (c_vtype s) (c_vl s);
  ok_vxrm : fits 2 (c_vxrm s);
  ok_vxsat : fits 1 (c_vxsat s);
  ok_v_len : length (c_v s) = Z.to_nat (32 * VLENB);
  ok_v : Forall (fits 8) (c_v s);
  ok_mem : mem_wf (c_mem s)
}.

Lemma VLMAX_range vtype : fits 8 vtype -> 0 <= VLMAX vtype <= VLEN.
Proof.
  intros Hv. cut ((0 <=? VLMAX vtype) && (VLMAX vtype <=? VLEN) = true).
  { rewrite andb_true_iff, !Z.leb_le. done. }
  apply (all_below 8 (fun v => (0 <=? VLMAX v) && (VLMAX v <=? VLEN))); [by vm_compute | done].
Qed.

(** Whatever the configuration, [vl] is at most VLEN and the element width is at
    most 64 bits. *)
Lemma vconfig_vl n vtype vl : vconfig_ok n vtype vl -> 0 <= vl <= VLEN.
Proof.
  intros [[_ ->]|(Hv & _ & _ & Hvl)]; [done|]. pose proof (VLMAX_range _ Hv). lia.
Qed.

Lemma vconfig_vsew n vtype vl : 32 <= n -> vconfig_ok n vtype vl -> 0 <= vsew vtype <= 3.
Proof.
  intros Hn [[-> _]|(Hv & Hs & _)].
  - unfold vsew. rewrite Z.shiftr_div_pow2, <- Z.pow_sub_r by lia. change 7 with (Z.ones 3).
    rewrite Z.land_ones by lia. replace (n - 1 - 3) with (3 + (n - 7)) by lia.
    rewrite Z.pow_add_r, Z.mul_comm, Z.mod_mul by lia. lia.
  - split; [|done]. unfold vsew. apply Z.land_nonneg. lia.
Qed.

(** A trap the hart raises: a synchronous cause and a 64-bit value. *)
Definition trap_ok (t : Trap) : Prop := 0 <= trap_cause t <= 15 /\ fits 64 (trap_tval t).

Lemma xbits_64 cfg : xlen_bits (cfg_xlen cfg) <= 64.
Proof. by destruct (cfg_xlen cfg). Qed.
Lemma xbits_32 cfg : 32 <= xlen_bits (cfg_xlen cfg).
Proof. by destruct (cfg_xlen cfg). Qed.

Lemma fits_mask_x cfg v : fits (xlen_bits (cfg_xlen cfg)) (Z.land v (xlen_mask (cfg_xlen cfg))).
Proof.
  rewrite land_xlen_mask. apply Z.mod_pos_bound, Z.pow_pos_nonneg; [lia|].
  pose proof (xbits_32 cfg). lia.
Qed.

Lemma Forall_insert_fits w (l : list Z) i v :
  Forall (fits w) l -> fits w v -> Forall (fits w) (<[i := v]> l).
Proof. apply Forall_insert. Qed.

(** ** State updates that keep the invariant *)

Section Updates.
Context {M : Type} `{MemoryLaws M} (cfg : RiscVConfig).
Implicit Types (s : RiscVCpu M).
Abbreviation ok := (hart_ok cfg).
Abbreviation xb := (xlen_bits (cfg_xlen cfg)).

Lemma ok_xmask s : ok s -> xmask s = xlen_mask (cfg_xlen cfg).
Proof. intros []. unfold xmask, cpu_xlen. by subst. Qed.

Lemma ok_xlen s : ok s -> cpu_xlen s = cfg_xlen cfg.
Proof. intros []. unfold cpu_xlen. by subst. Qed.

Lemma ok_xbits s : ok s -> xbits s = xb.
Proof. intros []. unfold xbits, cpu_xlen. by subst. Qed.

Lemma fits_land_xmask s v : ok s -> fits xb (Z.land v (xmask s)).
Proof. intros Hs. rewrite ok_xmask by done. apply fits_mask_x. Qed.

Lemma fits_get_x s i : ok s -> fits xb (get_x s i).
Proof.
  intros Hs. unfold get_x. rewrite nth_lookup.
  destruct (c_x s !! reg_ix i) eqn:E; simpl; [exact (Forall_lookup_1 _ _ _ _ (ok_x _ _ Hs) E)|].
  apply fits_0. pose proof (xbits_32 cfg). lia.
Qed.

Lemma fits_get_x_64 s i : ok s -> fits 64 (get_x s i).
Proof. intros Hs. apply (fits_weaken xb); [apply xbits_64 | by apply fits_get_x]. Qed.

Lemma fits_get_f s i : ok s -> fits 64 (get_f s i).
Proof.
  intros Hs. unfold get_f. rewrite nth_lookup.
  destruct (c_f s !! reg_ix i) eqn:E; simpl; [|by apply fits_0].
  exact (Forall_lookup_1 _ _ _ _ (ok_f _ _ Hs) E).
Qed.

Ltac upd := intros; match goal with H : hart_ok _ _ |- _ => destruct H end; constructor; try done.
Ltac upd_csr :=
  upd; unfold csr_fields in *; cbn [set_c_mstatus set_c_mtvec set_c_mepc set_c_mcause set_c_mscratch
    set_c_mie set_c_mip set_c_medeleg set_c_mideleg set_c_mcounteren set_c_jvt c_mstatus c_mtvec
    c_mepc c_mcause c_mscratch c_mie c_mip c_medeleg c_mideleg c_mcounteren c_jvt] in *;
  rewrite !Forall_cons in *; tauto.

Lemma ok_set_x i v s : ok s -> ok (set_x i v s).
Proof.
  intros Hs. pose proof (fits_land_xmask s v Hs) as Hv. unfold set_x.
  rewrite reg_zero. destruct (Nat.eqb_spec (reg_ix i) 0); [done|]. upd; cbn [set_c_x c_x].
  - by rewrite length_insert.
  - rewrite nth_lookup, list_lookup_insert_ne by done. by rewrite <- nth_lookup.
  - by apply Forall_insert_fits.
Qed.

Lemma ok_set_f i v s : fits 64 v -> ok s -> ok (set_f i v s).
Proof.
  intros Hv Hs. unfold set_f. upd; cbn [set_c_f c_f].
  - by rewrite length_insert.
  - by apply Forall_insert_fits.
Qed.

Lemma ok_set_pc v s : fits xb v -> ok s -> ok (set_c_pc v s).
Proof. upd. Qed.
Lemma ok_set_mem m s : mem_wf m -> ok s -> ok (set_c_mem m s).
Proof. upd. Qed.
Lemma ok_set_reservation v s : ok s -> ok (set_c_reservation v s).
Proof. upd. Qed.
Lemma ok_set_priv v s : ok s -> ok (set_c_priv v s).
Proof. upd. Qed.
Lemma ok_set_fcsr v s : fits 8 v -> ok s -> ok (set_c_fcsr v s).
Proof. upd. Qed.
Lemma ok_set_mtval v s : fits 64 v -> ok s -> ok (set_c_mtval v s).
Proof. upd. Qed.
Lemma ok_set_ext_csr v s : ok s -> ok (set_c_ext_csr v s).
Proof. upd. Qed.
Lemma ok_set_vxrm v s : fits 2 v -> ok s -> ok (set_c_vxrm v s).
Proof. upd. Qed.
Lemma ok_set_vxsat v s : fits 1 v -> ok s -> ok (set_c_vxsat v s).
Proof. upd. Qed.

Lemma ok_set_cycle v s : fits 64 v -> ok s -> ok (set_c_cycle v s).
Proof. upd. cbn in *. rewrite !Forall_cons in *. tauto. Qed.
Lemma ok_set_instret v s : fits 64 v -> ok s -> ok (set_c_instret v s).
Proof. upd. cbn in *. rewrite !Forall_cons in *. tauto. Qed.
Lemma ok_set_vstart v s : fits 64 v -> ok s -> ok (set_c_vstart v s).
Proof. upd. Qed.
Lemma ok_set_vconfig vl vtype s :
  vconfig_ok xb vtype vl -> ok s -> ok (set_c_vl vl (set_c_vtype vtype s)).
Proof. upd. Qed.
Lemma ok_set_vl vl s : 0 <= vl <= c_vl s -> ok s -> ok (set_c_vl vl s).
Proof.
  intros Hvl. upd. unfold vconfig_ok in *. cbn [set_c_vl c_vl c_vtype].
  destruct ok_vconfig0 as [[? ?]|(?&?&?&?)]; [left | right]; split_and?; try done; lia.
Qed.
Lemma ok_set_v v s :
  length v = Z.to_nat (32 * VLENB) -> Forall (fits 8) v -> ok s -> ok (set_c_v v s).
Proof. upd. Qed.

Lemma ok_set_mstatus v s : fits xb v -> ok s -> ok (set_c_mstatus v s).
Proof. upd_csr. Qed.
Lemma ok_set_mtvec v s : fits xb v -> ok s -> ok (set_c_mtvec v s).
Proof. upd_csr. Qed.
Lemma ok_set_mepc v s : fits xb v -> ok s -> ok (set_c_mepc v s).
Proof. upd_csr. Qed.
Lemma ok_set_mcause v s : fits xb v -> ok s -> ok (set_c_mcause v s).
Proof. upd_csr. Qed.
Lemma ok_set_mscratch v s : fits xb v -> ok s -> ok (set_c_mscratch v s).
Proof. upd_csr. Qed.
Lemma ok_set_mie v s : fits xb v -> ok s -> ok (set_c_mie v s).
Proof. upd_csr. Qed.
Lemma ok_set_mip v s : fits xb v -> ok s -> ok (set_c_mip v s).
Proof. upd_csr. Qed.
Lemma ok_set_medeleg v s : fits xb v -> ok s -> ok (set_c_medeleg v s).
Proof. upd_csr. Qed.
Lemma ok_set_mideleg v s : fits xb v -> ok s -> ok (set_c_mideleg v s).
Proof. upd_csr. Qed.
Lemma ok_set_mcounteren v s : fits xb v -> ok s -> ok (set_c_mcounteren v s).
Proof. upd_csr. Qed.
Lemma ok_set_jvt v s : fits xb v -> ok s -> ok (set_c_jvt v s).
Proof. upd_csr. Qed.

Lemma ok_csr_fields s : ok s ->
  fits xb (c_mstatus s) /\ fits xb (c_mtvec s) /\ fits xb (c_mepc s) /\ fits xb (c_mcause s)
  /\ fits xb (c_mscratch s) /\ fits xb (c_mie s) /\ fits xb (c_mip s) /\ fits xb (c_medeleg s)
  /\ fits xb (c_mideleg s) /\ fits xb (c_mcounteren s) /\ fits xb (c_jvt s).
Proof. intros []. unfold csr_fields in *. rewrite !Forall_cons in *. tauto. Qed.
End Updates.

(** ** Rules for methods

    [safe cfg m Q]: from a well-formed hart, [m] does not panic, leaves a
    well-formed hart in every case, raises only well-formed traps, and
    returns only values that satisfy [Q]. *)
Section Rules.
Context {M : Type} `{MemoryLaws M} (cfg : RiscVConfig).
Implicit Types (s : RiscVCpu M).
Abbreviation Hart := (RiscVCpu M).

Definition safe {A} (m : exec Hart Trap A) (Q : A -> Prop) : Prop :=
  forall s, hart_ok cfg s ->
    match m s with
    | (Ok a, s') => hart_ok cfg s' /\ Q a
    | (Err t, s') => hart_ok cfg s' /\ trap_ok t
    | (Panic, _) => False
    end.

Abbreviation anything := (fun _ => True).

Lemma safe_ret {A} (a : A) (Q : A -> Prop) : Q a -> safe (eret a) Q.
Proof. by intros Ha s Hs. Qed.

Lemma safe_throw {A} t (Q : A -> Prop) : trap_ok t -> safe (throw t) Q.
Proof. by intros Ht s Hs. Qed.

Lemma safe_bind {A B} (m : exec Hart Trap A) (k : A -> exec Hart Trap B) Q R :
  safe m Q -> (forall a, Q a -> safe (k a) R) -> safe (a ← m; k a) R.
Proof.
  intros Hm Hk s Hs. unfold mbind, exec_bind, ebind. specialize (Hm s Hs).
  destruct (m s) as [[a|t|] s']; [|done..]. destruct Hm. by apply Hk.
Qed.

Lemma safe_seq {A B} (m : exec Hart Trap A) (n : exec Hart Trap B) R :
  safe m anything -> safe n R -> safe (m;; n) R.
Proof. intros Hm Hn. by apply (safe_bind _ _ anything). Qed.

Lemma safe_get {B} (k : Hart -> exec Hart Trap B) R :
  (forall s, hart_ok cfg s -> safe (k s) R) -> safe (s ← get; k s) R.
Proof. intros Hk s Hs. by apply (Hk s). Qed.

Lemma safe_modify f : (forall s, hart_ok cfg s -> hart_ok cfg (f s)) -> safe (modify f) anything.
Proof. intros Hf s Hs. split; [by apply Hf | done]. Qed.

Lemma safe_if {A} (c : bool) (m n : exec Hart Trap A) Q :
  (c = true -> safe m Q) -> (c = false -> safe n Q) -> safe (if c then m else n) Q.
Proof. destruct c; auto. Qed.

Lemma safe_weaken {A} (m : exec Hart Trap A) (Q R : A -> Prop) :
  (forall a, Q a -> R a) -> safe m Q -> safe m R.
Proof.
  intros HQ Hm s Hs. specialize (Hm s Hs).
  destruct (m s) as [[a|t|] s']; [|done..]. destruct Hm. auto.
Qed.

Lemma safe_expect {A} (o : option A) (Q : A -> Prop) :
  (exists a, o = Some a /\ Q a) -> safe (expect o) Q.
Proof. intros (a & -> & Ha). by apply safe_ret. Qed.

Lemma safe_expect_bind {A B} (a : A) (k : A -> exec Hart Trap B) R :
  safe (k a) R -> safe (a ← expect (Some a); k a) R.
Proof. done. Qed.

Lemma safe_mem_get {A} (rd : M -> MemResult A) t (Q : A -> Prop) :
  trap_ok t -> (forall m v, mem_wf m -> rd m = inr v -> Q v) -> safe (mem_get rd t) Q.
Proof.
  intros Ht HQ s Hs. unfold mem_get. destruct (rd (c_mem s)) eqn:E; [done|].
  split; [done|]. eapply HQ; [|done]. apply Hs.
Qed.

Lemma safe_mem_put (wr : M -> MemResult unit * M) t :
  trap_ok t -> (forall m r m', mem_wf m -> wr m = (r, m') -> mem_wf m') ->
  safe (mem_put wr t) anything.
Proof.
  intros Ht Hw s Hs. unfold mem_put. destruct (wr (c_mem s)) as [r m'] eqn:E.
  apply Hw in E; [|apply Hs]. destruct r; split; try done; by apply ok_set_mem.
Qed.

Lemma safe_write_bytes addr bs t :
  trap_ok t -> Forall (fits 8) bs -> safe (mem_put (fun m => mem_write m addr bs) t) anything.
Proof. intros Ht Hb. apply safe_mem_put; [done|]. intros. by eapply mem_write_wf. Qed.
End Rules.
