(* ===== verification/RvCsr.v ===== *)
(** * CSRs, trap delivery and interrupts

    src/isa/riscv/csr.rs (addresses), src/isa/riscv/cpu/csr_ops.rs (CSR reads,
    writes and [mret]) and the trap and interrupt methods of
    src/isa/riscv/cpu.rs. *)

From S2P Require Import Prelude RvIsa RvOp RvMemory RvAlu RvState.

(** ** CSR addresses *)

Module Csr.
Inductive t : Type :=
| Fflags | Frm | Fcsr | Jvt | Cycle | Time | Instret | CycleH | TimeH | InstretH
| Mstatus | Sstatus | Misa | Medeleg | Mideleg | Mie | Sie | Mtvec | Mcounteren | Mscratch
| Mepc | Mcause | Mtval | Mip | Sip | Mvendorid | Marchid | Mimpid | Mhartid | Vstart
| Vxsat | Vxrm | Vcsr | Vl | Vtype | Vlenb.

(** Resolve a raw 12-bit address to a known CSR. *)
Definition from_addr (addr : Z) : option t :=
  arms (Z.land addr 0xfff)
    [(0x001, true, Fflags); (0x002, true, Frm); (0x003, true, Fcsr); (0x017, true, Jvt);
     (0xC00, true, Cycle); (0xC01, true, Time); (0xC02, true, Instret);
     (0xC80, true, CycleH); (0xC81, true, TimeH); (0xC82, true, InstretH);
     (0x300, true, Mstatus); (0x100, true, Sstatus); (0x301, true, Misa);
     (0x302, true, Medeleg); (0x303, true, Mideleg); (0x304, true, Mie);
     (0x104, true, Sie); (0x305, true, Mtvec); (0x306, true, Mcounteren);
     (0x340, true, Mscratch); (0x341, true, Mepc); (0x342, true, Mcause);
     (0x343, true, Mtval); (0x344, true, Mip); (0x144, true, Sip);
     (0xF11, true, Mvendorid); (0xF12, true, Marchid); (0xF13, true, Mimpid);
     (0xF14, true, Mhartid); (0x008, true, Vstart); (0x009, true, Vxsat);
     (0x00A, true, Vxrm); (0x00F, true, Vcsr); (0xC20, true, Vl); (0xC21, true, Vtype);
     (0xC22, true, Vlenb)].

(** The top two address bits mark a read-only register. *)
Definition is_read_only (addr : Z) : bool := Z.land (Z.shiftr addr 10) 0x3 =? 0x3.
End Csr.

(** ** Constants *)

Definition SSTATUS_BASE_MASK : Z :=
  foldl Z.lor 0 [Z.shiftl 1 1; Z.shiftl 1 5; Z.shiftl 1 6; Z.shiftl 1 8; Z.shiftl 0x3 9;
                 Z.shiftl 0x3 13; Z.shiftl 0x3 15; Z.shiftl 1 18; Z.shiftl 1 19].
Definition S_INTERRUPT_MASK : Z :=
  foldl Z.lor 0 [Z.shiftl 1 1; Z.shiftl 1 5; Z.shiftl 1 9].
Definition MSTATUS_MIE : Z := Z.shiftl 1 3.
Definition MIP_MSIP : Z := Z.shiftl 1 cause.INT_M_SOFTWARE.
Definition MIP_MTIP : Z := Z.shiftl 1 cause.INT_M_TIMER.
Definition MIP_MEIP : Z := Z.shiftl 1 cause.INT_M_EXTERNAL.
Definition M_INTERRUPT_MASK : Z := Z.lor (Z.lor MIP_MSIP MIP_MTIP) MIP_MEIP.

Section Csr.
Context {M : Type} `{Memory M}.
Abbreviation Hart := (RiscVCpu M).
Implicit Types (s : Hart).

(** ** Derived views *)

Definition sstatus_mask s : Z :=
  let sd := wshl 64 1 (xbits s - 1) in
  let uxl := if rv32 (cpu_xlen s) then 0 else Z.shiftl 0x3 32 in
  Z.land (Z.lor (Z.lor SSTATUS_BASE_MASK uxl) sd) (xmask s).

Definition supervisor_interrupt_mask s : Z :=
  Z.land (Z.land (c_mideleg s) S_INTERRUPT_MASK) (xmask s).

Definition supervisor_software_interrupt_mask s : Z :=
  Z.land (Z.land (c_mideleg s) (Z.shiftl 1 1)) (xmask s).

Definition misa s : Z :=
  let mxl := if rv32 (cpu_xlen s) then 1 else 2 in
  let shift := xbits s - 2 in
  let isa := cpu_isa s in
  let bits := foldl (fun bits '(enabled, bit) =>
                       if enabled : bool then Z.lor bits (wshl 64 1 bit) else bits)
                (Z.shiftl 1 8)
                [(isa_a isa, 0); (isa_c isa, 2); (isa_d isa, 3); (isa_f isa, 5);
                 (isa_h isa, 7); (isa_m isa, 12); (isa_v isa, 21)] in
  Z.lor (wshl 64 mxl shift) bits.

Definition mepc_alignment_mask s : Z := if isa_c (cpu_isa s) then wnot 64 1 else wnot 64 3.

Definition mepc_read_value s : Z :=
  Z.land (Z.land (c_mepc s) (mepc_alignment_mask s)) (xmask s).

(** Whether a recognized CSR exists in the configured profile. *)
Definition csr_available s (csr : Csr.t) : bool :=
  match csr with
  | Csr.Fflags | Csr.Frm | Csr.Fcsr => isa_f (cpu_isa s)
  | Csr.Jvt => isa_zcmt (cpu_isa s)
  | Csr.CycleH | Csr.TimeH | Csr.InstretH => rv32 (cpu_xlen s)
  | Csr.Vstart | Csr.Vxsat | Csr.Vxrm | Csr.Vcsr | Csr.Vl | Csr.Vtype | Csr.Vlenb =>
      isa_v (cpu_isa s)
  | _ => true
  end.

(** ** CSR reads *)

(** The value of a recognized CSR, before the final XLEN mask. *)
Definition csr_value s (csr : Csr.t) : Z :=
  match csr with
  | Csr.Fflags => Z.land (c_fcsr s) 0x1f
  | Csr.Frm => Z.land (wshr 32 (c_fcsr s) 5) 0x7
  | Csr.Fcsr => Z.land (c_fcsr s) 0xff
  | Csr.Jvt => c_jvt s
  | Csr.Cycle => Z.land (c_cycle s) (xmask s)
  | Csr.Time => Z.land (c_time s) (xmask s)
  | Csr.Instret => Z.land (c_instret s) (xmask s)
  | Csr.CycleH => Z.land (wshr 64 (c_cycle s) 32) 0xffffffff
  | Csr.TimeH => Z.land (wshr 64 (c_time s) 32) 0xffffffff
  | Csr.InstretH => Z.land (wshr 64 (c_instret s) 32) 0xffffffff
  | Csr.Mstatus => c_mstatus s
  | Csr.Sstatus => Z.land (c_mstatus s) (sstatus_mask s)
  | Csr.Misa => misa s
  | Csr.Medeleg => c_medeleg s
  | Csr.Mideleg => c_mideleg s
  | Csr.Mie => c_mie s
  | Csr.Sie => Z.land (c_mie s) (supervisor_interrupt_mask s)
  | Csr.Mtvec => c_mtvec s
  | Csr.Mcounteren => c_mcounteren s
  | Csr.Mscratch => c_mscratch s
  | Csr.Mepc => mepc_read_value s
  | Csr.Mcause => c_mcause s
  | Csr.Mtval => c_mtval s
  | Csr.Mip => c_mip s
  | Csr.Sip => Z.land (c_mip s) (supervisor_interrupt_mask s)
  | Csr.Mvendorid | Csr.Marchid | Csr.Mimpid => 0
  | Csr.Mhartid => c_mhartid s
  | Csr.Vl => c_vl s
  | Csr.Vtype => c_vtype s
  | Csr.Vlenb => VLEN / 8
  | Csr.Vstart => c_vstart s
  | Csr.Vxsat => c_vxsat s
  | Csr.Vxrm => c_vxrm s
  | Csr.Vcsr => Z.lor (wshl 64 (c_vxrm s) 1) (c_vxsat s)
  end.

Definition csr_read (addr : Z) : exec Hart Trap Z :=
  s ← get;
  match Csr.from_addr addr with
  | None =>
      if isa_xsoteria (cpu_isa s) then eret (Z.land (default 0 (c_ext_csr s !! addr)) (xmask s))
      else throw (trap_illegal 0)
  | Some csr =>
      if negb (csr_available s csr) then throw (trap_illegal 0)
      else eret (Z.land (csr_value s csr) (xmask s))
  end.

(** ** CSR writes *)

(** [(old & !mask) | (value & mask)]. *)
Definition masked_update (old mask value : Z) : Z :=
  Z.lor (Z.land old (wnot 64 mask)) (Z.land value mask).

(** The state after a write to a recognized CSR; the read-only ones and those
    without storage ignore it. *)
Definition csr_update (csr : Csr.t) (value : Z) s : Hart :=
  match csr with
  | Csr.Fflags =>
      set_c_fcsr (Z.lor (Z.land (c_fcsr s) (wnot 32 0x1f)) (Z.land (as_u32 value) 0x1f)) s
  | Csr.Frm =>
      set_c_fcsr (Z.lor (Z.land (c_fcsr s) (wnot 32 0xe0))
                        (wshl 32 (Z.land (as_u32 value) 0x7) 5)) s
  | Csr.Fcsr => set_c_fcsr (Z.land (as_u32 value) 0xff) s
  | Csr.Jvt => set_c_jvt (Z.land (Z.land value (wnot 64 0x3f)) (xmask s)) s
  | Csr.Mstatus => set_c_mstatus value s
  | Csr.Sstatus => set_c_mstatus (masked_update (c_mstatus s) (sstatus_mask s) value) s
  | Csr.Medeleg => set_c_medeleg value s
  | Csr.Mideleg => set_c_mideleg value s
  | Csr.Mie => set_c_mie value s
  | Csr.Sie => set_c_mie (masked_update (c_mie s) (supervisor_interrupt_mask s) value) s
  | Csr.Mtvec =>
      let base := Z.land (Z.land value (wnot 64 0x3)) (xmask s) in
      let mode := of_bool (Z.land value 0x3 =? 1) in
      set_c_mtvec (Z.lor base mode) s
  | Csr.Mcounteren => set_c_mcounteren value s
  | Csr.Mscratch => set_c_mscratch value s
  | Csr.Mepc => set_c_mepc (Z.land (Z.land value (mepc_alignment_mask s)) (xmask s)) s
  | Csr.Mcause => set_c_mcause value s
  | Csr.Mtval => set_c_mtval value s
  | Csr.Mip => set_c_mip value s
  | Csr.Sip =>
      set_c_mip (masked_update (c_mip s) (supervisor_software_interrupt_mask s) value) s
  | Csr.Vstart => set_c_vstart value s
  | Csr.Vxsat => set_c_vxsat (Z.land value 1) s
  | Csr.Vxrm => set_c_vxrm (Z.land value 3) s
  | Csr.Vcsr =>
      set_c_vxrm (Z.land (wshr 64 value 1) 3) (set_c_vxsat (Z.land value 1) s)
  | _ => s
  end.

Definition csr_write (addr value : Z) : exec Hart Trap unit :=
  s ← get;
  match Csr.from_addr addr with
  | None =>
      if isa_xsoteria (cpu_isa s)
      then modify (set_c_ext_csr (<[addr := Z.land value (xmask s)]> (c_ext_csr s)))
      else throw (trap_illegal 0)
  | Some csr =>
      if negb (csr_available s csr) then throw (trap_illegal 0)
      else modify (csr_update csr value)
  end.

(** ** The CSR instructions *)

Definition exec_csr (insn : Insn) : exec Hart Trap unit :=
  s ← get;
  let addr := insn_csr insn in
  let is_imm := match insn_op insn with Csrrwi | Csrrsi | Csrrci => true | _ => false end in
  let src := if is_imm then insn_rs1 insn else get_x s (insn_rs1 insn) in
  let is_write := match insn_op insn with Csrrw | Csrrwi => true | _ => false end in
  let writes := is_write || negb (insn_rs1 insn =? 0) in
  if writes && Csr.is_read_only addr then throw (trap_illegal (insn_raw insn))
  else
    old ← (if is_write && (insn_rd insn =? 0) then eret 0 else csr_read addr);
    (if writes then
       new ← match insn_op insn with
             | Csrrw | Csrrwi => eret src
             | Csrrs | Csrrsi => eret (Z.lor old src)
             | Csrrc | Csrrci => eret (Z.land old (wnot 64 src))
             | _ => panic
             end;
       csr_write addr new
     else eret tt);;
    modify (set_x (insn_rd insn) old).

(** ** Trap delivery and return *)

Definition interrupt_cause_bit s : Z := wshl 64 1 (xbits s - 1).

(** Deliver a trap to M-mode. *)
Definition deliver_trap (trap : Trap) (epc : Z) s : Hart :=
  let s := set_c_mtval (trap_tval trap) (set_c_mcause (trap_cause trap) (set_c_mepc epc s)) in
  let mie := Z.land (wshr 64 (c_mstatus s) 3) 1 in
  let ms := Z.land (c_mstatus s) (wnot 64 (Z.shiftl 1 7)) in
  let ms := Z.lor ms (wshl 64 mie 7) in
  let ms := Z.land ms (wnot 64 (Z.shiftl 1 3)) in
  let ms := Z.land ms (wnot 64 (Z.shiftl 0x3 11)) in
  let ms := Z.lor ms (wshl 64 (Z.land (priv_code (c_priv s)) 0x3) 11) in
  let s := set_c_priv Machine (set_c_mstatus ms s) in
  let base := Z.land (c_mtvec s) (wnot 64 0x3) in
  let interrupt_bit := interrupt_cause_bit s in
  let is_interrupt := any_bits (trap_cause trap) interrupt_bit in
  set_c_pc
    (if is_interrupt && (Z.land (c_mtvec s) 0x3 =? 1)
     then Z.land (wadd 64 base (wmul 64 4 (Z.land (trap_cause trap) (wnot 64 interrupt_bit))))
                 (xmask s)
     else Z.land base (xmask s)) s.

(** The cause of the [ECALL] left pending by [RiscVExit::Ecall]. *)
Definition ecall_cause (p : Priv) : Z :=
  match p with
  | User => cause.ECALL_U
  | Supervisor => cause.ECALL_S
  | Machine => cause.ECALL_M
  end.

Definition deliver_ecall_trap s : Hart :=
  deliver_trap (mk_trap (ecall_cause (c_priv s)) 0) (c_pc s) s.

(** [priv_ < Priv::Machine]. *)
Definition below_machine (p : Priv) : bool := match p with Machine => false | _ => true end.

Definition pending_machine_interrupt s : option Trap :=
  let machine_interrupts_enabled :=
    below_machine (c_priv s) || any_bits (c_mstatus s) MSTATUS_MIE in
  if negb machine_interrupts_enabled then None
  else
    let pending :=
      Z.land (Z.land (Z.land (Z.land (c_mip s) (c_mie s)) (wnot 64 (c_mideleg s)))
                     M_INTERRUPT_MASK) (xmask s) in
    let taken (cause : Z) : option Trap :=
      Some (mk_trap (Z.lor (interrupt_cause_bit s) cause) 0) in
    if any_bits pending MIP_MEIP then taken cause.INT_M_EXTERNAL
    else if any_bits pending MIP_MSIP then taken cause.INT_M_SOFTWARE
    else if any_bits pending MIP_MTIP then taken cause.INT_M_TIMER
    else None.

(** [mret]: [pc <- mepc; MIE <- MPIE; MPIE <- 1; priv <- MPP; MPP <- U]. *)
Definition exec_mret s : Hart :=
  let s := set_c_pc (mepc_read_value s) s in
  let mpie := Z.land (wshr 64 (c_mstatus s) 7) 1 in
  let ms := Z.land (c_mstatus s) (wnot 64 (Z.shiftl 1 3)) in
  let ms := Z.lor ms (wshl 64 mpie 3) in
  let ms := Z.lor ms (Z.shiftl 1 7) in
  let mpp := Z.land (wshr 64 ms 11) 0x3 in
  let p := if mpp =? 3 then Machine else if mpp =? 1 then Supervisor else User in
  set_c_mstatus (Z.land ms (wnot 64 (Z.shiftl 0x3 11))) (set_c_priv p s).
End Csr.
