(* ===== verification/RvAluOps.v ===== *)
(** * Register-writing operations

    The arms of [RiscVCpu::execute] (src/isa/riscv/cpu.rs) that only write the
    destination register: each [alu_*] function gives the value written, or
    [None] when the operation is not of its group. *)

From S2P Require Import Prelude RvIsa RvOp RvAlu RvCrypto.

(** ** The arms, by extension

    [a], [b] and [imm] are the u64 operands of the source ([imm] is
    [insn.imm as u64]). *)

(** LUI, AUIPC, OP-IMM, OP, OP-IMM-32 and OP-32. *)
Definition alu_base (xl : Xlen) (op : Op) (pc a b imm : Z) : option Z :=
  let mask := xlen_mask xl in
  match op with
  | Lui => Some imm
  | Auipc => Some (wadd 64 pc imm)
  | Addi => Some (wadd 64 a imm)
  | Slti => Some (of_bool (sx xl a <? as_i64 imm))
  | Sltiu => Some (of_bool (Z.land a mask <? Z.land imm mask))
  | Xori => Some (Z.lxor a imm)
  | Ori => Some (Z.lor a imm)
  | Andi => Some (Z.land a imm)
  | Slli => Some (sll xl a imm)
  | Srli => Some (srl xl a imm)
  | Srai => Some (sra xl a imm)
  | Add => Some (wadd 64 a b)
  | Sub => Some (wsub 64 a b)
  | Sll => Some (sll xl a b)
  | Slt => Some (of_bool (sx xl a <? sx xl b))
  | Sltu => Some (of_bool (a <? b))
  | Xor => Some (Z.lxor a b)
  | Srl => Some (srl xl a b)
  | Sra => Some (sra xl a b)
  | Or => Some (Z.lor a b)
  | And => Some (Z.land a b)
  | Addiw => Some (word (wadd 32 (as_u32 a) (as_u32 imm)))
  | Slliw => Some (word (wshl 32 (as_u32 a) (Z.land imm 0x1f)))
  | Srliw => Some (word (wshr 32 (as_u32 a) (Z.land imm 0x1f)))
  | Sraiw => Some (word (as_u32 (wsar 32 (as_i32 (as_u32 a)) (Z.land imm 0x1f))))
  | Addw => Some (word (wadd 32 (as_u32 a) (as_u32 b)))
  | Subw => Some (word (wsub 32 (as_u32 a) (as_u32 b)))
  | Sllw => Some (word (wshl 32 (as_u32 a) (Z.land b 0x1f)))
  | Sltw => Some (of_bool (as_i32 (as_u32 a) <? as_i32 (as_u32 b)))
  | Srlw => Some (word (wshr 32 (as_u32 a) (Z.land b 0x1f)))
  | Sraw => Some (word (as_u32 (wsar 32 (as_i32 (as_u32 a)) (Z.land b 0x1f))))
  | _ => None
  end.

(** The M extension. *)
Definition alu_m (xl : Xlen) (op : Op) (a b : Z) : option Z :=
  match op with
  | Mul => Some (wmul 64 a b)
  | Mulh => Some (mulh xl a b)
  | Mulhsu => Some (mulhsu xl a b)
  | Mulhu => Some (mulhu xl a b)
  | Div => Some (div xl a b)
  | Divu => Some (divu xl a b)
  | Rem => Some (rem xl a b)
  | Remu => Some (remu xl a b)
  | Mulw => Some (word (wmul 32 (as_u32 a) (as_u32 b)))
  | Divw => Some (divw (as_u32 a) (as_u32 b) true false)
  | Divuw => Some (divw (as_u32 a) (as_u32 b) false false)
  | Remw => Some (divw (as_u32 a) (as_u32 b) true true)
  | Remuw => Some (divw (as_u32 a) (as_u32 b) false true)
  | _ => None
  end.

(** Zba, Zbb, Zbc and Zbs. *)
Definition alu_zb (xl : Xlen) (op : Op) (a b imm : Z) : option Z :=
  let sh := xlen_bits xl - 1 in
  match op with
  | Sh1add => Some (wadd 64 (wshl 64 a 1) b)
  | Sh2add => Some (wadd 64 (wshl 64 a 2) b)
  | Sh3add => Some (wadd 64 (wshl 64 a 3) b)
  | AddUw => Some (wadd 64 (Z.land a 0xffffffff) b)
  | Sh1addUw => Some (wadd 64 (wshl 64 (Z.land a 0xffffffff) 1) b)
  | Sh2addUw => Some (wadd 64 (wshl 64 (Z.land a 0xffffffff) 2) b)
  | Sh3addUw => Some (wadd 64 (wshl 64 (Z.land a 0xffffffff) 3) b)
  | SlliUw => Some (wshl 64 (Z.land a 0xffffffff) (Z.land imm 0x3f))
  | Andn => Some (Z.land a (wnot 64 b))
  | Orn => Some (Z.lor a (wnot 64 b))
  | Xnor => Some (wnot 64 (Z.lxor a b))
  | Clz => Some (clz xl a)
  | Ctz => Some (ctz xl a)
  | Cpop => Some (count_ones 64 (Z.land a (xlen_mask xl)))
  | Max => Some (if sx xl b <=? sx xl a then a else b)
  | Maxu => Some (if b <=? a then a else b)
  | Min => Some (if sx xl a <=? sx xl b then a else b)
  | Minu => Some (if a <=? b then a else b)
  | SextB => Some (as_u64 (as_i8 (as_u8 a)))
  | SextH => Some (as_u64 (as_i16 (as_u16 a)))
  | ZextH => Some (Z.land a 0xffff)
  | Rol => Some (rol xl a b)
  | Ror => Some (ror xl a b)
  | Rori => Some (ror xl a imm)
  | Orcb => Some (orc_b a (xlen_mask xl))
  | Rev8 => Some (rev8 a (rv32 xl))
  | Clzw => Some (leading_zeros 32 (as_u32 a))
  | Ctzw => Some (clz_ctz_w (as_u32 a) true)
  | Cpopw => Some (count_ones 32 (as_u32 a))
  | Rolw => Some (word (rotate_left 32 (as_u32 a) (Z.land b 0x1f)))
  | Rorw => Some (word (rotate_right 32 (as_u32 a) (Z.land b 0x1f)))
  | Roriw => Some (word (rotate_right 32 (as_u32 a) (Z.land imm 0x1f)))
  | Clmul => Some (clmul a b (xlen_bits xl))
  | Clmulh => Some (clmulh a b (xlen_bits xl))
  | Clmulr => Some (clmulr a b (xlen_bits xl))
  | Bclr => Some (Z.land a (wnot 64 (wshl 64 1 (Z.land b sh))))
  | Bclri => Some (Z.land a (wnot 64 (wshl 64 1 (Z.land imm sh))))
  | Bext => Some (Z.land (wshr 64 a (Z.land b sh)) 1)
  | Bexti => Some (Z.land (wshr 64 a (Z.land imm sh)) 1)
  | Binv => Some (Z.lxor a (wshl 64 1 (Z.land b sh)))
  | Binvi => Some (Z.lxor a (wshl 64 1 (Z.land imm sh)))
  | Bset => Some (Z.lor a (wshl 64 1 (Z.land b sh)))
  | Bseti => Some (Z.lor a (wshl 64 1 (Z.land imm sh)))
  | _ => None
  end.

(** Xsoteria, Zicond and Zbkb. *)
Definition alu_zbk (xl : Xlen) (op : Op) (a b imm : Z) : option Z :=
  match op with
  | Grev => Some (grev32 (as_u32 a) (Z.land b 31))
  | Grevi => Some (grev32 (as_u32 a) (Z.land imm 31))
  | Bitc => Some (Z.land a (wnot 64 (wshl 64 1 (Z.land b 31))))
  | Bitci => Some (Z.land a (wnot 64 (wshl 64 1 (Z.land imm 31))))
  | Bits => Some (Z.lor a (wshl 64 1 (Z.land b 31)))
  | Bitsi => Some (Z.lor a (wshl 64 1 (Z.land imm 31)))
  | Pcnt => Some (count_ones 32 (as_u32 a))
  | Fls => Some (fls32 (as_u32 a))
  | CzeroEqz => Some (if b =? 0 then 0 else a)
  | CzeroNez => Some (if negb (b =? 0) then 0 else a)
  | Pack =>
      let half := xlen_bits xl / 2 in
      let mask := wshl 64 1 half - 1 in
      Some (Z.lor (wshl 64 (Z.land b mask) half) (Z.land a mask))
  | Packh => Some (Z.lor (wshl 64 (Z.land b 0xff) 8) (Z.land a 0xff))
  | Packw =>
      Some (word (as_u32 (Z.lor (wshl 64 (Z.land b 0xffff) 16) (Z.land a 0xffff))))
  | Brev8 => Some (Z.land (brev8 a) (xlen_mask xl))
  | Zip => Some (zip32 (as_u32 a))
  | Unzip => Some (unzip32 (as_u32 a))
  | _ => None
  end.

(** Zbkx, Zknh, Zksh, Zksed, Zkne and Zknd; the byte select is [raw >> 30]. *)
Definition alu_crypto (xl : Xlen) (op : Op) (raw a b : Z) : option Z :=
  let bs := Z.land (wshr 32 raw 30) 3 in
  match op with
  | Xperm4 => Some (xperm4 a b (xlen_bits xl))
  | Xperm8 => Some (xperm8 a b (xlen_bits xl))
  | Sha256Sig0 => Some (sha256sig0 a)
  | Sha256Sig1 => Some (sha256sig1 a)
  | Sha256Sum0 => Some (sha256sum0 a)
  | Sha256Sum1 => Some (sha256sum1 a)
  | Sha512Sig0 => Some (sha512sig0 a)
  | Sha512Sig1 => Some (sha512sig1 a)
  | Sha512Sum0 => Some (sha512sum0 a)
  | Sha512Sum1 => Some (sha512sum1 a)
  | Sha512Sig0l => Some (sha512sig0l a b)
  | Sha512Sig0h => Some (sha512sig0h a b)
  | Sha512Sig1l => Some (sha512sig1l a b)
  | Sha512Sig1h => Some (sha512sig1h a b)
  | Sha512Sum0r => Some (sha512sum0r a b)
  | Sha512Sum1r => Some (sha512sum1r a b)
  | Sm3p0 => Some (sm3p0 a)
  | Sm3p1 => Some (sm3p1 a)
  | Sm4ed => Some (sm4ed a b bs)
  | Sm4ks => Some (sm4ks a b bs)
  | Aes32esi => Some (aes32esi a b bs)
  | Aes32esmi => Some (aes32esmi a b bs)
  | Aes32dsi => Some (aes32dsi a b bs)
  | Aes32dsmi => Some (aes32dsmi a b bs)
  | Aes64es => Some (aes64es a b)
  | Aes64esm => Some (aes64esm a b)
  | Aes64ds => Some (aes64ds a b)
  | Aes64dsm => Some (aes64dsm a b)
  | Aes64im => Some (aes64im a)
  | Aes64ks2 => Some (aes64ks2 a b)
  | _ => None
  end.

(** XAndesPerf and Hazard3; [rs2] is the raw operand field. *)
Definition alu_andes (xl : Xlen) (op : Op) (rs2 a b imm : Z) : option Z :=
  match op with
  | NdsAddigp => Some (wadd 64 a imm)
  | NdsBfoz => Some (andes_bitfield a rs2 (as_u8 imm) false)
  | NdsBfos => Some (andes_bitfield a rs2 (as_u8 imm) true)
  | NdsLeaH => Some (wadd 64 a (wshl 64 b 1))
  | NdsLeaW => Some (wadd 64 a (wshl 64 b 2))
  | NdsLeaD => Some (wadd 64 a (wshl 64 b 3))
  | NdsLeaBZe => Some (wadd 64 a (as_u32 b))
  | NdsLeaHZe => Some (wadd 64 a (wshl 64 (as_u32 b) 1))
  | NdsLeaWZe => Some (wadd 64 a (wshl 64 (as_u32 b) 2))
  | NdsLeaDZe => Some (wadd 64 a (wshl 64 (as_u32 b) 3))
  | NdsFfb | NdsFfmism | NdsFfzmism | NdsFlmism => andes_byte_scan op a b (rv32 xl)
  | H3Bextm =>
      let nbits := Z.land imm 0xf in
      let mask := wshl 64 1 nbits - 1 in
      Some (Z.land (wshr 64 a (Z.land b 0x1f)) mask)
  | H3Bextmi =>
      let nbits := Z.land imm 0xf in
      let mask := wshl 64 1 nbits - 1 in
      Some (Z.land (wshr 64 a rs2) mask)
  | _ => None
  end.

(** XTHead; [rd] is the old value of the destination and [fs1] that of [f[rs1]]. *)
Definition alu_thead (xl : Xlen) (op : Op) (rs2 a b imm rd fs1 : Z) : option Z :=
  match op with
  | ThAddsl => Some (wadd 64 a (wshl 64 b (as_u32 imm)))
  | ThSrri => Some (ror xl a imm)
  | ThSrriw => Some (word (rotate_right 32 (as_u32 a) (Z.land imm 0x1f)))
  | ThExt => Some (thead_extract a rs2 (as_u8 imm) (xlen_bits xl) true)
  | ThExtu => Some (thead_extract a rs2 (as_u8 imm) (xlen_bits xl) false)
  | ThFf0 => Some (thead_ff a (xlen_bits xl) false)
  | ThFf1 => Some (thead_ff a (xlen_bits xl) true)
  | ThRev => Some (rev8 a (rv32 xl))
  | ThRevw => Some (swap_bytes 4 (as_u32 a))
  | ThTstNbz => Some (thead_tstnbz a (rv32 xl))
  | ThTst => Some (if imm <? xlen_bits xl then Z.land (wshr 64 a imm) 1 else 0)
  | ThMveqz => Some (if b =? 0 then a else rd)
  | ThMvnez => Some (if negb (b =? 0) then a else rd)
  | ThMula | ThMuls | ThMulah | ThMulsh | ThMulaw | ThMulsw => thead_mac op rd a b
  | ThFmvXHw => Some (Z.land (wshr 64 fs1 32) 0xffffffff)
  | ThAndn => Some (Z.land a (wnot 64 b))
  | ThOrn => Some (Z.lor a (wnot 64 b))
  | ThXorn => Some (wnot 64 (Z.lxor a b))
  | ThPackl => Some (thead_packl a b (xlen_bits xl))
  | ThPackh => Some (Z.lor (wshl 64 (Z.land b 0xff) 8) (Z.land a 0xff))
  | ThPackhl => Some (thead_packhl a b (xlen_bits xl))
  | _ => None
  end.

(** ** Operations without an architectural effect *)

Definition is_hint (op : Op) : bool :=
  match op with
  | Fence | FenceI | Pause | NtlP1 | NtlPall | NtlS1 | NtlAll | CboInval | CboClean
  | CboFlush | PrefetchI | PrefetchR | PrefetchW | SfenceVm | SfenceVma | SinvalVma
  | SfenceWInval | SfenceInvalIr | HfenceVvma | HfenceGvma | HinvalVvma | HinvalGvma
  | ThDcacheCall | ThDcacheCiall | ThDcacheIall | ThDcacheCpa | ThDcacheCipa | ThDcacheIpa
  | ThDcacheCva | ThDcacheCiva | ThDcacheIva | ThDcacheCsw | ThDcacheCisw | ThDcacheIsw
  | ThDcacheCpal1 | ThDcacheCval1 | ThIcacheIall | ThIcacheIalls | ThIcacheIpa | ThIcacheIva
  | ThL2cacheCall | ThL2cacheCiall | ThL2cacheIall | ThSfenceVmas | ThSync | ThSyncS
  | ThSyncI | ThSyncIS | ThIpush | ThIpop | H3Unblock | WrsNto | WrsSto => true
  | _ => false
  end.
