(* ===== verification/RvAluSpec.v ===== *)
(** * The integer instructions against the ISA manual

    [isa_value] gives, for either register width, the value the RISC-V manual
    assigns to the destination of the I, M, Zba, Zbb, Zbs and Zicond
    instructions, as integer arithmetic modulo [2 ^ XLEN].  The 64-bit
    computations of the source agree with it at both widths. *)

From S2P Require Import Prelude RvIsa RvOp RvAlu RvAluOps.

(** ** The specification *)

(** Sign extension of a 32-bit result to 64 bits. *)
Definition sext_w (v : Z) : Z := as_i 32 v mod 2 ^ 64.

(** Truncated division with the results the manual assigns to division by
    zero; the overflow case needs no special treatment modulo [2 ^ n]. *)
Definition div_spec (x y : Z) : Z := if y =? 0 then -1 else Z.quot x y.
Definition rem_spec (x y : Z) : Z := if y =? 0 then x else Z.rem x y.

(** Rotation left by [s] of an [n]-bit value. *)
Definition rotl (n a s : Z) : Z := (a * 2 ^ s + a / 2 ^ (n - s)) mod 2 ^ n.

(** The sum of [f] over [0 <= i < n]. *)
Fixpoint sum_to (n : nat) (f : Z -> Z) : Z :=
  match n with O => 0 | S n => sum_to n f + f (Z.of_nat n) end.
(** The number of [0 <= i < n] with [p]. *)
Definition count_to (n : Z) (p : Z -> bool) : Z := sum_to (Z.to_nat n) (fun i => Z.b2z (p i)).

(** The counting instructions: how many bounds [2 ^ i] an [n]-bit value is below,
    how many powers of two divide it, how many of its binary digits are one. *)
Definition clz_spec (n a : Z) : Z := count_to n (fun i => a <? 2 ^ i).
Definition ctz_spec (n a : Z) : Z := count_to n (fun i => a mod 2 ^ (i + 1) =? 0).
Definition cpop_spec (n a : Z) : Z := count_to n (fun i => Z.odd (a / 2 ^ i)).

(** The base-256 digits of a value, and the value of [m] digits. *)
Definition digit (a i : Z) : Z := a / 256 ^ i mod 256.
Definition of_digits (m : Z) (d : Z -> Z) : Z := sum_to (Z.to_nat m) (fun i => d i * 256 ^ i).

(** [a] and [b] are register values below [2 ^ n], [imm] the sign-extended
    immediate, where [n] is XLEN. *)
Definition isa_value (xl : Xlen) (op : Op) (pc a b imm : Z) : option Z :=
  let n := xlen_bits xl in
  let s := as_i n in
  let rv64 (v : Z) : option Z := if is_rv64 xl then Some v else None in
  match op with
  | Lui => Some (imm mod 2 ^ n)
  | Auipc => Some ((pc + imm) mod 2 ^ n)
  | Addi => Some ((a + imm) mod 2 ^ n)
  | Slti => Some (Z.b2z (s a <? imm))
  | Sltiu => Some (Z.b2z (a <? imm mod 2 ^ n))
  | Xori => Some (Z.lxor a (imm mod 2 ^ n))
  | Ori => Some (Z.lor a (imm mod 2 ^ n))
  | Andi => Some (Z.land a (imm mod 2 ^ n))
  | Slli => Some (a * 2 ^ (imm mod n) mod 2 ^ n)
  | Srli => Some (a / 2 ^ (imm mod n))
  | Srai => Some (s a / 2 ^ (imm mod n) mod 2 ^ n)
  | Add => Some ((a + b) mod 2 ^ n)
  | Sub => Some ((a - b) mod 2 ^ n)
  | Sll => Some (a * 2 ^ (b mod n) mod 2 ^ n)
  | Slt => Some (Z.b2z (s a <? s b))
  | Sltu => Some (Z.b2z (a <? b))
  | Xor => Some (Z.lxor a b)
  | Srl => Some (a / 2 ^ (b mod n))
  | Sra => Some (s a / 2 ^ (b mod n) mod 2 ^ n)
  | Or => Some (Z.lor a b)
  | And => Some (Z.land a b)
  | Addiw => rv64 (sext_w (a + imm))
  | Slliw => rv64 (sext_w (a * 2 ^ (imm mod 32)))
  | Srliw => rv64 (sext_w (a mod 2 ^ 32 / 2 ^ (imm mod 32)))
  | Sraiw => rv64 (sext_w (as_i 32 a / 2 ^ (imm mod 32)))
  | Addw => rv64 (sext_w (a + b))
  | Subw => rv64 (sext_w (a - b))
  | Sllw => rv64 (sext_w (a * 2 ^ (b mod 32)))
  | Srlw => rv64 (sext_w (a mod 2 ^ 32 / 2 ^ (b mod 32)))
  | Sraw => rv64 (sext_w (as_i 32 a / 2 ^ (b mod 32)))
  | Mul => Some (a * b mod 2 ^ n)
  | Mulh => Some (s a * s b / 2 ^ n mod 2 ^ n)
  | Mulhsu => Some (s a * b / 2 ^ n mod 2 ^ n)
  | Mulhu => Some (a * b / 2 ^ n)
  | Div => Some (div_spec (s a) (s b) mod 2 ^ n)
  | Divu => Some (div_spec a b mod 2 ^ n)
  | Rem => Some (rem_spec (s a) (s b) mod 2 ^ n)
  | Remu => Some (rem_spec a b)
  | Mulw => rv64 (sext_w (a * b))
  | Divw => rv64 (sext_w (div_spec (as_i 32 a) (as_i 32 b)))
  | Divuw => rv64 (sext_w (div_spec (a mod 2 ^ 32) (b mod 2 ^ 32)))
  | Remw => rv64 (sext_w (rem_spec (as_i 32 a) (as_i 32 b)))
  | Remuw => rv64 (sext_w (rem_spec (a mod 2 ^ 32) (b mod 2 ^ 32)))
  | Sh1add => Some ((a * 2 + b) mod 2 ^ n)
  | Sh2add => Some ((a * 4 + b) mod 2 ^ n)
  | Sh3add => Some ((a * 8 + b) mod 2 ^ n)
  | AddUw => rv64 ((a mod 2 ^ 32 + b) mod 2 ^ 64)
  | Sh1addUw => rv64 ((a mod 2 ^ 32 * 2 + b) mod 2 ^ 64)
  | Sh2addUw => rv64 ((a mod 2 ^ 32 * 4 + b) mod 2 ^ 64)
  | Sh3addUw => rv64 ((a mod 2 ^ 32 * 8 + b) mod 2 ^ 64)
  | SlliUw => rv64 (a mod 2 ^ 32 * 2 ^ (imm mod 64) mod 2 ^ 64)
  | Andn => Some (Z.ldiff a b)
  | Orn => Some (Z.lor a (2 ^ n - 1 - b))
  | Xnor => Some (2 ^ n - 1 - Z.lxor a b)
  | Max => Some (if s a <? s b then b else a)
  | Maxu => Some (Z.max a b)
  | Min => Some (if s b <? s a then b else a)
  | Minu => Some (Z.min a b)
  | SextB => Some (as_i 8 a mod 2 ^ n)
  | SextH => Some (as_i 16 a mod 2 ^ n)
  | ZextH => Some (a mod 2 ^ 16)
  | Rol => Some (rotl n a (b mod n))
  | Ror => Some (rotl n a ((n - b) mod n))
  | Rori => Some (rotl n a ((n - imm) mod n))
  | Clz => Some (clz_spec n a)
  | Ctz => Some (ctz_spec n a)
  | Cpop => Some (cpop_spec n a)
  | Orcb => Some (of_digits (n / 8) (fun i => if digit a i =? 0 then 0 else 255))
  | Rev8 => Some (of_digits (n / 8) (fun i => digit a (n / 8 - 1 - i)))
  | Clzw => rv64 (clz_spec 32 (a mod 2 ^ 32))
  | Ctzw => rv64 (ctz_spec 32 (a mod 2 ^ 32))
  | Cpopw => rv64 (cpop_spec 32 (a mod 2 ^ 32))
  | Rolw => rv64 (sext_w (rotl 32 (a mod 2 ^ 32) (b mod 32)))
  | Rorw => rv64 (sext_w (rotl 32 (a mod 2 ^ 32) ((32 - b) mod 32)))
  | Roriw => rv64 (sext_w (rotl 32 (a mod 2 ^ 32) ((32 - imm) mod 32)))
  | Bclr => Some (Z.clearbit a (b mod n))
  | Bclri => Some (Z.clearbit a (imm mod n))
  | Bext => Some (Z.b2z (Z.testbit a (b mod n)))
  | Bexti => Some (Z.b2z (Z.testbit a (imm mod n)))
  | Binv => Some (Z.lxor a (2 ^ (b mod n)))
  | Binvi => Some (Z.lxor a (2 ^ (imm mod n)))
  | Bset => Some (Z.setbit a (b mod n))
  | Bseti => Some (Z.setbit a (imm mod n))
  | CzeroEqz => Some (if b =? 0 then 0 else a)
  | CzeroNez => Some (if b =? 0 then a else 0)
  | _ => None
  end.

(** ** Arithmetic modulo powers of two *)

Lemma mod_pow_mod n m x : 0 <= n <= m -> (x mod 2 ^ m) mod 2 ^ n = x mod 2 ^ n.
Proof.
  intros. apply Z.mod_mod_divide.
  exists (2 ^ (m - n)). rewrite <- Z.pow_add_r by lia. f_equal. lia.
Qed.

Lemma as_u_64_mod xl x : as_u64 x mod 2 ^ xlen_bits xl = x mod 2 ^ xlen_bits xl.
Proof. apply mod_pow_mod. by destruct xl. Qed.

Lemma as_i_mod n m x : 1 <= n <= m -> as_i n (x mod 2 ^ m) = as_i n x.
Proof.
  intros. rewrite <- (as_i_as_u n x), <- (as_i_as_u n (x mod 2 ^ m)) by lia. f_equal.
  unfold as_u. apply mod_pow_mod. lia.
Qed.

Lemma mod_add_congr n x x' y y' :
  x mod n = x' mod n -> y mod n = y' mod n -> (x + y) mod n = (x' + y') mod n.
Proof. intros Hx Hy. by rewrite (Zplus_mod x), (Zplus_mod x'), Hx, Hy. Qed.
Lemma mod_sub_congr n x x' y y' :
  x mod n = x' mod n -> y mod n = y' mod n -> (x - y) mod n = (x' - y') mod n.
Proof. intros Hx Hy. by rewrite (Zminus_mod x), (Zminus_mod x'), Hx, Hy. Qed.
Lemma mod_mul_congr n x x' y y' :
  x mod n = x' mod n -> y mod n = y' mod n -> (x * y) mod n = (x' * y') mod n.
Proof. intros Hx Hy. by rewrite (Zmult_mod x), (Zmult_mod x'), Hx, Hy. Qed.

Lemma xlen_mod_fits xl x : fits (xlen_bits xl) (x mod 2 ^ xlen_bits xl).
Proof. apply Z.mod_pos_bound. by destruct xl. Qed.

Lemma mod_xlen_small xl x : fits (xlen_bits xl) x -> x mod 2 ^ xlen_bits xl = x.
Proof. intros. by apply Z.mod_small. Qed.

Lemma mod_xlen_idemp xl x : x mod 2 ^ xlen_bits xl mod 2 ^ xlen_bits xl = x mod 2 ^ xlen_bits xl.
Proof. apply Zmod_mod. Qed.

(** A shift amount masked to the width. *)
Lemma shamt_mod xl v : Z.land v (xlen_bits xl - 1) = v mod xlen_bits xl.
Proof. destruct xl; [apply (Z.land_ones v 5)|apply (Z.land_ones v 6)]; lia. Qed.
Lemma shamt_imm xl v : as_u64 v mod xlen_bits xl = v mod xlen_bits xl.
Proof. destruct xl; [apply (mod_pow_mod 5 64)|apply (mod_pow_mod 6 64)]; lia. Qed.
Lemma land_31 v : Z.land v 0x1f = v mod 32.
Proof. apply (Z.land_ones v 5). lia. Qed.
Lemma mod_bits_range xl v : 0 <= v mod xlen_bits xl < xlen_bits xl.
Proof. apply Z.mod_pos_bound. by destruct xl. Qed.
Lemma mod_32_imm v : as_u64 v mod 32 = v mod 32.
Proof. apply (mod_pow_mod 5 64). lia. Qed.

Lemma sx_as_i xl v : sx xl v = as_i (xlen_bits xl) v.
Proof. destruct xl; [by apply as_i_as_u|done]. Qed.

(** ** The helpers *)

Section Helpers.
Context (xl : Xlen).
Abbreviation n := (xlen_bits xl).
Implicit Types a b s : Z.

Lemma sll_value a s : fits n a -> sll xl a s = a * 2 ^ (s mod n) mod 2 ^ n.
Proof.
  intros Ha. unfold sll, shamt. rewrite shamt_mod.
  pose proof (mod_bits_range xl s).
  destruct xl; cbn [rv32 is_rv64 negb xlen_bits] in *; unfold wshl;
    rewrite ?(as_u_small 32 a) by done;
    by rewrite Zmod_mod, Z.shiftl_mul_pow2 by lia.
Qed.

Lemma srl_value a s : fits n a -> srl xl a s = a / 2 ^ (s mod n).
Proof.
  intros Ha. unfold srl, shamt. rewrite shamt_mod.
  pose proof (mod_bits_range xl s).
  destruct xl; cbn [rv32 is_rv64 negb xlen_bits] in *; unfold wshr;
    rewrite ?(as_u_small 32 a) by done;
    by rewrite Zmod_mod, Z.shiftr_div_pow2 by lia.
Qed.

Lemma sra_value a s : sra xl a s = as_i n a / 2 ^ (s mod n) mod 2 ^ n.
Proof.
  unfold sra, shamt. rewrite shamt_mod.
  pose proof (mod_bits_range xl s).
  destruct xl; cbn [rv32 is_rv64 negb xlen_bits] in *; unfold wsar; rewrite ?as_i_as_u by lia;
    by rewrite Zmod_mod, Z.shiftr_div_pow2 by lia.
Qed.

Lemma rotate_left_value w a s :
  0 < w -> fits w a -> rotate_left w a s = rotl w a (s mod w).
Proof.
  intros Hw Ha. unfold rotate_left, rotl, as_u. f_equal.
  pose proof (Z.mod_pos_bound s w Hw) as Hs.
  rewrite <- Z.shiftl_mul_pow2, <- Z.shiftr_div_pow2 by lia.
  symmetry. apply Z.add_nocarry_lor, Z.bits_inj'. intros i Hi.
  rewrite Z.land_spec, Z.shiftl_spec, Z.shiftr_spec, Z.bits_0 by lia.
  destruct (Z.ltb_spec i (s mod w)).
  - by rewrite (Z.testbit_neg_r a (i - s mod w)) by lia.
  - rewrite (fits_testbit w a (i + (w - s mod w))) by (done || lia). apply andb_false_r.
Qed.

Lemma rotate_right_value w a s :
  0 < w -> fits w a -> rotate_right w a s = rotl w a ((w - s) mod w).
Proof.
  intros Hw Ha. rewrite <- rotate_left_value by done. unfold rotate_left, rotate_right.
  assert ((w - s) mod w = (- s) mod w) as ->.
  { replace (w - s) with (- s + 1 * w) by lia. apply Z.mod_add. lia. }
  pose proof (Z.mod_pos_bound s w Hw). rewrite Z.lor_comm.
  destruct (decide (s mod w = 0)) as [E|E].
  - rewrite Z.mod_opp_l_z by (done || lia). rewrite E, !Z.sub_0_r, Z.shiftl_0_r, Z.shiftr_0_r.
    rewrite (Z.shiftr_div_pow2 a w), (Z.div_small a) by (done || lia).
    unfold as_u. rewrite Z.lor_0_r, (Z.mod_small a) by done.
    apply Z.bits_inj'. intros i Hi. destruct (Z.ltb_spec i w).
    + rewrite Z.mod_pow2_bits_low, Z.lor_spec, Z.shiftl_spec_low by lia.
      by rewrite ?orb_false_r.
    + rewrite Z.mod_pow2_bits_high, (fits_testbit w a) by (done || lia). done.
  - rewrite Z.mod_opp_l_nz by (done || lia). do 3 f_equal. lia.
Qed.

Lemma rol_value a s : fits n a -> rol xl a s = rotl n a (s mod n).
Proof.
  intros Ha. unfold rol, shamt. rewrite shamt_mod.
  destruct xl; cbn [rv32 is_rv64 negb xlen_bits] in *; rewrite ?(as_u_small 32 a) by done;
    by rewrite rotate_left_value, Zmod_mod by done.
Qed.

Lemma ror_value a s : fits n a -> ror xl a s = rotl n a ((n - s) mod n).
Proof.
  intros Ha. unfold ror, shamt. rewrite shamt_mod, <- Zminus_mod_idemp_r.
  destruct xl; cbn [rv32 is_rv64 negb xlen_bits] in *; rewrite ?(as_u_small 32 a) by done;
    by apply rotate_right_value.
Qed.

Lemma mulh_value a b : mulh xl a b = as_i n a * as_i n b / 2 ^ n mod 2 ^ n.
Proof. unfold mulh. destruct xl; cbn [rv32 is_rv64 negb xlen_bits]; by rewrite Z.shiftr_div_pow2. Qed.

Lemma mulhsu_value a b : fits n b -> mulhsu xl a b = as_i n a * b / 2 ^ n mod 2 ^ n.
Proof.
  intros Hb. unfold mulhsu.
  destruct xl; cbn [rv32 is_rv64 negb xlen_bits] in *; rewrite ?(as_u_small 32 b) by done;
    by rewrite Z.shiftr_div_pow2.
Qed.

Lemma mulhu_fits a b : fits n a -> fits n b -> fits n (a * b / 2 ^ n).
Proof.
  intros [? ?] [? ?]. assert (0 < 2 ^ n) by lia. split; [apply Z.div_pos; nia|].
  apply Z.div_lt_upper_bound; nia.
Qed.

Lemma mulhu_value a b : fits n a -> fits n b -> mulhu xl a b = a * b / 2 ^ n.
Proof.
  intros Ha Hb. pose proof (mulhu_fits a b Ha Hb) as Hf. unfold mulhu.
  destruct xl; cbn [rv32 is_rv64 negb xlen_bits] in *; rewrite ?(as_u_small 32 b) by done;
    rewrite ?(as_u_small 32 a) by done; rewrite Z.shiftr_div_pow2 by done; by apply as_u_small.
Qed.
End Helpers.

(** The overflow case of a signed division agrees modulo [2 ^ w]. *)
Lemma idiv_value w x y : 1 <= w -> as_u w (idiv w x y) = div_spec x y mod 2 ^ w.
Proof.
  intros Hw. unfold idiv, div_spec. destruct (y =? 0) eqn:Ey; [done|].
  destruct (Z.eqb_spec x (- 2 ^ (w - 1))) as [->|]; [|done].
  destruct (Z.eqb_spec y (-1)) as [->|]; [|done]. simpl.
  change (-1) with (Z.opp 1).
  rewrite Z.quot_opp_l, Z.quot_opp_r, Z.quot_1_r, Z.opp_involutive by lia. unfold as_u.
  assert (2 ^ w = 2 * 2 ^ (w - 1)) as E by (rewrite <- Z.pow_succ_r by lia; f_equal; lia).
  rewrite <- (Z.mod_add (- 2 ^ (w - 1)) 1) by lia. f_equal. lia.
Qed.

Lemma irem_value w x y : irem w x y = rem_spec x y.
Proof.
  unfold irem, rem_spec. destruct (y =? 0); [done|].
  destruct (x =? - 2 ^ (w - 1)); [|done].
  destruct (Z.eqb_spec y (-1)) as [->|]; [|done]. simpl.
  change (-1) with (Z.opp 1). by rewrite Z.rem_opp_r, Z.rem_1_r by lia.
Qed.

Lemma udiv_value w a b :
  1 <= w -> fits w a -> fits w b ->
  (if b =? 0 then 2 ^ w - 1 else Z.quot a b) = div_spec a b mod 2 ^ w.
Proof.
  intros Hw [? ?] [? ?]. unfold div_spec. destruct (Z.eqb_spec b 0).
  - apply (Z.mod_unique _ _ (-1)); lia.
  - rewrite Z.quot_div_nonneg by lia. symmetry. apply Z.mod_small. split.
    + apply Z.div_pos; lia.
    + apply (Z.le_lt_trans _ a); [|done]. apply Z.div_le_upper_bound; nia.
Qed.

Lemma urem_fits w a b : fits w a -> fits w b -> fits w (rem_spec a b).
Proof.
  intros [? ?] [? ?]. unfold rem_spec. destruct (Z.eqb_spec b 0); [done|].
  rewrite Z.rem_mod_nonneg by lia. pose proof (Z.mod_pos_bound a b). split; lia.
Qed.

Lemma rem_spec_range w x y :
  - 2 ^ (w - 1) <= x < 2 ^ (w - 1) -> - 2 ^ (w - 1) <= y < 2 ^ (w - 1) ->
  - 2 ^ (w - 1) <= rem_spec x y < 2 ^ (w - 1).
Proof.
  intros Hx Hy. unfold rem_spec. destruct (Z.eqb_spec y 0); [done|].
  pose proof (Z.rem_bound_abs x y n). lia.
Qed.

Lemma idiv_range w x y :
  1 <= w -> - 2 ^ (w - 1) <= x < 2 ^ (w - 1) -> - 2 ^ (w - 1) <= y < 2 ^ (w - 1) ->
  - 2 ^ (w - 1) <= idiv w x y < 2 ^ (w - 1).
Proof.
  intros Hw Hx Hy. assert (0 < 2 ^ (w - 1)) by lia. unfold idiv.
  destruct (Z.eqb_spec y 0); [lia|].
  destruct (Z.eqb_spec x (- 2 ^ (w - 1))); destruct (Z.eqb_spec y (-1)); simpl; try lia.
  all: pose proof (Z.quot_rem' x y); pose proof (Z.rem_bound_abs x y n).
  all: pose proof (Z.rem_sign_mul x y); nia.
Qed.

Section Division.
Context (xl : Xlen).
Abbreviation n := (xlen_bits xl).

Lemma div_value a b : div xl a b = div_spec (as_i n a) (as_i n b) mod 2 ^ n.
Proof. unfold div. destruct xl; by apply idiv_value. Qed.

Lemma rem_value a b : rem xl a b = rem_spec (as_i n a) (as_i n b) mod 2 ^ n.
Proof. unfold rem. destruct xl; simpl; by rewrite irem_value. Qed.

Lemma divu_value a b : fits n a -> fits n b -> divu xl a b = div_spec a b mod 2 ^ n.
Proof.
  intros Ha Hb. unfold divu.
  destruct xl; cbn [rv32 is_rv64 negb xlen_bits] in *;
    rewrite ?(as_u_small 32 a), ?(as_u_small 32 b) by done; by apply udiv_value.
Qed.

Lemma remu_value a b : fits n a -> fits n b -> remu xl a b = rem_spec a b.
Proof.
  intros Ha Hb. unfold remu, rem_spec.
  destruct xl; cbn [rv32 is_rv64 negb xlen_bits] in *;
    by rewrite ?(as_u_small 32 a), ?(as_u_small 32 b) by done.
Qed.
End Division.

(** Sign extension of words depends on the low 32 bits only. *)
Lemma word_value v : word v = sext_w v.
Proof. done. Qed.
Lemma sext_w_mod v : sext_w (v mod 2 ^ 32) = sext_w v.
Proof. unfold sext_w. by rewrite as_i_mod by lia. Qed.
Lemma sext_w_fits v : fits 64 (sext_w v).
Proof. by apply Z.mod_pos_bound. Qed.
Lemma sext_w_congr u v : u mod 2 ^ 32 = v mod 2 ^ 32 -> sext_w u = sext_w v.
Proof. intros E. by rewrite <- (sext_w_mod u), E, sext_w_mod. Qed.

(** ** Bitwise operations modulo a power of two *)

Lemma mod_land n a b : 0 <= n -> Z.land a b mod 2 ^ n = Z.land (a mod 2 ^ n) (b mod 2 ^ n).
Proof.
  intros. rewrite <- !Z.land_ones by done. apply Z.bits_inj'. intros i Hi.
  rewrite !Z.land_spec. btauto.
Qed.
Lemma mod_lor n a b : 0 <= n -> Z.lor a b mod 2 ^ n = Z.lor (a mod 2 ^ n) (b mod 2 ^ n).
Proof. intros. rewrite <- !Z.land_ones by done. apply Z.land_lor_distr_l. Qed.
Lemma mod_lxor n a b : 0 <= n -> Z.lxor a b mod 2 ^ n = Z.lxor (a mod 2 ^ n) (b mod 2 ^ n).
Proof.
  intros. rewrite <- !Z.land_ones by done. apply Z.bits_inj'. intros i Hi.
  rewrite ?Z.land_spec, ?Z.lxor_spec, ?Z.land_spec. btauto.
Qed.

Lemma lnot_mod n b : fits n b -> Z.lnot b mod 2 ^ n = 2 ^ n - 1 - b.
Proof. intros [? ?]. unfold Z.lnot. symmetry. apply (Z.mod_unique _ _ (-1)); lia. Qed.

Lemma ldiff_fits n a b : fits n a -> fits n (Z.ldiff a b).
Proof. intros. rewrite Z.ldiff_land. by apply fits_land_l. Qed.

Section Bits.
Context (xl : Xlen).
Abbreviation n := (xlen_bits xl).
Implicit Types a b s : Z.

Lemma xbits_nonneg : 0 <= n.
Proof. by destruct xl. Qed.

Lemma andn_value a b : fits n a -> Z.land a (wnot 64 b) mod 2 ^ n = Z.ldiff a b.
Proof.
  intros Ha. rewrite mod_land by apply xbits_nonneg. unfold wnot. rewrite as_u_64_mod.
  rewrite <- mod_land, <- Z.ldiff_land by apply xbits_nonneg.
  by apply mod_xlen_small, ldiff_fits.
Qed.

Lemma orn_value a b :
  fits n a -> fits n b -> Z.lor a (wnot 64 b) mod 2 ^ n = Z.lor a (2 ^ n - 1 - b).
Proof.
  intros Ha Hb. rewrite mod_lor by apply xbits_nonneg. unfold wnot.
  by rewrite as_u_64_mod, lnot_mod, mod_xlen_small.
Qed.

Lemma xnor_value a b :
  fits n a -> fits n b -> wnot 64 (Z.lxor a b) mod 2 ^ n = 2 ^ n - 1 - Z.lxor a b.
Proof. intros. unfold wnot. by rewrite as_u_64_mod, lnot_mod by by apply fits_lxor. Qed.

Lemma one_hot s : wshl 64 1 (s mod n) = 2 ^ (s mod n).
Proof.
  pose proof (mod_bits_range xl s). assert (n <= 64) by by destruct xl.
  unfold wshl. rewrite (Z.mod_small (s mod n) 64), Z.shiftl_1_l by lia.
  apply as_u_small. split; [lia|]. apply Z.pow_lt_mono_r; lia.
Qed.

Lemma one_hot_fits s : fits n (2 ^ (s mod n)).
Proof. pose proof (mod_bits_range xl s). split; [lia|]. apply Z.pow_lt_mono_r; lia. Qed.

Lemma bext_value a s : Z.land (wshr 64 a (s mod n)) 1 = Z.b2z (Z.testbit a (s mod n)).
Proof.
  pose proof (mod_bits_range xl s). assert (n <= 64) by by destruct xl.
  unfold wshr. rewrite (Z.mod_small (s mod n) 64), Z.testbit_spec', Z.shiftr_div_pow2 by lia.
  apply (Z.land_ones _ 1). lia.
Qed.

Lemma bclr_value a s :
  fits n a -> Z.land a (wnot 64 (wshl 64 1 (s mod n))) mod 2 ^ n = Z.clearbit a (s mod n).
Proof.
  intros Ha. rewrite one_hot, andn_value by done.
  symmetry. apply Z.clearbit_spec'.
Qed.

Lemma bset_value a s :
  fits n a -> Z.lor a (wshl 64 1 (s mod n)) mod 2 ^ n = Z.setbit a (s mod n).
Proof.
  intros Ha. rewrite one_hot, Z.setbit_spec'.
  apply mod_xlen_small, fits_lor; [done|apply one_hot_fits].
Qed.

Lemma binv_value a s :
  fits n a -> Z.lxor a (wshl 64 1 (s mod n)) mod 2 ^ n = Z.lxor a (2 ^ (s mod n)).
Proof.
  intros Ha. rewrite one_hot. apply mod_xlen_small, fits_lxor; [done|apply one_hot_fits].
Qed.
End Bits.

(** ** Counting bits *)

Lemma sum_to_ext n f g :
  (forall i, 0 <= i < Z.of_nat n -> f i = g i) -> sum_to n f = sum_to n g.
Proof.
  induction n as [|n IH]; intros Hfg; [done|]. cbn [sum_to].
  rewrite IH, Hfg by (intros; try apply Hfg; lia). done.
Qed.

Lemma sum_to_below n r :
  0 <= r -> sum_to n (fun i => Z.b2z (i <? r)) = Z.min (Z.of_nat n) r.
Proof.
  intros Hr. induction n as [|n IH]; [cbn; lia|]. cbn [sum_to]. rewrite IH.
  destruct (Z.ltb_spec (Z.of_nat n) r); cbn [Z.b2z]; lia.
Qed.

Lemma sum_to_from n r :
  0 <= r -> sum_to n (fun i => Z.b2z (r <=? i)) = Z.max 0 (Z.of_nat n - r).
Proof.
  intros Hr. induction n as [|n IH]; [cbn; lia|]. cbn [sum_to]. rewrite IH.
  destruct (Z.leb_spec r (Z.of_nat n)); cbn [Z.b2z]; lia.
Qed.

Lemma count_to_range n p : 0 <= n -> 0 <= count_to n p <= n.
Proof.
  intros Hn. unfold count_to. rewrite <- (Z2Nat.id n) at 3 by done.
  induction (Z.to_nat n) as [|m IH]; cbn [sum_to]; [lia|].
  destruct (p (Z.of_nat m)); cbn [Z.b2z]; lia.
Qed.

Lemma count_mod xl k p :
  0 <= k <= 64 -> count_to k p mod 2 ^ xlen_bits xl = count_to k p.
Proof.
  intros Hk. pose proof (count_to_range k p). apply mod_xlen_small.
  apply (fits_weaken 32); [by destruct xl|]. unfold fits. lia.
Qed.

Lemma low32_mod_fits x : fits 32 (x mod 2 ^ 32).
Proof. by apply Z.mod_pos_bound. Qed.

Lemma leading_zeros_value n a : 0 < n -> fits n a -> leading_zeros n a = clz_spec n a.
Proof.
  intros Hn [H0 Ha]. unfold leading_zeros, clz_spec, count_to. destruct (Z.eqb_spec a 0) as [->|].
  - rewrite (sum_to_ext _ _ (fun i => Z.b2z (0 <=? i))), sum_to_from by
      (intros; rewrite ?(proj2 (Z.leb_le 0 i)), ?(proj2 (Z.ltb_lt 0 (2 ^ i))) by lia; done || lia).
    lia.
  - rewrite (sum_to_ext _ _ (fun i => Z.b2z (Z.log2 a + 1 <=? i))).
    + pose proof (Z.log2_nonneg a). rewrite sum_to_from by lia.
      assert (Z.log2 a < n) by (apply Z.log2_lt_pow2; lia). lia.
    + intros i Hi. f_equal. apply eq_bool_prop_intro. rewrite !Is_true_true, Z.ltb_lt, Z.leb_le.
      rewrite Z.log2_lt_pow2 by lia. lia.
Qed.

Lemma ctz_from_spec fuel i a :
  let r := ctz_from fuel i a in
  i <= r <= i + Z.of_nat fuel
  /\ (forall j, i <= j < r -> Z.testbit a j = false)
  /\ (r < i + Z.of_nat fuel -> Z.testbit a r = true).
Proof.
  revert i. induction fuel as [|fuel IH]; intros i; cbn [ctz_from]; [split_and!; intros; lia|].
  destruct (Z.testbit a i) eqn:E; [split_and!; intros; (lia || done)|].
  destruct (IH (i + 1)) as (Hr & Hlow & Hbit). split_and!; [lia..| |].
  - intros j Hj. destruct (Z.eq_dec j i) as [->|]; [done|]. apply Hlow. lia.
  - intros ?. apply Hbit. lia.
Qed.

Lemma low_bits_zero a k :
  0 <= k -> (forall j, 0 <= j < k -> Z.testbit a j = false) <-> a mod 2 ^ k = 0.
Proof.
  intros Hk. split.
  - intros Hl. apply Z.bits_inj'. intros j Hj. rewrite Z.bits_0. destruct (Z.ltb_spec j k).
    + rewrite Z.mod_pow2_bits_low by lia. by apply Hl.
    + by apply Z.mod_pow2_bits_high.
  - intros E j Hj. rewrite <- (Z.mod_pow2_bits_low a k), E by lia. apply Z.bits_0.
Qed.

Lemma trailing_zeros_value n a : 0 < n -> trailing_zeros n a = ctz_spec n a.
Proof.
  intros Hn. unfold trailing_zeros, ctz_spec, count_to.
  destruct (ctz_from_spec (Z.to_nat n) 0 a) as (Hr & Hlow & Hbit).
  set (r := ctz_from _ _ _) in *. rewrite (sum_to_ext _ _ (fun i => Z.b2z (i <? r))).
  - rewrite sum_to_below; lia.
  - intros i Hi. f_equal. apply eq_bool_prop_intro. rewrite !Is_true_true, Z.ltb_lt, Z.eqb_eq.
    rewrite <- low_bits_zero by lia. split.
    + intros Hz. destruct (Z.ltb_spec i r); [done|]. rewrite Hz in Hbit by lia.
      discriminate Hbit. lia.
    + intros Hi' j Hj. apply Hlow. lia.
Qed.

Lemma popcount_value m n a : n <= m -> fits n a -> 0 <= n -> count_ones m a = cpop_spec n a.
Proof.
  intros Hm Ha Hn. unfold count_ones, cpop_spec, count_to.
  assert (forall k, popcount_upto k a = sum_to k (fun i => Z.b2z (Z.odd (a / 2 ^ i)))) as ->.
  { induction k as [|k IH]; [done|]. cbn [popcount_upto sum_to].
    rewrite IH, <- Z.bit0_odd, <- Z.shiftr_div_pow2, Z.shiftr_spec by lia. done. }
  replace (Z.to_nat m) with (Z.to_nat n + Z.to_nat (m - n))%nat by lia.
  induction (Z.to_nat (m - n)) as [|k IH]; [by rewrite Nat.add_0_r|].
  rewrite Nat.add_succ_r. cbn [sum_to]. rewrite IH, <- Z.shiftr_div_pow2, <- Z.bit0_odd by lia.
  rewrite Z.shiftr_spec, (fits_testbit n) by (done || lia). cbn [Z.b2z]. lia.
Qed.

Lemma pow_256 i : 0 <= i -> 256 ^ i = 2 ^ (8 * i).
Proof. intros. by rewrite Z.pow_mul_r. Qed.

Lemma digit_byte a i : 0 <= i < 8 -> byte_at a i = digit a i.
Proof.
  intros Hi. unfold byte_at, digit, wshr. change 0xff with (Z.ones 8).
  rewrite (Z.mod_small (i * 8)), Z.land_ones, Z.shiftr_div_pow2 by lia.
  rewrite pow_256 by lia. do 3 f_equal. lia.
Qed.

Lemma to_le_bytes_digits a m : to_le_bytes m a = digit a <$> seqZ 0 (Z.of_nat m).
Proof.
  revert a. induction m as [|m IH]; intros a; [done|]. cbn [to_le_bytes].
  rewrite IH, (seqZ_cons 0 (Z.of_nat (S m))) by lia. cbn [fmap list_fmap]. apply (f_equal2 cons).
  - unfold digit. by rewrite Z.div_1_r.
  - replace (Z.pred (Z.of_nat (S m))) with (Z.of_nat m) by lia. change (Z.succ 0) with 1.
    rewrite <- (fmap_add_seqZ 1 0), <- list_fmap_compose.
    apply list_fmap_ext. intros i x Hx. unfold digit. cbn.
    apply list_elem_of_lookup_2, elem_of_seqZ in Hx.
    rewrite Z.shiftr_div_pow2, Z.div_div, Z.pow_add_r by lia. done.
Qed.

Lemma digits_fits m d :
  (forall i, fits 8 (d i)) -> fits (8 * Z.of_nat m) (sum_to m (fun i => d i * 256 ^ i)).
Proof.
  intros Hd. induction m as [|m IH]; [by unfold fits; cbn|]. cbn [sum_to].
  rewrite pow_256 by lia.
  replace (8 * Z.of_nat (S m)) with (8 * Z.of_nat m + 8) by lia. unfold fits in *.
  rewrite Z.pow_add_r by lia. specialize (Hd (Z.of_nat m)). nia.
Qed.

Lemma digit_high m a i : fits (8 * m) a -> 0 <= m <= i -> digit a i = 0.
Proof.
  intros [H0 H1] Hi. unfold digit. rewrite pow_256 by lia.
  rewrite Z.div_small; [done|]. split; [done|].
  apply (Z.lt_le_trans _ _ _ H1), Z.pow_le_mono_r; lia.
Qed.

Lemma sum_to_high_zero m k f :
  (forall i, Z.of_nat m <= i -> f i = 0) -> sum_to (m + k) f = sum_to m f.
Proof.
  intros Hf. induction k as [|k IH]; [by rewrite Nat.add_0_r|].
  rewrite Nat.add_succ_r. cbn [sum_to]. rewrite IH, Hf; lia.
Qed.

(** The loop of ORC.B, which sets one byte per turn. *)
Lemma orc_loop a :
  for_range 8 0 (fun i out =>
    if negb (byte_at a i =? 0) then Z.lor out (wshl 64 0xff (i * 8)) else out) 0
  = of_digits 8 (fun i => if digit a i =? 0 then 0 else 255).
Proof.
  pose proof (for_range_ind (fun m out => 0 <= m /\
    out = of_digits m (fun i => if digit a i =? 0 then 0 else 255))
    (fun i out => if negb (byte_at a i =? 0) then Z.lor out (wshl 64 0xff (i * 8)) else out)
    8 0 0) as Hl.
  apply Hl; [done|]. intros j out Hj [_ ->]. split; [lia|]. clear Hl.
  rewrite digit_byte by lia. unfold of_digits.
  replace (Z.to_nat (j + 1)) with (S (Z.to_nat j)) by lia. cbn [sum_to]. rewrite Z2Nat.id by lia.
  destruct (digit a j =? 0); cbn [negb]; [lia|].
  unfold wshl. rewrite (Z.mod_small (j * 8)), Z.shiftl_mul_pow2 by lia.
  rewrite as_u_small, Z.lor_comm, lor_join.
  - rewrite (pow_256 j), (Z.mul_comm 8 j) by lia. lia.
  - lia.
  - rewrite (Z.mul_comm j 8), <- (Z2Nat.id j) at 1 by lia. apply digits_fits.
    intros i. destruct (_ =? 0); unfold fits; lia.
  - split; [lia|]. apply (Z.lt_le_trans _ (2 ^ 8 * 2 ^ (j * 8))); [lia|].
    rewrite <- Z.pow_add_r by lia. apply Z.pow_le_mono_r; lia.
Qed.

(** ** The groups of operations

    Each lemma compares the value one group of [RvAluOps] writes, reduced to
    the register width, with [isa_value]. *)

Section Groups.
Context (xl : Xlen) (pc a b imm : Z).
Abbreviation n := (xlen_bits xl).
Hypothesis (Ha : fits n a) (Hb : fits n b).
Hypothesis Himm : - 2 ^ 63 <= imm < 2 ^ 63.

(** Keeps the operations a group defines and exposes the two values. *)
Ltac expose Hv Hw :=
  cbn [isa_value alu_base alu_m alu_zb alu_zbk] in Hv, Hw;
  apply (inj Some) in Hw as <-;
  try (destruct xl; [discriminate Hv|cbn [is_rv64] in Hv]);
  apply (inj Some) in Hv as <-.
Ltac group op Hv Hw :=
  destruct op; try discriminate Hw; try discriminate Hv; expose Hv Hw.

Lemma of_bool_mod x : of_bool x mod 2 ^ n = Z.b2z x.
Proof. destruct x, xl; reflexivity. Qed.

Lemma word_mod v : word v mod 2 ^ 64 = sext_w v.
Proof. rewrite word_value. apply Z.mod_small, sext_w_fits. Qed.

Lemma arith_mod v w : v mod 2 ^ n = w mod 2 ^ n -> as_u64 v mod 2 ^ n = w mod 2 ^ n.
Proof. by rewrite as_u_64_mod. Qed.

Lemma srl_fits s : fits n (a / 2 ^ (s mod n)).
Proof.
  rewrite <- Z.shiftr_div_pow2 by apply mod_bits_range.
  apply fits_shiftr; [apply mod_bits_range|done].
Qed.

(** Solves an equation between two sums, differences or products. *)
Ltac arith :=
  unfold wadd, wsub, wmul; rewrite ?as_u_64_mod;
  first [ apply mod_sub_congr | apply mod_add_congr | apply mod_mul_congr ];
  rewrite ?as_u_64_mod; reflexivity.

(** Rewrites a shift to its value. *)
Ltac shift :=
  rewrite ?sll_value, ?srl_value, ?sra_value, ?rol_value, ?ror_value by done;
  rewrite ?shamt_imm, ?mod_xlen_idemp; first [done | by apply mod_xlen_small, srl_fits].

(** The bitwise operations. *)
Ltac bitwise :=
  rewrite ?mod_land, ?mod_lor, ?mod_lxor, ?as_u_64_mod by apply xbits_nonneg;
  rewrite ?(mod_xlen_small xl a), ?(mod_xlen_small xl b) by done; reflexivity.

(** The operations on words, where the width is 64. *)
Ltac words :=
  rewrite word_mod; unfold wadd, wsub, wmul, wshl, wshr, wsar;
  rewrite ?land_31, ?mod_32_imm, ?Zmod_mod, ?as_i_as_u by lia;
  rewrite ?Z.shiftl_mul_pow2, ?Z.shiftr_div_pow2 by (apply Z.mod_pos_bound; lia);
  apply sext_w_congr; unfold as_u; rewrite ?Zmod_mod;
  first [ reflexivity
        | first [ apply mod_sub_congr | apply mod_add_congr | apply mod_mul_congr ];
          rewrite ?(mod_pow_mod 32 64), ?Zmod_mod by lia; reflexivity ].

Lemma alu_base_value op v w :
  isa_value xl op pc a b imm = Some v -> alu_base xl op pc a b (as_u64 imm) = Some w ->
  w mod 2 ^ n = v.
Proof.
  intros Hv Hw. group op Hv Hw; rewrite ?of_bool_mod, ?sx_as_i, ?land_xlen_mask;
    try first [arith | shift | bitwise | words].
  all: try done.
  rewrite as_i_as_u by lia. by rewrite (as_i_small 64 imm) by (lia || exact Himm).
Qed.

(** The word divisions. *)
Lemma divw_value signed rem :
  divw (as_u32 a) (as_u32 b) signed rem
  = sext_w ((if rem then rem_spec else div_spec)
              (if signed then as_i 32 a else a mod 2 ^ 32)
              (if signed then as_i 32 b else b mod 2 ^ 32)).
Proof.
  assert (forall x, fits 32 (x mod 2 ^ 32)) as Hf by (intros; by apply Z.mod_pos_bound).
  unfold divw. rewrite !as_i_as_u by lia. unfold as_u.
  destruct signed, rem; cbn beta iota.
  - rewrite irem_value. unfold sext_w. f_equal. symmetry. apply as_i_small; [lia|].
    apply rem_spec_range; apply as_i_range; lia.
  - pose proof (idiv_value 32 (as_i32 a) (as_i32 b) ltac:(lia)) as E.
    rewrite <- sext_w_mod, <- E. unfold as_u. rewrite sext_w_mod. unfold sext_w. f_equal. symmetry.
    apply as_i_small; [lia|]. apply idiv_range; [lia|..]; apply as_i_range; lia.
  - done.
  - rewrite (udiv_value 32) by (done || lia). apply sext_w_mod.
Qed.

Lemma alu_m_value op v w :
  isa_value xl op pc a b imm = Some v -> alu_m xl op a b = Some w -> w mod 2 ^ n = v.
Proof.
  intros Hv Hw. group op Hv Hw; try first [arith | words].
  all: rewrite ?mulh_value, ?mulhsu_value, ?mulhu_value, ?div_value, ?divu_value, ?rem_value,
    ?remu_value, ?divw_value by done.
  all: rewrite ?mod_xlen_idemp; try done.
  all: apply mod_xlen_small; first [by apply mulhu_fits | by apply urem_fits | apply sext_w_fits].
Qed.

(** [(m << k) + b], the address computations. *)
Lemma shadd_value y m k :
  0 <= k < 64 ->
  wadd 64 (wshl 64 m k) b mod 2 ^ xlen_bits y = (m * 2 ^ k + b) mod 2 ^ xlen_bits y.
Proof.
  intros Hk. unfold wadd, wshl. rewrite as_u_64_mod. apply mod_add_congr; [|done].
  rewrite as_u_64_mod, (Z.mod_small k 64), Z.shiftl_mul_pow2 by lia. done.
Qed.

Lemma land_u32 v : Z.land v 0xffffffff = v mod 2 ^ 32.
Proof. by apply (Z.land_ones v 32). Qed.

Lemma rotl_mod k : rotl n a k mod 2 ^ n = rotl n a k.
Proof. unfold rotl. apply mod_xlen_idemp. Qed.

Lemma bit_mod x : Z.b2z x mod 2 ^ n = Z.b2z x.
Proof. destruct x, xl; reflexivity. Qed.

Lemma pick_value (x y u v : Z) :
  (if x <=? y then u else v) = if y <? x then v else u.
Proof. rewrite Z.leb_antisym. by destruct (y <? x). Qed.

(** Minimum and maximum, sign and zero extension. *)
Lemma zbb_value op v w :
  match op with Max | Maxu | Min | Minu | SextB | SextH | ZextH => True | _ => False end ->
  isa_value xl op pc a b imm = Some v -> alu_zb xl op a b (as_u64 imm) = Some w ->
  w mod 2 ^ n = v.
Proof.
  intros Hop Hv Hw. destruct op; try contradiction Hop; apply (inj Some) in Hw as <-;
    apply (inj Some) in Hv as <-; rewrite ?sx_as_i, ?pick_value.
  - by destruct (_ <? _); apply mod_xlen_small.
  - destruct (Z.ltb_spec a b); rewrite mod_xlen_small by done; lia.
  - by destruct (_ <? _); apply mod_xlen_small.
  - destruct (Z.ltb_spec b a); rewrite mod_xlen_small by done; lia.
  - by rewrite as_u_64_mod, as_i_as_u by lia.
  - by rewrite as_u_64_mod, as_i_as_u by lia.
  - change 0xffff with (Z.ones 16). rewrite Z.land_ones by lia.
    apply mod_xlen_small, (fits_weaken 16); [by destruct xl|]. by apply Z.mod_pos_bound.
Qed.

(** Counting, byte and word-rotation operations of Zbb. *)
Lemma clz_value : clz xl a = clz_spec n a.
Proof.
  unfold clz. destruct xl; cbn [rv32 is_rv64 negb xlen_bits] in *;
    rewrite ?(as_u_small 32 a) by done; by apply leading_zeros_value.
Qed.

Lemma ctz_value : ctz xl a = ctz_spec n a.
Proof.
  unfold ctz. destruct xl; cbn [rv32 is_rv64 negb xlen_bits] in *;
    rewrite ?(as_u_small 32 a) by done; by apply trailing_zeros_value.
Qed.

Lemma orcb_value :
  orc_b a (xlen_mask xl) = of_digits (n / 8) (fun i => if digit a i =? 0 then 0 else 255).
Proof.
  unfold orc_b. rewrite land_xlen_mask, orc_loop. unfold of_digits.
  destruct xl; cbn [xlen_bits] in *.
  - change (Z.to_nat 8) with (Z.to_nat (32 / 8) + 4)%nat.
    rewrite sum_to_high_zero, Z.mod_small; [done|apply (digits_fits 4)|].
    + intros i. destruct (_ =? 0); unfold fits; lia.
    + intros i Hi. rewrite (digit_high 4) by (done || lia). done.
  - apply Z.mod_small, (digits_fits 8). intros i. destruct (_ =? 0); unfold fits; lia.
Qed.

Lemma rev8_value :
  rev8 a (rv32 xl) = of_digits (n / 8) (fun i => digit a (n / 8 - 1 - i)).
Proof.
  unfold rev8, swap_bytes. destruct xl; cbn [rv32 is_rv64 negb xlen_bits] in *;
    rewrite ?(as_u_small 32 a), to_le_bytes_digits by done.
  1: change (seqZ 0 (Z.of_nat 4)) with [0; 1; 2; 3].
  2: change (seqZ 0 (Z.of_nat 8)) with [0; 1; 2; 3; 4; 5; 6; 7].
  all: unfold of_digits; simpl; rewrite !Z.shiftl_mul_pow2 by lia.
  1: change (32 / 8) with 4.
  2: change (64 / 8) with 8.
  all: simpl; repeat match goal with
       | |- context [digit a ?t] =>
           let t' := eval vm_compute in t in progress change (digit a t) with (digit a t')
       | |- context [256 ^ ?t] =>
           let t' := eval vm_compute in (256 ^ t) in change (256 ^ t) with t'
       end; lia.
Qed.

Lemma of_digits_mod d :
  (forall i, fits 8 (d i)) -> of_digits (n / 8) d mod 2 ^ n = of_digits (n / 8) d.
Proof.
  intros Hd. apply Z.mod_small. pose proof (digits_fits (Z.to_nat (n / 8)) d Hd) as Hf.
  by destruct xl.
Qed.

Lemma digit_fits i : fits 8 (digit a i).
Proof. by apply Z.mod_pos_bound. Qed.


Lemma count_value op v w :
  match op with
  | Clz | Ctz | Cpop | Orcb | Rev8 | Clzw | Ctzw | Cpopw | Rolw | Rorw | Roriw => True
  | _ => False
  end ->
  isa_value xl op pc a b imm = Some v -> alu_zb xl op a b (as_u64 imm) = Some w ->
  w mod 2 ^ n = v.
Proof.
  intros Hop Hv Hw. destruct op; try contradiction Hop; expose Hv Hw; rewrite ?word_mod.
  - rewrite clz_value. by apply count_mod; destruct xl.
  - rewrite ctz_value. by apply count_mod; destruct xl.
  - rewrite land_xlen_mask, (mod_xlen_small _ a), (popcount_value 64 n)
      by first [done | apply xbits_nonneg | destruct xl; cbn; lia].
    by apply count_mod; destruct xl.
  - rewrite orcb_value. apply of_digits_mod. intros i. by destruct (_ =? 0).
  - rewrite rev8_value. apply of_digits_mod. intros i. apply digit_fits.
  - rewrite leading_zeros_value by (done || apply low32_mod_fits). by apply (count_mod Rv64).
  - unfold clz_ctz_w. rewrite trailing_zeros_value by done. by apply (count_mod Rv64).
  - rewrite (popcount_value 32 32) by (done || apply low32_mod_fits). by apply (count_mod Rv64).
  - by rewrite land_31, rotate_left_value, Zmod_mod by (done || apply low32_mod_fits).
  - rewrite land_31, rotate_right_value by (done || apply low32_mod_fits).
    by rewrite Zminus_mod_idemp_r.
  - rewrite land_31, mod_32_imm, rotate_right_value by (done || apply low32_mod_fits).
    by rewrite Zminus_mod_idemp_r.
Qed.

Lemma alu_zb_value op v w :
  isa_value xl op pc a b imm = Some v -> alu_zb xl op a b (as_u64 imm) = Some w ->
  w mod 2 ^ n = v.
Proof.
  intros Hv Hw. destruct op; try discriminate Hw; try discriminate Hv;
    try (eapply zbb_value; [|exact Hv|exact Hw]; exact I);
    try (eapply count_value; [|exact Hv|exact Hw]; exact I).
  all: expose Hv Hw; rewrite ?shamt_mod, ?shamt_imm.
  all: rewrite ?land_u32; try first [by apply shadd_value | by apply (shadd_value Rv64) | arith].
  all: rewrite ?bclr_value, ?bset_value, ?binv_value, ?bext_value, ?andn_value, ?orn_value,
    ?xnor_value, ?bit_mod, ?rol_value, ?ror_value, ?rotl_mod by done; try done.
  - unfold wshl. rewrite as_u_64_mod. change 0x3f with (xlen_bits Rv64 - 1). rewrite shamt_mod.
    rewrite shamt_imm. cbn [xlen_bits]. rewrite Zmod_mod, Z.shiftl_mul_pow2; [done|].
    by apply Z.mod_pos_bound.
  - by rewrite Zminus_mod, shamt_imm, <- Zminus_mod.
Qed.

Lemma alu_zbk_value op v w :
  isa_value xl op pc a b imm = Some v -> alu_zbk xl op a b (as_u64 imm) = Some w ->
  w mod 2 ^ n = v.
Proof.
  intros Hv Hw. group op Hv Hw; destruct (b =? 0); try (by apply mod_xlen_small); by destruct xl.
Qed.
End Groups.
