(* ===== verification/RvExec.v ===== *)
(** * Instruction execution

    The methods of [RiscVCpu] that execute an instruction
    (src/isa/riscv/cpu.rs) and the vector configuration of
    src/isa/riscv/cpu/vector_config.rs. *)

From S2P Require Import Prelude RvIsa RvOp RvMemory RvAlu RvCrypto RvState RvCsr RvAluOps.

(** [a] unless it is [None], then [b]: the arms of a [match] by groups. *)
Definition or_else {A} (a b : option A) : option A :=
  match a with Some _ => a | None => b end.

(** ** T-Head memory operation tables *)

Record TheadMemKind : Type := mk_kind {
  tk_load : bool;
  tk_size : Z;
  tk_signed : bool;
  tk_pre : bool
}.
Definition auto_load (size : Z) (signed pre : bool) : TheadMemKind := mk_kind true size signed pre.
Definition auto_store (size : Z) (pre : bool) : TheadMemKind := mk_kind false size false pre.
Definition kind_load (size : Z) (signed : bool) : TheadMemKind := mk_kind true size signed false.
Definition kind_store (size : Z) : TheadMemKind := mk_kind false size false false.

Definition thead_auto_mem (op : Op) : option TheadMemKind :=
  match op with
  | ThLbia => Some (auto_load 1 true false)
  | ThLbib => Some (auto_load 1 true true)
  | ThLbuia => Some (auto_load 1 false false)
  | ThLbuib => Some (auto_load 1 false true)
  | ThLhia => Some (auto_load 2 true false)
  | ThLhib => Some (auto_load 2 true true)
  | ThLhuia => Some (auto_load 2 false false)
  | ThLhuib => Some (auto_load 2 false true)
  | ThLwia => Some (auto_load 4 true false)
  | ThLwib => Some (auto_load 4 true true)
  | ThLwuia => Some (auto_load 4 false false)
  | ThLwuib => Some (auto_load 4 false true)
  | ThLdia => Some (auto_load 8 false false)
  | ThLdib => Some (auto_load 8 false true)
  | ThSbia => Some (auto_store 1 false)
  | ThSbib => Some (auto_store 1 true)
  | ThShia => Some (auto_store 2 false)
  | ThShib => Some (auto_store 2 true)
  | ThSwia => Some (auto_store 4 false)
  | ThSwib => Some (auto_store 4 true)
  | ThSdia => Some (auto_store 8 false)
  | ThSdib => Some (auto_store 8 true)
  | _ => None
  end.

Definition thead_reg_mem (op : Op) : option TheadMemKind :=
  match op with
  | ThLrb | ThLurb => Some (kind_load 1 true)
  | ThLrbu | ThLurbu => Some (kind_load 1 false)
  | ThLrh | ThLurh => Some (kind_load 2 true)
  | ThLrhu | ThLurhu => Some (kind_load 2 false)
  | ThLrw | ThLurw => Some (kind_load 4 true)
  | ThLrwu | ThLurwu => Some (kind_load 4 false)
  | ThLrd | ThLurd => Some (kind_load 8 false)
  | ThSrb | ThSurb => Some (kind_store 1)
  | ThSrh | ThSurh => Some (kind_store 2)
  | ThSrw | ThSurw => Some (kind_store 4)
  | ThSrd | ThSurd => Some (kind_store 8)
  | _ => None
  end.

Definition thead_pair_mem (op : Op) : option TheadMemKind :=
  match op with
  | ThLdd => Some (kind_load 8 false)
  | ThLwd => Some (kind_load 4 true)
  | ThLwud => Some (kind_load 4 false)
  | ThSdd => Some (kind_store 8)
  | ThSwd => Some (kind_store 4)
  | _ => None
  end.

Definition thead_fmem (op : Op) : option TheadMemKind :=
  match op with
  | ThFlrd | ThFlurd => Some (kind_load 8 false)
  | ThFlrw | ThFlurw => Some (kind_load 4 false)
  | ThFsrd | ThFsurd => Some (kind_store 8)
  | ThFsrw | ThFsurw => Some (kind_store 4)
  | _ => None
  end.

(** ** Zcmp register lists *)

Definition exec_zcmp_reg_count (rlist : Z) : option nat :=
  if rlist =? 4 then Some 1%nat
  else if rlist =? 5 then Some 2%nat
  else if rlist =? 6 then Some 3%nat
  else if (7 <=? rlist) && (rlist <=? 14) then Some (Z.to_nat (rlist - 3))
  else if rlist =? 15 then Some 13%nat
  else None.

Definition zcmp_reg_at (slot : nat) : option Z :=
  match slot with
  | 0%nat => Some 1
  | 1%nat => Some 8
  | 2%nat => Some 9
  | _ => if (slot <=? 12)%nat then Some (18 + (Z.of_nat slot - 3)) else None
  end.

(** ** Methods of the hart *)

Section Methods.
Context {M : Type} `{Memory M}.
Abbreviation Hart := (RiscVCpu M).
Implicit Types (s : Hart).

(** [self.set_x(..)], [self.set_f(..)] and [self.pc = ..] as steps. *)
Definition write_x (i v : Z) : exec Hart Trap unit := modify (set_x i v).
Definition write_f (i v : Z) : exec Hart Trap unit := modify (set_f i v).
Definition write_pc (v : Z) : exec Hart Trap unit := modify (set_c_pc v).

(** A jump target is misaligned when C is absent and it is not word aligned. *)
Definition target_misaligned s (target : Z) : bool :=
  negb (isa_c (cpu_isa s)) && any_bits target 0x3.

Definition branch (taken : bool) (pc imm : Z) : exec Hart Trap unit :=
  s ← get;
  if taken then
    let target := wadd 64 pc imm in
    if target_misaligned s target then throw (mk_trap cause.INSTR_MISALIGNED target)
    else write_pc (Z.land target (xmask s))
  else eret tt.

(** JAL and JALR, once the target is computed. *)
Definition jump (rd pc len target : Z) : exec Hart Trap unit :=
  s ← get;
  if target_misaligned s target then throw (mk_trap cause.INSTR_MISALIGNED target)
  else
    write_x rd (wadd 64 pc len);;
    write_pc (Z.land target (xmask s)).

(** [load]: the buffer holds eight bytes, of which the first [size] are read. *)
Definition load (rd base imm size : Z) (signed : bool) : exec Hart Trap unit :=
  s ← get;
  let addr := Z.land (wadd 64 base imm) (xmask s) in
  bs ← mem_get (fun m => mem_read m addr (Z.to_nat size))
         (mk_trap cause.LOAD_ACCESS_FAULT addr);
  let raw := from_le_bytes (bs ++ replicate (8 - Z.to_nat size) 0) in
  let val := if signed then sign_extend raw size else Z.land raw (mask_bytes size) in
  write_x rd val.

Definition store (base imm val size : Z) : exec Hart Trap unit :=
  s ← get;
  let addr := Z.land (wadd 64 base imm) (xmask s) in
  mem_put (fun m => mem_write m addr (take (Z.to_nat size) (to_le_bytes 8 val)))
    (mk_trap cause.STORE_ACCESS_FAULT addr).

Definition load_pair (rd base imm : Z) : exec Hart Trap unit :=
  s ← get;
  let addr := Z.land (wadd 64 base imm) (xmask s) in
  val ← mem_get (fun m => read_u64 m addr) (mk_trap cause.LOAD_ACCESS_FAULT addr);
  if negb (rd =? 0) then
    write_x rd (as_u32 val);;
    write_x (wadd 8 rd 1) (as_u32 (wshr 64 val 32))
  else eret tt.

Definition store_pair (base imm rs2 : Z) : exec Hart Trap unit :=
  s ← get;
  let addr := Z.land (wadd 64 base imm) (xmask s) in
  let val :=
    if rs2 =? 0 then 0
    else Z.lor (as_u32 (get_x s rs2)) (wshl 64 (as_u32 (get_x s (wadd 8 rs2 1))) 32) in
  mem_put (fun m => write_u64 m addr val) (mk_trap cause.STORE_ACCESS_FAULT addr).

(** CBO.ZERO clears the 64-byte block that holds the address. *)
Definition cbo_zero (a : Z) : exec Hart Trap unit :=
  let base := Z.land a (wnot 64 0x3f) in
  mem_put (fun m => mem_write m base (replicate 64 0))
    (mk_trap cause.STORE_ACCESS_FAULT base).

(** ** T-Head memory operations *)

Definition exec_thead_auto_mem (insn : Insn) : exec Hart Trap unit :=
  kind ← expect (thead_auto_mem (insn_op insn));
  s ← get;
  let inc := as_u64 (wshl 64 (as_i64 (sext5 (insn_rs2 insn))) (as_u32 (insn_imm insn))) in
  let old_base := get_x s (insn_rs1 insn) in
  let new_base := Z.land (wadd 64 old_base inc) (xmask s) in
  let addr := if tk_pre kind then new_base else old_base in
  (if tk_pre kind then write_x (insn_rs1 insn) new_base else eret tt);;
  (if tk_load kind then load (insn_rd insn) addr 0 (tk_size kind) (tk_signed kind)
   else s ← get; store addr 0 (get_x s (insn_rd insn)) (tk_size kind));;
  (if negb (tk_pre kind) then write_x (insn_rs1 insn) new_base else eret tt).

Definition exec_thead_reg_mem (insn : Insn) : exec Hart Trap unit :=
  kind ← expect (thead_reg_mem (insn_op insn));
  s ← get;
  let offset := wshl 64 (get_x s (insn_rs2 insn)) (as_u32 (insn_imm insn)) in
  let addr := Z.land (wadd 64 (get_x s (insn_rs1 insn)) offset) (xmask s) in
  if tk_load kind then load (insn_rd insn) addr 0 (tk_size kind) (tk_signed kind)
  else store addr 0 (get_x s (insn_rd insn)) (tk_size kind).

Definition exec_thead_pair_mem (insn : Insn) : exec Hart Trap unit :=
  kind ← expect (thead_pair_mem (insn_op insn));
  s ← get;
  let addr := Z.land (wadd 64 (get_x s (insn_rs1 insn)) (as_u64 (insn_imm insn))) (xmask s) in
  if tk_load kind then
    load (insn_rd insn) addr 0 (tk_size kind) (tk_signed kind);;
    load (insn_rs2 insn) (wadd 64 addr (tk_size kind)) 0 (tk_size kind) (tk_signed kind)
  else
    store addr 0 (get_x s (insn_rd insn)) (tk_size kind);;
    s ← get;
    store (wadd 64 addr (tk_size kind)) 0 (get_x s (insn_rs2 insn)) (tk_size kind).

Definition exec_thead_fmem (insn : Insn) : exec Hart Trap unit :=
  kind ← expect (thead_fmem (insn_op insn));
  s ← get;
  let offset := wshl 64 (get_x s (insn_rs2 insn)) (as_u32 (insn_imm insn)) in
  let addr := Z.land (wadd 64 (get_x s (insn_rs1 insn)) offset) (xmask s) in
  if tk_load kind && (tk_size kind =? 4) then
    bits ← mem_get (fun m => read_u32 m addr) (acc_fault false addr);
    write_f (insn_rd insn) (Z.lor 0xffffffff00000000 bits)
  else if tk_load kind && (tk_size kind =? 8) then
    bits ← mem_get (fun m => read_u64 m addr) (acc_fault false addr);
    write_f (insn_rd insn) bits
  else if negb (tk_load kind) && (tk_size kind =? 4) then
    mem_put (fun m => write_u32 m addr (as_u32 (get_f s (insn_rd insn)))) (acc_fault true addr)
  else if negb (tk_load kind) && (tk_size kind =? 8) then
    mem_put (fun m => write_u64 m addr (get_f s (insn_rd insn))) (acc_fault true addr)
  else panic.

(** ** A extension *)

Definition exec_lrsc (insn : Insn) : exec Hart Trap unit :=
  s ← get;
  let op := insn_op insn in
  let addr := Z.land (get_x s (insn_rs1 insn)) (xmask s) in
  let is_d := match op with LrD | ScD => true | _ => false end in
  let size := if is_d then 8 else 4 in
  if negb (addr mod size =? 0) then
    let c := match op with
             | ScW | ScD => cause.STORE_MISALIGNED
             | _ => cause.LOAD_MISALIGNED
             end in
    throw (mk_trap c addr)
  else
    match op with
    | LrW =>
        v ← mem_get (fun m => read_u32 m addr) (acc_fault false addr);
        modify (set_c_reservation (Some addr));;
        write_x (insn_rd insn) (as_u64 (as_i32 v))
    | LrD =>
        v ← mem_get (fun m => read_u64 m addr) (acc_fault false addr);
        modify (set_c_reservation (Some addr));;
        write_x (insn_rd insn) v
    | ScW | ScD =>
        let ok := bool_decide (c_reservation s = Some addr) in
        modify (set_c_reservation None);;
        (if ok then
           if is_d then
             mem_put (fun m => write_u64 m addr (get_x s (insn_rs2 insn))) (acc_fault true addr)
           else
             mem_put (fun m => write_u32 m addr (as_u32 (get_x s (insn_rs2 insn))))
               (acc_fault true addr)
         else mem_get (fun m => mem_probe m addr size true) (acc_fault true addr));;
        write_x (insn_rd insn) (if ok then 0 else 1)
    | _ => panic
    end.

Definition is_amo_d (op : Op) : bool :=
  match op with
  | AmoswapD | AmoaddD | AmoxorD | AmoandD | AmoorD | AmominD | AmomaxD | AmominuD
  | AmomaxuD => true
  | _ => false
  end.

Definition exec_amo (insn : Insn) : exec Hart Trap unit :=
  s ← get;
  let addr := Z.land (get_x s (insn_rs1 insn)) (xmask s) in
  let src := get_x s (insn_rs2 insn) in
  let is_d := is_amo_d (insn_op insn) in
  let size := if is_d then 8 else 4 in
  if negb (addr mod size =? 0) then throw (mk_trap cause.STORE_MISALIGNED addr)
  else if is_d then
    old ← mem_get (fun m => read_u64 m addr) (acc_fault false addr);
    new ← expect (amo_compute64 (insn_op insn) old src);
    mem_put (fun m => write_u64 m addr new) (acc_fault true addr);;
    write_x (insn_rd insn) old
  else
    old ← mem_get (fun m => read_u32 m addr) (acc_fault false addr);
    new ← expect (amo_compute32 (insn_op insn) old (as_u32 src));
    mem_put (fun m => write_u32 m addr new) (acc_fault true addr);;
    write_x (insn_rd insn) (as_u64 (as_i32 old)).

(** The value of a register pair ([x0] names a pair of zeros), as a u128. *)
Definition x_pair s (r : Z) : Z :=
  if r =? 0 then 0
  else Z.lor (get_x s r) (wshl 128 (get_x s (wadd 8 r 1)) 64).

Definition exec_amocas (insn : Insn) : exec Hart Trap unit :=
  s ← get;
  let addr := Z.land (get_x s (insn_rs1 insn)) (xmask s) in
  match insn_op insn with
  | AmocasW =>
      if negb (addr mod 4 =? 0) then throw (mk_trap cause.STORE_MISALIGNED addr)
      else
        old ← mem_get (fun m => read_u32 m addr) (acc_fault false addr);
        (if old =? as_u32 (get_x s (insn_rd insn)) then
           mem_put (fun m => write_u32 m addr (as_u32 (get_x s (insn_rs2 insn))))
             (acc_fault true addr)
         else eret tt);;
        write_x (insn_rd insn) (as_u64 (as_i32 old))
  | AmocasD =>
      if negb (addr mod 8 =? 0) then throw (mk_trap cause.STORE_MISALIGNED addr)
      else
        old ← mem_get (fun m => read_u64 m addr) (acc_fault false addr);
        (if old =? get_x s (insn_rd insn) then
           mem_put (fun m => write_u64 m addr (get_x s (insn_rs2 insn))) (acc_fault true addr)
         else eret tt);;
        write_x (insn_rd insn) old
  | AmocasQ =>
      if negb (addr mod 16 =? 0) then throw (mk_trap cause.STORE_MISALIGNED addr)
      else
        let cmp := x_pair s (insn_rd insn) in
        let new := x_pair s (insn_rs2 insn) in
        old_bytes ← mem_get (fun m => mem_read m addr 16) (acc_fault false addr);
        let old := from_le_bytes old_bytes in
        (if old =? cmp then
           mem_put (fun m => mem_write m addr (to_le_bytes 16 new)) (acc_fault true addr)
         else eret tt);;
        (if negb (insn_rd insn =? 0) then
           write_x (insn_rd insn) (as_u64 old);;
           write_x (wadd 8 (insn_rd insn) 1) (as_u64 (wshr 128 old 64))
         else eret tt)
  | _ => panic
  end.

(** ** Zcmp and Zcmt *)

(** The offset of stack slot [slot]: [stack_adj - (slot + 1) * slotsize]. *)
Definition zcmp_slot_off (stack_adj slotsize : Z) (slot : nat) : Z :=
  wsub 64 stack_adj ((Z.of_nat slot + 1) * slotsize).

(** The loop of CM.PUSH over the slots [slots]. *)
Fixpoint zcmp_push_loop (count : nat) (new_sp stack_adj slotsize : Z) (slots : list nat) :
    exec Hart Trap unit :=
  match slots with
  | [] => eret tt
  | slot :: slots =>
      reg ← expect (zcmp_reg_at (count - 1 - slot));
      s ← get;
      store new_sp (zcmp_slot_off stack_adj slotsize slot) (get_x s reg) slotsize;;
      zcmp_push_loop count new_sp stack_adj slotsize slots
  end.

(** The loop of CM.POP*, which threads the restored return address. *)
Fixpoint zcmp_pop_loop (count : nat) (sp stack_adj slotsize restored_ra : Z)
    (slots : list nat) : exec Hart Trap Z :=
  match slots with
  | [] => eret restored_ra
  | slot :: slots =>
      reg ← expect (zcmp_reg_at (count - 1 - slot));
      s ← get;
      let off := zcmp_slot_off stack_adj slotsize slot in
      let addr := Z.land (wadd 64 sp off) (xmask s) in
      val ← (if slotsize =? 8
             then mem_get (fun m => read_u64 m addr) (mk_trap cause.LOAD_ACCESS_FAULT addr)
             else mem_get (fun m => read_u32 m addr) (mk_trap cause.LOAD_ACCESS_FAULT addr));
      let restored_ra := if reg =? 1 then val else restored_ra in
      write_x reg val;;
      zcmp_pop_loop count sp stack_adj slotsize restored_ra slots
  end.

Definition exec_zcmp_stack (insn : Insn) : exec Hart Trap unit :=
  match exec_zcmp_reg_count (insn_rd insn) with
  | None => throw (trap_illegal (insn_raw insn))
  | Some count =>
      s ← get;
      let slotsize := if rv32 (cpu_xlen s) then 4 else 8 in
      let stack_adj := as_u64 (insn_imm insn) in
      match insn_op insn with
      | CmPush =>
          let old_sp := get_x s 2 in
          let new_sp := Z.land (wsub 64 old_sp stack_adj) (xmask s) in
          zcmp_push_loop count new_sp stack_adj slotsize (seq 0 count);;
          write_x 2 new_sp
      | CmPop | CmPopRetz | CmPopRet =>
          let sp := get_x s 2 in
          restored_ra ← zcmp_pop_loop count sp stack_adj slotsize (get_x s 1) (seq 0 count);
          write_x 2 (wadd 64 sp stack_adj);;
          (match insn_op insn with CmPopRetz => write_x 10 0 | _ => eret tt end);;
          (match insn_op insn with
           | CmPopRet | CmPopRetz =>
               write_pc (Z.land (Z.land restored_ra (wnot 64 1)) (xmask s))
           | _ => eret tt
           end)
      | _ => panic
      end
  end.

Definition exec_zcmt (insn : Insn) (pc : Z) : exec Hart Trap unit :=
  s ← get;
  if any_bits (c_jvt s) 0x3f then throw (trap_illegal (insn_raw insn))
  else
    let entry_size := if rv32 (cpu_xlen s) then 4 else 8 in
    let addr :=
      Z.land (wadd 64 (Z.land (c_jvt s) (wnot 64 0x3f))
                (wmul 64 (as_u64 (insn_imm insn)) entry_size)) (xmask s) in
    target ← (if entry_size =? 8
              then mem_get (fun m => read_u64 m addr) (mk_trap cause.INSTR_ACCESS_FAULT addr)
              else mem_get (fun m => read_u32 m addr) (mk_trap cause.INSTR_ACCESS_FAULT addr));
    (match insn_op insn with CmJalt => write_x 1 (wadd 64 pc (insn_len insn)) | _ => eret tt end);;
    write_pc (Z.land (Z.land target (wnot 64 1)) (xmask s)).

(** ** Vector configuration *)

(** [match vlmul { .. }]: VLMAX for the LMUL encoding and the element width. *)
Definition vlmax_of (vlmul sew : Z) : Z :=
  default 0 (arms vlmul
    [(0, true, VLEN / sew); (1, true, VLEN * 2 / sew); (2, true, VLEN * 4 / sew);
     (3, true, VLEN * 8 / sew); (5, true, VLEN / 8 / sew); (6, true, VLEN / 4 / sew);
     (7, true, VLEN / 2 / sew)]).

(** [set_vtype]: the new [vl] and the state. *)
Definition set_vtype (vtype : Z) (avl : Avl) s : Z * Hart :=
  let s := set_c_vstart 0 s in
  let vsew := Z.land (wshr 64 vtype 3) 0x7 in
  let vlmul := Z.land vtype 0x7 in
  let vill := negb (wshr 64 vtype 8 =? 0) || (vlmul =? 4) || (3 <? vsew) in
  let sew := wshl 64 8 vsew in
  let vlmax := if vill then 0 else vlmax_of vlmul sew in
  let vill := if vlmax =? 0 then true else vill in
  if vill then (0, set_c_vl 0 (set_c_vtype (wshl 64 1 (xbits s - 1)) s))
  else
    let avl := match avl with AvlKeep => c_vl s | AvlMax => vlmax | AvlReg v => v end in
    let vl := Z.min avl vlmax in
    (vl, set_c_vl vl (set_c_vtype vtype s)).

(** The AVL of [vsetvli] and [vsetvl], from the operand fields. *)
Definition vset_avl (rd rs1 a : Z) : Avl :=
  if rs1 =? 0 then if rd =? 0 then AvlKeep else AvlMax else AvlReg a.

Definition vset (rd vtype : Z) (avl : Avl) : exec Hart Trap unit :=
  s ← get;
  let '(vl, s') := set_vtype vtype avl s in
  modify (fun _ => s');;
  write_x rd vl.
End Methods.
