(* ===== verification/RvFp.v ===== *)
(** * The floating-point engine

    [RiscVCpu::exec_fp] and its helpers (src/isa/riscv/cpu.rs), and the pure
    evaluator [eval_scalar_fp] of src/isa/riscv/float.rs that lifted code calls
    instead of it. *)

From S2P Require Import Prelude RvIsa RvOp RvMemory RvFloat RvHostFloat RvFloatOps RvState RvExec.

(** ** Operands *)

(** A single or half held NaN-boxed in a 64-bit register. *)
Definition unbox_s (bits : Z) : Z :=
  if wshr 64 bits 32 =? 0xffffffff then as_u32 bits else CANONICAL_NAN_F32.
Definition unbox_h (bits : Z) : Z :=
  if wshr 64 bits 16 =? 0xffffffffffff then as_u16 bits else 0x7e00.
Definition box_s (bits : Z) : Z := Z.lor 0xffffffff00000000 bits.
Definition box_h (bits : Z) : Z := Z.lor 0xffffffffffff0000 bits.

Definition neg32 (bits : Z) : Z := Z.lxor bits 0x80000000.
Definition neg64 (bits : Z) : Z := Z.lxor bits 0x8000000000000000.
Definition neg16 (bits : Z) : Z := Z.lxor bits 0x8000.

(** The sign a sign injection gives, [sign] being the mask of the sign bit. *)
Inductive Sgnj : Type := SgnjCopy | SgnjNeg | SgnjXor.
Definition sgnj (k : Sgnj) (sign a b : Z) : Z :=
  let s :=
    match k with
    | SgnjCopy => Z.land b sign
    | SgnjNeg => Z.land (Z.lnot b) sign
    | SgnjXor => Z.land (Z.lxor a b) sign
    end in
  Z.lor (Z.land a (sign - 1)) s.

(** ** Operation classes *)

(** The binary128 operations, decoded but not executed. *)
Definition fp_quad (op : Op) : bool :=
  match op with
  | Flq | Fsq | FmaddQ | FmsubQ | FnmsubQ | FnmaddQ | FaddQ | FsubQ | FmulQ | FdivQ | FsqrtQ
  | FsgnjQ | FsgnjnQ | FsgnjxQ | FminQ | FmaxQ | FcvtSQ | FcvtQS | FcvtDQ | FcvtQD | FcvtHQ
  | FcvtQH | FeqQ | FltQ | FleQ | FclassQ | FcvtWQ | FcvtWuQ | FcvtLQ | FcvtLuQ | FcvtQW
  | FcvtQWu | FcvtQL | FcvtQLu => true
  | _ => false
  end.

(** The operations whose funct3 is not a rounding mode. *)
Definition fp_no_rm (op : Op) : bool :=
  match op with
  | Flw | Fsw | Fld | Fsd | FsgnjS | FsgnjnS | FsgnjxS | FsgnjD | FsgnjnD | FsgnjxD
  | FminS | FmaxS | FminD | FmaxD | FeqS | FltS | FleS | FeqD | FltD | FleD | FclassS | FclassD
  | FmvXW | FmvWX | FmvXD | FmvDX | FliS | FliD | FminmS | FmaxmS | FminmD | FmaxmD
  | FleqS | FltqS | FleqD | FltqD | FcvtmodWD | Flh | Fsh | FsgnjH | FsgnjnH | FsgnjxH
  | FminH | FmaxH | FeqH | FltH | FleH | FclassH | FmvXH | FmvHX | FliH | FminmH | FmaxmH
  | FleqH | FltqH => true
  | _ => false
  end.

Definition fp_writes_int_dst (op : Op) : bool :=
  match op with
  | FeqS | FltS | FleS | FeqD | FltD | FleD | FeqH | FltH | FleH | FleqS | FltqS | FleqD
  | FltqD | FleqH | FltqH | FclassS | FclassD | FclassH | FcvtWS | FcvtWuS | FcvtLS
  | FcvtLuS | FcvtWD | FcvtWuD | FcvtLD | FcvtLuD | FcvtWH | FcvtWuH | FcvtLH | FcvtLuH
  | FcvtmodWD | FmvXW | FmvXD | FmvXH => true
  | _ => false
  end.

Definition fp_uses_int_src1 (op : Op) : bool :=
  match op with
  | FcvtSW | FcvtSWu | FcvtSL | FcvtSLu | FcvtDW | FcvtDWu | FcvtDL | FcvtDLu | FcvtHW
  | FcvtHWu | FcvtHL | FcvtHLu | FmvWX | FmvDX | FmvHX => true
  | _ => false
  end.

Definition fp_requires_rv64 (op : Op) : bool :=
  match op with
  | FcvtLS | FcvtLuS | FcvtLD | FcvtLuD | FcvtLH | FcvtLuH | FcvtSL | FcvtSLu | FcvtDL
  | FcvtDLu | FcvtHL | FcvtHLu => true
  | _ => false
  end.

(** ** Execution *)

Section Exec.
Context {M : Type} `{Memory M}.
Abbreviation Hart := (RiscVCpu M).
Implicit Types (s : Hart) (insn : Insn).

Definition frm s : Z := Z.land (wshr 32 (c_fcsr s) 5) 0x7.

(** The rounding mode of an instruction field; [None] for a reserved one. *)
Definition eff_rm s (rm_field : Z) : option RoundingMode :=
  m ← rm_from_bits rm_field;
  m ← (if bool_decide (m = Dyn) then rm_from_bits (frm s) else Some m);
  if bool_decide (m = Dyn) then None else Some m.

Definition accrue (flags : Z) s : Hart :=
  set_c_fcsr (Z.lor (c_fcsr s) (Z.land flags 0x1f)) s.

Definition rf32 s (i : Z) : Z := unbox_s (get_f s i).
Definition rf64 s (i : Z) : Z := get_f s i.
Definition s32 s (i : Z) : Z := rf32 s i.
Definition rf16 s (i : Z) : Z := unbox_h (get_f s i).
Definition h s (i : Z) : Z := rf16 s i.
Definition wf16 (rd bits : Z) s : Hart := set_f rd (Z.lor 0xffffffffffff0000 bits) s.
Definition wf32 (rd bits : Z) s : Hart := set_f rd (Z.lor 0xffffffff00000000 bits) s.
Definition wf64 (rd bits : Z) s : Hart := set_f rd bits s.

(** What an arm writes to [rd] and the flags it raises.  A half or single is
    narrowed to its width. *)
Inductive FpWrite : Type :=
  | ToX (v flags : Z)
  | To16 (v flags : Z)
  | To32 (v flags : Z)
  | To64 (v flags : Z).

Definition to_x (r : Z * Z) : option FpWrite := Some (ToX (fst r) (snd r)).
Definition to_bool (r : bool * Z) : option FpWrite := Some (ToX (of_bool (fst r)) (snd r)).
Definition to_16 (r : Z * Z) : option FpWrite := Some (To16 (fst r) (snd r)).
Definition to_32 (r : Z * Z) : option FpWrite := Some (To32 (fst r) (snd r)).
Definition to_64 (r : Z * Z) : option FpWrite := Some (To64 (fst r) (snd r)).

Definition fp_write (rd : Z) (w : FpWrite) s : Hart :=
  match w with
  | ToX v flags => accrue flags (set_x rd v s)
  | To16 v flags => accrue flags (wf16 rd (as_u16 v) s)
  | To32 v flags => accrue flags (wf32 rd (as_u32 v) s)
  | To64 v flags => accrue flags (wf64 rd v s)
  end.

(** Single-precision arithmetic. *)
Definition fp_arith_s s insn (rm : RoundingMode) : option FpWrite :=
  let rs1 := insn_rs1 insn in
  let rs2 := insn_rs2 insn in
  let rs3 := insn_rs3 insn in
  match insn_op insn with
  | FaddS => to_32 (add F32 (rf32 s rs1) (rf32 s rs2) rm 0)
  | FsubS => to_32 (sub F32 (rf32 s rs1) (rf32 s rs2) rm 0)
  | FmulS => to_32 (sf_mul F32 (s32 s rs1) (s32 s rs2) rm 0)
  | FdivS => to_32 (sf_div F32 (s32 s rs1) (s32 s rs2) rm 0)
  | FsqrtS => to_32 (sf_sqrt F32 (s32 s rs1) rm 0)
  | FmaddS => to_32 (sf_fma F32 (s32 s rs1) (s32 s rs2) (s32 s rs3) rm 0)
  | FmsubS => to_32 (sf_fma F32 (s32 s rs1) (s32 s rs2) (neg32 (s32 s rs3)) rm 0)
  | FnmsubS => to_32 (sf_fma F32 (neg32 (s32 s rs1)) (s32 s rs2) (s32 s rs3) rm 0)
  | FnmaddS =>
      to_32 (sf_fma F32 (neg32 (s32 s rs1)) (s32 s rs2) (neg32 (s32 s rs3)) rm 0)
  | _ => None
  end.

(** Double-precision arithmetic. *)
Definition fp_arith_d s insn (rm : RoundingMode) : option FpWrite :=
  let rs1 := insn_rs1 insn in
  let rs2 := insn_rs2 insn in
  let rs3 := insn_rs3 insn in
  match insn_op insn with
  | FaddD => to_64 (add F64 (rf64 s rs1) (rf64 s rs2) rm 0)
  | FsubD => to_64 (sub F64 (rf64 s rs1) (rf64 s rs2) rm 0)
  | FmulD => to_64 (sf_mul F64 (get_f s rs1) (get_f s rs2) rm 0)
  | FdivD => to_64 (sf_div F64 (get_f s rs1) (get_f s rs2) rm 0)
  | FsqrtD => to_64 (sf_sqrt F64 (get_f s rs1) rm 0)
  | FmaddD => to_64 (sf_fma F64 (get_f s rs1) (get_f s rs2) (get_f s rs3) rm 0)
  | FmsubD => to_64 (sf_fma F64 (get_f s rs1) (get_f s rs2) (neg64 (get_f s rs3)) rm 0)
  | FnmsubD => to_64 (sf_fma F64 (neg64 (get_f s rs1)) (get_f s rs2) (get_f s rs3) rm 0)
  | FnmaddD =>
      to_64 (sf_fma F64 (neg64 (get_f s rs1)) (get_f s rs2) (neg64 (get_f s rs3)) rm 0)
  | _ => None
  end.

(** Sign injection. *)
Definition fp_sgnj s insn : option FpWrite :=
  let rs1 := insn_rs1 insn in
  let rs2 := insn_rs2 insn in
  match insn_op insn with
  | FsgnjS => to_32 (sgnj SgnjCopy 0x80000000 (s32 s rs1) (s32 s rs2), 0)
  | FsgnjnS => to_32 (sgnj SgnjNeg 0x80000000 (s32 s rs1) (s32 s rs2), 0)
  | FsgnjxS => to_32 (sgnj SgnjXor 0x80000000 (s32 s rs1) (s32 s rs2), 0)
  | FsgnjD => to_64 (sgnj SgnjCopy 0x8000000000000000 (get_f s rs1) (get_f s rs2), 0)
  | FsgnjnD => to_64 (sgnj SgnjNeg 0x8000000000000000 (get_f s rs1) (get_f s rs2), 0)
  | FsgnjxD => to_64 (sgnj SgnjXor 0x8000000000000000 (get_f s rs1) (get_f s rs2), 0)
  | _ => None
  end.

(** Minimum and maximum, comparisons, classification and moves. *)
Definition fp_select s insn : option FpWrite :=
  let rs1 := insn_rs1 insn in
  let rs2 := insn_rs2 insn in
  match insn_op insn with
  | FminS => to_32 (fmin F32 (rf32 s rs1) (rf32 s rs2) 0)
  | FmaxS => to_32 (fmax F32 (rf32 s rs1) (rf32 s rs2) 0)
  | FminD => to_64 (fmin F64 (rf64 s rs1) (rf64 s rs2) 0)
  | FmaxD => to_64 (fmax F64 (rf64 s rs1) (rf64 s rs2) 0)
  | FeqS => to_bool (feq F32 (rf32 s rs1) (rf32 s rs2) 0)
  | FltS => to_bool (flt F32 (rf32 s rs1) (rf32 s rs2) 0)
  | FleS => to_bool (fle F32 (rf32 s rs1) (rf32 s rs2) 0)
  | FeqD => to_bool (feq F64 (rf64 s rs1) (rf64 s rs2) 0)
  | FltD => to_bool (flt F64 (rf64 s rs1) (rf64 s rs2) 0)
  | FleD => to_bool (fle F64 (rf64 s rs1) (rf64 s rs2) 0)
  | FclassS => to_x (fclass F32 (rf32 s rs1), 0)
  | FclassD => to_x (fclass F64 (rf64 s rs1), 0)
  | FmvXW => to_x (ext64 32 (get_f s rs1), 0)
  | FmvWX => to_32 (get_x s rs1, 0)
  | FmvXD => to_x (get_f s rs1, 0)
  | FmvDX => to_64 (get_x s rs1, 0)
  | _ => None
  end.

(** Conversions of singles and doubles. *)
Definition fp_convert s insn (rm : RoundingMode) : option FpWrite :=
  let rs1 := insn_rs1 insn in
  match insn_op insn with
  | FcvtWS => to_x (ftoi F32 (rf32 s rs1) true 32 rm 0)
  | FcvtWuS => to_x (ftoi F32 (rf32 s rs1) false 32 rm 0)
  | FcvtLS => to_x (ftoi F32 (rf32 s rs1) true 64 rm 0)
  | FcvtLuS => to_x (ftoi F32 (rf32 s rs1) false 64 rm 0)
  | FcvtWD => to_x (ftoi F64 (rf64 s rs1) true 32 rm 0)
  | FcvtWuD => to_x (ftoi F64 (rf64 s rs1) false 32 rm 0)
  | FcvtLD => to_x (ftoi F64 (rf64 s rs1) true 64 rm 0)
  | FcvtLuD => to_x (ftoi F64 (rf64 s rs1) false 64 rm 0)
  | FcvtSW => to_32 (itof F32 (as_i32 (get_x s rs1)) rm 0)
  | FcvtSWu => to_32 (itof F32 (as_u32 (get_x s rs1)) rm 0)
  | FcvtSL => to_32 (itof F32 (as_i64 (get_x s rs1)) rm 0)
  | FcvtSLu => to_32 (itof F32 (get_x s rs1) rm 0)
  | FcvtDW => to_64 (itof F64 (as_i32 (get_x s rs1)) rm 0)
  | FcvtDWu => to_64 (itof F64 (as_u32 (get_x s rs1)) rm 0)
  | FcvtDL => to_64 (itof F64 (as_i64 (get_x s rs1)) rm 0)
  | FcvtDLu => to_64 (itof F64 (get_x s rs1) rm 0)
  | FcvtSD => to_32 (f64_to_f32 (rf64 s rs1) rm 0)
  | FcvtDS => to_64 (f32_to_f64 (rf32 s rs1) 0)
  | _ => None
  end.

(** The additional operations of Zfa. *)
Definition fp_zfa s insn (rm : RoundingMode) : option FpWrite :=
  let rs1 := insn_rs1 insn in
  let rs2 := insn_rs2 insn in
  match insn_op insn with
  | FliS => to_32 (fli F32 rs1, 0)
  | FliD => to_64 (fli F64 rs1, 0)
  | FminmS => to_32 (fminm F32 (rf32 s rs1) (rf32 s rs2) 0)
  | FmaxmS => to_32 (fmaxm F32 (rf32 s rs1) (rf32 s rs2) 0)
  | FminmD => to_64 (fminm F64 (rf64 s rs1) (rf64 s rs2) 0)
  | FmaxmD => to_64 (fmaxm F64 (rf64 s rs1) (rf64 s rs2) 0)
  | FroundS => to_32 (fround F32 (rf32 s rs1) rm false 0)
  | FroundnxS => to_32 (fround F32 (rf32 s rs1) rm true 0)
  | FroundD => to_64 (fround F64 (rf64 s rs1) rm false 0)
  | FroundnxD => to_64 (fround F64 (rf64 s rs1) rm true 0)
  | FleqS => to_bool (fleq F32 (rf32 s rs1) (rf32 s rs2) 0)
  | FltqS => to_bool (fltq F32 (rf32 s rs1) (rf32 s rs2) 0)
  | FleqD => to_bool (fleq F64 (rf64 s rs1) (rf64 s rs2) 0)
  | FltqD => to_bool (fltq F64 (rf64 s rs1) (rf64 s rs2) 0)
  | FcvtmodWD => to_x (fcvtmod_w_d (rf64 s rs1) 0)
  | _ => None
  end.

(** Half-precision arithmetic. *)
Definition fp_arith_h s insn (rm : RoundingMode) : option FpWrite :=
  let rs1 := insn_rs1 insn in
  let rs2 := insn_rs2 insn in
  let rs3 := insn_rs3 insn in
  match insn_op insn with
  | FaddH => to_16 (sf_add F16 (h s rs1) (h s rs2) rm 0)
  | FsubH => to_16 (sf_sub F16 (h s rs1) (h s rs2) rm 0)
  | FmulH => to_16 (sf_mul F16 (h s rs1) (h s rs2) rm 0)
  | FdivH => to_16 (sf_div F16 (h s rs1) (h s rs2) rm 0)
  | FsqrtH => to_16 (sf_sqrt F16 (h s rs1) rm 0)
  | FmaddH => to_16 (sf_fma F16 (h s rs1) (h s rs2) (h s rs3) rm 0)
  | FmsubH => to_16 (sf_fma F16 (h s rs1) (h s rs2) (neg16 (h s rs3)) rm 0)
  | FnmsubH => to_16 (sf_fma F16 (neg16 (h s rs1)) (h s rs2) (h s rs3) rm 0)
  | FnmaddH =>
      to_16 (sf_fma F16 (neg16 (h s rs1)) (h s rs2) (neg16 (h s rs3)) rm 0)
  | _ => None
  end.

(** The other half-precision operations. *)
Definition fp_select_h s insn (rm : RoundingMode) : option FpWrite :=
  let rs1 := insn_rs1 insn in
  let rs2 := insn_rs2 insn in
  match insn_op insn with
  | FsgnjH => to_16 (sgnj SgnjCopy 0x8000 (rf16 s rs1) (rf16 s rs2), 0)
  | FsgnjnH => to_16 (sgnj SgnjNeg 0x8000 (rf16 s rs1) (rf16 s rs2), 0)
  | FsgnjxH => to_16 (sgnj SgnjXor 0x8000 (rf16 s rs1) (rf16 s rs2), 0)
  | FminH => to_16 (fmin_h (rf16 s rs1) (rf16 s rs2) 0)
  | FmaxH => to_16 (fmax_h (rf16 s rs1) (rf16 s rs2) 0)
  | FminmH => to_16 (fminm_h (rf16 s rs1) (rf16 s rs2) 0)
  | FmaxmH => to_16 (fmaxm_h (rf16 s rs1) (rf16 s rs2) 0)
  | FeqH => to_bool (feq_h (rf16 s rs1) (rf16 s rs2) 0)
  | FltH => to_bool (flt_h (rf16 s rs1) (rf16 s rs2) 0)
  | FleH => to_bool (fle_h (rf16 s rs1) (rf16 s rs2) 0)
  | FleqH => to_bool (fleq_h (rf16 s rs1) (rf16 s rs2) 0)
  | FltqH => to_bool (fltq_h (rf16 s rs1) (rf16 s rs2) 0)
  | FclassH => to_x (fclass_bits F16 (h s rs1), 0)
  | FroundH => to_16 (fround_h (rf16 s rs1) rm false 0)
  | FroundnxH => to_16 (fround_h (rf16 s rs1) rm true 0)
  | FliH => to_16 (fli F16 rs1, 0)
  | _ => None
  end.

(** Half-precision conversions and moves. *)
Definition fp_convert_h s insn (rm : RoundingMode) : option FpWrite :=
  let rs1 := insn_rs1 insn in
  match insn_op insn with
  | FcvtSH => to_32 (fcvt_round F16 F32 (h s rs1) rm 0)
  | FcvtHS => to_16 (fcvt_round F32 F16 (s32 s rs1) rm 0)
  | FcvtDH => to_64 (fcvt_round F16 F64 (h s rs1) rm 0)
  | FcvtHD => to_16 (fcvt_round F64 F16 (get_f s rs1) rm 0)
  | FcvtWH => to_x (ftoi F32 (h_widen (rf16 s rs1)) true 32 rm 0)
  | FcvtWuH => to_x (ftoi F32 (h_widen (rf16 s rs1)) false 32 rm 0)
  | FcvtLH => to_x (ftoi F32 (h_widen (rf16 s rs1)) true 64 rm 0)
  | FcvtLuH => to_x (ftoi F32 (h_widen (rf16 s rs1)) false 64 rm 0)
  | FcvtHW => to_16 (itof_fmt F16 (as_i32 (get_x s rs1)) rm 0)
  | FcvtHWu => to_16 (itof_fmt F16 (as_u32 (get_x s rs1)) rm 0)
  | FcvtHL => to_16 (itof_fmt F16 (as_i64 (get_x s rs1)) rm 0)
  | FcvtHLu => to_16 (itof_fmt F16 (get_x s rs1) rm 0)
  | FmvXH => to_x (ext64 16 (get_f s rs1), 0)
  | FmvHX => to_16 (get_x s rs1, 0)
  | _ => None
  end.

Definition fp_value s insn (rm : RoundingMode) : option FpWrite :=
  or_else (fp_arith_s s insn rm)
    (or_else (fp_arith_d s insn rm)
     (or_else (fp_sgnj s insn)
      (or_else (fp_select s insn)
       (or_else (fp_convert s insn rm)
        (or_else (fp_zfa s insn rm)
         (or_else (fp_arith_h s insn rm)
          (or_else (fp_select_h s insn rm) (fp_convert_h s insn rm)))))))).

(** The loads and stores, which raise no flags. *)
Definition fp_mem s insn : option (exec Hart Trap unit) :=
  let rd := insn_rd insn in
  let addr := Z.land (wadd 64 (get_x s (insn_rs1 insn)) (as_u64 (insn_imm insn))) (xmask s) in
  let data := get_f s (insn_rs2 insn) in
  match insn_op insn with
  | Flw => Some (v ← mem_get (fun m => read_u32 m addr) (acc_fault false addr);
                 modify (wf32 rd v))
  | Fld => Some (v ← mem_get (fun m => read_u64 m addr) (acc_fault false addr);
                 modify (wf64 rd v))
  | Flh => Some (v ← mem_get (fun m => read_u16 m addr) (acc_fault false addr);
                 modify (wf16 rd v))
  | Fsw => Some (mem_put (fun m => write_u32 m addr (as_u32 data)) (acc_fault true addr))
  | Fsd => Some (mem_put (fun m => write_u64 m addr data) (acc_fault true addr))
  | Fsh => Some (mem_put (fun m => write_u16 m addr (as_u16 data)) (acc_fault true addr))
  | _ => None
  end.

Definition exec_fp insn (pc : Z) : exec Hart Trap RiscVExit.t :=
  if fp_quad (insn_op insn) then throw (trap_illegal (insn_raw insn))
  else
    s ← get;
    match (if fp_no_rm (insn_op insn) then Some Rne else eff_rm s (insn_funct3 insn)) with
    | None => throw (trap_illegal (insn_raw insn))
    | Some rm =>
        match fp_mem s insn with
        | Some m => m;; modify (accrue 0);; eret RiscVExit.Continue
        | None =>
            match fp_value s insn rm with
            | Some w => modify (fp_write (insn_rd insn) w);; eret RiscVExit.Continue
            | None => throw (trap_illegal (insn_raw insn))
            end
        end
    end.
End Exec.

(** ** The pure evaluator *)

(** The operations of the evaluator whose funct3 is not a rounding mode. *)
Definition eval_no_rm (op : Op) : bool :=
  match op with
  | FminS | FmaxS | FminD | FmaxD | FminH | FmaxH | FeqS | FltS | FleS | FeqD | FltD | FleD
  | FeqH | FltH | FleH | FminmS | FmaxmS | FminmD | FmaxmD | FminmH | FmaxmH | FleqS | FltqS
  | FleqD | FltqD | FleqH | FltqH | FliS | FliD | FliH | FcvtmodWD => true
  | _ => false
  end.

Definition eval_rm (op : Op) (rm_field fcsr : Z) : option RoundingMode :=
  if eval_no_rm op then Some Rne
  else
    m ← rm_from_bits rm_field;
    m ← (if bool_decide (m = Dyn) then rm_from_bits (Z.land (wshr 32 fcsr 5) 0x7) else Some m);
    if bool_decide (m = Dyn) then None else Some m.

Definition bool_value (r : bool * Z) : Z * Z := (of_bool (fst r), snd r).
Definition boxed_s (r : Z * Z) : Z * Z := (box_s (as_u32 (fst r)), snd r).
Definition boxed_h (r : Z * Z) : Z * Z := (box_h (as_u16 (fst r)), snd r).

(** Its arithmetic arms. *)
Definition eval_arith (op : Op) (rm : RoundingMode) (a b c : Z) : option (Z * Z) :=
  match op with
  | FaddS => Some (boxed_s (add F32 (unbox_s a) (unbox_s b) rm 0))
  | FsubS => Some (boxed_s (sub F32 (unbox_s a) (unbox_s b) rm 0))
  | FmulS => Some (boxed_s (sf_mul F32 (unbox_s a) (unbox_s b) rm 0))
  | FdivS => Some (boxed_s (sf_div F32 (unbox_s a) (unbox_s b) rm 0))
  | FsqrtS => Some (boxed_s (sf_sqrt F32 (unbox_s a) rm 0))
  | FmaddS => Some (boxed_s (sf_fma F32 (unbox_s a) (unbox_s b) (unbox_s c) rm 0))
  | FmsubS => Some (boxed_s (sf_fma F32 (unbox_s a) (unbox_s b) (neg32 (unbox_s c)) rm 0))
  | FnmsubS => Some (boxed_s (sf_fma F32 (neg32 (unbox_s a)) (unbox_s b) (unbox_s c) rm 0))
  | FnmaddS => Some (boxed_s (sf_fma F32 (neg32 (unbox_s a)) (unbox_s b) (neg32 (unbox_s c)) rm 0))
  | FaddD => Some (add F64 a b rm 0)
  | FsubD => Some (sub F64 a b rm 0)
  | FmulD => Some (sf_mul F64 a b rm 0)
  | FdivD => Some (sf_div F64 a b rm 0)
  | FsqrtD => Some (sf_sqrt F64 a rm 0)
  | FmaddD => Some (sf_fma F64 a b c rm 0)
  | FmsubD => Some (sf_fma F64 a b (neg64 c) rm 0)
  | FnmsubD => Some (sf_fma F64 (neg64 a) b c rm 0)
  | FnmaddD => Some (sf_fma F64 (neg64 a) b (neg64 c) rm 0)
  | FaddH => Some (boxed_h (sf_add F16 (unbox_h a) (unbox_h b) rm 0))
  | FsubH => Some (boxed_h (sf_sub F16 (unbox_h a) (unbox_h b) rm 0))
  | FmulH => Some (boxed_h (sf_mul F16 (unbox_h a) (unbox_h b) rm 0))
  | FdivH => Some (boxed_h (sf_div F16 (unbox_h a) (unbox_h b) rm 0))
  | FsqrtH => Some (boxed_h (sf_sqrt F16 (unbox_h a) rm 0))
  | FmaddH => Some (boxed_h (sf_fma F16 (unbox_h a) (unbox_h b) (unbox_h c) rm 0))
  | FmsubH => Some (boxed_h (sf_fma F16 (unbox_h a) (unbox_h b) (neg16 (unbox_h c)) rm 0))
  | FnmsubH => Some (boxed_h (sf_fma F16 (neg16 (unbox_h a)) (unbox_h b) (unbox_h c) rm 0))
  | FnmaddH => Some (boxed_h (sf_fma F16 (neg16 (unbox_h a)) (unbox_h b) (neg16 (unbox_h c)) rm 0))
  | _ => None
  end.

(** Its minimum, maximum, comparison and rounding arms. *)
Definition eval_select (op : Op) (rm : RoundingMode) (a b : Z) : option (Z * Z) :=
  match op with
  | FminS => Some (boxed_s (fmin F32 (unbox_s a) (unbox_s b) 0))
  | FmaxS => Some (boxed_s (fmax F32 (unbox_s a) (unbox_s b) 0))
  | FminD => Some (fmin F64 a b 0)
  | FmaxD => Some (fmax F64 a b 0)
  | FminH => Some (boxed_h (fmin_h (unbox_h a) (unbox_h b) 0))
  | FmaxH => Some (boxed_h (fmax_h (unbox_h a) (unbox_h b) 0))
  | FminmS => Some (boxed_s (fminm F32 (unbox_s a) (unbox_s b) 0))
  | FmaxmS => Some (boxed_s (fmaxm F32 (unbox_s a) (unbox_s b) 0))
  | FminmD => Some (fminm F64 a b 0)
  | FmaxmD => Some (fmaxm F64 a b 0)
  | FminmH => Some (boxed_h (fminm_h (unbox_h a) (unbox_h b) 0))
  | FmaxmH => Some (boxed_h (fmaxm_h (unbox_h a) (unbox_h b) 0))
  | FeqS => Some (bool_value (feq F32 (unbox_s a) (unbox_s b) 0))
  | FltS => Some (bool_value (flt F32 (unbox_s a) (unbox_s b) 0))
  | FleS => Some (bool_value (fle F32 (unbox_s a) (unbox_s b) 0))
  | FeqD => Some (bool_value (feq F64 a b 0))
  | FltD => Some (bool_value (flt F64 a b 0))
  | FleD => Some (bool_value (fle F64 a b 0))
  | FeqH => Some (bool_value (feq_h (unbox_h a) (unbox_h b) 0))
  | FltH => Some (bool_value (flt_h (unbox_h a) (unbox_h b) 0))
  | FleH => Some (bool_value (fle_h (unbox_h a) (unbox_h b) 0))
  | FleqS => Some (bool_value (fleq F32 (unbox_s a) (unbox_s b) 0))
  | FltqS => Some (bool_value (fltq F32 (unbox_s a) (unbox_s b) 0))
  | FleqD => Some (bool_value (fleq F64 a b 0))
  | FltqD => Some (bool_value (fltq F64 a b 0))
  | FleqH => Some (bool_value (fleq_h (unbox_h a) (unbox_h b) 0))
  | FltqH => Some (bool_value (fltq_h (unbox_h a) (unbox_h b) 0))
  | FroundS => Some (boxed_s (fround F32 (unbox_s a) rm false 0))
  | FroundnxS => Some (boxed_s (fround F32 (unbox_s a) rm true 0))
  | FroundD => Some (fround F64 a rm false 0)
  | FroundnxD => Some (fround F64 a rm true 0)
  | FroundH => Some (boxed_h (fround_h (unbox_h a) rm false 0))
  | FroundnxH => Some (boxed_h (fround_h (unbox_h a) rm true 0))
  | _ => None
  end.

(** Its conversions. *)
Definition eval_convert (op : Op) (rm : RoundingMode) (a : Z) : option (Z * Z) :=
  match op with
  | FcvtWS => Some (ftoi F32 (unbox_s a) true 32 rm 0)
  | FcvtWuS => Some (ftoi F32 (unbox_s a) false 32 rm 0)
  | FcvtLS => Some (ftoi F32 (unbox_s a) true 64 rm 0)
  | FcvtLuS => Some (ftoi F32 (unbox_s a) false 64 rm 0)
  | FcvtWD => Some (ftoi F64 a true 32 rm 0)
  | FcvtWuD => Some (ftoi F64 a false 32 rm 0)
  | FcvtLD => Some (ftoi F64 a true 64 rm 0)
  | FcvtLuD => Some (ftoi F64 a false 64 rm 0)
  | FcvtWH => Some (ftoi F32 (h_widen (unbox_h a)) true 32 rm 0)
  | FcvtWuH => Some (ftoi F32 (h_widen (unbox_h a)) false 32 rm 0)
  | FcvtLH => Some (ftoi F32 (h_widen (unbox_h a)) true 64 rm 0)
  | FcvtLuH => Some (ftoi F32 (h_widen (unbox_h a)) false 64 rm 0)
  | FcvtmodWD => Some (fcvtmod_w_d a 0)
  | FcvtSW => Some (boxed_s (itof F32 (as_i32 a) rm 0))
  | FcvtSWu => Some (boxed_s (itof F32 (as_u32 a) rm 0))
  | FcvtSL => Some (boxed_s (itof F32 (as_i64 a) rm 0))
  | FcvtSLu => Some (boxed_s (itof F32 a rm 0))
  | FcvtDW => Some (itof F64 (as_i32 a) rm 0)
  | FcvtDWu => Some (itof F64 (as_u32 a) rm 0)
  | FcvtDL => Some (itof F64 (as_i64 a) rm 0)
  | FcvtDLu => Some (itof F64 a rm 0)
  | FcvtHW => Some (boxed_h (itof_fmt F16 (as_i32 a) rm 0))
  | FcvtHWu => Some (boxed_h (itof_fmt F16 (as_u32 a) rm 0))
  | FcvtHL => Some (boxed_h (itof_fmt F16 (as_i64 a) rm 0))
  | FcvtHLu => Some (boxed_h (itof_fmt F16 a rm 0))
  | FcvtSD => Some (boxed_s (f64_to_f32 a rm 0))
  | FcvtDS => Some (f32_to_f64 (unbox_s a) 0)
  | FcvtSH => Some (boxed_s (fcvt_round F16 F32 (unbox_h a) rm 0))
  | FcvtHS => Some (boxed_h (fcvt_round F32 F16 (unbox_s a) rm 0))
  | FcvtDH => Some (fcvt_round F16 F64 (unbox_h a) rm 0)
  | FcvtHD => Some (boxed_h (fcvt_round F64 F16 a rm 0))
  | _ => None
  end.

Definition eval_value (op : Op) (rm : RoundingMode) (a b c : Z) : option (Z * Z) :=
  or_else (eval_arith op rm a b c) (or_else (eval_select op rm a b) (eval_convert op rm a)).

Definition eval_scalar_fp (op : Op) (rm_field fcsr a b c : Z) : option (Z * Z) :=
  rm ← eval_rm op rm_field fcsr;
  '(result, flags) ← eval_value op rm a b c;
  Some (result, Z.lor fcsr (Z.land flags 0x1f)).
