(* ===== verification/RvFpSpec.v ===== *)
(** * The floating-point engine: results and the pure evaluator

    Every value that [exec_fp] writes is a pattern of its format, with no NaN
    but the canonical one unless the operation copies bits; and the evaluator
    that lifted code uses agrees with it. *)

From S2P Require Import Prelude RvIsa RvOp RvMemory RvFloat RvHostFloat RvFloatOps RvState RvExec RvFp.
From S2P Require Import RvRound RvFloatSpec RvFloatAdd RvFloatWf RvHart.

(** ** Results *)

(** The operations that copy a bit pattern, a NaN included. *)
Definition fp_copies (op : Op) : bool :=
  match op with
  | FsgnjS | FsgnjnS | FsgnjxS | FsgnjD | FsgnjnD | FsgnjxD | FsgnjH | FsgnjnH | FsgnjxH
  | FmvWX | FmvDX | FmvHX => true
  | _ => false
  end.

(** A value of its destination: XLEN masking is [set_x]'s, a single or half is
    narrowed by its write. *)
Definition fp_write_wf (copies : bool) (w : FpWrite) : Prop :=
  match w with
  | ToX _ _ => True
  | To16 v _ => copies = true \/ fp_wf F16 v
  | To32 v _ => copies = true \/ fp_wf F32 v
  | To64 v _ => fits 64 v /\ (copies = true \/ fp_wf F64 v)
  end.

Lemma unbox_s_fits b : fits (Fmt.width F32) (unbox_s b).
Proof. unfold unbox_s. case_match; [by apply as_u_fits | by split]. Qed.
Lemma unbox_h_fits b : fits (Fmt.width F16) (unbox_h b).
Proof. unfold unbox_h. case_match; [by apply as_u_fits | by split]. Qed.

Lemma wf_64 v : fp_wf F64 v -> fits 64 v /\ (false = true \/ fp_wf F64 v).
Proof. intros Hv. split; [apply Hv | by right]. Qed.

Lemma host_32 : host_fmt F32.
Proof. by left. Qed.
Lemma host_64 : host_fmt F64.
Proof. by right. Qed.

#[export] Hint Resolve F16_ok F32_ok F64_ok host_32 host_64 unbox_s_fits unbox_h_fits
  sf_mul_wf sf_div_wf sf_sqrt_wf sf_fma_wf sf_add_wf fcvt_round_wf itof_fmt_wf
  add_wf sub_wf fmin_wf fmax_wf fminm_wf fmaxm_wf fround_wf itof_wf f32_to_f64_wf f64_to_f32_wf
  hmin_wf hmax_wf fround_h_wf : fpwf.

Lemma neg_fits w b : 0 < w -> fits w b -> fits w (Z.lxor b (2 ^ (w - 1))).
Proof.
  intros Hw Hb. apply fits_lxor; [done|]. split; [apply Z.pow_nonneg; lia|].
  apply Z.pow_lt_mono_r; lia.
Qed.

Lemma neg32_fits b : fits (Fmt.width F32) b -> fits (Fmt.width F32) (neg32 b).
Proof. by apply (neg_fits 32). Qed.
Lemma neg64_fits b : fits (Fmt.width F64) b -> fits (Fmt.width F64) (neg64 b).
Proof. by apply (neg_fits 64). Qed.
Lemma neg16_fits b : fits (Fmt.width F16) b -> fits (Fmt.width F16) (neg16 b).
Proof. by apply (neg_fits 16). Qed.
#[export] Hint Resolve neg32_fits neg64_fits neg16_fits : fpwf.

Lemma sf_sub_wf fmt a b mode flags :
  fmt_ok fmt -> fits (Fmt.width fmt) a -> fits (Fmt.width fmt) b ->
  fp_wf fmt (sf_sub fmt a b mode flags).1.
Proof.
  intros Hf Ha Hb. unfold sf_sub. rewrite sign_bit_eq by done. apply sf_add_wf; try done.
  by apply fits_neg.
Qed.
#[export] Hint Resolve sf_sub_wf : fpwf.

Lemma sgnj_fits k a b : fits 64 a -> fits 64 b -> fits 64 (sgnj k 0x8000000000000000 a b).
Proof.
  intros. unfold sgnj. apply fits_lor; [apply fits_land_r; by split|].
  destruct k; apply fits_land_r; by split.
Qed.

Section Values.
Context {M : Type} `{MemoryLaws M} (cfg : RiscVConfig).
Implicit Types (s : RiscVCpu M).

Lemma rf32_fits s i : fits (Fmt.width F32) (rf32 s i).
Proof. apply unbox_s_fits. Qed.
Lemma rf16_fits s i : fits (Fmt.width F16) (rf16 s i).
Proof. apply unbox_h_fits. Qed.
Hint Resolve rf32_fits rf16_fits : fpwf.

(** What [fp_value] returns is well formed. *)
Lemma fp_value_wf s insn rm w :
  hart_ok cfg s -> fp_value s insn rm = Some w -> fp_write_wf (fp_copies (insn_op insn)) w.
Proof.
  intros Hs. assert (Hf : forall i, fits 64 (get_f s i)) by (intros; by apply (fits_get_f cfg)).
  assert (Hg : forall i, fits (Fmt.width F64) (get_f s i)) by exact Hf.
  assert (Hg' : forall i, fits (Fmt.width F64) (rf64 s i)) by exact Hf.
  assert (H32 : forall i, fits (Fmt.width F32) (s32 s i)) by (intros; apply rf32_fits).
  assert (H16 : forall i, fits (Fmt.width F16) (h s i)) by (intros; apply rf16_fits).
  unfold fp_value, or_else, fp_arith_s, fp_arith_d, fp_sgnj, fp_select,
    fp_convert, fp_zfa, fp_arith_h, fp_select_h, fp_convert_h.
  destruct (insn_op insn) eqn:Eop; try discriminate; cbv zeta.
  all: intros E; apply (inj Some) in E; subst w.
  all: cbn [fp_write_wf fp_copies to_x to_bool to_16 to_32 to_64 fst].
  all: match goal with
       | |- True => exact I
       | |- true = true \/ _ => by left
       | |- _ => idtac
       end.
  all: match goal with
       | |- false = true \/ _ => right
       | |- _ => idtac
       end.
  all: try (auto 6 with fpwf; fail).
  all: try (apply wf_64; auto 6 with fpwf; fail).
  all: try (apply select_h_wf; apply rf16_fits).
  all: try (apply fli_wf; tauto).
  all: try (split; [by apply sgnj_fits | by left]).
  - split; [by apply (fits_get_x_64 cfg) | by left].
  - apply wf_64, fli_wf. tauto.
Qed.
End Values.

(** ** The pure evaluator *)

(** The operations the evaluator leaves to other code: accesses, sign
    injection, moves, classification, constants and binary128. *)
Definition eval_excludes (op : Op) : bool :=
  match op with
  | Flw | Fsw | Fld | Fsd | Flh | Fsh | FclassS | FclassD | FclassH | FmvXW | FmvXD | FmvXH
  | FliS | FliD | FliH => true
  | _ => fp_copies op || fp_quad op
  end.

(** The register value and the flags of a write. *)
Definition write_value (w : FpWrite) : Z * Z :=
  match w with
  | ToX v flags | To64 v flags => (v, flags)
  | To16 v flags => (box_h (as_u16 v), flags)
  | To32 v flags => (box_s (as_u32 v), flags)
  end.
Definition write_int (w : FpWrite) : bool := match w with ToX _ _ => true | _ => false end.

Section Eval.
Context {M : Type} `{Memory M}.
Implicit Types (s : RiscVCpu M) (insn : Insn).

(** The operands of the evaluator for an instruction. *)
Definition eval_a s insn : Z :=
  if fp_uses_int_src1 (insn_op insn) then get_x s (insn_rs1 insn) else get_f s (insn_rs1 insn).

Lemma eval_value_agrees s insn rm :
  is_fp (insn_op insn) = true -> eval_excludes (insn_op insn) = false ->
  exists w, fp_value s insn rm = Some w
    /\ eval_value (insn_op insn) rm (eval_a s insn) (get_f s (insn_rs2 insn))
         (get_f s (insn_rs3 insn)) = Some (write_value w)
    /\ write_int w = fp_writes_int_dst (insn_op insn).
Proof.
  unfold fp_value, or_else, fp_arith_s, fp_arith_d, fp_sgnj, fp_select,
    fp_convert, fp_zfa, fp_arith_h, fp_select_h, fp_convert_h, eval_value, eval_arith, eval_select,
    eval_convert, eval_a, to_x, to_bool, to_16, to_32, to_64.
  destruct (insn_op insn) eqn:Eop; intros Hfp Hex.
  all: try (exfalso; exact (diff_false_true Hfp)).
  all: try (exfalso; exact (diff_true_false Hex)).
  all: cbv zeta; eexists; split; [reflexivity|]; split; [|reflexivity].
  all: cbn [write_value fp_uses_int_src1]; unfold boxed_s, boxed_h, bool_value, rf32, rf64, rf16,
    s32, h; rewrite <- ?surjective_pairing; reflexivity.
Qed.

Lemma eval_value_excluded op rm a b c :
  is_fp op = false \/ eval_excludes op = true -> eval_value op rm a b c = None.
Proof.
  destruct op; intros [Hf|He]; try reflexivity; first [discriminate Hf | discriminate He].
Qed.

Lemma eval_rm_agrees s insn :
  is_fp (insn_op insn) = true -> eval_excludes (insn_op insn) = false ->
  eval_rm (insn_op insn) (insn_funct3 insn) (c_fcsr s)
  = if fp_no_rm (insn_op insn) then Some Rne else eff_rm s (insn_funct3 insn).
Proof.
  unfold eval_rm. assert (Hn : is_fp (insn_op insn) = true -> eval_excludes (insn_op insn) = false ->
    eval_no_rm (insn_op insn) = fp_no_rm (insn_op insn)) by (by destruct (insn_op insn)).
  intros Hf He. by rewrite Hn.
Qed.

Lemma fp_write_agrees rd w s :
  fp_write rd w s
  = set_c_fcsr (Z.lor (c_fcsr s) (Z.land (write_value w).2 0x1f))
      (if write_int w then set_x rd (write_value w).1 s else set_f rd (write_value w).1 s).
Proof.
  destruct w; cbn [write_value write_int fst snd fp_write]; try done.
  unfold accrue, set_x. by destruct (_ =? 0).
Qed.

(** Outside the excluded operations, the engine computes a value. *)
Lemma exec_fp_value s insn pc :
  eval_excludes (insn_op insn) = false ->
  exec_fp insn pc s =
    match (if fp_no_rm (insn_op insn) then Some Rne else eff_rm s (insn_funct3 insn)) with
    | Some rm =>
        match fp_value s insn rm with
        | Some w => (Ok RiscVExit.Continue, fp_write (insn_rd insn) w s)
        | None => (Err (trap_illegal (insn_raw insn)), s)
        end
    | None => (Err (trap_illegal (insn_raw insn)), s)
    end.
Proof.
  intros He.
  assert (Hq : fp_quad (insn_op insn) = false /\ fp_mem s insn = None).
  { unfold fp_mem. destruct (insn_op insn); try (by split); discriminate He. }
  destruct Hq as [Hq Hm]. unfold exec_fp. rewrite Hq. unfold mbind, exec_bind, ebind, get.
  destruct (if fp_no_rm _ then _ else _) as [rm|]; [|done]. rewrite Hm.
  by destruct (fp_value s insn rm).
Qed.
End Eval.

(** ** Formats of the results *)

(** The format an arithmetic operation writes to a floating-point register. *)
Definition fp_dst_fmt (op : Op) : option Fmt.t :=
  match op with
  | FaddS | FsubS | FmulS | FdivS | FsqrtS | FmaddS | FmsubS | FnmsubS | FnmaddS | FminS | FmaxS
  | FminmS | FmaxmS | FroundS | FroundnxS | FliS | FcvtSW | FcvtSWu | FcvtSL | FcvtSLu | FcvtSD
  | FcvtSH => Some F32
  | FaddD | FsubD | FmulD | FdivD | FsqrtD | FmaddD | FmsubD | FnmsubD | FnmaddD | FminD | FmaxD
  | FminmD | FmaxmD | FroundD | FroundnxD | FliD | FcvtDW | FcvtDWu | FcvtDL | FcvtDLu | FcvtDS
  | FcvtDH => Some F64
  | FaddH | FsubH | FmulH | FdivH | FsqrtH | FmaddH | FmsubH | FnmsubH | FnmaddH | FminH | FmaxH
  | FminmH | FmaxmH | FroundH | FroundnxH | FliH | FcvtHW | FcvtHWu | FcvtHL | FcvtHLu | FcvtHS
  | FcvtHD => Some F16
  | _ => None
  end.

(** A value of the format with every bit above it set. *)
Definition nan_box (fmt : Fmt.t) (r : Z) : Z := 2 ^ 64 - 2 ^ Fmt.width fmt + r.

Lemma box_s_eq r : fits 32 r -> box_s (as_u32 r) = nan_box F32 r.
Proof. intros Hr. rewrite as_u_small by done. apply (lor_join 32 0xffffffff r); [lia | done]. Qed.
Lemma box_h_eq r : fits 16 r -> box_h (as_u16 r) = nan_box F16 r.
Proof. intros Hr. rewrite as_u_small by done. apply (lor_join 16 0xffffffffffff r); [lia | done]. Qed.

Lemma dst_fmt_value {M} `{Memory M} (s : RiscVCpu M) insn rm fmt w :
  fp_dst_fmt (insn_op insn) = Some fmt -> fp_value s insn rm = Some w ->
  match w with
  | ToX _ _ => False
  | To16 _ _ => fmt = F16
  | To32 _ _ => fmt = F32
  | To64 _ _ => fmt = F64
  end.
Proof.
  unfold fp_value, or_else, fp_arith_s, fp_arith_d, fp_sgnj, fp_select,
    fp_convert, fp_zfa, fp_arith_h, fp_select_h, fp_convert_h, to_x, to_bool, to_16, to_32, to_64.
  destruct (insn_op insn); intros Hd; try (exact (False_ind _ (eq_ind None
    (fun o => match o with Some _ => False | None => True end) I _ Hd))).
  all: apply (inj Some) in Hd; subst fmt; cbv zeta; intros Hw; apply (inj Some) in Hw; by subst w.
Qed.

Lemma get_set_f {M} (s : RiscVCpu M) i v : length (c_f s) = 32%nat -> get_f (set_f i v s) i = v.
Proof.
  intros Hl. unfold get_f, set_f. cbn [set_c_f c_f].
  rewrite nth_lookup, list_lookup_insert_eq; [done|]. pose proof (reg_ix_lt i). lia.
Qed.

Lemma fp_write_boxed {M} `{MemoryLaws M} cfg (s : RiscVCpu M) insn rm fmt w :
  hart_ok cfg s -> fp_dst_fmt (insn_op insn) = Some fmt -> fp_value s insn rm = Some w ->
  exists r, get_f (fp_write (insn_rd insn) w s) (insn_rd insn) = nan_box fmt r /\ fp_wf fmt r.
Proof.
  intros Hs Hd Hw. pose proof (dst_fmt_value s insn rm fmt w Hd Hw) as Hf.
  pose proof (fp_value_wf cfg s insn rm w Hs Hw) as Hwf.
  assert (Hc : fp_copies (insn_op insn) = false) by (by destruct (insn_op insn)).
  rewrite Hc in Hwf. rewrite fp_write_agrees.
  destruct w as [v fl|v fl|v fl|v fl]; cbn [write_int write_value fp_write_wf fst] in *; [done|..];
    subst fmt; exists v; (change (get_f (set_c_fcsr ?a ?b) ?c) with (get_f b c));
    rewrite get_set_f by apply Hs.
  - destruct Hwf as [|Hv]; [done|]. split; [apply box_h_eq, Hv | done].
  - destruct Hwf as [|Hv]; [done|]. split; [apply box_s_eq, Hv | done].
  - destruct Hwf as [_ [|Hv]]; [done|]. split; [|done]. unfold nan_box. change (Fmt.width F64) with 64. lia.
Qed.
