(* ===== verification/RvFpIeee.v ===== *)
(** * Floating-point instructions against IEEE-754

    The theorems on the arithmetic routines carried to the instructions of
    [exec_fp] (src/isa/riscv/cpu.rs): operands read through the NaN boxes, the
    rounding mode of the instruction, the boxed result and the accrued flags. *)

From Stdlib Require Import Reals.
From S2P Require Import Prelude RvIsa RvOp RvMemory RvFloat RvHostFloat RvFloatOps RvState RvExec RvFp.
From S2P Require Import RvRound RvFloatSpec RvFloatAdd RvFloatWf RvHostSpec RvHostAdd RvHostConv.
From S2P Require Import RvHart RvFpSpec.

(** ** Operands *)

(** The datum a register holds for a format: a quiet NaN unless every bit above
    the format is set. *)
Definition boxed_datum (fmt : Fmt.t) (bits : Z) : datum :=
  let w := Fmt.width fmt in
  if bits / 2 ^ w =? 2 ^ (64 - w) - 1 then interp fmt (bits mod 2 ^ w) else NaN false.

Lemma unbox_s_datum bits : interp F32 (unbox_s bits) = boxed_datum F32 bits.
Proof.
  unfold unbox_s, boxed_datum, wshr. change (Fmt.width F32) with 32. change (32 mod 64) with 32.
  rewrite Z.shiftr_div_pow2 by lia. change (2 ^ (64 - 32) - 1) with 0xffffffff.
  destruct (_ =? _); [done|]. vm_compute. reflexivity.
Qed.

Lemma unbox_h_datum bits : interp F16 (unbox_h bits) = boxed_datum F16 bits.
Proof.
  unfold unbox_h, boxed_datum, wshr. change (Fmt.width F16) with 16. change (16 mod 64) with 16.
  rewrite Z.shiftr_div_pow2 by lia. change (2 ^ (64 - 16) - 1) with 0xffffffffffff.
  destruct (_ =? _); [done|]. vm_compute. reflexivity.
Qed.

Lemma double_datum bits : fits 64 bits -> interp F64 bits = boxed_datum F64 bits.
Proof.
  intros Hb. unfold boxed_datum. change (Fmt.width F64) with 64. unfold fits in Hb.
  rewrite Z.div_small, Z.mod_small by lia. done.
Qed.

Lemma neg32_datum bits : interp F32 (neg32 bits) = neg_datum (interp F32 bits).
Proof. apply (interp_neg F32), F32_ok. Qed.
Lemma neg64_datum bits : interp F64 (neg64 bits) = neg_datum (interp F64 bits).
Proof. apply (interp_neg F64), F64_ok. Qed.
Lemma neg16_datum bits : interp F16 (neg16 bits) = neg_datum (interp F16 bits).
Proof. apply (interp_neg F16), F16_ok. Qed.

Lemma sf_sub_ieee fmt a b mode flags :
  fmt_ok fmt -> fits (Fmt.width fmt) a -> fits (Fmt.width fmt) b ->
  ieee_add fmt mode flags (interp fmt a) (neg_datum (interp fmt b)) (sf_sub fmt a b mode flags).
Proof.
  intros Hf Ha Hb. rewrite <- interp_neg by done. unfold sf_sub. apply sf_add_ieee; try done.
  rewrite sign_bit_eq by done. by apply fits_neg.
Qed.

(** ** Results *)

(** What an arm computed, before its write narrows or boxes it. *)
Definition fp_raw (w : FpWrite) : Z * Z :=
  match w with ToX v f | To16 v f | To32 v f | To64 v f => (v, f) end.

Section Retire.
Context {M : Type} `{MemoryLaws M}.
Implicit Types (s : RiscVCpu M) (insn : Insn).

(** An instruction with a floating-point result boxes it and accrues the flags. *)
Lemma fp_retires cfg s insn pc rm fmt w :
  hart_ok cfg s -> fp_dst_fmt (insn_op insn) = Some fmt ->
  (if fp_no_rm (insn_op insn) then Some Rne else eff_rm s (insn_funct3 insn)) = Some rm ->
  fp_value s insn rm = Some w ->
  exec_fp insn pc s =
    (Ok RiscVExit.Continue,
     set_c_fcsr (Z.lor (c_fcsr s) (Z.land (fp_raw w).2 0x1f))
       (set_f (insn_rd insn) (nan_box fmt (fp_raw w).1) s)).
Proof.
  intros Hs Hd Hrm Hw. pose proof (dst_fmt_value s insn rm fmt w Hd Hw) as Hf.
  pose proof (fp_value_wf cfg s insn rm w Hs Hw) as Hwf.
  assert (Hc : fp_copies (insn_op insn) = false) by (by destruct (insn_op insn)). rewrite Hc in Hwf.
  assert (Hq : fp_quad (insn_op insn) = false /\ fp_mem s insn = None).
  { unfold fp_mem. destruct (insn_op insn); try (by split); discriminate Hd. }
  destruct Hq as [Hq Hm]. unfold exec_fp. rewrite Hq. unfold mbind, exec_bind, ebind, get.
  rewrite Hrm, Hm, Hw. unfold modify. cbn. do 2 f_equal. rewrite fp_write_agrees.
  destruct w as [v f|v f|v f|v f]; cbn [write_value write_int fp_raw fst snd fp_write_wf] in *;
    [done|..]; subst fmt; do 2 f_equal.
  - destruct Hwf as [|Hv]; [done|]. apply box_h_eq, Hv.
  - destruct Hwf as [|Hv]; [done|]. apply box_s_eq, Hv.
Qed.

(** One with an integer result writes it to an integer register. *)
Lemma fp_retires_int s insn pc rm v f :
  eval_excludes (insn_op insn) = false ->
  (if fp_no_rm (insn_op insn) then Some Rne else eff_rm s (insn_funct3 insn)) = Some rm ->
  fp_value s insn rm = Some (ToX v f) ->
  exec_fp insn pc s =
    (Ok RiscVExit.Continue,
     set_c_fcsr (Z.lor (c_fcsr s) (Z.land f 0x1f)) (set_x (insn_rd insn) v s)).
Proof.
  intros He Hrm Hw. rewrite exec_fp_value, Hrm, Hw by done. by rewrite fp_write_agrees.
Qed.
End Retire.

(** ** Arithmetic *)

(** What an operation of the arithmetic unit promises of its three operands. *)
Abbreviation fp_promise := (RoundingMode -> datum -> datum -> datum -> Z * Z -> Prop).

Definition promise_mul (fmt : Fmt.t) : fp_promise := fun m x y _ => ieee_mul fmt m 0 x y.
Definition promise_div (fmt : Fmt.t) : fp_promise := fun m x y _ => ieee_div fmt m 0 x y.
Definition promise_sqrt (fmt : Fmt.t) : fp_promise := fun m x _ _ => ieee_sqrt fmt m 0 x.
Definition promise_add (fmt : Fmt.t) : fp_promise := fun m x y _ => ieee_add fmt m 0 x y.
Definition promise_sub (fmt : Fmt.t) : fp_promise := fun m x y _ => ieee_add fmt m 0 x (neg_datum y).
Definition promise_convert (fmt : Fmt.t) : fp_promise := fun m x _ _ => ieee_convert fmt m 0 x.
(** [(-1)^n * x * y + (-1)^k * z], rounded once. *)
Definition promise_fma (n k : bool) (fmt : Fmt.t) : fp_promise := fun m x y z =>
  ieee_fma fmt m 0 (if n then neg_datum x else x) y (if k then neg_datum z else z).

(** The operations of the software-float engine: the formats of their operands
    and result, and the promise. *)
Definition fp_arith (op : Op) : option (Fmt.t * Fmt.t * fp_promise) :=
  match op with
  | FmulS => Some (F32, F32, promise_mul F32)
  | FmulD => Some (F64, F64, promise_mul F64)
  | FmulH => Some (F16, F16, promise_mul F16)
  | FdivS => Some (F32, F32, promise_div F32)
  | FdivD => Some (F64, F64, promise_div F64)
  | FdivH => Some (F16, F16, promise_div F16)
  | FsqrtS => Some (F32, F32, promise_sqrt F32)
  | FsqrtD => Some (F64, F64, promise_sqrt F64)
  | FsqrtH => Some (F16, F16, promise_sqrt F16)
  | FmaddS => Some (F32, F32, promise_fma false false F32)
  | FmaddD => Some (F64, F64, promise_fma false false F64)
  | FmaddH => Some (F16, F16, promise_fma false false F16)
  | FmsubS => Some (F32, F32, promise_fma false true F32)
  | FmsubD => Some (F64, F64, promise_fma false true F64)
  | FmsubH => Some (F16, F16, promise_fma false true F16)
  | FnmsubS => Some (F32, F32, promise_fma true false F32)
  | FnmsubD => Some (F64, F64, promise_fma true false F64)
  | FnmsubH => Some (F16, F16, promise_fma true false F16)
  | FnmaddS => Some (F32, F32, promise_fma true true F32)
  | FnmaddD => Some (F64, F64, promise_fma true true F64)
  | FnmaddH => Some (F16, F16, promise_fma true true F16)
  | FaddH => Some (F16, F16, promise_add F16)
  | FsubH => Some (F16, F16, promise_sub F16)
  | FcvtSH => Some (F16, F32, promise_convert F32)
  | FcvtDH => Some (F16, F64, promise_convert F64)
  | FcvtHS => Some (F32, F16, promise_convert F16)
  | FcvtHD => Some (F64, F16, promise_convert F16)
  | _ => None
  end.

Section Arith.
Context {M : Type} `{MemoryLaws M}.
Implicit Types (s : RiscVCpu M) (insn : Insn).

#[local] Hint Resolve sf_mul_ieee sf_div_ieee sf_sqrt_ieee sf_fma_ieee sf_add_ieee sf_sub_ieee
  fcvt_round_ieee : fpwf.

Lemma fp_arith_value s insn rm src dst promise :
  (forall i, fits 64 (get_f s i)) -> fp_arith (insn_op insn) = Some (src, dst, promise) ->
  exists w, fp_value s insn rm = Some w
    /\ promise rm (boxed_datum src (get_f s (insn_rs1 insn)))
         (boxed_datum src (get_f s (insn_rs2 insn))) (boxed_datum src (get_f s (insn_rs3 insn)))
         (fp_raw w).
Proof.
  intros Hg. pose proof (fun i => double_datum _ (Hg i)) as Hd.
  assert (Hg' : forall i, fits (Fmt.width F64) (get_f s i)) by exact Hg.
  unfold fp_value, or_else, fp_arith_s, fp_arith_d, fp_sgnj, fp_select,
    fp_convert, fp_zfa, fp_arith_h, fp_select_h, fp_convert_h, to_16, to_32, to_64, fp_arith.
  destruct (insn_op insn); intros Ha; try (exact (False_ind _ (eq_ind None
    (fun o => match o with Some _ => False | None => True end) I _ Ha))).
  all: injection Ha as <- <- <-; cbv zeta; eexists; split; [reflexivity|].
  all: unfold fp_raw, promise_mul, promise_div, promise_sqrt, promise_add, promise_sub, promise_convert,
    promise_fma, s32, rf32, h, rf16; rewrite <- surjective_pairing.
  all: rewrite <- ?unbox_s_datum, <- ?unbox_h_datum, <- ?Hd, <- ?neg32_datum, <- ?neg64_datum,
    <- ?neg16_datum.
  all: auto 8 with fpwf. rewrite neg16_datum. auto with fpwf.
Qed.
End Arith.

(** ** Addition of singles and doubles *)

(** A rounding of the sum of two data, with its flags but for an overflow flag
    that may be raised early. *)
Definition promise_sum (fmt : Fmt.t) (m : RoundingMode) (x y : datum) (r : Z * Z) : Prop :=
  exists f, ieee_add fmt m 0 x y (r.1, f) /\ (r.2 = f \/ r.2 = Z.lor f fflags.OF).

(** The operations that add or subtract host floats, and whether they subtract. *)
Definition fp_addition (op : Op) : option (Fmt.t * bool) :=
  match op with
  | FaddS => Some (F32, false)
  | FsubS => Some (F32, true)
  | FaddD => Some (F64, false)
  | FsubD => Some (F64, true)
  | _ => None
  end.

(** The magnitude of the largest finite number. *)
Definition is_largest (fmt : Fmt.t) (d : datum) : Prop :=
  exists s, d = Finite s (mag_val fmt (inf_mag fmt - 1)).

Lemma not_largest fmt b :
  fmt_ok fmt -> ~ is_largest fmt (interp fmt b) -> Sf.mag fmt b <> inf_mag fmt - 1.
Proof.
  intros Hf Hl E. apply Hl. rewrite (interp_tests fmt). unfold Sf.is_nan, Sf.is_infinite, Sf.is_zero.
  rewrite E. pose proof (inf_range fmt Hf). pose proof (pow_mb_pos fmt Hf).
  pose proof (max_field_range fmt Hf). assert (1 < inf_mag fmt) by (unfold inf_mag; nia).
  destruct (Z.ltb_spec (inf_mag fmt) (inf_mag fmt - 1)); [lia|].
  destruct (Z.eqb_spec (inf_mag fmt - 1) (inf_mag fmt)); [lia|].
  destruct (Z.eqb_spec (inf_mag fmt - 1) 0); [lia|]. by eexists.
Qed.

Lemma add_promise fmt a b m :
  host_fmt fmt -> fits (Fmt.width fmt) a -> fits (Fmt.width fmt) b ->
  ~ is_largest fmt (interp fmt b) ->
  promise_sum fmt m (interp fmt a) (interp fmt b) (add fmt a b m 0).
Proof.
  intros Hf Ha Hb Hl. apply not_largest in Hl; [|by apply host_fmt_ok].
  destruct (add_ieee fmt Hf a b m 0 Ha Hb Hl) as (f & Hr & [E|[_ E]]); exists f; auto.
Qed.

Lemma sub_promise fmt a b m :
  host_fmt fmt -> fits (Fmt.width fmt) a -> fits (Fmt.width fmt) b ->
  ~ is_largest fmt (interp fmt b) ->
  promise_sum fmt m (interp fmt a) (neg_datum (interp fmt b)) (sub fmt a b m 0).
Proof.
  intros Hf Ha Hb Hl. pose proof (host_fmt_ok fmt Hf) as Hok.
  assert (En : interp fmt (Sf.neg fmt b) = neg_datum (interp fmt b)).
  { rewrite <- interp_neg by done. unfold Sf.neg. by rewrite sign_bit_eq. }
  unfold sub. rewrite <- En. apply add_promise; [done|done|by apply fits_neg|].
  rewrite En. intros [s E]. apply Hl. exists (negb s).
  destruct (interp fmt b) as [?|?|?|t x]; try discriminate E. cbn in E. injection E as <- ->.
  by rewrite negb_involutive.
Qed.

(** ** Comparison *)

(** The order of the data that are not NaN: the infinities are outermost. *)
Definition datum_rank (d : datum) : Z := match d with Inf true => -1 | Inf false => 1 | _ => 0 end.
Definition datum_real (d : datum) : R := match d with Finite s x => signed s x | _ => 0%R end.
Definition datum_lt (x y : datum) : Prop :=
  datum_rank x < datum_rank y
  \/ (datum_rank x = datum_rank y /\ (datum_real x < datum_real y)%R).
Definition datum_eq (x y : datum) : Prop :=
  datum_rank x = datum_rank y /\ datum_real x = datum_real y.

Inductive Comparison : Type := CmpEq | CmpLt | CmpLe.
Definition compares (c : Comparison) (x y : datum) : Prop :=
  match c with
  | CmpEq => datum_eq x y
  | CmpLt => datum_lt x y
  | CmpLe => datum_lt x y \/ datum_eq x y
  end.
Definition is_NaN (d : datum) : bool := match d with NaN _ => true | _ => false end.

(** The result of a comparison, that raises the invalid flag on every NaN when
    it is a signaling one, and on signaling NaNs otherwise. *)
Definition promise_compare (c : Comparison) (signals : bool) (x y : datum) (r : bool * Z) : Prop :=
  if is_NaN x || is_NaN y
  then r = (false, raise_if (signals || is_signaling x || is_signaling y) fflags.NV 0)
  else (r.1 = true <-> compares c x y) /\ r.2 = 0.

Section Compare.
Variable fmt : Fmt.t.
Hypothesis Hhost : host_fmt fmt.
Let Hfmt : fmt_ok fmt := host_fmt_ok fmt Hhost.

Abbreviation inf := (inf_mag fmt).
Abbreviation U := (mag_units fmt).
Abbreviation val X := (IZR X * bpow (emin fmt))%R.

(** The datum of a number that is not NaN, from its units: the infinities are at
    [U inf], the power of two after the largest number. *)
Lemma number_datum x :
  number fmt x ->
  is_NaN (interp fmt x) = false
  /\ datum_rank (interp fmt x) =
       (if units fmt x =? U inf then 1 else if units fmt x =? - U inf then -1 else 0)
  /\ (datum_rank (interp fmt x) = 0 ->
      datum_real (interp fmt x) = val (units fmt x) /\ Z.abs (units fmt x) < U inf).
Proof.
  intros Hx. destruct (number_inv fmt Hfmt x Hx) as (s & n & -> & Hn).
  pose proof (inf_lt_width fmt Hfmt). pose proof (mag_units_0 fmt Hfmt) as U0.
  rewrite (units_pat fmt Hfmt) by lia. rewrite (interp_tests fmt).
  unfold Sf.is_nan, Sf.is_infinite, Sf.is_zero.
  rewrite mag_signed_pat, sign_signed_pat by (done || lia).
  assert (HU : n < inf -> 0 <= U n < U inf).
  { intros Hlt. split; [apply (mag_units_nonneg fmt Hfmt); lia|apply (mag_units_lt fmt Hfmt); lia]. }
  pose proof (mag_units_lt fmt Hfmt 0 inf ltac:(lia) ltac:(pose proof (inf_range fmt Hfmt);
    pose proof (pow_mb_pos fmt Hfmt); pose proof (max_field_range fmt Hfmt); unfold inf_mag; nia)).
  destruct (Z.ltb_spec inf n); [lia|]. destruct (Z.eqb_spec n inf) as [->|Hi].
  - split; [done|]. split; [|by destruct s].
    destruct s; repeat match goal with |- context [?a =? ?b] => destruct (Z.eqb_spec a b) end; (done || lia).
  - specialize (HU ltac:(lia)). destruct (Z.eqb_spec n 0) as [->|Hn0].
    + split; [done|]. rewrite U0. change (if s then - 0 else 0) with (if s then 0 else 0).
      destruct s; (split; [repeat match goal with |- context [?a =? ?b] =>
        destruct (Z.eqb_spec a b) end; (done || lia)|]); intros _; (split; [cbn; ring|lia]).
    + split; [done|]. split.
      * destruct s; repeat match goal with |- context [?a =? ?b] => destruct (Z.eqb_spec a b) end;
          (done || lia).
      * intros _. cbn [datum_real]. rewrite (magval fmt Hfmt) by lia.
        destruct s; (split; [unfold signed; rewrite ?opp_IZR; ring|lia]).
Qed.

Lemma rank_real d : datum_rank d <> 0 -> datum_real d = 0%R.
Proof. by destruct d as [?|[]|?|? ?]. Qed.

Lemma units_bound x : number fmt x -> Z.abs (units fmt x) <= U inf /\ 0 < U inf.
Proof.
  intros Hx. destruct (number_inv fmt Hfmt x Hx) as (s & n & -> & Hn).
  rewrite (units_pat fmt Hfmt) by lia. pose proof (U_le fmt Hfmt n inf ltac:(lia) ltac:(lia)).
  pose proof (mag_units_nonneg fmt Hfmt n ltac:(lia)). pose proof (mag_units_0 fmt Hfmt).
  pose proof (mag_units_lt fmt Hfmt 0 inf ltac:(lia) ltac:(pose proof (inf_range fmt Hfmt);
    pose proof (pow_mb_pos fmt Hfmt); pose proof (max_field_range fmt Hfmt); unfold inf_mag; nia)).
  destruct s; lia.
Qed.

(** Units order the numbers as their data are ordered. *)
Lemma datum_order a b :
  number fmt a -> number fmt b ->
  (datum_lt (interp fmt a) (interp fmt b) <-> units fmt a < units fmt b)
  /\ (datum_eq (interp fmt a) (interp fmt b) <-> units fmt a = units fmt b).
Proof.
  intros Ha Hb. destruct (number_datum a Ha) as (_ & Ra & Va).
  destruct (number_datum b Hb) as (_ & Rb & Vb). unfold datum_lt, datum_eq.
  destruct (units_bound a Ha), (units_bound b Hb).
  pose proof (rank_real (interp fmt a)) as Za. pose proof (rank_real (interp fmt b)) as Zb.
  destruct (decide (datum_rank (interp fmt a) = 0)) as [E|E];
    destruct (decide (datum_rank (interp fmt b) = 0)) as [E'|E'].
  - destruct (Va E) as [-> ?], (Vb E') as [-> ?]. rewrite E, E', val_lt, val_inj. lia.
  - rewrite E. destruct (Va E) as [_ ?]. rewrite Rb in *.
    destruct (Z.eqb_spec (units fmt b) (U inf)), (Z.eqb_spec (units fmt b) (- U inf)); lia.
  - rewrite E'. destruct (Vb E') as [_ ?]. rewrite Ra in *.
    destruct (Z.eqb_spec (units fmt a) (U inf)), (Z.eqb_spec (units fmt a) (- U inf)); lia.
  - rewrite (Za E), (Zb E'). pose proof (Rlt_irrefl 0). rewrite Ra, Rb in *.
    destruct (Z.eqb_spec (units fmt a) (U inf)), (Z.eqb_spec (units fmt a) (- U inf)),
      (Z.eqb_spec (units fmt b) (U inf)), (Z.eqb_spec (units fmt b) (- U inf)); try lia; intuition lia.
Qed.

Lemma compare_promise c signals a b (t : bool) r :
  fits (Fmt.width fmt) a -> fits (Fmt.width fmt) b ->
  (Sf.is_nan fmt a || Sf.is_nan fmt b = false ->
   t = match c with CmpEq => Sf.eq fmt a b | CmpLt => Sf.lt fmt a b | CmpLe => Sf.le fmt a b end) ->
  r = (if Sf.is_nan fmt a || Sf.is_nan fmt b
       then (false, raise_if (signals || Sf.signaling_nan fmt a || Sf.signaling_nan fmt b) fflags.NV 0)
       else (t, 0)) ->
  promise_compare c signals (interp fmt a) (interp fmt b) r.
Proof.
  intros Ha Hb Ht ->. unfold promise_compare.
  assert (Hn : forall x, is_NaN (interp fmt x) = Sf.is_nan fmt x
    /\ is_signaling (interp fmt x) = Sf.signaling_nan fmt x).
  { intros x. rewrite (interp_tests fmt). unfold Sf.signaling_nan. destruct (Sf.is_nan fmt x); [done|].
    by destruct (Sf.is_infinite fmt x), (Sf.is_zero fmt x). }
  destruct (Hn a) as [-> ->], (Hn b) as [-> ->].
  destruct (_ || Sf.is_nan fmt b) eqn:En; [done|]. apply orb_false_iff in En as En'.
  destruct En' as [Na Nb]. rewrite Ht by done. split; [|done]. cbn [fst].
  assert (Hna : number fmt a) by (split; [done|]; unfold Sf.is_nan in Na; lia).
  assert (Hnb : number fmt b) by (split; [done|]; unfold Sf.is_nan in Nb; lia).
  destruct (datum_order a b Hna Hnb) as [Hlt Heq]. destruct c; unfold compares.
  - by rewrite (eq_units fmt Hfmt), Z.eqb_eq, Heq.
  - by rewrite (lt_units fmt Hfmt), Z.ltb_lt, Hlt.
  - rewrite (le_units fmt Hfmt), Z.leb_le, Heq, Hlt by done. lia.
Qed.

Lemma feq_promise a b : fits (Fmt.width fmt) a -> fits (Fmt.width fmt) b ->
  promise_compare CmpEq false (interp fmt a) (interp fmt b) (feq fmt a b 0).
Proof.
  intros Ha Hb. eapply compare_promise; [done|done|by intros _|]. unfold feq, either_snan, Sf.signaling_nan.
  by destruct (Sf.is_nan fmt a), (Sf.is_nan fmt b).
Qed.
Lemma flt_promise a b : fits (Fmt.width fmt) a -> fits (Fmt.width fmt) b ->
  promise_compare CmpLt true (interp fmt a) (interp fmt b) (flt fmt a b 0).
Proof. intros Ha Hb. eapply compare_promise; [done|done|by intros _|]. done. Qed.
Lemma fle_promise a b : fits (Fmt.width fmt) a -> fits (Fmt.width fmt) b ->
  promise_compare CmpLe true (interp fmt a) (interp fmt b) (fle fmt a b 0).
Proof. intros Ha Hb. eapply compare_promise; [done|done|by intros _|]. done. Qed.
Lemma fltq_promise a b : fits (Fmt.width fmt) a -> fits (Fmt.width fmt) b ->
  promise_compare CmpLt false (interp fmt a) (interp fmt b) (fltq fmt a b 0).
Proof.
  intros Ha Hb. eapply compare_promise; [done|done|by intros _|]. unfold fltq, either_snan, Sf.signaling_nan.
  by destruct (Sf.is_nan fmt a), (Sf.is_nan fmt b).
Qed.
Lemma fleq_promise a b : fits (Fmt.width fmt) a -> fits (Fmt.width fmt) b ->
  promise_compare CmpLe false (interp fmt a) (interp fmt b) (fleq fmt a b 0).
Proof.
  intros Ha Hb. eapply compare_promise; [done|done|by intros _|]. unfold fleq, either_snan, Sf.signaling_nan.
  by destruct (Sf.is_nan fmt a), (Sf.is_nan fmt b).
Qed.
End Compare.
