(* ===== verification/RvVec.v ===== *)
(** * Vector elements and their arithmetic

    The element accessors of the vector engine and the functions it applies to
    elements (src/isa/riscv/cpu.rs).  An element width [eb] is in bytes, 1, 2, 4
    or 8; element indices are far below the width of [usize]. *)

From S2P Require Import Prelude RvIsa RvOp RvMemory RvFloat RvHostFloat RvFloatOps RvAlu RvState RvFp.

(** ** Arithmetic on elements *)

Definition sew_mask (eb : Z) : Z := if 8 <=? eb then umax 64 else wshl 64 1 (eb * 8) - 1.

(** The element [val] of [eb] bytes as a signed number. *)
Definition sext_sew (val eb : Z) : Z :=
  let shift := 64 - eb * 8 in
  if shift =? 0 then as_i64 val else wsar 64 (as_i64 (wshl 64 val shift)) shift.

Definition th_vdot_byte (v : Z) (signed : bool) : Z := if signed then as_i8 v else v.

(** The rounding increment of a right shift by [d] of a 128-bit value. *)
Definition round_incr (bits d vxrm : Z) : Z :=
  if d =? 0 then 0
  else
    let bit i := Z.land (wshr 128 bits i) 1 in
    let lown n := negb (Z.land bits (wshl 128 1 n - 1) =? 0) in
    match vxrm with
    | 0 => bit (d - 1)
    | 1 => Z.land (bit (d - 1)) (Z.lor (bit d) (of_bool ((2 <=? d) && lown (d - 1))))
    | 2 => 0
    | _ => Z.land (1 - bit d) (of_bool (lown d))
    end.

Definition vmulh_u (a b bits : Z) : Z := as_u64 (Z.shiftr (wmul 128 a b) bits).
Definition vmulh_s (a b eb bits : Z) : Z :=
  as_u64 (Z.shiftr (as_i 128 (sext_sew a eb * sext_sew b eb)) bits).
Definition vmulh_su (a b eb bits : Z) : Z :=
  as_u64 (Z.shiftr (as_i 128 (sext_sew a eb * b)) bits).

Definition vdiv_sew (a b eb bits : Z) (rem : bool) : Z :=
  let sa := sext_sew a eb in
  let sb := sext_sew b eb in
  let min := as_i64 (Z.shiftl (-1) (bits - 1)) in
  if sb =? 0 then if rem then as_u64 sa else as_u64 (-1)
  else if (sa =? min) && (sb =? -1) then if rem then 0 else as_u64 min
  else if rem then as_u64 (Z.rem sa sb)
  else as_u64 (Z.quot sa sb).

(** ** Floating-point elements *)

Definition fmt_eb (eb : Z) : Fmt.t :=
  match eb with 2 => F16 | 4 => F32 | _ => F64 end.

(** A binary operation; [None] where the source is [unreachable!()]. *)
Definition vfp_bin (op : Op) (eb a b : Z) (rm : RoundingMode) (flags : Z) : option (Z * Z) :=
  let '(x, y) := match op with Vfrsub | Vfrdiv => (b, a) | _ => (a, b) end in
  match op with
  | Vfadd =>
      Some (match eb with
            | 2 => sf_add F16 x y rm flags
            | 4 => add F32 (as_u32 x) (as_u32 y) rm flags
            | _ => add F64 x y rm flags
            end)
  | Vfsub | Vfrsub =>
      Some (match eb with
            | 2 => sf_sub F16 x y rm flags
            | 4 => sub F32 (as_u32 x) (as_u32 y) rm flags
            | _ => sub F64 x y rm flags
            end)
  | Vfmul => Some (sf_mul (fmt_eb eb) x y rm flags)
  | Vfdiv | Vfrdiv => Some (sf_div (fmt_eb eb) x y rm flags)
  | Vfmin =>
      Some (match eb with
            | 2 => fmin_h (as_u16 x) (as_u16 y) flags
            | 4 => fmin F32 (as_u32 x) (as_u32 y) flags
            | _ => fmin F64 x y flags
            end)
  | Vfmax =>
      Some (match eb with
            | 2 => fmax_h (as_u16 x) (as_u16 y) flags
            | 4 => fmax F32 (as_u32 x) (as_u32 y) flags
            | _ => fmax F64 x y flags
            end)
  | Vfsgnj | Vfsgnjn | Vfsgnjx =>
      let sb := wshl 64 1 (eb * 8 - 1) in
      let sign :=
        match op with
        | Vfsgnj => Z.land y sb
        | Vfsgnjn => Z.land (wnot 64 y) sb
        | _ => Z.land (Z.lxor x y) sb
        end in
      Some (Z.lor (Z.land x (sb - 1)) sign, flags)
  | _ => None
  end.

(** The eight fused multiply-adds. *)
Definition vfp_fma (op : Op) (eb src vs2 vd : Z) (rm : RoundingMode) (flags : Z) : option (Z * Z) :=
  let neg x := Z.lxor x (wshl 64 1 (eb * 8 - 1)) in
  let fma a b c := Some (sf_fma (fmt_eb eb) a b c rm flags) in
  match op with
  | Vfmacc => fma src vs2 vd
  | Vfnmacc => fma (neg src) vs2 (neg vd)
  | Vfmsac => fma src vs2 (neg vd)
  | Vfnmsac => fma (neg src) vs2 vd
  | Vfmadd => fma src vd vs2
  | Vfnmadd => fma (neg src) vd (neg vs2)
  | Vfmsub => fma src vd (neg vs2)
  | Vfnmsub => fma (neg src) vd vs2
  | _ => None
  end.

Definition vfp_cmp (op : Op) (eb a b : Z) (flags : Z) : option (bool * Z) :=
  let '(x, y) := match op with Vmfgt | Vmfge => (b, a) | _ => (a, b) end in
  let eq :=
    match eb with
    | 2 => feq_h (as_u16 x) (as_u16 y) flags
    | 4 => feq F32 (as_u32 x) (as_u32 y) flags
    | _ => feq F64 x y flags
    end in
  let lt :=
    match eb with
    | 2 => flt_h (as_u16 x) (as_u16 y) flags
    | 4 => flt F32 (as_u32 x) (as_u32 y) flags
    | _ => flt F64 x y flags
    end in
  let le :=
    match eb with
    | 2 => fle_h (as_u16 x) (as_u16 y) flags
    | 4 => fle F32 (as_u32 x) (as_u32 y) flags
    | _ => fle F64 x y flags
    end in
  match op with
  | Vmfeq => Some eq
  | Vmfne => Some (negb (fst eq), snd eq)
  | Vmflt | Vmfgt => Some lt
  | Vmfle | Vmfge => Some le
  | _ => None
  end.

(** ** Element access *)

Section Elements.
Context {M : Type} `{Memory M}.
Abbreviation Hart := (RiscVCpu M).
Implicit Types (s : Hart) (insn : Insn).

Definition sew_bytes s : Z := wshl 64 1 (Z.land (wshr 64 (c_vtype s) 3) 0x7).

Definition vlmax_elems s : Z :=
  let sew := wshl 64 8 (Z.land (wshr 64 (c_vtype s) 3) 0x7) in
  match Z.land (c_vtype s) 0x7 with
  | 0 => VLEN / sew
  | 1 => VLEN * 2 / sew
  | 2 => VLEN * 4 / sew
  | 3 => VLEN * 8 / sew
  | 5 => VLEN / 8 / sew
  | 6 => VLEN / 4 / sew
  | 7 => VLEN / 2 / sew
  | _ => 0
  end.

(** Element [e] of [eb] bytes of the group that starts at register [vreg]; the
    8-byte buffer of the source cannot hold a wider one. *)
Definition velem (vreg e eb : Z) : exec Hart Trap Z :=
  s ← get;
  let off := vreg * VLENB + e * eb in
  if off + eb <=? Z.of_nat (length (c_v s)) then
    if eb <=? 8
    then eret (from_le_bytes (take (Z.to_nat eb) (drop (Z.to_nat off) (c_v s))))
    else panic
  else eret 0.

Definition set_velem (vreg e eb val : Z) : exec Hart Trap unit :=
  s ← get;
  let off := vreg * VLENB + e * eb in
  if off + eb <=? Z.of_nat (length (c_v s)) then
    if eb <=? 8
    then modify (set_c_v (take (Z.to_nat off) (c_v s) ++ to_le_bytes (Z.to_nat eb) val
                          ++ drop (Z.to_nat off + Z.to_nat eb) (c_v s)))
    else panic
  else eret tt.

(** Mask bit [e] of [v0]; an index past the register file panics. *)
Definition vmask_bit (e : Z) : exec Hart Trap bool :=
  s ← get;
  b ← expect (c_v s !! Z.to_nat (e / 8));
  eret (negb (Z.land (wshr 8 b (e mod 8)) 1 =? 0)).

Definition vbit s (vreg e : Z) : bool :=
  match c_v s !! Z.to_nat (vreg * VLENB + e / 8) with
  | Some b => negb (Z.land (wshr 8 b (e mod 8)) 1 =? 0)
  | None => false
  end.

Definition set_vmask_bit (vreg e : Z) (val : bool) s : Hart :=
  let byte := Z.to_nat (vreg * VLENB + e / 8) in
  match c_v s !! byte with
  | Some b =>
      let m := wshl 8 1 (e mod 8) in
      set_c_v (<[byte := if val then Z.lor b m else Z.land b (wnot 8 m)]> (c_v s)) s
  | None => s
  end.

(** ** Loops over the body elements *)

(** [for e in l { acc = body(e, acc)?; }]. *)
Fixpoint fold_elems {A} (l : list Z) (body : Z -> A -> exec Hart Trap A) (acc : A) :
    exec Hart Trap A :=
  match l with
  | [] => eret acc
  | e :: l => acc ← body e acc; fold_elems l body acc
  end.

(** [start..stop]. *)
Definition range (start stop : Z) : list Z := seqZ start (stop - start).

(** [if !vm && !self.vmask_bit(e) { continue; }]. *)
Definition if_active {A} (vm : bool) (body : Z -> A -> exec Hart Trap A) (e : Z) (acc : A) :
    exec Hart Trap A :=
  on ← (if vm then eret true else vmask_bit e);
  if (on : bool) then body e acc else eret acc.

(** The loop over the active body elements, with or without an accumulator. *)
Definition fold_active {A} (vm : bool) (start stop : Z) (acc : A)
    (body : Z -> A -> exec Hart Trap A) : exec Hart Trap A :=
  fold_elems (range start stop) (if_active vm body) acc.
Definition for_active (vm : bool) (start stop : Z) (body : Z -> exec Hart Trap unit) :
    exec Hart Trap unit :=
  fold_active vm start stop tt (fun e _ => body e).
(** The loop over all body elements. *)
Definition for_body (start stop : Z) (body : Z -> exec Hart Trap unit) : exec Hart Trap unit :=
  fold_elems (range start stop) (fun e _ => body e) tt.

(** ** Operands *)

(** The scalar of the integer forms: a register, an immediate or none. *)
Definition int_scalar s insn (mask : Z) : Z :=
  match insn_funct3 insn with
  | 4 => Z.land (get_x s (insn_rs1 insn)) mask
  | 3 => Z.land (sext5 (insn_rs1 insn)) mask
  | _ => 0
  end.

(** The scalar of the forms that do not extend their immediate. *)
Definition uint_scalar s insn : Z :=
  match insn_funct3 insn with
  | 4 => get_x s (insn_rs1 insn)
  | 3 => insn_rs1 insn
  | _ => 0
  end.

(** The scalar of the floating-point forms. *)
Definition fp_scalar s insn (eb : Z) : Z :=
  match eb with
  | 2 => h s (insn_rs1 insn)
  | 4 => s32 s (insn_rs1 insn)
  | _ => get_f s (insn_rs1 insn)
  end.

(** The second operand: element [e] of [vs1] in the vector forms. *)
Definition src1 insn (vv : bool) (scalar e eb : Z) : exec Hart Trap Z :=
  if vv then velem (insn_rs1 insn) e eb else eret scalar.

(** [RoundingMode::from_bits(self.frm()).unwrap_or(Rne)]. *)
Definition vec_rm s : RoundingMode := default Rne (rm_from_bits (frm s)).

Definition v_illegal {A} insn : exec Hart Trap A := throw (trap_illegal (insn_raw insn)).
End Elements.
