(* ===== verification/RvVecCheck.v ===== *)
(** * Validation of vector encodings and register groups

    src/isa/riscv/cpu/vector_validation.rs: the checks that run before the vector
    engine changes any state. *)

From S2P Require Import Prelude RvIsa RvOp RvMemory RvState RvFp RvVec.

(** ** Effective group multipliers *)

Module Emul.
Record t : Type := mk { numerator : Z; denominator : Z }.

(** The loop of [Emul::new], which halves while both are even; seven
    iterations exhaust a nonzero [u8]. *)
Fixpoint reduce (fuel : nat) (n d : Z) : t :=
  match fuel with
  | O => mk n d
  | S fuel => if (n mod 2 =? 0) && (d mod 2 =? 0) then reduce fuel (n / 2) (d / 2) else mk n d
  end.
Definition new (n d : Z) : t := reduce 8 n d.

Definition from_vtype (vtype : Z) : option t :=
  match Z.land vtype 0x7 with
  | 0 => Some (new 1 1)
  | 1 => Some (new 2 1)
  | 2 => Some (new 4 1)
  | 3 => Some (new 8 1)
  | 5 => Some (new 1 8)
  | 6 => Some (new 1 4)
  | 7 => Some (new 1 2)
  | _ => None
  end.

Definition widen (self : t) : t := new (wmul 8 (numerator self) 2) (denominator self).
Definition narrow (self : t) (factor : Z) : t :=
  new (numerator self) (wmul 8 (denominator self) factor).
Definition is_at_least_one (self : t) : bool := denominator self <=? numerator self.
End Emul.

(** ** Register groups *)

Module RegisterGroup.
Record t : Type := mk { first : Z; count : Z }.

Definition for_emul (first : Z) (emul : Emul.t) : option t :=
  let n := Emul.numerator emul in
  let d := Emul.denominator emul in
  if (8 * d <? n) || (8 * n <? d) then None
  else
    count ← (if n <? d then Some 1 else if negb (n mod d =? 0) then None else Some (n / d));
    if negb (first mod count =? 0) then None
    else if 255 <? first + count then None
    else if 32 <? first + count then None
    else Some (mk first count).

Definition overlaps (self other : t) : bool :=
  (first self <? wadd 8 (first other) (count other))
  && (first other <? wadd 8 (first self) (count self)).

Definition last (self : t) : Z := wsub 8 (wadd 8 (first self) (count self)) 1.
End RegisterGroup.

(** ** Checks *)

Section Check.
Context {M : Type} `{Memory M}.
Abbreviation Hart := (RiscVCpu M).
Implicit Types (s : Hart) (insn : Insn).

(** [o.ok_or_else(|| illegal(insn))?] and [if c { return Err(illegal(insn)); }]. *)
Definition or_illegal {A} insn (o : option A) : exec Hart Trap A :=
  match o with Some a => eret a | None => v_illegal insn end.
Definition reject insn (c : bool) : exec Hart Trap unit :=
  if c then v_illegal insn else eret tt.

Definition current_lmul insn : exec Hart Trap Emul.t :=
  s ← get; or_illegal insn (Emul.from_vtype (c_vtype s)).

Definition group insn (first : Z) (emul : Emul.t) : exec Hart Trap RegisterGroup.t :=
  or_illegal insn (RegisterGroup.for_emul first emul).

Definition same_width_group insn (first : Z) : exec Hart Trap RegisterGroup.t :=
  lmul ← current_lmul insn; group insn first lmul.

Definition validate_slide_up insn : exec Hart Trap unit :=
  destination ← same_width_group insn (insn_rd insn);
  source ← same_width_group insn (insn_rs2 insn);
  reject insn (RegisterGroup.overlaps destination source).

Definition validate_narrowing insn : exec Hart Trap unit :=
  lmul ← current_lmul insn;
  destination ← group insn (insn_rd insn) lmul;
  source ← group insn (insn_rs2 insn) (Emul.widen lmul);
  reject insn (RegisterGroup.overlaps destination source
    && negb (RegisterGroup.first destination =? RegisterGroup.first source)).

Definition validate_wider_destination_overlap insn (destination source : RegisterGroup.t)
    (source_emul : Emul.t) : exec Hart Trap unit :=
  reject insn (RegisterGroup.overlaps destination source
    && (negb (Emul.is_at_least_one source_emul)
        || negb (RegisterGroup.last destination =? RegisterGroup.last source))).

Definition validate_widening_data insn (wide_vs2 vector_vs1 destination_is_source : bool) :
    exec Hart Trap unit :=
  narrow_emul ← current_lmul insn;
  let wide_emul := Emul.widen narrow_emul in
  destination ← group insn (insn_rd insn) wide_emul;
  let vs2_emul := if wide_vs2 then wide_emul else narrow_emul in
  vs2 ← group insn (insn_rs2 insn) vs2_emul;
  (if wide_vs2 then eret tt
   else
     reject insn (destination_is_source && RegisterGroup.overlaps destination vs2);;
     validate_wider_destination_overlap insn destination vs2 vs2_emul);;
  if vector_vs1 then
    vs1 ← group insn (insn_rs1 insn) narrow_emul;
    reject insn ((destination_is_source && RegisterGroup.overlaps destination vs1)
                 || (wide_vs2 && RegisterGroup.overlaps vs2 vs1));;
    validate_wider_destination_overlap insn destination vs1 narrow_emul
  else eret tt.

Definition validate_extension insn (factor : Z) : exec Hart Trap unit :=
  destination_emul ← current_lmul insn;
  let source_emul := Emul.narrow destination_emul factor in
  destination ← group insn (insn_rd insn) destination_emul;
  source ← group insn (insn_rs2 insn) source_emul;
  validate_wider_destination_overlap insn destination source source_emul.

Definition validate_reduction_source_group insn : exec Hart Trap unit :=
  lmul ← current_lmul insn; _ ← group insn (insn_rs2 insn) lmul; eret tt.

Definition validate_reduction insn : exec Hart Trap unit :=
  s ← get;
  reject insn (negb (c_vstart s =? 0));;
  validate_reduction_source_group insn.

Definition validate_same_width_integer_alu insn (vector_vector_funct3 : Z) : exec Hart Trap unit :=
  _ ← same_width_group insn (insn_rd insn);
  _ ← same_width_group insn (insn_rs2 insn);
  if insn_funct3 insn =? vector_vector_funct3
  then _ ← same_width_group insn (insn_rs1 insn); eret tt
  else eret tt.

(** The group of the 16-bit indices of [vrgatherei16]. *)
Definition gather_index_group insn : exec Hart Trap RegisterGroup.t :=
  s ← get;
  lmul ← current_lmul insn;
  match sew_bytes s with
  | 1 => group insn (insn_rs1 insn) (Emul.widen lmul)
  | 2 => group insn (insn_rs1 insn) lmul
  | 4 => group insn (insn_rs1 insn) (Emul.narrow lmul 2)
  | 8 => group insn (insn_rs1 insn) (Emul.narrow lmul 4)
  | _ => v_illegal insn
  end.

Definition validate_gather insn : exec Hart Trap unit :=
  destination ← same_width_group insn (insn_rd insn);
  data ← same_width_group insn (insn_rs2 insn);
  reject insn (RegisterGroup.overlaps destination data);;
  s ← get;
  let ei16 := match insn_op insn with Vrgatherei16 => true | _ => false end in
  let against index :=
    reject insn (RegisterGroup.overlaps destination index
      || (ei16 && negb (sew_bytes s =? 2) && RegisterGroup.overlaps data index)) in
  match insn_op insn with
  | Vrgatherei16 => index ← gather_index_group insn; against index
  | Vrgather =>
      if insn_funct3 insn =? 0
      then index ← same_width_group insn (insn_rs1 insn); against index
      else eret tt
  | _ => panic
  end.

Definition validate_iota insn (vm : bool) : exec Hart Trap unit :=
  s ← get;
  reject insn (negb (c_vstart s =? 0));;
  destination ← same_width_group insn (insn_rd insn);
  let source_mask := RegisterGroup.mk (insn_rs2 insn) 1 in
  let execution_mask := RegisterGroup.mk 0 1 in
  reject insn (RegisterGroup.overlaps destination source_mask
    || (negb vm && RegisterGroup.overlaps destination execution_mask)).

Definition is_vector_fp_encoding insn : bool :=
  (Z.land (insn_raw insn) 0x7f =? 0x57) && ((insn_funct3 insn =? 1) || (insn_funct3 insn =? 5)).

Definition fp_operands_supported_at_sew8 insn : bool :=
  match insn_op insn with
  | VfwcvtFXu | VfwcvtFX | VfncvtXuF | VfncvtXF | VfncvtRtzXuF | VfncvtRtzXF => true
  | _ => false
  end.

(** The checks of an operation, after those of every floating-point one. *)
Definition validate_op insn (vm : bool) : exec Hart Trap unit :=
  s ← get;
  match insn_op insn with
  | VmvXS | VmvSX | VfmvFS | VfmvSF => reject insn (negb vm)
  | Vmerge => reject insn (vm && negb (insn_rs2 insn =? 0))
  | Vmsbf | Vmsif | Vmsof =>
      reject insn (negb (c_vstart s =? 0) || (insn_rd insn =? insn_rs2 insn)
                   || (negb vm && (insn_rd insn =? 0)))
  | Vid => reject insn (negb (insn_rs2 insn =? 0))
  | Viota => validate_iota insn vm
  | Vadc | Vsbc => reject insn (vm || (insn_rd insn =? 0))
  | Vslideup | Vslide1up | Vfslide1up => validate_slide_up insn
  | Vrgather | Vrgatherei16 => validate_gather insn
  | Vadd | Vsub | Vrsub | Vand | Vor | Vxor | Vminu | Vmin | Vmaxu | Vmax | Vsll | Vsrl | Vsra =>
      validate_same_width_integer_alu insn 0
  | Vaaddu | Vaadd | Vasubu | Vasub => validate_same_width_integer_alu insn 2
  | Vnsrl | Vnsra | Vnclipu | Vnclip | VfncvtXuF | VfncvtXF | VfncvtFXu | VfncvtFX | VfncvtFF
  | VfncvtRodFF | VfncvtRtzXuF | VfncvtRtzXF => validate_narrowing insn
  | Vwaddu | Vwadd | Vwsubu | Vwsub =>
      validate_widening_data insn false (insn_funct3 insn =? 2) false
  | VwadduW | VwaddW | VwsubuW | VwsubW =>
      validate_widening_data insn true (insn_funct3 insn =? 2) false
  | Vwmulu | Vwmulsu | Vwmul => validate_widening_data insn false (insn_funct3 insn =? 2) false
  | Vwmaccu | Vwmacc | Vwmaccsu | Vwmaccus =>
      validate_widening_data insn false (insn_funct3 insn =? 2) true
  | Vfwadd | Vfwsub | Vfwmul => validate_widening_data insn false (insn_funct3 insn =? 1) false
  | VfwaddW | VfwsubW => validate_widening_data insn true (insn_funct3 insn =? 1) false
  | Vfwmacc | Vfwnmacc | Vfwmsac | Vfwnmsac =>
      validate_widening_data insn false (insn_funct3 insn =? 1) true
  | VfwcvtXuF | VfwcvtXF | VfwcvtFXu | VfwcvtFX | VfwcvtFF | VfwcvtRtzXuF | VfwcvtRtzXF =>
      validate_widening_data insn false false false
  | VzextVf2 | VsextVf2 => validate_extension insn 2
  | VzextVf4 | VsextVf4 => validate_extension insn 4
  | VzextVf8 | VsextVf8 => validate_extension insn 8
  | Vredsum | Vredand | Vredor | Vredxor | Vredminu | Vredmin | Vredmaxu | Vredmax | Vfredusum
  | Vfredosum | Vfredmin | Vfredmax | Vwredsumu | Vwredsum | Vfwredusum | Vfwredosum =>
      validate_reduction insn
  | _ => eret tt
  end.

Definition validate insn (vm : bool) : exec Hart Trap unit :=
  s ← get;
  let vector_fp := is_vector_fp_encoding insn in
  reject insn (vector_fp && (4 <? frm s));;
  reject insn (vector_fp && (sew_bytes s =? 1) && negb (fp_operands_supported_at_sew8 insn));;
  validate_op insn vm.
End Check.
