(* ===== verification/RvVecValid.v ===== *)
(** * What vector validation guarantees

    The checks of RvVecCheck change nothing: they accept, or raise an illegal
    instruction.  An accepted instruction has aligned register groups that
    overlap only as the architecture allows. *)

From S2P Require Import Prelude RvIsa RvOp RvMemory RvState RvHart RvVec RvVecCheck.

(** ** Checks leave the state alone *)

(** ** The loop of [Emul::new] *)

(** The fraction is in lowest terms with respect to 2, so the loop is over. *)
Definition reduced (e : Emul.t) : Prop :=
  negb (Z.odd (Emul.numerator e)) && negb (Z.odd (Emul.denominator e)) = false.

(** The halvings given suffice for fractions of numbers of that many bits, and keep
    the value of the fraction. *)
Lemma reduce_done k n d :
  0 <= n < 2 ^ Z.of_nat k -> 0 <= d < 2 ^ Z.of_nat k -> n <> 0 \/ d <> 0 ->
  let e := Emul.reduce k n d in reduced e /\ n * Emul.denominator e = d * Emul.numerator e.
Proof.
  revert n d. induction k as [|k IH]; intros n d Hn Hd Hnz; [cbn in *; lia|].
  rewrite Nat2Z.inj_succ, Z.pow_succ_r in Hn, Hd by lia. cbn [Emul.reduce].
  rewrite !Zmod_odd. unfold reduced.
  destruct (Z.odd n) eqn:En; [|destruct (Z.odd d) eqn:Ed].
  - cbn. rewrite En. split; [done | lia].
  - cbn. rewrite En, Ed. split; [done | lia].
  - cbn [Z.eqb andb]. rewrite <- !Z.div2_div.
    pose proof (Z.div2_odd n) as Hn2. pose proof (Z.div2_odd d) as Hd2. rewrite En in Hn2. rewrite Ed in Hd2.
    cbn [Z.b2z] in *. destruct (IH (Z.div2 n) (Z.div2 d)) as [Hr He]; [lia..|]. split; [done | nia].
Qed.

Section Checks.
Context {M : Type} `{Memory M}.
Abbreviation Hart := (RiscVCpu M).
Implicit Types (s : Hart) (insn : Insn).

Definition checks {A} insn (m : exec Hart Trap A) : Prop :=
  forall s, (exists a, m s = (Ok a, s)) \/ m s = (Err (trap_illegal (insn_raw insn)), s).

Lemma checks_ret {A} insn (a : A) : checks insn (eret a).
Proof. intros s. left. by exists a. Qed.
Lemma checks_illegal {A} insn : checks insn (v_illegal insn : exec Hart Trap A).
Proof. intros s. by right. Qed.
Lemma checks_get insn : checks insn get.
Proof. intros s. left. by exists s. Qed.

Lemma checks_bind {A B} insn (m : exec Hart Trap A) (k : A -> exec Hart Trap B) :
  checks insn m -> (forall a, checks insn (k a)) -> checks insn (a ← m; k a).
Proof.
  intros Hm Hk s. unfold mbind, exec_bind, ebind.
  destruct (Hm s) as [[a ->] | ->]; [apply Hk | by right].
Qed.

Lemma checks_if {A} insn (c : bool) (m n : exec Hart Trap A) :
  checks insn m -> checks insn n -> checks insn (if c then m else n).
Proof. by destruct c. Qed.

Lemma checks_or_illegal {A} insn (o : option A) : checks insn (or_illegal insn o).
Proof. destruct o; [apply checks_ret | apply checks_illegal]. Qed.
Lemma checks_reject insn c : checks insn (reject insn c).
Proof. apply checks_if; [apply checks_illegal | apply checks_ret]. Qed.

Create HintDb checks.
Hint Resolve checks_ret checks_illegal checks_get checks_or_illegal checks_reject : checks.
Ltac checks_go :=
  repeat (cbv zeta; first [solve [auto with checks] | apply checks_bind; [|intros] | apply checks_if]).

Lemma checks_current_lmul insn : checks insn (current_lmul insn).
Proof. unfold current_lmul. checks_go. Qed.
Lemma checks_group insn first emul : checks insn (group insn first emul).
Proof. apply checks_or_illegal. Qed.
Hint Resolve checks_current_lmul checks_group : checks.
Lemma checks_same_width insn first : checks insn (same_width_group insn first).
Proof. unfold same_width_group. checks_go. Qed.
Hint Resolve checks_same_width : checks.
Lemma checks_overlap insn d v e : checks insn (validate_wider_destination_overlap insn d v e).
Proof. apply checks_reject. Qed.
Hint Resolve checks_overlap : checks.

Lemma checks_slide_up insn : checks insn (validate_slide_up insn).
Proof. unfold validate_slide_up. checks_go. Qed.
Lemma checks_narrowing insn : checks insn (validate_narrowing insn).
Proof. unfold validate_narrowing. checks_go. Qed.
Lemma checks_widening insn w v d : checks insn (validate_widening_data insn w v d).
Proof. unfold validate_widening_data. checks_go. Qed.
Lemma checks_extension insn factor : checks insn (validate_extension insn factor).
Proof. unfold validate_extension. checks_go. Qed.
Lemma checks_reduction insn : checks insn (validate_reduction insn).
Proof. unfold validate_reduction, validate_reduction_source_group. checks_go. Qed.
Lemma checks_same_width_alu insn f3 : checks insn (validate_same_width_integer_alu insn f3).
Proof. unfold validate_same_width_integer_alu. checks_go. Qed.
Lemma checks_iota insn vm : checks insn (validate_iota insn vm).
Proof. unfold validate_iota. checks_go. Qed.

Lemma checks_index insn : checks insn (gather_index_group insn).
Proof.
  unfold gather_index_group. apply checks_bind; [apply checks_get|]. intros s.
  apply checks_bind; [apply checks_current_lmul|]. intros lmul.
  repeat case_match; auto with checks.
Qed.
Hint Resolve checks_index : checks.
Lemma checks_gather insn :
  insn_op insn = Vrgather \/ insn_op insn = Vrgatherei16 -> checks insn (validate_gather insn).
Proof.
  intros Hop. unfold validate_gather. do 4 (apply checks_bind; [auto with checks|intros]).
  cbv zeta. destruct Hop as [-> | ->]; checks_go.
Qed.
Hint Resolve checks_slide_up checks_narrowing checks_widening checks_extension checks_reduction
  checks_same_width_alu checks_iota checks_gather : checks.

Lemma checks_validate insn vm : checks insn (validate insn vm).
Proof.
  unfold validate. do 3 (apply checks_bind; [auto with checks|intros]).
  unfold validate_op. apply checks_bind; [auto with checks|]. intros s.
  destruct (insn_op insn) eqn:E; auto with checks.
Qed.
End Checks.

(** ** What acceptance means *)

(** The registers a group of multiplier [e] occupies. *)
Definition regs (e : Emul.t) : Z :=
  if Emul.numerator e <? Emul.denominator e then 1 else Emul.numerator e / Emul.denominator e.

(** A group of [n] registers may start at [r]. *)
Definition aligned (r n : Z) : Prop := r mod n = 0 /\ r + n <= 32.

(** The groups [r..r + n] and [r'..r' + n'] share no register. *)
Definition apart (r n r' n' : Z) : Prop := r + n <= r' \/ r' + n' <= r.

Lemma for_emul_spec r e g :
  RegisterGroup.for_emul r e = Some g -> g = RegisterGroup.mk r (regs e) /\ aligned r (regs e).
Proof.
  unfold RegisterGroup.for_emul, regs, aligned. cbv zeta. destruct (_ || _); [done|].
  destruct (_ <? _); cbn [mbind option_bind].
  - destruct (negb _) eqn:E1; [done|]. destruct (255 <? _); [done|].
    destruct (Z.ltb_spec 32 (r + 1)); [done|]. intros [= <-].
    apply negb_false_iff, Z.eqb_eq in E1. by split_and!.
  - destruct (negb (_ mod _ =? 0)); [done|]. cbn [mbind option_bind].
    destruct (negb _) eqn:E1; [done|]. destruct (255 <? _); [done|].
    destruct (Z.ltb_spec 32 (r + Emul.numerator e / Emul.denominator e)); [done|].
    intros [= <-]. apply negb_false_iff, Z.eqb_eq in E1. by split_and!.
Qed.

Lemma overlaps_apart r n r' n' :
  0 <= r -> 0 <= r' -> 0 <= n -> 0 <= n' -> aligned r n -> aligned r' n' ->
  RegisterGroup.overlaps (RegisterGroup.mk r n) (RegisterGroup.mk r' n') = false -> apart r n r' n'.
Proof.
  unfold RegisterGroup.overlaps, aligned, apart, wadd. cbn [RegisterGroup.first RegisterGroup.count].
  intros ? ? ? ? [? ?] [? ?] Ho. rewrite !as_u_small in Ho by (unfold fits; lia).
  apply andb_false_iff in Ho as [?%Z.ltb_ge | ?%Z.ltb_ge]; lia.
Qed.

(** The nonzero register counts of a group. *)
Definition count_ok (n : Z) : Prop := 1 <= n <= 32.

(** ** Geometry

    How many elements fit into a group, by enumeration of the supported [vtype]
    values: a group holds VLMAX elements, exactly when it has at least one whole
    register. *)

Definition legal_vtype (vtype : Z) : Prop :=
  fits 8 vtype /\ vsew vtype <= 3 /\ Z.land vtype 7 <> 4.

(** [cap e eb]: a group of multiplier [e] holds [vlmax] elements of [eb] bytes;
    [full e eb]: it holds no more. *)
Definition cap (vlmax : Z) (e : Emul.t) (eb : Z) : bool :=
  (1 <=? regs e) && (regs e <=? 32) && (vlmax * eb <=? regs e * VLENB).
Definition full (vlmax : Z) (e : Emul.t) (eb : Z) : bool := vlmax * eb =? regs e * VLENB.

Definition geometry_check (vtype : Z) : bool :=
  let eb := 2 ^ vsew vtype in
  let n := VLMAX vtype in
  (Z.land vtype 7 =? 4) || (3 <? vsew vtype) ||
  match Emul.from_vtype vtype with
  | None => false
  | Some lm =>
      let wide := Emul.widen lm in
      let ext f :=
        (eb <? f)
        || cap n (Emul.narrow lm f) (eb / f)
           && implb (Emul.is_at_least_one (Emul.narrow lm f))
                ((regs lm =? f * regs (Emul.narrow lm f)) && full n lm eb) in
      cap n lm eb && cap n wide (2 * eb)
      && implb (Emul.is_at_least_one lm) ((regs wide =? 2 * regs lm) && full n lm eb)
      && ext 2 && ext 4 && ext 8
  end.

Lemma geometry vtype : legal_vtype vtype -> geometry_check vtype = true.
Proof. intros [Hv _]. by apply (all_below 8 geometry_check); [vm_compute|]. Qed.

Lemma cap_spec n e eb :
  cap n e eb = true -> count_ok (regs e) /\ n * eb <= regs e * VLENB.
Proof. unfold cap, count_ok. rewrite !andb_true_iff, !Z.leb_le. tauto. Qed.

Section Geometry.
Variables (vtype : Z) (lm : Emul.t).
Hypothesis Hv : legal_vtype vtype.
Hypothesis Hlm : Emul.from_vtype vtype = Some lm.
Abbreviation eb := (2 ^ vsew vtype).
Abbreviation n := (VLMAX vtype).

Lemma geometry_facts :
  cap n lm eb = true /\ cap n (Emul.widen lm) (2 * eb) = true
  /\ (Emul.is_at_least_one lm = true -> regs (Emul.widen lm) = 2 * regs lm
      /\ n * eb = regs lm * VLENB)
  /\ (forall f, f = 2 \/ f = 4 \/ f = 8 -> f <= eb ->
      cap n (Emul.narrow lm f) (eb / f) = true
      /\ (Emul.is_at_least_one (Emul.narrow lm f) = true ->
          regs lm = f * regs (Emul.narrow lm f) /\ n * eb = regs lm * VLENB)).
Proof.
  pose proof (geometry vtype Hv) as Hg. destruct Hv as (_ & Hs & H4).
  unfold geometry_check, full in Hg. rewrite Hlm in Hg.
  apply Z.eqb_neq in H4. apply Z.ltb_ge in Hs. rewrite H4, Hs in Hg. cbn [orb] in Hg.
  rewrite !andb_true_iff in Hg. destruct Hg as (((((Hc & Hw) & Hone) & H2) & H4') & H8).
  split_and!; [done | done | |].
  - intros Ho. rewrite Ho in Hone. cbn [implb] in Hone.
    by apply andb_true_iff in Hone as [?%Z.eqb_eq ?%Z.eqb_eq].
  - intros f Hf Hle. assert (Hx : (eb <? f) = false) by (by apply Z.ltb_ge).
    destruct Hf as [-> | [-> | ->]]; rewrite Hx in *; cbn [orb] in *;
      match goal with Hq : cap n (Emul.narrow lm ?k) _ && _ = true |- context [Emul.narrow lm ?k] =>
        apply andb_true_iff in Hq as [Hq1 Hq2] end;
      (split; [done|]); intros Ho; rewrite Ho in Hq2; cbn [implb] in Hq2;
      by apply andb_true_iff in Hq2 as [?%Z.eqb_eq ?%Z.eqb_eq].
Qed.
End Geometry.

Section Accept.
Context {M : Type} `{Memory M}.
Abbreviation Hart := (RiscVCpu M).
Implicit Types (s : Hart) (insn : Insn).

(** Reading off a sequence of checks that accepted. *)
Lemma checks_bind_ok {A B} insn (m : exec Hart Trap A) (k : A -> exec Hart Trap B) s b s' :
  checks insn m -> (a ← m; k a) s = (Ok b, s') -> exists a, m s = (Ok a, s) /\ k a s = (Ok b, s').
Proof.
  intros Hm. unfold mbind, exec_bind, ebind.
  destruct (Hm s) as [[a ->] | ->]; [by exists a | done].
Qed.

Lemma reject_ok insn c s u s' : reject insn c s = (Ok u, s') -> c = false.
Proof. by destruct c. Qed.

Lemma current_lmul_ok insn s lm s' :
  current_lmul insn s = (Ok lm, s') -> Emul.from_vtype (c_vtype s) = Some lm.
Proof.
  unfold current_lmul, or_illegal, mbind, exec_bind, ebind, get, eret.
  destruct (Emul.from_vtype _); [|done]. by intros [= -> _].
Qed.

Lemma group_ok insn r e s g s' :
  group insn r e s = (Ok g, s') -> g = RegisterGroup.mk r (regs e) /\ aligned r (regs e).
Proof.
  unfold group, or_illegal, eret. destruct (RegisterGroup.for_emul r e) eqn:E; [|done].
  intros [= -> _]. by apply for_emul_spec.
Qed.

Lemma same_width_group_ok insn r s g s' :
  same_width_group insn r s = (Ok g, s') ->
  exists lm, Emul.from_vtype (c_vtype s) = Some lm
    /\ g = RegisterGroup.mk r (regs lm) /\ aligned r (regs lm).
Proof.
  intros (lm & Hl & Hg)%(checks_bind_ok insn); [|apply checks_current_lmul].
  exists lm. split; [by eapply current_lmul_ok | by eapply group_ok].
Qed.

(** A narrower source of a wider destination: apart from it, or its last registers. *)
Definition beside (rd n r n' : Z) (whole : bool) : Prop :=
  aligned r n' /\ (apart rd n r n' \/ whole = true /\ rd + n = r + n').

Lemma beside_ok insn rd n r n' e s u s' :
  0 <= rd -> 0 <= r -> count_ok n -> count_ok n' -> aligned rd n -> aligned r n' ->
  validate_wider_destination_overlap insn (RegisterGroup.mk rd n) (RegisterGroup.mk r n') e s
  = (Ok u, s') -> beside rd n r n' (Emul.is_at_least_one e).
Proof.
  intros ? ? Hn Hn' Ha Ha' Hr%reject_ok. split; [done|]. unfold count_ok in *.
  destruct (RegisterGroup.overlaps _ _) eqn:Eo; [right | left; apply overlaps_apart; lia || done].
  cbn [andb] in Hr. apply orb_false_iff in Hr as [Hone%negb_false_iff Hl%negb_false_iff].
  split; [done|]. apply Z.eqb_eq in Hl. unfold RegisterGroup.last, wadd, wsub, aligned in *.
  cbn [RegisterGroup.first RegisterGroup.count] in Hl.
  rewrite !(as_u_small 8 (_ + _)), !as_u_small in Hl by (unfold fits; lia). lia.
Qed.

Lemma accept_same_width insn f3 s u s' :
  validate_same_width_integer_alu insn f3 s = (Ok u, s') ->
  exists lm, Emul.from_vtype (c_vtype s) = Some lm /\ aligned (insn_rd insn) (regs lm)
    /\ aligned (insn_rs2 insn) (regs lm)
    /\ (insn_funct3 insn = f3 -> aligned (insn_rs1 insn) (regs lm)).
Proof.
  intros (g1 & H1 & Hk)%(checks_bind_ok insn); [|apply checks_same_width].
  apply same_width_group_ok in H1 as (lm & Hl & _ & Ha1). exists lm. split; [done|].
  apply (checks_bind_ok insn) in Hk as (g2 & H2 & Hk); [|apply checks_same_width].
  apply same_width_group_ok in H2 as (lm2 & Hl2 & _ & Ha2). simplify_eq. split_and!; [done..|].
  intros Hf. rewrite (proj2 (Z.eqb_eq _ _) Hf) in Hk.
  apply (checks_bind_ok insn) in Hk as (g3 & H3 & _); [|apply checks_same_width].
  apply same_width_group_ok in H3 as (lm3 & Hl3 & _ & Ha3). by simplify_eq.
Qed.

Lemma accept_narrowing insn s u s' :
  fits 5 (insn_rd insn) -> fits 5 (insn_rs2 insn) ->
  (forall lm, Emul.from_vtype (c_vtype s) = Some lm ->
     count_ok (regs lm) /\ count_ok (regs (Emul.widen lm))) ->
  validate_narrowing insn s = (Ok u, s') ->
  exists lm, Emul.from_vtype (c_vtype s) = Some lm /\ aligned (insn_rd insn) (regs lm)
    /\ aligned (insn_rs2 insn) (regs (Emul.widen lm))
    /\ (insn_rd insn = insn_rs2 insn
        \/ apart (insn_rd insn) (regs lm) (insn_rs2 insn) (regs (Emul.widen lm))).
Proof.
  intros Hd H2 Hc (lm & Hl & Hk)%(checks_bind_ok insn); [|apply checks_current_lmul].
  apply current_lmul_ok in Hl. exists lm. destruct (Hc lm Hl) as [Hn Hw]. split; [done|].
  apply (checks_bind_ok insn) in Hk as (g1 & Hg1%group_ok & Hk); [|apply checks_group].
  apply (checks_bind_ok insn) in Hk as (g2 & Hg2%group_ok & Hk%reject_ok); [|apply checks_group].
  destruct Hg1 as [-> Ha1], Hg2 as [-> Ha2]. split_and!; [done..|].
  apply andb_false_iff in Hk as [Ho | Hf%negb_false_iff%Z.eqb_eq]; [right | by left].
  unfold fits, count_ok in *. apply overlaps_apart; lia || done.
Qed.

Lemma accept_beside insn r n e s u s' k :
  0 <= insn_rd insn -> 0 <= r -> count_ok n -> count_ok (regs e) ->
  aligned (insn_rd insn) n ->
  (g ← group insn r e;
   reject insn (k g);;
   validate_wider_destination_overlap insn (RegisterGroup.mk (insn_rd insn) n) g e) s
  = (Ok u, s') -> beside (insn_rd insn) n r (regs e) (Emul.is_at_least_one e).
Proof.
  intros Hd Hr Hn Hc Ha (g & [-> Hg]%group_ok & Hk)%(checks_bind_ok insn); [|apply checks_group].
  apply (checks_bind_ok insn) in Hk as (? & _ & Hk); [|apply checks_reject].
  by eapply beside_ok.
Qed.

Lemma accept_widening insn (wide_vs2 vv dis : bool) s u s' :
  fits 5 (insn_rd insn) -> fits 5 (insn_rs2 insn) -> fits 5 (insn_rs1 insn) ->
  (forall lm, Emul.from_vtype (c_vtype s) = Some lm ->
     count_ok (regs lm) /\ count_ok (regs (Emul.widen lm))) ->
  validate_widening_data insn wide_vs2 vv dis s = (Ok u, s') ->
  exists lm, Emul.from_vtype (c_vtype s) = Some lm
    /\ let n := regs (Emul.widen lm) in let one := Emul.is_at_least_one lm in
       aligned (insn_rd insn) n
    /\ (if wide_vs2 then aligned (insn_rs2 insn) n
        else beside (insn_rd insn) n (insn_rs2 insn) (regs lm) one)
    /\ (vv = true -> beside (insn_rd insn) n (insn_rs1 insn) (regs lm) one).
Proof.
  intros Hd H2 H1 Hc (lm & Hl & Hk)%(checks_bind_ok insn); [|apply checks_current_lmul].
  apply current_lmul_ok in Hl. exists lm. destruct (Hc lm Hl) as [Hn Hw]. split; [done|]. cbv zeta in *.
  apply (checks_bind_ok insn) in Hk as (g1 & [-> Ha1]%group_ok & Hk); [|apply checks_group].
  split; [done|]. unfold fits in *. destruct wide_vs2.
  - apply (checks_bind_ok insn) in Hk as (g2 & [-> Ha2]%group_ok & Hk); [|apply checks_group].
    split; [done|]. intros ->. apply (checks_bind_ok insn) in Hk as (? & _ & Hk); [|apply checks_ret].
    by apply accept_beside in Hk; [|lia || done..].
  - apply (checks_bind_ok insn) in Hk as (g2 & [-> Ha2]%group_ok & Hk); [|apply checks_group].
    apply (checks_bind_ok insn) in Hk as (? & Hv & Hk);
      [|apply checks_bind; [apply checks_reject | intros; apply checks_overlap]].
    apply (checks_bind_ok insn) in Hv as (? & _ & Hv); [|apply checks_reject].
    apply beside_ok in Hv; [|lia || done..]. split; [done|]. intros ->.
    by apply accept_beside in Hk; [|lia || done..].
Qed.

Lemma accept_extension insn f s u s' :
  fits 5 (insn_rd insn) -> fits 5 (insn_rs2 insn) ->
  (forall lm, Emul.from_vtype (c_vtype s) = Some lm ->
     count_ok (regs lm) /\ count_ok (regs (Emul.narrow lm f))) ->
  validate_extension insn f s = (Ok u, s') ->
  exists lm, Emul.from_vtype (c_vtype s) = Some lm /\ aligned (insn_rd insn) (regs lm)
    /\ beside (insn_rd insn) (regs lm) (insn_rs2 insn) (regs (Emul.narrow lm f))
         (Emul.is_at_least_one (Emul.narrow lm f)).
Proof.
  intros Hd H2 Hc (lm & Hl & Hk)%(checks_bind_ok insn); [|apply checks_current_lmul].
  apply current_lmul_ok in Hl. exists lm. destruct (Hc lm Hl) as [Hn Hw]. split; [done|]. cbv zeta in *.
  apply (checks_bind_ok insn) in Hk as (g1 & [-> Ha1]%group_ok & Hk); [|apply checks_group].
  apply (checks_bind_ok insn) in Hk as (g2 & [-> Ha2]%group_ok & Hk); [|apply checks_group].
  split; [done|]. unfold fits in *. by apply beside_ok in Hk; [|lia || done..].
Qed.

Lemma validate_ok insn vm s u s' :
  validate insn vm s = (Ok u, s') -> exists u, validate_op insn vm s = (Ok u, s').
Proof.
  intros (s0 & _ & Hk)%(checks_bind_ok insn); [|apply checks_get]. cbv zeta in Hk.
  apply (checks_bind_ok insn) in Hk as (? & _ & Hk); [|apply checks_reject].
  apply (checks_bind_ok insn) in Hk as (? & _ & Hk); [|apply checks_reject]. by eexists.
Qed.
End Accept.
