(* ===== verification/RvVecMem.v ===== *)
(** * Vector loads and stores

    src/isa/riscv/cpu/vector_memory.rs: a faulting access records its element in
    [vstart], so that the instruction can be restarted there. *)

From S2P Require Import Prelude RvIsa RvOp RvMemory RvState RvVec.

Section VecMem.
Context {M : Type} `{Memory M}.
Abbreviation Hart := (RiscVCpu M).
Implicit Types (s : Hart) (insn : Insn).

Definition encoded_width insn : exec Hart Trap Z :=
  match insn_funct3 insn with
  | 0 => eret 1
  | 5 => eret 2
  | 6 => eret 4
  | 7 => eret 8
  | _ => v_illegal insn
  end.

Definition vector_read (element addr eb : Z) : exec Hart Trap (list Z) := fun s =>
  match mem_read (c_mem s) addr (Z.to_nat eb) with
  | inl _ => (Err (acc_fault false addr), set_c_vstart element s)
  | inr buf => (Ok buf, s)
  end.

Definition vector_write (element addr : Z) (data : list Z) : exec Hart Trap unit := fun s =>
  let '(r, m) := mem_write (c_mem s) addr data in
  match r with
  | inl _ => (Err (acc_fault true addr), set_c_vstart element (set_c_mem m s))
  | inr _ => (Ok tt, set_c_mem m s)
  end.

(** The transfer of element [e] of the group at [reg], in or out; the slice
    [..eb] of the 8-byte buffer panics when it is too wide. *)
Definition transfer (load : bool) (reg e eb addr : Z) : exec Hart Trap unit :=
  if 8 <? eb then panic
  else if load then
    buf ← vector_read e addr eb;
    set_velem reg e eb (from_le_bytes buf)
  else
    val ← velem reg e eb;
    vector_write e addr (to_le_bytes (Z.to_nat eb) val).

(** [self.x(insn.rs1) & self.xmask()] and [base.wrapping_add(off) & self.xmask()]. *)
Definition base_addr s insn : Z := Z.land (get_x s (insn_rs1 insn)) (xmask s).
Definition offset_addr s (base off : Z) : Z := Z.land (wadd 64 base (as_u64 off)) (xmask s).
(** [(e as i64).wrapping_mul(stride) as u64]. *)
Definition strided (e stride : Z) : Z := as_u64 (as_i64 (as_i64 e * stride)).

(** [vle], [vse], [vlse] and [vsse]: unit-stride and strided. *)
Definition vector_unit (load : bool) insn (vm : bool) (vd vstart vl : Z) : exec Hart Trap unit :=
  eb ← encoded_width insn;
  s ← get;
  let base := base_addr s insn in
  for_active vm vstart vl (fun e => transfer load vd e eb (offset_addr s base (e * eb))).

Definition vector_strided (load : bool) insn (vm : bool) (vd vstart vl : Z) :
    exec Hart Trap unit :=
  eb ← encoded_width insn;
  s ← get;
  let base := base_addr s insn in
  let stride := as_i64 (get_x s (insn_rs2 insn)) in
  for_active vm vstart vl (fun e => transfer load vd e eb (offset_addr s base (strided e stride))).

(** [vlxei] and [vsxei]: indexed by the elements of [vs2]. *)
Definition vector_indexed (load : bool) insn (vm : bool) (vd vstart vl : Z) :
    exec Hart Trap unit :=
  ieb ← encoded_width insn;
  s ← get;
  let eb := sew_bytes s in
  let base := base_addr s insn in
  for_active vm vstart vl (fun e =>
    idx ← velem (insn_rs2 insn) e ieb;
    transfer load vd e eb (offset_addr s base idx)).

(** [vleff]: a fault past element 0 shortens [vl] instead of trapping. *)
Fixpoint vleff_loop (vm : bool) (vd eb base vl : Z) (l : list Z) : exec Hart Trap Z :=
  match l with
  | [] => eret vl
  | e :: l =>
      on ← (if vm then eret true else vmask_bit e);
      if (on : bool) then
        s ← get;
        let addr := offset_addr s base (e * eb) in
        match mem_read (c_mem s) addr (Z.to_nat eb) with
        | inr buf => set_velem vd e eb (from_le_bytes buf);; vleff_loop vm vd eb base vl l
        | inl _ =>
            if e =? 0 then modify (set_c_vstart 0);; throw (acc_fault false addr) else eret e
        end
      else vleff_loop vm vd eb base vl l
  end.

Definition vector_first_fault insn (vm : bool) (vd vstart vl : Z) : exec Hart Trap unit :=
  eb ← encoded_width insn;
  s ← get;
  new_vl ← vleff_loop vm vd eb (base_addr s insn) vl (range vstart vl);
  modify (set_c_vl new_vl).

(** The numerator and denominator of LMUL. *)
Definition lmul_ratio (vtype : Z) : Z * Z :=
  match Z.land vtype 0x7 with
  | 0 => (1, 1)
  | 1 => (2, 1)
  | 2 => (4, 1)
  | 3 => (8, 1)
  | 5 => (1, 8)
  | 6 => (1, 4)
  | 7 => (1, 2)
  | _ => (1, 1)
  end.

(** [vlseg] and [vsseg]: [nf] fields per element, each in a group of its own. *)
Definition vector_segment (load : bool) insn (vm : bool) (vd vstart vl : Z) :
    exec Hart Trap unit :=
  let nf := Z.land (wshr 32 (insn_raw insn) 29) 7 + 1 in
  let mop := Z.land (wshr 32 (insn_raw insn) 26) 3 in
  width ← encoded_width insn;
  s ← get;
  let indexed := (mop =? 1) || (mop =? 3) in
  let eb := if indexed then sew_bytes s else width in
  let sew_bits := wshl 32 8 (Z.land (wshr 64 (c_vtype s) 3) 0x7) in
  let eew_bits := if indexed then sew_bits else width * 8 in
  let '(lmul_n, lmul_d) := lmul_ratio (c_vtype s) in
  let emul_regs := Z.max ((eew_bits * lmul_n) / (sew_bits * lmul_d)) 1 in
  if (8 <? emul_regs) || (8 <? nf * emul_regs) || (32 <? vd + nf * emul_regs) then v_illegal insn
  else
    let base := base_addr s insn in
    let stride := as_i64 (get_x s (insn_rs2 insn)) in
    for_active vm vstart vl (fun e =>
      off ← (match mop with
             | 0 => eret (e * nf * eb)
             | 2 => eret (strided e stride)
             | _ => velem (insn_rs2 insn) e width
             end);
      let elem_base := offset_addr s base off in
      for_body 0 nf (fun f =>
        transfer load (vd + f * emul_regs) e eb (offset_addr s elem_base (f * eb)))).

(** [vlm] and [vsm]: [ceil(vl / 8)] mask bytes. *)
Definition vector_mask (load : bool) insn (vm : bool) (vd vstart vl : Z) : exec Hart Trap unit :=
  if negb vm then v_illegal insn
  else
    s ← get;
    let base := base_addr s insn in
    for_body vstart ((vl + 7) / 8) (fun e => transfer load vd e 1 (offset_addr s base e)).

(** [vl<n>re] and [vs<n>r]: whole registers, whatever [vtype] and [vl] are. *)
Definition vector_whole (load : bool) insn (vm : bool) (vd vstart : Z) : exec Hart Trap unit :=
  eb ← encoded_width insn;
  let nreg := Z.land (wshr 32 (insn_raw insn) 29) 7 + 1 in
  if negb vm || negb ((nreg =? 1) || (nreg =? 2) || (nreg =? 4) || (nreg =? 8))
     || negb (vd mod nreg =? 0) || (32 <? vd + nreg)
  then v_illegal insn
  else
    s ← get;
    let base := base_addr s insn in
    let evl := nreg * VLENB / eb in
    for_body vstart evl (fun e => transfer load vd e eb (offset_addr s base (e * eb))).

Definition exec_vector_memory insn (vm : bool) (vd vstart vl : Z) : exec Hart Trap unit :=
  match insn_op insn with
  | Vle => vector_unit true insn vm vd vstart vl
  | Vse => vector_unit false insn vm vd vstart vl
  | Vlse => vector_strided true insn vm vd vstart vl
  | Vsse => vector_strided false insn vm vd vstart vl
  | Vlxei => vector_indexed true insn vm vd vstart vl
  | Vsxei => vector_indexed false insn vm vd vstart vl
  | Vleff => vector_first_fault insn vm vd vstart vl
  | Vlseg => vector_segment true insn vm vd vstart vl
  | Vsseg => vector_segment false insn vm vd vstart vl
  | Vlm => vector_mask true insn vm vd vstart vl
  | Vsm => vector_mask false insn vm vd vstart vl
  | Vlre => vector_whole true insn vm vd vstart
  | Vsre => vector_whole false insn vm vd vstart
  | _ => v_illegal insn
  end.
End VecMem.
