(* ===== verification/RvVecExec.v ===== *)
(** * The vector data path

    [exec_vector] (src/isa/riscv/cpu.rs), one definition per arm, and the
    narrowing conversions of src/isa/riscv/cpu/vector_conversion.rs.  Within an
    arm [vm] is set for an unmasked instruction, [vstart..vl] are the body
    elements, and the element function is separate from the loop that applies it
    where an arm serves several operations. *)

From S2P Require Import Prelude RvIsa RvOp RvMemory RvFloat RvHostFloat RvFloatOps RvAlu RvState.
From S2P Require Import RvFp RvVec RvVecCheck RvVecMem.

(** ** Element functions *)

(** The same-width integer operations; [amount] is the shift amount before it
    is reduced to the element width. *)
Definition valu_elem (op : Op) (eb a b amount : Z) : option Z :=
  let mask := sew_mask eb in
  let sa := sext_sew a eb in
  let sb := sext_sew b eb in
  let sh := Z.land amount (eb * 8 - 1) in
  match op with
  | Vadd => Some (wadd 64 a b)
  | Vsub => Some (wsub 64 a b)
  | Vrsub => Some (wsub 64 b a)
  | Vand => Some (Z.land a b)
  | Vor => Some (Z.lor a b)
  | Vxor => Some (Z.lxor a b)
  | Vminu => Some (Z.min a b)
  | Vmaxu => Some (Z.max a b)
  | Vmin => Some (if sa <=? sb then a else b)
  | Vmax => Some (if sb <=? sa then a else b)
  | Vsll => Some (wshl 64 a sh)
  | Vsrl => Some (wshr 64 (Z.land a mask) sh)
  | Vsra => Some (as_u64 (wsar 64 sa sh))
  | _ => None
  end.

Definition vmul_elem (op : Op) (eb a b : Z) : option Z :=
  let bits := eb * 8 in
  match op with
  | Vmul => Some (wmul 64 a b)
  | Vmulhu => Some (vmulh_u a b bits)
  | Vmulh => Some (vmulh_s a b eb bits)
  | Vmulhsu => Some (vmulh_su a b eb bits)
  | Vdivu => Some (if b =? 0 then sew_mask eb else a / b)
  | Vremu => Some (if b =? 0 then a else a mod b)
  | Vdiv => Some (vdiv_sew a b eb bits false)
  | Vrem => Some (vdiv_sew a b eb bits true)
  | _ => None
  end.

Definition vred_elem (op : Op) (eb acc x : Z) : option Z :=
  match op with
  | Vredsum => Some (wadd 64 acc x)
  | Vredand => Some (Z.land acc x)
  | Vredor => Some (Z.lor acc x)
  | Vredxor => Some (Z.lxor acc x)
  | Vredminu => Some (Z.min acc x)
  | Vredmaxu => Some (Z.max acc x)
  | Vredmin => Some (if sext_sew x eb <? sext_sew acc eb then x else acc)
  | Vredmax => Some (if sext_sew acc eb <? sext_sew x eb then x else acc)
  | _ => None
  end.

Definition vcmp_elem (op : Op) (eb a b : Z) : option bool :=
  let sa := sext_sew a eb in
  let sb := sext_sew b eb in
  match op with
  | Vmseq => Some (a =? b)
  | Vmsne => Some (negb (a =? b))
  | Vmsltu => Some (a <? b)
  | Vmslt => Some (sa <? sb)
  | Vmsleu => Some (a <=? b)
  | Vmsle => Some (sa <=? sb)
  | Vmsgtu => Some (b <? a)
  | Vmsgt => Some (sb <? sa)
  | _ => None
  end.

Definition vmlogic_elem (op : Op) (a b : bool) : option bool :=
  match op with
  | Vmand => Some (a && b)
  | Vmnand => Some (negb (a && b))
  | Vmandn => Some (a && negb b)
  | Vmxor => Some (xorb a b)
  | Vmor => Some (a || b)
  | Vmnor => Some (negb (a || b))
  | Vmorn => Some (a || negb b)
  | Vmxnor => Some (negb (xorb a b))
  | _ => None
  end.

(** [sext_sew(v, eb)] or [v], as an [i128]. *)
Definition extend (signed : bool) (v eb : Z) : Z := if signed then sext_sew v eb else v.

(** The bounds [smax] and [smin] of a signed element and the clamp to them; the
    flag is set when the value was out of bounds. *)
Definition smax (eb : Z) : Z := Z.shiftl 1 (eb * 8 - 1) - 1.
Definition smin (eb : Z) : Z := - Z.shiftl 1 (eb * 8 - 1).
Definition sclamp (eb v : Z) : Z * bool :=
  if smax eb <? v then (smax eb, true)
  else if v <? smin eb then (smin eb, true)
  else (v, false).

(** The narrowing shifts and clips of the wide element [aw]. *)
Definition vnarrow_elem (clip signed : bool) (eb aw sh vxrm : Z) : Z * bool :=
  let web := eb * 2 in
  let mask := sew_mask eb in
  if negb clip then
    (if signed then as_u64 (wsar 64 (sext_sew aw web) sh) else wshr 64 aw sh, false)
  else if negb signed then
    let v := wshr 64 aw sh + round_incr aw sh vxrm in
    if mask <? v then (mask, true) else (as_u64 v, false)
  else
    let sa := sext_sew aw web in
    let '(v, sat) := sclamp eb (Z.shiftr sa sh + round_incr (as_u128 sa) sh vxrm) in
    (as_u64 v, sat).

Definition vssr_elem (logical : bool) (eb a sh vxrm : Z) : Z :=
  let incr := round_incr a sh vxrm in
  if logical then as_u64 (wshr 64 a sh + incr)
  else as_u64 (wsar 64 (sext_sew a eb) sh + as_i64 incr).

Definition vsmul_elem (eb a b vxrm : Z) : Z * bool :=
  let bits := eb * 8 in
  let prod := sext_sew a eb * sext_sew b eb in
  let incr := round_incr (as_u128 prod) (bits - 1) vxrm in
  let '(v, sat) := sclamp eb (Z.shiftr prod (bits - 1) + incr) in
  (as_u64 v, sat).

Definition vavg_elem (op : Op) (eb a b vxrm : Z) : Z :=
  let bits := eb * 8 in
  let m2 := if 64 <=? bits then umax 128 else wshl 128 1 (2 * bits) - 1 in
  let round v := as_u64 (Z.shiftr v 1 + round_incr (as_u128 v) 1 vxrm) in
  match op with
  | Vaaddu => round (a + b)
  | Vasubu => round (Z.land (wsub 128 a b) m2)
  | Vaadd => round (sext_sew a eb + sext_sew b eb)
  | _ => round (sext_sew a eb - sext_sew b eb)
  end.

Definition vsat_elem (op : Op) (eb a b : Z) : Z * bool :=
  let mask := sew_mask eb in
  match op with
  | Vsaddu => if mask <? a + b then (mask, true) else (as_u64 (a + b), false)
  | Vssubu => if a <? b then (0, true) else (a - b, false)
  | Vsadd =>
      let '(v, sat) := sclamp eb (sext_sew a eb + sext_sew b eb) in
      (Z.land (as_u64 v) mask, sat)
  | _ =>
      let '(v, sat) := sclamp eb (sext_sew a eb - sext_sew b eb) in
      (Z.land (as_u64 v) mask, sat)
  end.

(** A float of [eb] bytes to an integer of [width] bits. *)
Definition ftoi_eb (eb a : Z) (signed : bool) (width : Z) (rm : RoundingMode) (flags : Z) :
    Z * Z :=
  match eb with
  | 2 => ftoi F32 (h_widen (as_u16 a)) signed width rm flags
  | 4 => ftoi F32 (as_u32 a) signed width rm flags
  | _ => ftoi F64 a signed width rm flags
  end.

Definition vfcvt_elem (op : Op) (eb a : Z) (frm : RoundingMode) (flags : Z) : Z * Z :=
  let to_int :=
    match op with VfcvtXuF | VfcvtXF | VfcvtRtzXuF | VfcvtRtzXF => true | _ => false end in
  let signed := match op with VfcvtXF | VfcvtRtzXF | VfcvtFX => true | _ => false end in
  let rm := match op with VfcvtRtzXuF | VfcvtRtzXF => Rtz | _ => frm end in
  if to_int then ftoi_eb eb a signed (match eb with 2 => 16 | 4 => 32 | _ => 64 end) rm flags
  else itof_fmt (fmt_eb eb) (extend signed a eb) frm flags.

Definition vfwcvt_elem (op : Op) (eb a : Z) (frm : RoundingMode) (flags : Z) : Z * Z :=
  let web := eb * 2 in
  match op with
  | VfwcvtXuF | VfwcvtXF | VfwcvtRtzXuF | VfwcvtRtzXF =>
      let signed := match op with VfwcvtXF | VfwcvtRtzXF => true | _ => false end in
      let rm := match op with VfwcvtRtzXuF | VfwcvtRtzXF => Rtz | _ => frm end in
      match eb with
      | 2 => ftoi F32 (h_widen (as_u16 a)) signed 32 rm flags
      | _ => ftoi F32 (as_u32 a) signed 64 rm flags
      end
  | VfwcvtFXu | VfwcvtFX =>
      let signed := match op with VfwcvtFX => true | _ => false end in
      itof_fmt (fmt_eb web) (extend signed a eb) frm flags
  | _ => fcvt_round (fmt_eb eb) (fmt_eb web) a frm flags
  end.

(** A narrowing conversion of the wide element; [None] for another operation. *)
Definition vfncvt_elem (op : Op) (eb wide : Z) (frm : RoundingMode) (flags : Z) : option (Z * Z) :=
  let web := eb * 2 in
  match op with
  | VfncvtXuF | VfncvtXF | VfncvtRtzXuF | VfncvtRtzXF =>
      let signed := match op with VfncvtXF | VfncvtRtzXF => true | _ => false end in
      let rounding := match op with VfncvtRtzXuF | VfncvtRtzXF => Rtz | _ => frm end in
      Some (ftoi_eb web wide signed (eb * 8) rounding flags)
  | VfncvtFXu | VfncvtFX =>
      let signed := match op with VfncvtFX => true | _ => false end in
      Some (itof_fmt (fmt_eb eb) (extend signed wide web) frm flags)
  | VfncvtRodFF =>
      let '(narrowed, conversion_flags) := fcvt_round (fmt_eb web) (fmt_eb eb) wide Rtz 0 in
      Some (if negb (Z.land conversion_flags 1 =? 0) then Z.lor narrowed 1 else narrowed,
            Z.lor flags conversion_flags)
  | VfncvtFF => Some (fcvt_round (fmt_eb web) (fmt_eb eb) wide frm flags)
  | _ => None
  end.

(** The single-width operation a floating-point reduction, multiply-add or
    widening operation performs. *)
Definition fred_op (op : Op) : Op :=
  match op with Vfredusum | Vfredosum => Vfadd | Vfredmin => Vfmin | _ => Vfmax end.
Definition fwmac_op (op : Op) : Op :=
  match op with Vfwmacc => Vfmacc | Vfwnmacc => Vfnmacc | Vfwmsac => Vfmsac | _ => Vfnmsac end.
Definition fwarith_op (op : Op) : Op :=
  match op with Vfwadd | VfwaddW => Vfadd | Vfwsub | VfwsubW => Vfsub | _ => Vfmul end.

(** ** The arms *)

Section VecExec.
Context {M : Type} `{Memory M}.
Abbreviation Hart := (RiscVCpu M).
Implicit Types (s : Hart) (insn : Insn).

(** The loops of most arms: the result of [elem] on each active body element is
    masked and written to [vd]; [acc] is carried through ([flags] or [sat]). *)
Definition write_active {A} (vm : bool) (vstart vl vd eb : Z) (acc : A)
    (elem : Z -> A -> exec Hart Trap (Z * A)) : exec Hart Trap A :=
  fold_active vm vstart vl acc (fun e acc =>
    ra ← elem e acc;
    set_velem vd e eb (Z.land (fst ra) (sew_mask eb));;
    eret (snd ra)).
Definition write_each (vm : bool) (vstart vl vd eb : Z) (elem : Z -> exec Hart Trap Z) :
    exec Hart Trap unit :=
  for_active vm vstart vl (fun e => r ← elem e; set_velem vd e eb (Z.land r (sew_mask eb))).

(** [self.accrue(flags)], [if sat { self.vxsat = 1 }]. *)
Definition accrue_flags (flags : Z) : exec Hart Trap unit := modify (accrue flags).
Definition set_sat (sat : bool) : exec Hart Trap unit :=
  if sat then modify (set_c_vxsat 1) else eret tt.

Definition v_merge insn (vm : bool) (vstart vl : Z) : exec Hart Trap unit :=
  s ← get;
  let eb := sew_bytes s in
  let mask := sew_mask eb in
  let scalar := int_scalar s insn mask in
  for_body vstart vl (fun e =>
    b ← src1 insn (insn_funct3 insn =? 0) scalar e eb;
    on ← (if vm then eret true else vmask_bit e);
    r ← (if (on : bool) then eret b else velem (insn_rs2 insn) e eb);
    set_velem (insn_rd insn) e eb (Z.land r mask)).

Definition v_alu insn (vm : bool) (vstart vl : Z) : exec Hart Trap unit :=
  s ← get;
  let eb := sew_bytes s in
  let scalar := int_scalar s insn (sew_mask eb) in
  write_each vm vstart vl (insn_rd insn) eb (fun e =>
    a ← velem (insn_rs2 insn) e eb;
    b ← src1 insn (insn_funct3 insn =? 0) scalar e eb;
    let amount := if insn_funct3 insn =? 3 then insn_rs1 insn else as_u32 b in
    expect (valu_elem (insn_op insn) eb a b amount)).

Definition v_mul insn (vm : bool) (vstart vl : Z) : exec Hart Trap unit :=
  s ← get;
  let eb := sew_bytes s in
  let scalar := Z.land (get_x s (insn_rs1 insn)) (sew_mask eb) in
  write_each vm vstart vl (insn_rd insn) eb (fun e =>
    a ← velem (insn_rs2 insn) e eb;
    b ← src1 insn (insn_funct3 insn =? 2) scalar e eb;
    expect (vmul_elem (insn_op insn) eb a b)).

(** The integer reductions: [vs1[0]] folded with the active elements of [vs2]. *)
Definition v_red insn (vm : bool) (vstart vl : Z) : exec Hart Trap unit :=
  s ← get;
  let eb := sew_bytes s in
  let mask := sew_mask eb in
  seed ← velem (insn_rs1 insn) 0 eb;
  acc ← fold_active vm vstart vl seed (fun e acc =>
    x ← velem (insn_rs2 insn) e eb;
    r ← expect (vred_elem (insn_op insn) eb acc x);
    eret (Z.land r mask));
  if vstart <? vl then set_velem (insn_rd insn) 0 eb (Z.land acc mask) else eret tt.

Definition v_cmp insn (vm : bool) (vstart vl : Z) : exec Hart Trap unit :=
  s ← get;
  let eb := sew_bytes s in
  let scalar := int_scalar s insn (sew_mask eb) in
  for_active vm vstart vl (fun e =>
    a ← velem (insn_rs2 insn) e eb;
    b ← src1 insn (insn_funct3 insn =? 0) scalar e eb;
    r ← expect (vcmp_elem (insn_op insn) eb a b);
    modify (set_vmask_bit (insn_rd insn) e r)).

(** *** Floating point *)

Definition is_fsqrt (op : Op) : bool := match op with Vfsqrt => true | _ => false end.

Definition v_fbin insn (vm : bool) (vstart vl : Z) : exec Hart Trap unit :=
  s ← get;
  let eb := sew_bytes s in
  let rm := vec_rm s in
  let scalar := fp_scalar s insn eb in
  flags ← write_active vm vstart vl (insn_rd insn) eb 0 (fun e flags =>
    a ← velem (insn_rs2 insn) e eb;
    if is_fsqrt (insn_op insn) then eret (sf_sqrt (fmt_eb eb) a rm flags)
    else
      b ← src1 insn (insn_funct3 insn =? 1) scalar e eb;
      expect (vfp_bin (insn_op insn) eb a b rm flags));
  accrue_flags flags.

Definition v_fma insn (vm : bool) (vstart vl : Z) : exec Hart Trap unit :=
  s ← get;
  let eb := sew_bytes s in
  let rm := vec_rm s in
  let scalar := fp_scalar s insn eb in
  flags ← write_active vm vstart vl (insn_rd insn) eb 0 (fun e flags =>
    src ← src1 insn (insn_funct3 insn =? 1) scalar e eb;
    vs2e ← velem (insn_rs2 insn) e eb;
    vde ← velem (insn_rd insn) e eb;
    expect (vfp_fma (insn_op insn) eb src vs2e vde rm flags));
  accrue_flags flags.

Definition v_fred insn (vm : bool) (vstart vl : Z) : exec Hart Trap unit :=
  s ← get;
  let eb := sew_bytes s in
  let mask := sew_mask eb in
  let rm := vec_rm s in
  let sub := fred_op (insn_op insn) in
  seed ← velem (insn_rs1 insn) 0 eb;
  af ← fold_active vm vstart vl (seed, 0) (fun e '(acc, flags) =>
    x ← velem (insn_rs2 insn) e eb;
    rf ← expect (vfp_bin sub eb acc x rm flags);
    eret (Z.land (fst rf) mask, snd rf));
  (if vstart <? vl then set_velem (insn_rd insn) 0 eb (Z.land (fst af) mask) else eret tt);;
  accrue_flags (snd af).

Definition v_fcvt insn (vm : bool) (vstart vl : Z) : exec Hart Trap unit :=
  s ← get;
  let eb := sew_bytes s in
  let frm := vec_rm s in
  flags ← write_active vm vstart vl (insn_rd insn) eb 0 (fun e flags =>
    a ← velem (insn_rs2 insn) e eb;
    eret (vfcvt_elem (insn_op insn) eb a frm flags));
  accrue_flags flags.

Definition v_wred insn (vm : bool) (vstart vl : Z) : exec Hart Trap unit :=
  s ← get;
  let eb := sew_bytes s in
  if 4 <? eb then v_illegal insn
  else
    let web := eb * 2 in
    let wmask := sew_mask web in
    let signed := match insn_op insn with Vwredsum => true | _ => false end in
    seed ← velem (insn_rs1 insn) 0 web;
    acc ← fold_active vm vstart vl seed (fun e acc =>
      x ← velem (insn_rs2 insn) e eb;
      eret (Z.land (wadd 64 acc (as_u64 (extend signed x eb))) wmask));
    if vstart <? vl then set_velem (insn_rd insn) 0 web (Z.land acc wmask) else eret tt.

Definition v_fwred insn (vm : bool) (vstart vl : Z) : exec Hart Trap unit :=
  s ← get;
  let eb := sew_bytes s in
  if 4 <? eb then v_illegal insn
  else
    let web := eb * 2 in
    let wmask := sew_mask web in
    let frm := vec_rm s in
    seed ← velem (insn_rs1 insn) 0 web;
    af ← fold_active vm vstart vl (seed, 0) (fun e '(acc, flags) =>
      a ← velem (insn_rs2 insn) e eb;
      let '(x, flags) := fcvt_round (fmt_eb eb) (fmt_eb web) a frm flags in
      rf ← expect (vfp_bin Vfadd web acc x frm flags);
      eret (Z.land (fst rf) wmask, snd rf));
    (if vstart <? vl then set_velem (insn_rd insn) 0 web (Z.land (fst af) wmask) else eret tt);;
    accrue_flags (snd af).

(** The scalar of the widening floating-point forms. *)
Definition fp_scalar_narrow s insn (eb : Z) : Z :=
  match eb with 2 => h s (insn_rs1 insn) | _ => s32 s (insn_rs1 insn) end.

Definition v_fwmac insn (vm : bool) (vstart vl : Z) : exec Hart Trap unit :=
  s ← get;
  let eb := sew_bytes s in
  if 4 <? eb then v_illegal insn
  else
    let web := eb * 2 in
    let frm := vec_rm s in
    let base := fwmac_op (insn_op insn) in
    let scalar := fp_scalar_narrow s insn eb in
    flags ← write_active vm vstart vl (insn_rd insn) web 0 (fun e flags =>
      s_narrow ← src1 insn (insn_funct3 insn =? 1) scalar e eb;
      let '(src, flags) := fcvt_round (fmt_eb eb) (fmt_eb web) s_narrow frm flags in
      v2_narrow ← velem (insn_rs2 insn) e eb;
      let '(v2, flags) := fcvt_round (fmt_eb eb) (fmt_eb web) v2_narrow frm flags in
      vde ← velem (insn_rd insn) e web;
      expect (vfp_fma base web src v2 vde frm flags));
    accrue_flags flags.

Definition v_fwarith insn (vm : bool) (vstart vl : Z) : exec Hart Trap unit :=
  s ← get;
  let eb := sew_bytes s in
  if 4 <? eb then v_illegal insn
  else
    let web := eb * 2 in
    let frm := vec_rm s in
    let wide_vs2 := match insn_op insn with VfwaddW | VfwsubW => true | _ => false end in
    let scalar := fp_scalar_narrow s insn eb in
    let base := fwarith_op (insn_op insn) in
    flags ← write_active vm vstart vl (insn_rd insn) web 0 (fun e flags =>
      a ← velem (insn_rs2 insn) e (if wide_vs2 then web else eb);
      let '(aw, flags) :=
        if wide_vs2 then (a, flags) else fcvt_round (fmt_eb eb) (fmt_eb web) a frm flags in
      braw ← src1 insn (insn_funct3 insn =? 1) scalar e eb;
      let '(bw, flags) := fcvt_round (fmt_eb eb) (fmt_eb web) braw frm flags in
      expect (vfp_bin base web aw bw frm flags));
    accrue_flags flags.

Definition v_fwcvt insn (vm : bool) (vstart vl : Z) : exec Hart Trap unit :=
  s ← get;
  let eb := sew_bytes s in
  if 4 <? eb then v_illegal insn
  else
    let frm := vec_rm s in
    flags ← write_active vm vstart vl (insn_rd insn) (eb * 2) 0 (fun e flags =>
      a ← velem (insn_rs2 insn) e eb;
      eret (vfwcvt_elem (insn_op insn) eb a frm flags));
    accrue_flags flags.

Definition exec_vector_narrow_conversion insn (vm : bool) : exec Hart Trap unit :=
  s ← get;
  let eb := sew_bytes s in
  let to_integer :=
    match insn_op insn with
    | VfncvtXuF | VfncvtXF | VfncvtRtzXuF | VfncvtRtzXF => true | _ => false end in
  if (4 <? eb) || ((eb =? 1) && negb to_integer) then v_illegal insn
  else
    let web := eb * 2 in
    let frm := vec_rm s in
    flags ← write_active vm (c_vstart s) (c_vl s) (insn_rd insn) eb 0 (fun e flags =>
      wide ← velem (insn_rs2 insn) e web;
      match vfncvt_elem (insn_op insn) eb wide frm flags with
      | Some r => eret r
      | None => v_illegal insn
      end);
    accrue_flags flags.

Definition v_fcmp insn (vm : bool) (vstart vl : Z) : exec Hart Trap unit :=
  s ← get;
  let eb := sew_bytes s in
  let scalar := fp_scalar s insn eb in
  flags ← fold_active vm vstart vl 0 (fun e flags =>
    a ← velem (insn_rs2 insn) e eb;
    b ← src1 insn (insn_funct3 insn =? 1) scalar e eb;
    rf ← expect (vfp_cmp (insn_op insn) eb a b flags);
    modify (set_vmask_bit (insn_rd insn) e (fst rf));;
    eret (snd rf));
  accrue_flags flags.

Definition v_est7 insn (vm : bool) (vstart vl : Z) : exec Hart Trap unit :=
  s ← get;
  let eb := sew_bytes s in
  let rm := vec_rm s in
  flags ← write_active vm vstart vl (insn_rd insn) eb 0 (fun e flags =>
    a ← velem (insn_rs2 insn) e eb;
    eret (match insn_op insn with
          | Vfrsqrt7 => vfrsqrt7 (fmt_eb eb) a flags
          | _ => vfrec7 (fmt_eb eb) a rm flags
          end));
  accrue_flags flags.

Definition v_class insn (vm : bool) (vstart vl : Z) : exec Hart Trap unit :=
  s ← get;
  let eb := sew_bytes s in
  write_each vm vstart vl (insn_rd insn) eb (fun e =>
    a ← velem (insn_rs2 insn) e eb;
    eret (fclass_bits (fmt_eb eb) a)).

(** *** Extension, mask logic and slides *)

(** The ratio of the widths and whether the source is signed. *)
Definition ext_factor (op : Op) : Z * bool :=
  match op with
  | VzextVf2 => (2, false)
  | VsextVf2 => (2, true)
  | VzextVf4 => (4, false)
  | VsextVf4 => (4, true)
  | VzextVf8 => (8, false)
  | _ => (8, true)
  end.

Definition v_ext insn (vm : bool) (vstart vl : Z) : exec Hart Trap unit :=
  s ← get;
  let eb := sew_bytes s in
  let '(factor, signed) := ext_factor (insn_op insn) in
  if eb <? factor then v_illegal insn
  else
    let neb := eb / factor in
    write_each vm vstart vl (insn_rd insn) eb (fun e =>
      src ← velem (insn_rs2 insn) e neb;
      eret (as_u64 (extend signed src neb))).

Definition v_mask_logic insn (vm : bool) (vstart vl : Z) : exec Hart Trap unit :=
  if negb vm then v_illegal insn
  else
    for_body vstart vl (fun e =>
      s ← get;
      let a := vbit s (insn_rs2 insn) e in
      let b := vbit s (insn_rs1 insn) e in
      r ← expect (vmlogic_elem (insn_op insn) a b);
      modify (set_vmask_bit (insn_rd insn) e r)).

(** The offset of the slides. *)
Definition slide_offset s insn : Z :=
  if insn_funct3 insn =? 3 then insn_rs1 insn else get_x s (insn_rs1 insn).

Definition v_slideup insn (vm : bool) (vstart vl : Z) : exec Hart Trap unit :=
  s ← get;
  let eb := sew_bytes s in
  let offset := slide_offset s insn in
  write_each vm (Z.max vstart offset) vl (insn_rd insn) eb (fun e =>
    velem (insn_rs2 insn) (e - offset) eb).

Definition v_slidedown insn (vm : bool) (vstart vl : Z) : exec Hart Trap unit :=
  s ← get;
  let eb := sew_bytes s in
  let vlmax := vlmax_elems s in
  let offset := slide_offset s insn in
  write_each vm vstart vl (insn_rd insn) eb (fun e =>
    let src := Z.min (e + offset) (umax 64) in
    if src <? vlmax then velem (insn_rs2 insn) src eb else eret 0).

(** The scalar of the slides by one. *)
Definition slide1_scalar s insn (eb : Z) : Z :=
  Z.land (match insn_op insn with
          | Vfslide1up | Vfslide1down => fp_scalar s insn eb
          | _ => get_x s (insn_rs1 insn)
          end) (sew_mask eb).

Definition v_slide1up insn (vm : bool) (vstart vl : Z) : exec Hart Trap unit :=
  s ← get;
  let eb := sew_bytes s in
  let scalar := slide1_scalar s insn eb in
  write_each vm vstart vl (insn_rd insn) eb (fun e =>
    if e =? 0 then eret scalar else velem (insn_rs2 insn) (e - 1) eb).

Definition v_slide1down insn (vm : bool) (vstart vl : Z) : exec Hart Trap unit :=
  s ← get;
  let eb := sew_bytes s in
  let scalar := slide1_scalar s insn eb in
  write_each vm vstart vl (insn_rd insn) eb (fun e =>
    if e + 1 <? vl then velem (insn_rs2 insn) (e + 1) eb else eret scalar).

(** *** Widening and narrowing integer arithmetic *)

(** Whether a widening addition is signed, subtracts, and reads a wide [vs2]. *)
Definition wadd_signed (op : Op) : bool :=
  match op with Vwadd | Vwsub | VwaddW | VwsubW => true | _ => false end.
Definition wadd_sub (op : Op) : bool :=
  match op with Vwsubu | Vwsub | VwsubuW | VwsubW => true | _ => false end.
Definition wadd_wide (op : Op) : bool :=
  match op with VwadduW | VwaddW | VwsubuW | VwsubW => true | _ => false end.

Definition v_wadd insn (vm : bool) (vstart vl : Z) : exec Hart Trap unit :=
  s ← get;
  let eb := sew_bytes s in
  if 4 <? eb then v_illegal insn
  else
    let web := eb * 2 in
    let signed := wadd_signed (insn_op insn) in
    let sub := wadd_sub (insn_op insn) in
    let wide_vs2 := wadd_wide (insn_op insn) in
    let scalar := Z.land (get_x s (insn_rs1 insn)) (sew_mask eb) in
    write_each vm vstart vl (insn_rd insn) web (fun e =>
      let aeb := if wide_vs2 then web else eb in
      raw ← velem (insn_rs2 insn) e aeb;
      braw ← src1 insn (insn_funct3 insn =? 2) scalar e eb;
      let a := extend signed raw aeb in
      let b := extend signed braw eb in
      eret (as_u64 (if sub then a - b else a + b))).

(** The signedness of the factors [vs2] and [vs1], and whether [vd] is added. *)
Definition wmul_signs (op : Op) : bool * bool :=
  match op with
  | Vwmulu | Vwmaccu => (false, false)
  | Vwmul | Vwmacc => (true, true)
  | Vwmulsu | Vwmaccus => (true, false)
  | _ => (false, true)
  end.
Definition wmul_mac (op : Op) : bool :=
  match op with Vwmaccu | Vwmacc | Vwmaccsu | Vwmaccus => true | _ => false end.

Definition v_wmul insn (vm : bool) (vstart vl : Z) : exec Hart Trap unit :=
  s ← get;
  let eb := sew_bytes s in
  if 4 <? eb then v_illegal insn
  else
    let web := eb * 2 in
    let '(a_signed, b_signed) := wmul_signs (insn_op insn) in
    let is_mac := wmul_mac (insn_op insn) in
    let scalar := Z.land (get_x s (insn_rs1 insn)) (sew_mask eb) in
    write_each vm vstart vl (insn_rd insn) web (fun e =>
      araw ← velem (insn_rs2 insn) e eb;
      braw ← src1 insn (insn_funct3 insn =? 2) scalar e eb;
      let prod := extend a_signed araw eb * extend b_signed braw eb in
      acc ← (if is_mac then velem (insn_rd insn) e web else eret 0);
      eret (as_u64 (as_i128 (prod + acc)))).

(** The T-Head dot products: the mask bits gate the bytes of a lane. *)
Definition v_maqa insn (vm : bool) (vstart vl : Z) : exec Hart Trap unit :=
  s ← get;
  let eb := sew_bytes s in
  if negb (eb =? 4) then v_illegal insn
  else
    let scalar := negb (Z.land (wshr 32 (insn_raw insn) 26) 1 =? 0) in
    signs ← expect (match insn_op insn with
                    | ThVmaqa => Some (true, true)
                    | ThVmaqau => Some (false, false)
                    | ThVmaqasu => Some (true, false)
                    | ThVmaqaus => Some (false, true)
                    | _ => None
                    end);
    for_body vstart vl (fun e =>
      a ← src1 insn (negb scalar) (get_x s (insn_rs1 insn)) e eb;
      b ← velem (insn_rs2 insn) e eb;
      sum ← fold_active vm (e * 4) (e * 4 + 4) 0 (fun lane sum =>
        let byte := lane - e * 4 in
        let av := th_vdot_byte (as_u8 (wshr 32 (as_u32 a) (byte * 8))) (fst signs) in
        let bv := th_vdot_byte (as_u8 (wshr 32 (as_u32 b) (byte * 8))) (snd signs) in
        eret (sum + av * bv));
      acc ← velem (insn_rd insn) e eb;
      set_velem (insn_rd insn) e eb (wadd 32 (as_u32 acc) (as_u32 sum))).

Definition narrow_clip (op : Op) : bool := match op with Vnclipu | Vnclip => true | _ => false end.
Definition narrow_signed (op : Op) : bool := match op with Vnsra | Vnclip => true | _ => false end.

Definition v_narrow insn (vm : bool) (vstart vl : Z) : exec Hart Trap unit :=
  s ← get;
  let eb := sew_bytes s in
  if 4 <? eb then v_illegal insn
  else
    let web := eb * 2 in
    let sh_mask := web * 8 - 1 in
    let is_clip := narrow_clip (insn_op insn) in
    let signed := narrow_signed (insn_op insn) in
    let scalar := uint_scalar s insn in
    sat ← write_active vm vstart vl (insn_rd insn) eb false (fun e sat =>
      aw ← velem (insn_rs2 insn) e web;
      amount ← src1 insn (insn_funct3 insn =? 0) scalar e eb;
      let sh := Z.land (as_u32 amount) sh_mask in
      let '(r, o) := vnarrow_elem is_clip signed eb aw sh (c_vxrm s) in
      eret (r, sat || o));
    set_sat sat.

(** *** Fixed point *)

Definition v_sshift insn (vm : bool) (vstart vl : Z) : exec Hart Trap unit :=
  s ← get;
  let eb := sew_bytes s in
  let shmask := eb * 8 - 1 in
  let logical := match insn_op insn with Vssrl => true | _ => false end in
  let scalar := uint_scalar s insn in
  write_each vm vstart vl (insn_rd insn) eb (fun e =>
    a ← velem (insn_rs2 insn) e eb;
    amount ← src1 insn (insn_funct3 insn =? 0) scalar e eb;
    eret (vssr_elem logical eb a (Z.land (as_u32 amount) shmask) (c_vxrm s))).

Definition v_smul insn (vm : bool) (vstart vl : Z) : exec Hart Trap unit :=
  s ← get;
  let eb := sew_bytes s in
  let scalar := Z.land (get_x s (insn_rs1 insn)) (sew_mask eb) in
  sat ← write_active vm vstart vl (insn_rd insn) eb false (fun e sat =>
    a ← velem (insn_rs2 insn) e eb;
    b ← src1 insn (insn_funct3 insn =? 0) scalar e eb;
    let '(r, o) := vsmul_elem eb a b (c_vxrm s) in
    eret (r, sat || o));
  set_sat sat.

Definition v_avg insn (vm : bool) (vstart vl : Z) : exec Hart Trap unit :=
  s ← get;
  let eb := sew_bytes s in
  let scalar := Z.land (get_x s (insn_rs1 insn)) (sew_mask eb) in
  write_each vm vstart vl (insn_rd insn) eb (fun e =>
    a ← velem (insn_rs2 insn) e eb;
    b ← src1 insn (insn_funct3 insn =? 2) scalar e eb;
    eret (vavg_elem (insn_op insn) eb a b (c_vxrm s))).

Definition v_sat insn (vm : bool) (vstart vl : Z) : exec Hart Trap unit :=
  s ← get;
  let eb := sew_bytes s in
  let scalar := int_scalar s insn (sew_mask eb) in
  sat ← write_active vm vstart vl (insn_rd insn) eb false (fun e sat =>
    a ← velem (insn_rs2 insn) e eb;
    b ← src1 insn (insn_funct3 insn =? 0) scalar e eb;
    let '(r, o) := vsat_elem (insn_op insn) eb a b in
    eret (r, sat || o));
  set_sat sat.

(** *** Carries *)

Definition v_adc insn (vstart vl : Z) : exec Hart Trap unit :=
  s ← get;
  let eb := sew_bytes s in
  let mask := sew_mask eb in
  let scalar := int_scalar s insn mask in
  for_body vstart vl (fun e =>
    a ← velem (insn_rs2 insn) e eb;
    b ← src1 insn (insn_funct3 insn =? 0) scalar e eb;
    cin ← vmask_bit e;
    let r := match insn_op insn with
             | Vadc => wadd 64 (wadd 64 a b) (of_bool cin)
             | _ => wsub 64 (wsub 64 a b) (of_bool cin)
             end in
    set_velem (insn_rd insn) e eb (Z.land r mask)).

Definition v_madc insn (vm : bool) (vstart vl : Z) : exec Hart Trap unit :=
  s ← get;
  let eb := sew_bytes s in
  let mask := sew_mask eb in
  let scalar := int_scalar s insn mask in
  for_body vstart vl (fun e =>
    a ← velem (insn_rs2 insn) e eb;
    b ← src1 insn (insn_funct3 insn =? 0) scalar e eb;
    bit ← (if vm then eret false else vmask_bit e);
    let cin := of_bool bit in
    let out := match insn_op insn with Vmadc => mask <? a + b + cin | _ => a <? b + cin end in
    modify (set_vmask_bit (insn_rd insn) e out)).

(** *** Permutations and moves *)

Definition v_mvr insn (vm : bool) : exec Hart Trap unit :=
  match (match insn_rs1 insn with
         | 0 => Some 1 | 1 => Some 2 | 3 => Some 4 | 7 => Some 8 | _ => None end) with
  | None => v_illegal insn
  | Some nreg =>
      if negb vm || negb (insn_rd insn mod nreg =? 0) || negb (insn_rs2 insn mod nreg =? 0)
      then v_illegal insn
      else
        for_body 0 (nreg * VLENB) (fun i =>
          b ← velem (insn_rs2 insn) i 1;
          set_velem (insn_rd insn) i 1 b)
  end.

(** The registers of a group: one for LMUL = 1 and below. *)
Definition group_regs s : Z :=
  match Z.land (c_vtype s) 0x7 with 1 => 2 | 2 => 4 | 3 => 8 | _ => 1 end.
Definition regs_overlap (a an b bn : Z) : bool := (a <? wadd 8 b bn) && (b <? wadd 8 a an).

Definition v_compress insn (vm : bool) (vstart vl : Z) : exec Hart Trap unit :=
  s ← get;
  let emul := group_regs s in
  if negb vm || negb (vstart =? 0)
     || regs_overlap (insn_rd insn) emul (insn_rs2 insn) emul
     || regs_overlap (insn_rd insn) emul (insn_rs1 insn) 1
  then v_illegal insn
  else
    let eb := sew_bytes s in
    let mask := sew_mask eb in
    fold_elems (range vstart vl) (fun e out =>
      s ← get;
      if vbit s (insn_rs1 insn) e then
        v ← velem (insn_rs2 insn) e eb;
        set_velem (insn_rd insn) out eb (Z.land v mask);;
        eret (out + 1)
      else eret out) vstart;;
    eret tt.

Definition v_gather insn (vm : bool) (vstart vl : Z) : exec Hart Trap unit :=
  s ← get;
  let eb := sew_bytes s in
  let vlmax := vlmax_elems s in
  let scalar_idx := uint_scalar s insn in
  let ei16 := match insn_op insn with Vrgatherei16 => true | _ => false end in
  let is_vv := insn_funct3 insn =? 0 in
  let data_emul := group_regs s in
  let sew_bits := wshl 32 8 (Z.land (wshr 64 (c_vtype s) 3) 0x7) in
  let idx_regs :=
    if ei16 then as_u8 (Z.max ((data_emul * 16 + sew_bits - 1) / sew_bits) 1) else data_emul in
  if regs_overlap (insn_rd insn) data_emul (insn_rs2 insn) data_emul then v_illegal insn
  else if (is_vv || ei16) && regs_overlap (insn_rd insn) data_emul (insn_rs1 insn) idx_regs
  then v_illegal insn
  else
    write_each vm vstart vl (insn_rd insn) eb (fun e =>
      idx ← (if ei16 then velem (insn_rs1 insn) e 2
             else src1 insn is_vv scalar_idx e eb);
      if idx <? vlmax then velem (insn_rs2 insn) idx eb else eret 0).

Definition v_cpop insn (vm : bool) (vstart vl : Z) : exec Hart Trap unit :=
  if negb (vstart =? 0) then v_illegal insn
  else
    count ← fold_active vm vstart vl 0 (fun e count =>
      s ← get;
      eret (if vbit s (insn_rs2 insn) e then count + 1 else count));
    modify (set_x (insn_rd insn) count).

(** The search of [vfirst], which leaves the loop at the first set bit. *)
Fixpoint first_set insn (vm : bool) (l : list Z) : exec Hart Trap Z :=
  match l with
  | [] => eret (-1)
  | e :: l =>
      on ← (if vm then eret true else vmask_bit e);
      s ← get;
      if (on : bool) && vbit s (insn_rs2 insn) e then eret e else first_set insn vm l
  end.

Definition v_first insn (vm : bool) (vstart vl : Z) : exec Hart Trap unit :=
  if negb (vstart =? 0) then v_illegal insn
  else
    idx ← first_set insn vm (range vstart vl);
    modify (set_x (insn_rd insn) (as_u64 idx)).

(** [vmsbf], [vmsif] and [vmsof]; the accumulator is [found]. *)
Definition v_msbf insn (vm : bool) (vstart vl : Z) : exec Hart Trap unit :=
  fold_active vm vstart vl false (fun e found =>
    s ← get;
    let set := vbit s (insn_rs2 insn) e in
    let out :=
      if (found : bool) then false
      else if set then match insn_op insn with Vmsbf => false | _ => true end
      else match insn_op insn with Vmsof => false | _ => true end in
    modify (set_vmask_bit (insn_rd insn) e out);;
    eret (found || set));;
  eret tt.

Definition v_iota insn (vm : bool) (vstart vl : Z) : exec Hart Trap unit :=
  if negb (vstart =? 0) then v_illegal insn
  else
    s ← get;
    let eb := sew_bytes s in
    let mask := sew_mask eb in
    fold_active vm vstart vl 0 (fun e sum =>
      set_velem (insn_rd insn) e eb (Z.land sum mask);;
      s ← get;
      eret (if vbit s (insn_rs2 insn) e then sum + 1 else sum));;
    eret tt.

Definition v_id insn (vm : bool) (vstart vl : Z) : exec Hart Trap unit :=
  s ← get;
  write_each vm vstart vl (insn_rd insn) (sew_bytes s) (fun e => eret e).

Definition v_mv_x_s insn : exec Hart Trap unit :=
  s ← get;
  let eb := sew_bytes s in
  v ← velem (insn_rs2 insn) 0 eb;
  modify (set_x (insn_rd insn) (as_u64 (sext_sew v eb))).

Definition v_fmv_f_s insn : exec Hart Trap unit :=
  s ← get;
  let eb := sew_bytes s in
  v ← velem (insn_rs2 insn) 0 eb;
  modify (match eb with
          | 2 => wf16 (insn_rd insn) (as_u16 v)
          | 4 => wf32 (insn_rd insn) (as_u32 v)
          | _ => wf64 (insn_rd insn) v
          end).

Definition v_mv_s_x insn (vstart vl : Z) : exec Hart Trap unit :=
  s ← get;
  let eb := sew_bytes s in
  if vstart <? vl
  then set_velem (insn_rd insn) 0 eb (Z.land (get_x s (insn_rs1 insn)) (sew_mask eb))
  else eret tt.

Definition v_fmv_s_f insn (vstart vl : Z) : exec Hart Trap unit :=
  s ← get;
  let eb := sew_bytes s in
  if vstart <? vl
  then set_velem (insn_rd insn) 0 eb (Z.land (fp_scalar s insn eb) (sew_mask eb))
  else eret tt.

(** ** The dispatch *)

Definition exec_vector_op insn (vm : bool) (vstart vl : Z) : exec Hart Trap unit :=
  match insn_op insn with
  | Vle | Vse | Vlse | Vsse | Vlxei | Vsxei | Vleff | Vlseg | Vsseg | Vlm | Vsm | Vlre | Vsre =>
      exec_vector_memory insn vm (insn_rd insn) vstart vl
  | Vmerge => v_merge insn vm vstart vl
  | Vadd | Vsub | Vrsub | Vand | Vor | Vxor | Vminu | Vmin | Vmaxu | Vmax | Vsll | Vsrl | Vsra =>
      v_alu insn vm vstart vl
  | Vmul | Vmulh | Vmulhu | Vmulhsu | Vdivu | Vdiv | Vremu | Vrem => v_mul insn vm vstart vl
  | Vredsum | Vredand | Vredor | Vredxor | Vredminu | Vredmin | Vredmaxu | Vredmax =>
      v_red insn vm vstart vl
  | Vmseq | Vmsne | Vmsltu | Vmslt | Vmsleu | Vmsle | Vmsgtu | Vmsgt => v_cmp insn vm vstart vl
  | Vfadd | Vfsub | Vfrsub | Vfmul | Vfdiv | Vfrdiv | Vfmin | Vfmax | Vfsgnj | Vfsgnjn | Vfsgnjx
  | Vfsqrt => v_fbin insn vm vstart vl
  | Vfmacc | Vfnmacc | Vfmsac | Vfnmsac | Vfmadd | Vfnmadd | Vfmsub | Vfnmsub =>
      v_fma insn vm vstart vl
  | Vfredusum | Vfredosum | Vfredmin | Vfredmax => v_fred insn vm vstart vl
  | VfcvtXuF | VfcvtXF | VfcvtFXu | VfcvtFX | VfcvtRtzXuF | VfcvtRtzXF => v_fcvt insn vm vstart vl
  | Vwredsumu | Vwredsum => v_wred insn vm vstart vl
  | Vfwredusum | Vfwredosum => v_fwred insn vm vstart vl
  | Vfwmacc | Vfwnmacc | Vfwmsac | Vfwnmsac => v_fwmac insn vm vstart vl
  | Vfwadd | Vfwsub | Vfwmul | VfwaddW | VfwsubW => v_fwarith insn vm vstart vl
  | VfwcvtXuF | VfwcvtXF | VfwcvtFXu | VfwcvtFX | VfwcvtFF | VfwcvtRtzXuF | VfwcvtRtzXF =>
      v_fwcvt insn vm vstart vl
  | VfncvtXuF | VfncvtXF | VfncvtFXu | VfncvtFX | VfncvtFF | VfncvtRodFF | VfncvtRtzXuF
  | VfncvtRtzXF => exec_vector_narrow_conversion insn vm
  | Vmfeq | Vmfne | Vmflt | Vmfle | Vmfgt | Vmfge => v_fcmp insn vm vstart vl
  | VzextVf2 | VsextVf2 | VzextVf4 | VsextVf4 | VzextVf8 | VsextVf8 => v_ext insn vm vstart vl
  | Vmand | Vmnand | Vmandn | Vmxor | Vmor | Vmnor | Vmorn | Vmxnor =>
      v_mask_logic insn vm vstart vl
  | Vslideup => v_slideup insn vm vstart vl
  | Vslidedown => v_slidedown insn vm vstart vl
  | Vslide1up | Vfslide1up => v_slide1up insn vm vstart vl
  | Vslide1down | Vfslide1down => v_slide1down insn vm vstart vl
  | Vwaddu | Vwadd | Vwsubu | Vwsub | VwadduW | VwaddW | VwsubuW | VwsubW =>
      v_wadd insn vm vstart vl
  | Vwmulu | Vwmulsu | Vwmul | Vwmaccu | Vwmacc | Vwmaccsu | Vwmaccus => v_wmul insn vm vstart vl
  | ThVmaqa | ThVmaqau | ThVmaqasu | ThVmaqaus => v_maqa insn vm vstart vl
  | Vnsrl | Vnsra | Vnclipu | Vnclip => v_narrow insn vm vstart vl
  | Vssrl | Vssra => v_sshift insn vm vstart vl
  | Vsmul => v_smul insn vm vstart vl
  | Vaaddu | Vaadd | Vasubu | Vasub => v_avg insn vm vstart vl
  | Vsaddu | Vsadd | Vssubu | Vssub => v_sat insn vm vstart vl
  | Vadc | Vsbc => v_adc insn vstart vl
  | Vmadc | Vmsbc => v_madc insn vm vstart vl
  | Vfrsqrt7 | Vfrec7 => v_est7 insn vm vstart vl
  | Vfclass => v_class insn vm vstart vl
  | Vmvr => v_mvr insn vm
  | Vcompress => v_compress insn vm vstart vl
  | Vrgather | Vrgatherei16 => v_gather insn vm vstart vl
  | Vcpop => v_cpop insn vm vstart vl
  | Vfirst => v_first insn vm vstart vl
  | Vmsbf | Vmsif | Vmsof => v_msbf insn vm vstart vl
  | Viota => v_iota insn vm vstart vl
  | Vid => v_id insn vm vstart vl
  | VmvXS => v_mv_x_s insn
  | VfmvFS => v_fmv_f_s insn
  | VmvSX => v_mv_s_x insn vstart vl
  | VfmvSF => v_fmv_s_f insn vstart vl
  | _ => v_illegal insn
  end.

(** [matches!(op, Op::Vlre | Op::Vsre)]: what runs while [vill] is set. *)
Definition ignores_vill (op : Op) : bool := match op with Vlre | Vsre => true | _ => false end.

Definition exec_vector insn : exec Hart Trap unit :=
  s ← get;
  if negb (Z.land (wshr 64 (c_vtype s) (xbits s - 1)) 1 =? 0) && negb (ignores_vill (insn_op insn))
  then v_illegal insn
  else
    let vm := negb (Z.land (wshr 32 (insn_raw insn) 25) 1 =? 0) in
    validate insn vm;;
    exec_vector_op insn vm (c_vstart s) (c_vl s);;
    modify (set_c_vstart 0).
End VecExec.
