(* ===== verification/RvVecLanes.v ===== *)
(** * Lanes of the vector register file

    The elements of a register group as lanes of the register file's bytes, and
    the loops of the vector engine over them: when no lane is overwritten before
    it is read, a loop that works in place computes every lane from the original
    registers. *)

From S2P Require Import Prelude RvIsa RvOp RvMemory RvState RvVec RvVecExec.

(** ** Lanes *)

(** The first byte of lane [e] of [eb] bytes of the group at [reg]. *)
Definition lane_offset (reg e eb : Z) : Z := reg * VLENB + e * eb.

(** The value of a lane. *)
Definition lane (v : list Z) (reg e eb : Z) : Z :=
  from_le_bytes (take (Z.to_nat eb) (drop (Z.to_nat (lane_offset reg e eb)) v)).

(** The byte at [p] belongs to the lane. *)
Definition in_lane (reg e eb : Z) (p : nat) : Prop :=
  lane_offset reg e eb <= Z.of_nat p < lane_offset reg e eb + eb.

(** The lane is inside the register file. *)
Definition lane_ok (v : list Z) (reg e eb : Z) : Prop :=
  0 <= lane_offset reg e eb /\ 1 <= eb <= 8
  /\ lane_offset reg e eb + eb <= Z.of_nat (length v).

(** The bytes [v] with a lane replaced. *)
Definition put_lane (v : list Z) (reg e eb val : Z) : list Z :=
  let off := Z.to_nat (lane_offset reg e eb) in
  take off v ++ to_le_bytes (Z.to_nat eb) val ++ drop (off + Z.to_nat eb) v.

Lemma lane_offset_nonneg reg e eb :
  0 <= reg -> 0 <= e -> 0 <= eb -> 0 <= lane_offset reg e eb.
Proof. intros. unfold lane_offset. change VLENB with 16. nia. Qed.

Lemma lane_ext v v' reg e eb :
  0 <= lane_offset reg e eb -> (forall p, in_lane reg e eb p -> v' !! p = v !! p) ->
  lane v' reg e eb = lane v reg e eb.
Proof.
  intros Ho Hp. unfold lane. f_equal. apply list_eq. intros i.
  destruct (decide (i < Z.to_nat eb)%nat) as [Hi|Hi].
  - rewrite !lookup_take_lt, !lookup_drop by done. apply Hp. unfold in_lane. lia.
  - rewrite !lookup_take_ge by lia. done.
Qed.

Lemma length_put_lane v reg e eb val :
  lane_ok v reg e eb -> length (put_lane v reg e eb val) = length v.
Proof.
  intros (? & ? & ?). unfold put_lane.
  rewrite !length_app, length_take, to_le_bytes_length, length_drop. lia.
Qed.

Lemma lookup_put_lane_other v reg e eb val p :
  lane_ok v reg e eb -> ~ in_lane reg e eb p -> put_lane v reg e eb val !! p = v !! p.
Proof.
  intros (? & ? & ?) Hp. unfold put_lane, in_lane in *.
  destruct (decide (p < Z.to_nat (lane_offset reg e eb))%nat).
  - rewrite lookup_app_l, lookup_take_lt; [done | lia | rewrite length_take; lia].
  - rewrite lookup_app_r by (rewrite length_take; lia).
    rewrite lookup_app_r by (rewrite length_take, to_le_bytes_length; lia).
    rewrite length_take, to_le_bytes_length, lookup_drop. f_equal. lia.
Qed.

Lemma lane_put_lane v reg e eb val :
  lane_ok v reg e eb -> lane (put_lane v reg e eb val) reg e eb = as_u (8 * eb) val.
Proof.
  intros (? & ? & ?). unfold lane, put_lane.
  rewrite drop_app_le by (rewrite length_take; lia).
  rewrite drop_ge, app_nil_l by (rewrite length_take; lia).
  rewrite take_app_le by (rewrite to_le_bytes_length; lia).
  rewrite take_ge by (rewrite to_le_bytes_length; lia).
  rewrite from_to_le_bytes. f_equal. lia.
Qed.

(** Reading a lane that shares no byte with the one written. *)
Lemma lane_put_lane_other v reg e eb val reg' e' eb' :
  lane_ok v reg e eb -> 0 <= lane_offset reg' e' eb' ->
  (forall p, in_lane reg' e' eb' p -> ~ in_lane reg e eb p) ->
  lane (put_lane v reg e eb val) reg' e' eb' = lane v reg' e' eb'.
Proof.
  intros Hok Ho Hd. apply lane_ext; [done|]. intros p Hp. apply lookup_put_lane_other; auto.
Qed.

Lemma lane_disjoint reg e e' eb p :
  e <> e' -> in_lane reg e eb p -> ~ in_lane reg e' eb p.
Proof. unfold in_lane, lane_offset. nia. Qed.

Lemma lane_fits v reg e eb : 0 <= eb -> Forall (fits 8) v -> fits (8 * eb) (lane v reg e eb).
Proof.
  intros He Hv. eapply fits_weaken; [|apply from_le_bytes_fits, Forall_take, Forall_drop, Hv].
  rewrite length_take. lia.
Qed.

(** ** A written region *)

(** [v'] is [v] with the lanes [e] of [start..stop] that are [on] set to [f e]. *)
Record written (v v' : list Z) (rd eb start stop : Z) (on : Z -> bool) (f : Z -> Z) : Prop := {
  wr_length : length v' = length v;
  wr_lane e : start <= e < stop -> on e = true -> lane v' rd e eb = as_u (8 * eb) (f e);
  wr_other p : (forall e, start <= e < stop -> on e = true -> ~ in_lane rd e eb p) ->
    v' !! p = v !! p
}.

Lemma written_nil v rd eb start stop on f : stop <= start -> written v v rd eb start stop on f.
Proof. intros. split; [done | lia | done]. Qed.

Lemma written_skip v v' rd eb start k on f :
  on k = false -> written v v' rd eb start k on f -> written v v' rd eb start (k + 1) on f.
Proof.
  intros Hk []. split; [done| |].
  - intros e He Hon. apply wr_lane0; [|done]. assert (e <> k) by congruence. lia.
  - intros p Hp. apply wr_other0. intros e He. apply Hp. lia.
Qed.

Lemma written_put v v' rd eb start k on f val :
  lane_ok v rd k eb -> 0 <= start <= k -> 0 <= rd ->
  on k = true -> as_u (8 * eb) val = as_u (8 * eb) (f k) ->
  written v v' rd eb start k on f ->
  written v (put_lane v' rd k eb val) rd eb start (k + 1) on f.
Proof.
  intros Hok Hk Hrd Hon Hval [Hl Hw Hp].
  assert (Hok' : lane_ok v' rd k eb) by (unfold lane_ok in *; by rewrite Hl).
  split.
  - by rewrite length_put_lane.
  - intros e He He'. destruct (decide (e = k)) as [->|Hne]; [by rewrite lane_put_lane|].
    rewrite lane_put_lane_other; [apply Hw; [lia|done] | done | |].
    + destruct Hok as (_ & ? & _). apply lane_offset_nonneg; lia.
    + intros p. by apply lane_disjoint.
  - intros p Hq. rewrite lookup_put_lane_other; [|done | by apply Hq; [lia|]].
    apply Hp. intros e He. apply Hq. lia.
Qed.

Lemma written_ext v v' rd eb start stop on f g :
  (forall e, start <= e < stop -> on e = true -> as_u (8 * eb) (f e) = as_u (8 * eb) (g e)) ->
  written v v' rd eb start stop on f -> written v v' rd eb start stop on g.
Proof. intros Hfg []. split; [done | | done]. intros e He Hon. by rewrite <- Hfg, wr_lane0. Qed.

(** The lanes a write to [rd] does not reach before lane [e] is processed. *)
Definition no_hazard (rd dw rs rw stop : Z) : Prop :=
  forall e e' p, 0 <= e' < e -> e < stop -> in_lane rs e rw p -> ~ in_lane rd e' dw p.

Lemma written_read v v' rd dw start k on f rs rw stop :
  written v v' rd dw start k on f -> no_hazard rd dw rs rw stop ->
  0 <= start -> k < stop -> 0 <= lane_offset rs k rw ->
  lane v' rs k rw = lane v rs k rw.
Proof.
  intros Hw Hn Hs Hk Ho. apply lane_ext; [done|]. intros p Hp. apply (wr_other _ _ _ _ _ _ _ _ Hw).
  intros e He _. apply (Hn k); [lia | done | done].
Qed.

(** A source group of [n] lanes of width [rw] beside the destination. *)
Record placed (v : list Z) (rd dw rs rw n : Z) : Prop := {
  pl_ok e : 0 <= e < n -> lane_ok v rs e rw;
  pl_hazard : no_hazard rd dw rs rw n
}.

(** The three ways a source may be placed. *)
Lemma hazard_disjoint rd dw rs rw stop :
  0 <= dw -> 0 <= rw ->
  rd * VLENB + stop * dw <= rs * VLENB \/ rs * VLENB + stop * rw <= rd * VLENB ->
  no_hazard rd dw rs rw stop.
Proof. intros Hd Hr Hsep e e' p He Hs. unfold in_lane, lane_offset. nia. Qed.

Lemma hazard_same rd dw rw stop : 0 <= dw <= rw -> no_hazard rd dw rd rw stop.
Proof. intros Hd e e' p He Hs. unfold in_lane, lane_offset. nia. Qed.

Lemma hazard_top rd dw rs rw stop :
  0 <= rw <= dw -> rs * VLENB = rd * VLENB + stop * (dw - rw) -> no_hazard rd dw rs rw stop.
Proof. intros Hd Hr e e' p He Hs. unfold in_lane, lane_offset. nia. Qed.

(** ** The accessors *)

(** Mask bit [e] of [v0]. *)
Definition mask_bit (v : list Z) (e : Z) : bool := Z.testbit (nth (Z.to_nat (e / 8)) v 0) (e mod 8).
(** Whether element [e] is active. *)
Definition active (vm : bool) (v : list Z) (e : Z) : bool := vm || mask_bit v e.

Lemma land_one_testbit a n : 0 <= n -> negb (Z.land (Z.shiftr a n) 1 =? 0) = Z.testbit a n.
Proof.
  intros Hn. change 1 with (Z.ones 1). rewrite Z.land_ones by lia. change (2 ^ 1) with 2.
  rewrite <- (Z.add_0_l n) at 2. rewrite <- Z.shiftr_spec, Z.bit0_odd by lia.
  rewrite Zmod_odd. by destruct (Z.odd _).
Qed.

Lemma sew_mask_ones eb : 1 <= eb <= 8 -> sew_mask eb = Z.ones (8 * eb).
Proof.
  intros He.
  assert (eb = 1 \/ eb = 2 \/ eb = 3 \/ eb = 4 \/ eb = 5 \/ eb = 6 \/ eb = 7 \/ eb = 8) by lia.
  by destruct_or?; subst.
Qed.

Lemma as_u_masked eb r : 1 <= eb <= 8 -> as_u (8 * eb) (Z.land r (sew_mask eb)) = as_u (8 * eb) r.
Proof.
  intros He. rewrite sew_mask_ones, Z.land_ones by lia. apply as_u_idemp.
Qed.

Section Accessors.
Context {M : Type} `{Memory M}.
Abbreviation Hart := (RiscVCpu M).
Implicit Types (s : Hart).

Lemma velem_lane reg e eb s :
  lane_ok (c_v s) reg e eb -> velem reg e eb s = (Ok (lane (c_v s) reg e eb), s).
Proof.
  intros (? & ? & Hl). unfold velem, mbind, exec_bind, ebind, get. cbv zeta.
  unfold lane_offset in Hl. rewrite (proj2 (Z.leb_le _ _) Hl).
  by rewrite (proj2 (Z.leb_le eb 8)) by lia.
Qed.

Lemma set_velem_lane reg e eb val s :
  lane_ok (c_v s) reg e eb ->
  set_velem reg e eb val s = (Ok tt, set_c_v (put_lane (c_v s) reg e eb val) s).
Proof.
  intros (? & ? & Hl). unfold set_velem, mbind, exec_bind, ebind, get. cbv zeta.
  unfold lane_offset in Hl. rewrite (proj2 (Z.leb_le _ _) Hl).
  by rewrite (proj2 (Z.leb_le eb 8)) by lia.
Qed.

Lemma vmask_bit_spec e s :
  0 <= e -> e / 8 < Z.of_nat (length (c_v s)) -> vmask_bit e s = (Ok (mask_bit (c_v s) e), s).
Proof.
  intros He Hl. unfold vmask_bit, mbind, exec_bind, ebind, get, mask_bit. rewrite nth_lookup.
  destruct (c_v s !! Z.to_nat (e / 8)) as [b|] eqn:E.
  - cbn [expect eret default]. unfold eret, wshr. rewrite Z.mod_small by (pose proof (Z.mod_pos_bound e 8); lia).
    rewrite land_one_testbit; [done|]. pose proof (Z.mod_pos_bound e 8). lia.
  - apply lookup_ge_None in E. pose proof (Z.div_pos e 8). lia.
Qed.

Lemma active_spec (vm : bool) e s :
  0 <= e -> e / 8 < Z.of_nat (length (c_v s)) ->
  (if vm then eret true else vmask_bit e) s = (Ok (active vm (c_v s) e), s).
Proof. intros. destruct vm; [done | by apply vmask_bit_spec]. Qed.

(** ** Loops *)

Lemma fold_elems_app {A} l1 l2 (body : Z -> A -> exec Hart Trap A) acc s a1 s1 :
  fold_elems l1 body acc s = (Ok a1, s1) ->
  fold_elems (l1 ++ l2) body acc s = fold_elems l2 body a1 s1.
Proof.
  revert acc s. induction l1 as [|e l1 IH]; intros acc s; cbn [fold_elems app].
  { unfold eret. by intros [= -> ->]. }
  unfold mbind, exec_bind, ebind. destruct (body e acc s) as [[a|t|] s']; [|done..]. apply IH.
Qed.

Lemma fold_elems_ext {A} l (body body' : Z -> A -> exec Hart Trap A) acc s :
  (forall e a s, body e a s = body' e a s) -> fold_elems l body acc s = fold_elems l body' acc s.
Proof.
  intros Hb. revert acc s. induction l as [|e l IH]; intros acc s; cbn [fold_elems]; [done|].
  unfold mbind, exec_bind, ebind. rewrite Hb. destruct (body' e acc s) as [[a|t|] s']; auto.
Qed.

Lemma range_snoc start k : start <= k -> range start (k + 1) = range start k ++ [k].
Proof.
  intros. unfold range. replace (k + 1 - start) with (k - start + 1) by lia.
  rewrite seqZ_app by lia. replace (start + (k - start)) with k by lia. done.
Qed.

Lemma range_cons start stop : start < stop -> range start stop = start :: range (start + 1) stop.
Proof. intros. unfold range. rewrite seqZ_cons by lia. do 2 f_equal; lia. Qed.

Lemma range_split start j stop :
  start <= j <= stop -> range start stop = range start j ++ range j stop.
Proof.
  intros. unfold range. replace (stop - start) with ((j - start) + (stop - j)) by lia.
  rewrite seqZ_app by lia. do 2 f_equal. lia.
Qed.

Lemma range_nil start stop : stop <= start -> range start stop = [].
Proof. intros. unfold range. apply seqZ_nil. lia. Qed.

(** The accumulator after the active elements of [start..stop]. *)
Definition fold_on {A} (on : Z -> bool) (g : Z -> A -> A) (start stop : Z) (acc : A) : A :=
  fold_left (fun acc e => if on e then g e acc else acc) (range start stop) acc.

Lemma fold_on_snoc {A} on (g : Z -> A -> A) start k acc :
  start <= k ->
  fold_on on g start (k + 1) acc
  = if on k then g k (fold_on on g start k acc) else fold_on on g start k acc.
Proof. intros. unfold fold_on. by rewrite range_snoc, fold_left_app. Qed.

(** The rule of the loops: [inv k a s'] describes the state before element [k]. *)
Lemma fold_active_rule {A} (inv : Z -> A -> Hart -> Prop) (vm : bool) (on : Z -> bool) start stop
    acc (body : Z -> A -> exec Hart Trap A) s :
  start <= stop -> inv start acc s ->
  (forall k a s', start <= k < stop -> inv k a s' ->
     (if vm then eret true else vmask_bit k) s' = (Ok (on k), s')
     /\ (on k = false -> inv (k + 1) a s')
     /\ (on k = true -> exists a1 s1, body k a s' = (Ok a1, s1) /\ inv (k + 1) a1 s1)) ->
  exists a s', fold_active vm start stop acc body s = (Ok a, s') /\ inv stop a s'.
Proof.
  intros Hle Hinv Hbody. unfold fold_active.
  cut (forall n, (0 <= n)%Z -> n <= stop - start ->
    exists a s', fold_elems (range start (start + n)) (if_active vm body) acc s = (Ok a, s')
      /\ inv (start + n) a s').
  { intros Hc. destruct (Hc (stop - start)) as (a & s' & Hf & Hi); [lia..|].
    replace (start + (stop - start)) with stop in * by lia. by exists a, s'. }
  apply (natlike_ind (fun n => n <= stop - start -> _)).
  { intros _. rewrite Z.add_0_r, range_nil by lia. by exists acc, s. }
  intros n Hn IH Hns. destruct IH as (a & s' & Hf & Hi); [lia|].
  destruct (Hbody (start + n) a s') as (Hon & Hoff & Hgo); [lia | done |].
  replace (start + Z.succ n) with (start + n + 1) by lia.
  rewrite range_snoc, (fold_elems_app _ _ _ _ _ _ _ Hf) by lia. cbn [fold_elems].
  destruct (on (start + n)) eqn:E.
  - destruct (Hgo eq_refl) as (a1 & s1 & Hb & Hi1). exists a1, s1. split; [|done].
    unfold if_active, mbind, exec_bind, ebind. by rewrite Hon, Hb.
  - exists a, s'. split; [|by apply Hoff].
    unfold if_active, mbind, exec_bind, ebind. by rewrite Hon.
Qed.

(** ** Loops that write lanes *)

Lemma written_active (vm : bool) v v' rd eb start k f e :
  written v v' rd eb start k (active vm v) f ->
  vm = true \/ 1 <= rd -> 0 <= start -> 0 <= eb -> 0 <= e < VLEN ->
  active vm v' e = active vm v e.
Proof.
  intros Hw Hm Hs Hb He. destruct vm; [done|]. destruct Hm as [Hm|Hrd]; [done|].
  unfold active, mask_bit. cbn [orb]. rewrite !nth_lookup. do 2 f_equal.
  apply (wr_other _ _ _ _ _ _ _ _ Hw). intros e' He' _. unfold in_lane, lane_offset.
  assert (e / 8 < 16) by (apply Z.div_lt_upper_bound; [lia|]; unfold VLEN in He; lia).
  pose proof (Z.div_pos e 8). change VLENB with 16. nia.
Qed.

(** Reading a placed source in the middle of a loop. *)
Lemma placed_velem s v' rd dw start k on f rs rw n :
  written (c_v s) v' rd dw start k on f -> placed (c_v s) rd dw rs rw n ->
  0 <= start <= k -> k < n ->
  velem rs k rw (set_c_v v' s) = (Ok (lane (c_v s) rs k rw), set_c_v v' s).
Proof.
  intros Hw [Hok Hh] Hs Hk. destruct (Hok k) as (? & ? & ?); [lia|].
  rewrite velem_lane; cbn [set_c_v c_v].
  - by rewrite (written_read _ _ _ _ _ _ _ _ _ _ _ Hw Hh) by lia.
  - unfold lane_ok. by rewrite (wr_length _ _ _ _ _ _ _ _ Hw).
Qed.

Lemma placed_src1 s insn (vv : bool) scalar v' rd dw start k on f rw n :
  written (c_v s) v' rd dw start k on f ->
  (vv = true -> placed (c_v s) rd dw (insn_rs1 insn) rw n) -> 0 <= start <= k -> k < n ->
  src1 insn vv scalar k rw (set_c_v v' s)
  = (Ok (if vv then lane (c_v s) (insn_rs1 insn) k rw else scalar), set_c_v v' s).
Proof. intros Hw Hp Hs Hk. destruct vv; [|done]. cbn [src1]. by eapply placed_velem; eauto. Qed.

Section Writing.
Variables (s : Hart) (vm : bool) (rd eb start stop : Z) (f : Z -> Z).
Abbreviation v := (c_v s).
Abbreviation on := (active vm (c_v s)).
Hypothesis Hstart : 0 <= start.
Hypothesis Hstop : stop <= VLEN.
Hypothesis Hrd : 0 <= rd.
Hypothesis Heb : 1 <= eb <= 8.
Hypothesis Hmask : vm = true \/ 1 <= rd.
Hypothesis Hlen : (16 <= length v)%nat.
Hypothesis Hlanes : forall e, start <= e < stop -> lane_ok v rd e eb.

(** A loop whose body computes [f k], and [g k acc], from the original registers
    writes every active lane and nothing else. *)
Lemma write_active_lanes {A} (g : Z -> A -> A) acc elem :
  (forall k a v', start <= k < stop -> written v v' rd eb start k on f -> on k = true ->
     elem k a (set_c_v v' s) = (Ok (f k, g k a), set_c_v v' s)) ->
  exists v', write_active vm start stop rd eb acc elem s
             = (Ok (fold_on on g start stop acc), set_c_v v' s)
    /\ written v v' rd eb start stop on f.
Proof.
  intros Helem. destruct (Z.le_gt_cases start stop) as [Hle|Hgt]; cycle 1.
  { exists v. split; [|apply written_nil; lia]. unfold write_active, fold_active, fold_on.
    rewrite range_nil by lia. by destruct s. }
  pose (inv k (a : A) s' := a = fold_on on g start k acc
    /\ exists v', s' = set_c_v v' s /\ written v v' rd eb start k on f).
  destruct (fold_active_rule inv vm on start stop acc (fun e a =>
      ra ← elem e a; set_velem rd e eb (Z.land (fst ra) (sew_mask eb));; eret (snd ra)) s)
    as (a & s' & Hf & -> & v' & -> & Hw); [done | | |by exists v'].
  - split; [unfold fold_on; by rewrite range_nil by lia|].
    exists v. split; [by destruct s | apply written_nil; lia].
  - intros k a s' Hk (-> & v' & -> & Hw).
    assert (Hka : (if vm then eret true else vmask_bit k) (set_c_v v' s) = (Ok (on k), set_c_v v' s)).
    { rewrite active_spec; [|lia|]; cbn [set_c_v c_v].
      - rewrite (written_active vm v v' rd eb start k f); [done..|lia|lia].
      - rewrite (wr_length _ _ _ _ _ _ _ _ Hw). apply Z.div_lt_upper_bound; unfold VLEN in *; lia. }
    split_and!; [done | |].
    + intros Hoff. split; [by rewrite fold_on_snoc, Hoff by lia|].
      exists v'. split; [done|]. by apply written_skip.
    + intros Hon. eexists _, _. split.
      * unfold mbind, exec_bind, ebind. rewrite Helem by done.
        rewrite set_velem_lane; [reflexivity|]. cbn [set_c_v c_v]. unfold lane_ok in *.
        rewrite (wr_length _ _ _ _ _ _ _ _ Hw). by apply Hlanes.
      * split; [cbn [snd]; by rewrite fold_on_snoc, Hon by lia|]. eexists. split; [reflexivity|].
        cbn [set_c_v c_v fst]. apply written_put; auto; [lia|]. by apply as_u_masked.
Qed.

Lemma write_each_lanes elem :
  (forall k v', start <= k < stop -> written v v' rd eb start k on f -> on k = true ->
     elem k (set_c_v v' s) = (Ok (f k), set_c_v v' s)) ->
  exists v', write_each vm start stop rd eb elem s = (Ok tt, set_c_v v' s)
    /\ written v v' rd eb start stop on f.
Proof.
  intros Helem.
  destruct (write_active_lanes (fun _ (a : unit) => a) tt (fun e _ => r ← elem e; eret (r, tt)))
    as (v' & Hw & Hv).
  { intros k a v' Hk Hv Hon. unfold mbind, exec_bind, ebind. rewrite Helem by done. by destruct a. }
  exists v'. split; [|done]. destruct (fold_on _ _ _ _ _). rewrite <- Hw. clear Hw.
  unfold write_each, for_active, write_active, fold_active. apply fold_elems_ext.
  intros e [] s'. unfold if_active, mbind, exec_bind, ebind, eret.
  destruct ((if vm then _ else vmask_bit e) s') as [[[]|t|] s1]; try done.
  destruct (elem e s1) as [[r|t|] s2]; try done. cbn [fst snd].
  by destruct (set_velem _ _ _ _ _) as [[[]|t|] s3].
Qed.
End Writing.
End Accessors.
