(* ===== verification/RvVecArith.v ===== *)
(** * Integer vector instructions

    The values the ISA manual gives to the lanes of the integer instructions,
    and the proof that the engine, which works in place, computes them from the
    original registers: same-width, widening, narrowing and extending, with the
    overlaps of register groups that validation lets through. *)

From S2P Require Import Prelude RvIsa RvOp RvMemory RvAlu RvState RvHart.
From S2P Require Import RvVec RvVecCheck RvVecValid RvVecMem RvVecExec RvVecLanes.

(** ** The values of the manual *)

(** [isa_lane op sew a b amount d]: the lane an integer operation computes at
    element width [sew] from the lanes [a] of vs2, [b] of vs1 (or the scalar) and
    [d] of vd; [amount] is the shift amount before it is reduced. *)
Definition isa_lane (op : Op) (sew a b amount d : Z) : option Z :=
  let sg := as_i sew in
  let wsg := as_i (2 * sew) in
  let sh := amount mod sew in
  let wsh := amount mod (2 * sew) in
  match op with
  | Vadd => Some (a + b)
  | Vsub => Some (a - b)
  | Vrsub => Some (b - a)
  | Vand => Some (Z.land a b)
  | Vor => Some (Z.lor a b)
  | Vxor => Some (Z.lxor a b)
  | Vminu => Some (Z.min a b)
  | Vmaxu => Some (Z.max a b)
  | Vmin => Some (Z.min (sg a) (sg b))
  | Vmax => Some (Z.max (sg a) (sg b))
  | Vsll => Some (a * 2 ^ sh)
  | Vsrl => Some (a / 2 ^ sh)
  | Vsra => Some (sg a / 2 ^ sh)
  | Vwaddu | VwadduW => Some (a + b)
  | Vwsubu | VwsubuW => Some (a - b)
  | Vwadd => Some (sg a + sg b)
  | Vwsub => Some (sg a - sg b)
  | VwaddW => Some (wsg a + sg b)
  | VwsubW => Some (wsg a - sg b)
  | Vwmulu => Some (a * b)
  | Vwmulsu => Some (sg a * b)
  | Vwmul => Some (sg a * sg b)
  | Vwmaccu => Some (a * b + d)
  | Vwmacc => Some (sg a * sg b + d)
  | Vwmaccsu => Some (a * sg b + d)
  | Vwmaccus => Some (sg a * b + d)
  | Vnsrl => Some (a / 2 ^ wsh)
  | Vnsra => Some (wsg a / 2 ^ wsh)
  | VzextVf2 | VzextVf4 | VzextVf8 => Some a
  | VsextVf2 => Some (as_i (sew / 2) a)
  | VsextVf4 => Some (as_i (sew / 4) a)
  | VsextVf8 => Some (as_i (sew / 8) a)
  | _ => None
  end.

(** The classes of these operations and the widths of their lanes, in bytes. *)
Inductive lane_class : Type := Same | Widening (wide_vs2 : bool) | Narrowing | Extending (f : Z).

Definition class_of (op : Op) : option lane_class :=
  match op with
  | Vadd | Vsub | Vrsub | Vand | Vor | Vxor | Vminu | Vmin | Vmaxu | Vmax | Vsll | Vsrl | Vsra =>
      Some Same
  | Vwaddu | Vwadd | Vwsubu | Vwsub | Vwmulu | Vwmulsu | Vwmul | Vwmaccu | Vwmacc | Vwmaccsu
  | Vwmaccus => Some (Widening false)
  | VwadduW | VwaddW | VwsubuW | VwsubW => Some (Widening true)
  | Vnsrl | Vnsra => Some Narrowing
  | VzextVf2 | VsextVf2 => Some (Extending 2)
  | VzextVf4 | VsextVf4 => Some (Extending 4)
  | VzextVf8 | VsextVf8 => Some (Extending 8)
  | _ => None
  end.

Definition dst_width (c : lane_class) (eb : Z) : Z :=
  match c with Widening _ => eb * 2 | _ => eb end.
Definition vs2_width (c : lane_class) (eb : Z) : Z :=
  match c with Widening true | Narrowing => eb * 2 | Extending f => eb / f | _ => eb end.

(** The element widths of the class exist. *)
Definition widths_ok (c : lane_class) (eb : Z) : bool :=
  match c with
  | Same => true
  | Widening _ | Narrowing => eb <=? 4
  | Extending f => f <=? eb
  end.

(** ** Arithmetic *)

Lemma as_u_as_u v w x : 0 <= v <= w -> as_u v (as_u w x) = as_u v x.
Proof.
  intros Hv. unfold as_u. replace (2 ^ w) with (2 ^ v * 2 ^ (w - v)).
  - rewrite Z.rem_mul_r by (apply Z.pow_nonzero || apply Z.pow_pos_nonneg; lia).
    rewrite Z.mul_comm, Z.mod_add by (apply Z.pow_nonzero; lia). by rewrite Z.mod_mod by (apply Z.pow_nonzero; lia).
  - rewrite <- Z.pow_add_r by lia. f_equal. lia.
Qed.

Lemma as_u_signed v w x : 1 <= v <= w -> as_u v (as_i w x) = as_u v x.
Proof. intros. rewrite <- (as_u_as_u v w), as_u_as_i, as_u_as_u by lia. done. Qed.

(** [v] and [x] are equal as lanes of [eb] bytes. *)
Lemma sext_sew_spec a eb : 1 <= eb <= 8 -> fits (8 * eb) a -> sext_sew a eb = as_i (8 * eb) a.
Proof.
  intros He Ha. unfold sext_sew. destruct (Z.eqb_spec (64 - eb * 8) 0).
  { by replace (8 * eb) with 64 by lia. }
  set (k := 64 - eb * 8). assert (0 < k < 64) by lia. unfold wsar, wshl.
  rewrite (Z.mod_small k 64) by lia. rewrite Z.shiftl_mul_pow2 by lia.
  rewrite as_i_as_u, Z.shiftr_div_pow2 by lia. unfold as_i.
  replace (2 ^ 64) with (2 ^ k * 2 ^ (8 * eb)) by (rewrite <- Z.pow_add_r by lia; f_equal; lia).
  replace (2 ^ (64 - 1)) with (2 ^ k * 2 ^ (8 * eb - 1)) by (rewrite <- Z.pow_add_r by lia; f_equal; lia).
  replace (a * 2 ^ k + 2 ^ k * 2 ^ (8 * eb - 1)) with (2 ^ k * (a + 2 ^ (8 * eb - 1))) by ring.
  rewrite Z.mul_mod_distr_l by (apply Z.pow_nonzero; lia).
  rewrite <- Z.mul_sub_distr_l, Z.mul_comm, Z.div_mul by (apply Z.pow_nonzero; lia). done.
Qed.

Lemma land_amount amount n : 0 < n <= 7 -> Z.land amount (2 ^ n - 1) = amount mod 2 ^ n.
Proof. intros. rewrite <- Z.land_ones by lia. by rewrite Z.ones_equiv. Qed.

(** The element widths as powers of two. *)
Lemma lane_width_pow eb : eb = 1 \/ eb = 2 \/ eb = 4 \/ eb = 8 ->
  exists n, 3 <= n <= 6 /\ 8 * eb = 2 ^ n.
Proof.
  intros [-> | [-> | [-> | ->]]]; [exists 3 | exists 4 | exists 5 | exists 6]; split; lia || done.
Qed.

Lemma shift_mask amount eb : eb = 1 \/ eb = 2 \/ eb = 4 \/ eb = 8 ->
  Z.land amount (eb * 8 - 1) = amount mod (8 * eb).
Proof.
  intros (n & Hn & He)%lane_width_pow. rewrite (Z.mul_comm eb 8), He. apply land_amount. lia.
Qed.

Lemma mod_mod_pow x m n : 0 <= n <= m -> (x mod 2 ^ m) mod 2 ^ n = x mod 2 ^ n.
Proof. intros. apply (as_u_as_u n m). lia. Qed.

(** The shift amount, reduced from any wider value. *)
Lemma amount_reduced x m eb : eb = 1 \/ eb = 2 \/ eb = 4 \/ eb = 8 -> 6 <= m ->
  (x mod 2 ^ m) mod (8 * eb) = x mod (8 * eb).
Proof. intros (n & Hn & ->)%lane_width_pow Hm. apply mod_mod_pow. lia. Qed.

Definition width (eb : Z) : Prop := eb = 1 \/ eb = 2 \/ eb = 4 \/ eb = 8.
Lemma width_bounds eb : width eb -> 1 <= eb <= 8.
Proof. unfold width. lia. Qed.

(** The code's shifts of a 64-bit value by a reduced amount. *)
Lemma wshl_mul a sh : 0 <= sh < 64 -> wshl 64 a sh = as_u 64 (a * 2 ^ sh).
Proof. intros. unfold wshl. by rewrite Z.mod_small, Z.shiftl_mul_pow2 by lia. Qed.
Lemma wshr_quot a sh : 0 <= sh < 64 -> wshr 64 a sh = a / 2 ^ sh.
Proof. intros. unfold wshr. by rewrite Z.mod_small, Z.shiftr_div_pow2 by lia. Qed.

Lemma valu_value op eb a b amount d :
  class_of op = Some Same -> width eb -> fits (8 * eb) a -> fits (8 * eb) b ->
  exists r r', valu_elem op eb a b amount = Some r /\ isa_lane op (8 * eb) a b amount d = Some r'
    /\ as_u (8 * eb) r = as_u (8 * eb) r'.
Proof.
  intros Hc Hw Ha Hb. pose proof (width_bounds eb Hw) as He.
  unfold valu_elem. rewrite !sext_sew_spec, shift_mask by done.
  assert (Hsh : 0 <= amount mod (8 * eb) < 64)
    by (pose proof (Z.mod_pos_bound amount (8 * eb)); lia).
  assert (Hsel : forall c : bool, as_u (8 * eb) (if c then a else b)
    = as_u (8 * eb) (if c then as_i (8 * eb) a else as_i (8 * eb) b))
    by (intros []; rewrite as_u_as_i by lia; done).
  destruct op; try discriminate Hc; (eexists _, _; split; [reflexivity|]; split; [reflexivity|]);
    unfold wadd, wsub; rewrite ?as_u_as_u by lia; try done.
  - rewrite Hsel. f_equal. destruct (Z.leb_spec (as_i (8 * eb) a) (as_i (8 * eb) b)); lia.
  - rewrite Hsel. f_equal. destruct (Z.leb_spec (as_i (8 * eb) b) (as_i (8 * eb) a)); lia.
  - by rewrite wshl_mul, as_u_as_u by lia.
  - rewrite sew_mask_ones, Z.land_ones, Z.mod_small, wshr_quot by (done || lia). done.
  - unfold wsar. by rewrite Z.mod_small, Z.shiftr_div_pow2 by lia.
Qed.

Lemma div_le_self a b : 0 <= a -> 0 < b -> a / b <= a.
Proof. intros. apply Z.div_le_upper_bound; nia. Qed.

Lemma extend_spec (signed : bool) a eb :
  1 <= eb <= 8 -> fits (8 * eb) a -> extend signed a eb = if signed then as_i (8 * eb) a else a.
Proof. intros. destruct signed; [by apply sext_sew_spec | done]. Qed.

Lemma ext_width k e :
  width e -> k = 2 \/ k = 4 \/ k = 8 -> k <= e -> width (e / k) /\ 8 * e / k = 8 * (e / k).
Proof.
  intros [-> | [-> | [-> | ->]]] [-> | [-> | ->]] Hle; try lia; (split; [|done]);
    unfold width; vm_compute; auto.
Qed.

(** ** Operands *)

Section Operands.
Context {M : Type} `{Memory M}.
Implicit Types (s : RiscVCpu M) (insn : Insn).

(** The vector-vector forms, and the forms an operation of the class has: OPIVV,
    OPIVI and OPIVX, or OPMVV and OPMVX. *)
Definition is_vv insn : bool := (insn_funct3 insn =? 0) || (insn_funct3 insn =? 2).
Definition form_ok (c : lane_class) insn : bool :=
  match c with
  | Same | Narrowing => (insn_funct3 insn =? 0) || (insn_funct3 insn =? 3) || (insn_funct3 insn =? 4)
  | Widening _ => (insn_funct3 insn =? 2) || (insn_funct3 insn =? 6)
  | Extending _ => true
  end.

(** The second operand of lane [e], and the amount it shifts by: an immediate is
    sign-extended as an operand and zero-extended as an amount. *)
Definition operand2 s insn (eb e : Z) : Z :=
  if is_vv insn then lane (c_v s) (insn_rs1 insn) e eb
  else if insn_funct3 insn =? 3 then as_u (8 * eb) (as_i 5 (insn_rs1 insn))
  else as_u (8 * eb) (get_x s (insn_rs1 insn)).
Definition amount2 s insn (eb e : Z) : Z :=
  if is_vv insn then lane (c_v s) (insn_rs1 insn) e eb
  else if insn_funct3 insn =? 3 then insn_rs1 insn
  else get_x s (insn_rs1 insn).

(** The lane of the manual, from the registers of [s]. *)
Definition lane_value (c : lane_class) s insn (e : Z) : Z :=
  let eb := sew_bytes s in
  default 0 (isa_lane (insn_op insn) (8 * eb) (lane (c_v s) (insn_rs2 insn) e (vs2_width c eb))
    (operand2 s insn eb e) (amount2 s insn eb e) (lane (c_v s) (insn_rd insn) e (dst_width c eb))).

Lemma sext5_spec r : fits 5 r -> sext5 r = as_u 64 (as_i 5 r).
Proof.
  intros Hr. apply Z.eqb_eq.
  by apply (all_below 5 (fun r => sext5 r =? as_u 64 (as_i 5 r))); [vm_compute|].
Qed.

Lemma land_sew_mask x eb : 1 <= eb <= 8 -> Z.land x (sew_mask eb) = as_u (8 * eb) x.
Proof. intros. by rewrite sew_mask_ones, Z.land_ones by lia. Qed.

(** The code's scalar of the integer forms. *)
Lemma int_scalar_spec s insn eb e :
  1 <= eb <= 8 -> fits 5 (insn_rs1 insn) -> form_ok Same insn = true ->
  (if insn_funct3 insn =? 0 then lane (c_v s) (insn_rs1 insn) e eb
   else int_scalar s insn (sew_mask eb)) = operand2 s insn eb e.
Proof.
  intros He Hr Hf. unfold form_ok in Hf. rewrite !orb_true_iff, !Z.eqb_eq in Hf.
  unfold int_scalar, operand2, is_vv.
  destruct Hf as [[-> | ->] | ->]; cbn [Z.eqb orb Pos.eqb]; [done| |].
  - by rewrite land_sew_mask, sext5_spec, as_u_as_u by (done || lia).
  - by rewrite land_sew_mask.
Qed.
End Operands.

(** ** The arms *)

Section Effect.
Context {M : Type} `{MemoryLaws M} (cfg : RiscVConfig) (s : RiscVCpu M) (insn : Insn) (vm : bool).
Abbreviation v := (c_v s).
Abbreviation eb := (sew_bytes s).
Abbreviation rd := (insn_rd insn).
Abbreviation start := (c_vstart s).
Abbreviation stop := (c_vl s).
Variable n : Z.
Hypothesis Hs : hart_ok cfg s.
Hypothesis Hrd : fits 5 rd.
Hypothesis Hrs1 : fits 5 (insn_rs1 insn).
Hypothesis Hmask : vm = true \/ rd <> 0.
Hypothesis Hstop : stop <= n.
Hypothesis Heb : width eb.

(** The lanes of the class are where the arm reads and writes them. *)
Record arranged (c : lane_class) : Prop := {
  ar_dst e : 0 <= e < n -> lane_ok v rd e (dst_width c eb);
  ar_vs2 : placed v rd (dst_width c eb) (insn_rs2 insn) (vs2_width c eb) n;
  ar_vs1 : (match c with Extending _ => false | _ => is_vv insn end) = true ->
    placed v rd (dst_width c eb) (insn_rs1 insn) eb n
}.

(** What an arm of the class does. *)
Definition computes (c : lane_class) (m : exec (RiscVCpu M) Trap unit) : Prop :=
  exists v', m s = (Ok tt, set_c_v v' s)
    /\ written v v' rd (dst_width c eb) start stop (active vm v) (lane_value c s insn).

Lemma start_nonneg : 0 <= start.
Proof. apply (ok_vstart _ _ Hs). Qed.
Lemma stop_vlen : stop <= VLEN.
Proof. apply (vconfig_vl _ _ _ (ok_vconfig _ _ Hs)). Qed.
Lemma v_length : length v = 512%nat.
Proof. apply Hs. Qed.

(** A loop of the class whose element function computes [f], which is the lane of
    the manual, from the original registers. *)
Lemma computes_each c f elem :
  arranged c -> 1 <= dst_width c eb <= 8 ->
  (forall e, 0 <= e < n -> as_u (8 * dst_width c eb) (f e)
     = as_u (8 * dst_width c eb) (lane_value c s insn e)) ->
  (forall k v', start <= k < stop ->
     written v v' rd (dst_width c eb) start k (active vm v) f ->
     elem k (set_c_v v' s) = (Ok (f k), set_c_v v' s)) ->
  computes c (write_each vm start stop rd (dst_width c eb) elem).
Proof.
  intros [Hd _ _] Hw Hf Helem. pose proof start_nonneg. pose proof stop_vlen. pose proof v_length.
  destruct (write_each_lanes s vm rd (dst_width c eb) start stop f) with (elem := elem)
    as (v' & Hm & Hv); auto; try lia.
  - unfold fits in Hrd. lia.
  - unfold fits in Hrd. destruct Hmask; [by left | right; lia].
  - intros e He. apply Hd. lia.
  - exists v'. split; [done|]. eapply written_ext; [|done]. intros e He _. apply Hf. lia.
Qed.

Lemma lane_fits_width reg e w : 0 <= w -> fits (8 * w) (lane v reg e w).
Proof. intros. by apply lane_fits; [|apply Hs]. Qed.

Lemma operand2_fits e : fits (8 * eb) (operand2 s insn eb e).
Proof.
  pose proof (width_bounds _ Heb). unfold operand2.
  repeat case_match; [apply lane_fits_width; lia | apply as_u_fits; lia..].
Qed.

Lemma valu_amount op a b x y :
  x mod (8 * eb) = y mod (8 * eb) -> valu_elem op eb a b x = valu_elem op eb a b y.
Proof. intros Hxy. unfold valu_elem. by rewrite !shift_mask, Hxy by done. Qed.

(** The code narrows an operand to 32 bits before it takes the amount. *)
Lemma amount2_reduced e : form_ok Same insn = true ->
  (if insn_funct3 insn =? 3 then insn_rs1 insn else as_u32 (operand2 s insn eb e)) mod (8 * eb)
  = amount2 s insn eb e mod (8 * eb).
Proof.
  intros Hf. unfold form_ok in Hf. rewrite !orb_true_iff, !Z.eqb_eq in Hf.
  unfold operand2, amount2, is_vv.
  destruct Hf as [[-> | ->] | ->]; cbn [Z.eqb orb Pos.eqb]; [|done|]; unfold as_u.
  - by apply amount_reduced.
  - rewrite amount_reduced by done. pose proof (width_bounds _ Heb). by apply amount_reduced; [|lia].
Qed.

Lemma v_alu_computes :
  class_of (insn_op insn) = Some Same -> form_ok Same insn = true -> arranged Same ->
  computes Same (v_alu insn vm start stop).
Proof.
  intros Hc Hf Ha. pose proof (width_bounds _ Heb). pose proof start_nonneg.
  set (am e := if insn_funct3 insn =? 3 then insn_rs1 insn else as_u32 (operand2 s insn eb e)).
  set (f e := default 0 (valu_elem (insn_op insn) eb (lane v (insn_rs2 insn) e eb)
                           (operand2 s insn eb e) (am e))).
  assert (Hval : forall e, exists r r',
    valu_elem (insn_op insn) eb (lane v (insn_rs2 insn) e eb) (operand2 s insn eb e) (am e) = Some r
    /\ isa_lane (insn_op insn) (8 * eb) (lane v (insn_rs2 insn) e eb) (operand2 s insn eb e)
         (amount2 s insn eb e) (lane v rd e eb) = Some r' /\ as_u (8 * eb) r = as_u (8 * eb) r').
  { intros e. rewrite (valu_amount _ _ _ _ _ (amount2_reduced e Hf)).
    apply valu_value; auto using operand2_fits. apply lane_fits_width. lia. }
  unfold v_alu. refine (computes_each Same f _ Ha _ _ _); [done| |].
  - intros e He. unfold f, lane_value. cbn [dst_width vs2_width].
    destruct (Hval e) as (r & r' & -> & -> & Hr). exact Hr.
  - intros k v' Hk Hw. destruct Ha as [_ Hp2 Hp1]. cbn [dst_width vs2_width] in *.
    unfold mbind, exec_bind, ebind.
    rewrite (placed_velem _ _ _ _ _ _ _ _ _ _ _ Hw Hp2) by lia.
    rewrite (placed_src1 _ _ _ _ _ _ _ _ _ _ _ _ n Hw).
    + rewrite int_scalar_spec by done. destruct (Hval k) as (r & r' & Hr & _). unfold f. fold (am k).
      by rewrite Hr.
    + intros Hvv. apply Hp1. unfold is_vv. by rewrite Hvv.
    + lia.
    + lia.
Qed.

(** *** Widening *)

Lemma widening_operand w e : form_ok (Widening w) insn = true ->
  (if insn_funct3 insn =? 2 then lane v (insn_rs1 insn) e eb
   else Z.land (get_x s (insn_rs1 insn)) (sew_mask eb)) = operand2 s insn eb e.
Proof.
  intros Hf. unfold form_ok in Hf. rewrite orb_true_iff, !Z.eqb_eq in Hf.
  pose proof (width_bounds _ Heb). unfold operand2, is_vv.
  destruct Hf as [-> | ->]; cbn [Z.eqb orb Pos.eqb]; [done | by rewrite land_sew_mask].
Qed.

Lemma widening_vv w : form_ok (Widening w) insn = true ->
  (insn_funct3 insn =? 2) = true -> is_vv insn = true.
Proof. intros _ Hf. unfold is_vv. rewrite Hf. by rewrite orb_true_r. Qed.

(** Reading the sources of a widening loop. *)
Lemma widening_reads w k v' f :
  form_ok (Widening w) insn = true -> arranged (Widening w) -> start <= k < stop ->
  written v v' rd (eb * 2) start k (active vm v) f ->
  velem (insn_rs2 insn) k (if w then eb * 2 else eb) (set_c_v v' s)
  = (Ok (lane v (insn_rs2 insn) k (if w then eb * 2 else eb)), set_c_v v' s)
  /\ src1 insn (insn_funct3 insn =? 2) (Z.land (get_x s (insn_rs1 insn)) (sew_mask eb)) k eb
      (set_c_v v' s) = (Ok (operand2 s insn eb k), set_c_v v' s)
  /\ velem rd k (eb * 2) (set_c_v v' s) = (Ok (lane v rd k (eb * 2)), set_c_v v' s).
Proof.
  intros Hf [Hd Hp2 Hp1] Hk Hw. pose proof start_nonneg. pose proof (width_bounds _ Heb).
  split_and!.
  - rewrite (placed_velem _ _ _ _ _ _ _ _ _ _ n Hw); [done| |lia|lia]. by destruct w.
  - rewrite (placed_src1 _ _ _ _ _ _ _ _ _ _ _ _ n Hw); [|intros; apply Hp1; by eapply widening_vv|lia..].
    by rewrite (widening_operand w).
  - rewrite (placed_velem _ _ _ _ _ _ _ _ _ _ n Hw); [done| |lia|lia].
    split; [done | apply hazard_same; cbn [dst_width]; lia].
Qed.

Lemma v_wadd_computes (w : bool) :
  (forall sew a b am d, isa_lane (insn_op insn) sew a b am d
     = Some (let sg := wadd_signed (insn_op insn) in
             let a := if sg then as_i (if w then 2 * sew else sew) a else a in
             let b := if sg then as_i sew b else b in
             if wadd_sub (insn_op insn) then a - b else a + b)) ->
  wadd_wide (insn_op insn) = w -> eb <= 4 ->
  form_ok (Widening w) insn = true -> arranged (Widening w) ->
  computes (Widening w) (v_wadd insn vm start stop).
Proof.
  intros Hisa Hwide H4 Hf Ha. pose proof (width_bounds _ Heb).
  assert (Hx : computes (Widening w) (write_each vm start stop rd (eb * 2) (fun e =>
      raw ← velem (insn_rs2 insn) e (if w then eb * 2 else eb);
      braw ← src1 insn (insn_funct3 insn =? 2) (Z.land (get_x s (insn_rs1 insn)) (sew_mask eb)) e eb;
      let a := extend (wadd_signed (insn_op insn)) raw (if w then eb * 2 else eb) in
      let b := extend (wadd_signed (insn_op insn)) braw eb in
      eret (as_u64 (if wadd_sub (insn_op insn) then a - b else a + b))))).
  { refine (computes_each (Widening w) (fun e =>
      let a := extend (wadd_signed (insn_op insn)) (lane v (insn_rs2 insn) e (if w then eb * 2 else eb))
                 (if w then eb * 2 else eb) in
      let b := extend (wadd_signed (insn_op insn)) (operand2 s insn eb e) eb in
      as_u64 (if wadd_sub (insn_op insn) then a - b else a + b)) _ Ha _ _ _); cbn [dst_width]; [lia| |].
    - intros e He. unfold lane_value. rewrite Hisa. cbn [default vs2_width]. cbv zeta.
      rewrite as_u_as_u by lia. rewrite (extend_spec _ (operand2 _ _ _ _)) by (apply operand2_fits || lia).
      rewrite extend_spec; [|destruct w; lia|apply lane_fits_width; destruct w; lia].
      destruct w; replace (2 * (8 * eb)) with (8 * (eb * 2)) by lia; done.
    - intros k v' Hk Hw. destruct (widening_reads w k v' _ Hf Ha Hk Hw) as (H2' & H1' & _).
      unfold mbind, exec_bind, ebind. by rewrite H2', H1'. }
  destruct Hx as (v' & Hm & Hv). exists v'. split; [|done]. rewrite <- Hm.
  unfold v_wadd, get, mbind at 1, exec_bind, ebind at 1. rewrite Hwide.
  by rewrite (proj2 (Z.ltb_ge 4 eb) H4).
Qed.

Lemma v_wmul_computes :
  (forall sew a b am d, isa_lane (insn_op insn) sew a b am d
     = Some ((if fst (wmul_signs (insn_op insn)) then as_i sew a else a)
             * (if snd (wmul_signs (insn_op insn)) then as_i sew b else b)
             + (if wmul_mac (insn_op insn) then d else 0))) ->
  eb <= 4 -> form_ok (Widening false) insn = true -> arranged (Widening false) ->
  computes (Widening false) (v_wmul insn vm start stop).
Proof.
  intros Hisa H4 Hf Ha. pose proof (width_bounds _ Heb).
  unfold v_wmul. destruct (wmul_signs (insn_op insn)) as [sa sb] eqn:Es. cbn [fst snd] in Hisa.
  assert (Hx : computes (Widening false) (write_each vm start stop rd (eb * 2) (fun e =>
      araw ← velem (insn_rs2 insn) e eb;
      braw ← src1 insn (insn_funct3 insn =? 2) (Z.land (get_x s (insn_rs1 insn)) (sew_mask eb)) e eb;
      acc ← (if wmul_mac (insn_op insn) then velem rd e (eb * 2) else eret 0);
      eret (as_u64 (as_i128 (extend sa araw eb * extend sb braw eb + acc)))))).
  { refine (computes_each (Widening false) (fun e => as_u64 (as_i128
      (extend sa (lane v (insn_rs2 insn) e eb) eb * extend sb (operand2 s insn eb e) eb
       + if wmul_mac (insn_op insn) then lane v rd e (eb * 2) else 0))) _ Ha _ _ _);
      cbn [dst_width]; [lia| |].
    - intros e He. unfold lane_value. rewrite Hisa. cbn [default vs2_width dst_width].
      rewrite as_u_as_u, as_u_signed by lia.
      rewrite !extend_spec by (apply operand2_fits || lia || (apply lane_fits_width; lia)). done.
    - intros k v' Hk Hw. destruct (widening_reads false k v' _ Hf Ha Hk Hw) as (H2' & H1' & Hd').
      unfold mbind, exec_bind, ebind. rewrite H2', H1'.
      destruct (wmul_mac (insn_op insn)); [by rewrite Hd' | done]. }
  destruct Hx as (v' & Hm & Hv). exists v'. split; [|done]. rewrite <- Hm.
  unfold get, mbind at 1, exec_bind, ebind at 1. by rewrite (proj2 (Z.ltb_ge 4 eb) H4).
Qed.

(** *** Narrowing and extending *)

Lemma narrow_amount e : form_ok Narrowing insn = true ->
  (if insn_funct3 insn =? 0 then lane v (insn_rs1 insn) e eb else uint_scalar s insn)
  = amount2 s insn eb e.
Proof.
  intros Hf. unfold form_ok in Hf. rewrite !orb_true_iff, !Z.eqb_eq in Hf.
  unfold amount2, is_vv, uint_scalar. by destruct Hf as [[-> | ->] | ->].
Qed.

Lemma double_width : eb <= 4 -> width (eb * 2).
Proof. unfold width in *. lia. Qed.

Lemma wide_amount x : eb <= 4 ->
  Z.land (as_u32 x) (eb * 2 * 8 - 1) = x mod (2 * (8 * eb)).
Proof.
  intros H4. rewrite shift_mask by (by apply double_width). unfold as_u.
  rewrite amount_reduced by (by apply double_width || lia). f_equal. lia.
Qed.

(** The narrowing shift in the manual's terms. *)
Lemma vnarrow_value (signed : bool) a sh vxrm : eb <= 4 -> 0 <= sh < 64 -> fits (8 * (eb * 2)) a ->
  vnarrow_elem false signed eb a sh vxrm
  = (as_u64 ((if signed then as_i (2 * (8 * eb)) a else a) / 2 ^ sh), false).
Proof.
  intros H4 Hsh Ha. pose proof (width_bounds _ Heb). unfold vnarrow_elem. cbn [negb]. f_equal.
  destruct signed.
  - rewrite sext_sew_spec by (done || lia). unfold wsar.
    replace (8 * (eb * 2)) with (2 * (8 * eb)) by lia.
    by rewrite Z.mod_small, Z.shiftr_div_pow2 by lia.
  - rewrite wshr_quot by lia. rewrite as_u_small; [done|].
    assert (fits 64 a) as [? ?] by (by eapply fits_weaken; [|exact Ha]; lia).
    split; [apply Z.div_pos; [done | by apply Z.pow_pos_nonneg; lia]|].
    pose proof (div_le_self a (2 ^ sh)). pose proof (Z.pow_pos_nonneg 2 sh). lia.
Qed.

Lemma fold_on_id {A} on (g : Z -> A -> A) b c acc :
  (forall e, g e acc = acc) -> fold_on on g b c acc = acc.
Proof.
  intros Hg. unfold fold_on. induction (range b c) as [|e l IH]; [done|]. cbn [fold_left].
  rewrite Hg. by destruct (on e).
Qed.

Lemma v_narrow_computes :
  (forall sew a b am d, isa_lane (insn_op insn) sew a b am d
     = Some ((if narrow_signed (insn_op insn) then as_i (2 * sew) a else a)
             / 2 ^ (am mod (2 * sew)))) ->
  narrow_clip (insn_op insn) = false ->
  eb <= 4 -> form_ok Narrowing insn = true -> arranged Narrowing ->
  computes Narrowing (v_narrow insn vm start stop).
Proof.
  intros Hisa Hclip H4 Hf [Hd Hp2 Hp1]. cbn [dst_width vs2_width] in *.
  pose proof (width_bounds _ Heb). pose proof start_nonneg. pose proof stop_vlen. pose proof v_length.
  set (f e := as_u64 ((if narrow_signed (insn_op insn)
                       then as_i (2 * (8 * eb)) (lane v (insn_rs2 insn) e (eb * 2))
                       else lane v (insn_rs2 insn) e (eb * 2))
                      / 2 ^ (amount2 s insn eb e mod (2 * (8 * eb))))).
  pose (elem := (fun e sat =>
      aw ← velem (insn_rs2 insn) e (eb * 2);
      amount ← src1 insn (insn_funct3 insn =? 0) (uint_scalar s insn) e eb;
      let sh := Z.land (as_u32 amount) (eb * 2 * 8 - 1) in
      let '(r, o) := vnarrow_elem false (narrow_signed (insn_op insn)) eb aw sh (c_vxrm s) in
      eret (r, sat || o)) : Z -> bool -> exec (RiscVCpu M) Trap (Z * bool)).
  destruct (write_active_lanes s vm rd eb start stop f) with (g := fun (_ : Z) (sat : bool) => sat)
    (acc := false) (elem := elem) as (v' & Hm & Hv); auto; try lia.
  - unfold fits in Hrd. lia.
  - unfold fits in Hrd. destruct Hmask; [by left | right; lia].
  - intros e He. apply Hd. lia.
  - intros k sat v' Hk Hw _. unfold elem, mbind, exec_bind, ebind.
    rewrite (placed_velem _ _ _ _ _ _ _ _ _ _ _ Hw Hp2) by lia.
    rewrite (placed_src1 _ _ _ _ _ _ _ _ _ _ _ _ n Hw); [| |lia|lia].
    + rewrite narrow_amount by done. cbv zeta. rewrite wide_amount by done.
      rewrite vnarrow_value; [by rewrite orb_false_r|done| |apply lane_fits_width; lia].
      pose proof (Z.mod_pos_bound (amount2 s insn eb k) (2 * (8 * eb))). lia.
    + intros Hvv. apply Hp1. unfold is_vv. by rewrite Hvv.
  - exists v'. split.
    + unfold v_narrow. rewrite Hclip, (bind_ok get _ s s s eq_refl). cbv zeta.
      rewrite (proj2 (Z.ltb_ge 4 eb) H4), (bind_ok _ _ _ _ _ Hm). by rewrite fold_on_id.
    + eapply written_ext; [|exact Hv]. intros e He _. unfold f, lane_value. rewrite Hisa.
      cbn [default dst_width vs2_width]. by rewrite as_u_as_u by lia.
Qed.

Lemma v_ext_computes k :
  ext_factor (insn_op insn) = (k, match insn_op insn with
    VsextVf2 | VsextVf4 | VsextVf8 => true | _ => false end) ->
  (forall sew a b am d, isa_lane (insn_op insn) sew a b am d
     = Some (if snd (ext_factor (insn_op insn)) then as_i (sew / k) a else a)) ->
  k = 2 \/ k = 4 \/ k = 8 -> k <= eb -> arranged (Extending k) ->
  computes (Extending k) (v_ext insn vm start stop).
Proof.
  intros Hk Hisa Hk8 Hle Ha. pose proof (width_bounds _ Heb). rewrite Hk in Hisa.
  destruct (ext_width k eb Heb Hk8 Hle) as [Hn He]. pose proof (width_bounds _ Hn).
  unfold v_ext. rewrite Hk. set (sg := match insn_op insn with VsextVf2 | VsextVf4 | VsextVf8 => true
    | _ => false end) in *. clearbody sg. cbn [snd] in Hisa.
  assert (Hx : computes (Extending k) (write_each vm start stop rd eb (fun e =>
      src ← velem (insn_rs2 insn) e (eb / k); eret (as_u64 (extend sg src (eb / k)))))).
  { refine (computes_each (Extending k) (fun e =>
      as_u64 (extend sg (lane v (insn_rs2 insn) e (eb / k)) (eb / k))) _ Ha _ _ _);
      cbn [dst_width]; [lia| |].
    - intros e He'. unfold lane_value. rewrite Hisa. cbn [default vs2_width].
      rewrite as_u_as_u by lia. rewrite extend_spec by (lia || (apply lane_fits_width; lia)).
      by rewrite He.
    - intros j v' Hj Hw. destruct Ha as [_ Hp2 _]. pose proof start_nonneg.
      cbn [dst_width vs2_width] in *.
      unfold mbind, exec_bind, ebind.
      by rewrite (placed_velem _ _ _ _ _ _ _ _ _ _ _ Hw Hp2) by lia. }
  destruct Hx as (v' & Hm & Hv). exists v'. split; [|done]. rewrite <- Hm.
  unfold get, mbind at 1, exec_bind, ebind at 1. by rewrite (proj2 (Z.ltb_ge eb k) Hle).
Qed.
End Effect.

(** ** Register groups and lanes *)

Section Groups.
Variables (v : list Z) (n : Z).
Hypothesis Hlen : length v = 512%nat.

Lemma group_lanes r e w i :
  cap n e w = true -> aligned r (regs e) -> 0 <= r -> 1 <= w <= 8 -> 0 <= i < n -> lane_ok v r i w.
Proof.
  intros [Hc Hcap]%cap_spec [_ Ha] Hr Hw Hi. unfold count_ok in Hc.
  unfold lane_ok, lane_offset. rewrite Hlen. change VLENB with 16 in *. nia.
Qed.

Lemma hazard_apart rd dw rs rw N N' :
  0 <= dw -> 0 <= rw -> n * dw <= N * VLENB -> n * rw <= N' * VLENB -> apart rd N rs N' ->
  no_hazard rd dw rs rw n.
Proof.
  intros Hd Hr Hn Hn' Ha. apply hazard_disjoint; [done..|]. unfold apart in Ha.
  change VLENB with 16 in *. lia.
Qed.

(** Two aligned groups of the same size coincide or are apart. *)
Lemma aligned_cases rd rs N : 1 <= N -> aligned rd N -> aligned rs N -> rd = rs \/ apart rd N rs N.
Proof.
  intros HN [Hd _] [Hs _]. apply Z.mod_divide in Hd as [p ->]; [|lia].
  apply Z.mod_divide in Hs as [q ->]; [|lia]. unfold apart.
  destruct (Z.lt_trichotomy p q) as [? | [-> | ?]]; [right; left; nia | by left | right; right; nia].
Qed.

Lemma placed_same rd rs e w :
  cap n e w = true -> aligned rd (regs e) -> aligned rs (regs e) -> 0 <= rd -> 0 <= rs ->
  1 <= w <= 8 -> placed v rd w rs w n.
Proof.
  intros Hcap Hd Hs Hrd Hrs Hw. split; [intros; by eapply group_lanes|].
  destruct (cap_spec _ _ _ Hcap) as [Hc Hn].
  destruct (aligned_cases rd rs (regs e)) as [-> | Ha]; [apply Hc | done | done | |].
  - apply hazard_same. lia.
  - eapply hazard_apart; [lia | lia | exact Hn | exact Hn | done].
Qed.

Lemma placed_narrow rd rs e e' w w' :
  cap n e w = true -> cap n e' w' = true -> aligned rd (regs e) -> aligned rs (regs e') ->
  rd = rs \/ apart rd (regs e) rs (regs e') -> 0 <= rs -> 1 <= w <= w' -> w' <= 8 ->
  placed v rd w rs w' n.
Proof.
  intros Hcap Hcap' Hd Hs Ho Hrs Hw Hw'. split; [intros; eapply group_lanes; eauto; lia|].
  destruct Ho as [-> | Ha]; [apply hazard_same; lia|].
  destruct (cap_spec _ _ _ Hcap), (cap_spec _ _ _ Hcap').
  by eapply hazard_apart; [lia | lia | | |].
Qed.

(** A narrow source of a wide destination that occupies its last registers. *)
Lemma placed_beside rd rs e e' w w' one :
  cap n e w = true -> cap n e' w' = true -> 0 <= rs -> 1 <= w' <= w -> w <= 8 ->
  beside rd (regs e) rs (regs e') one ->
  (one = true -> n * w = regs e * VLENB /\ n * w' = regs e' * VLENB) ->
  placed v rd w rs w' n.
Proof.
  intros Hcap Hcap' Hrs Hw Hw' [Hs Ho] Hone. split; [intros; eapply group_lanes; eauto; lia|].
  destruct (cap_spec _ _ _ Hcap), (cap_spec _ _ _ Hcap'). destruct Ho as [Ha | [Ho He]].
  - by eapply hazard_apart; [lia | lia | | |].
  - destruct (Hone Ho). apply hazard_top; [lia|]. change VLENB with 16 in *. nia.
Qed.
End Groups.

(** ** From validation to lanes *)

Section Accepted.
Context {M : Type} `{MemoryLaws M} (cfg : RiscVConfig) (s : RiscVCpu M) (insn : Insn).
Hypothesis Hs : hart_ok cfg s.
Hypothesis Hrd : fits 5 (insn_rd insn).
Hypothesis Hrs1 : fits 5 (insn_rs1 insn).
Hypothesis Hrs2 : fits 5 (insn_rs2 insn).
Hypothesis Hlegal : legal_vtype (c_vtype s).
Abbreviation n := (VLMAX (c_vtype s)).
Abbreviation eb := (sew_bytes s).

Lemma sew_bytes_pow : eb = 2 ^ vsew (c_vtype s) /\ width eb.
Proof.
  destruct Hlegal as (Hv & Hw & _). assert (0 <= vsew (c_vtype s)) by (apply Z.land_nonneg; lia).
  unfold sew_bytes, width. change (Z.land (wshr 64 (c_vtype s) 3) 7) with (vsew (c_vtype s)).
  assert (Hc : vsew (c_vtype s) = 0 \/ vsew (c_vtype s) = 1 \/ vsew (c_vtype s) = 2
               \/ vsew (c_vtype s) = 3) by lia.
  destruct Hc as [-> | [-> | [-> | ->]]]; split; try done; vm_compute; auto.
Qed.

Lemma counts lm : Emul.from_vtype (c_vtype s) = Some lm ->
  cap n lm eb = true /\ cap n (Emul.widen lm) (eb * 2) = true
  /\ count_ok (regs lm) /\ count_ok (regs (Emul.widen lm))
  /\ (Emul.is_at_least_one lm = true -> n * (eb * 2) = regs (Emul.widen lm) * VLENB
      /\ n * eb = regs lm * VLENB).
Proof.
  intros Hl. destruct (geometry_facts _ _ Hlegal Hl) as (Hc & Hw & Ho & _).
  rewrite <- (proj1 sew_bytes_pow) in *. rewrite Z.mul_comm in Hw.
  destruct (cap_spec _ _ _ Hc), (cap_spec _ _ _ Hw). split_and!; try done.
  intros Hone. destruct (Ho Hone) as [-> ?]. lia.
Qed.

Lemma ext_counts lm f : Emul.from_vtype (c_vtype s) = Some lm ->
  f = 2 \/ f = 4 \/ f = 8 -> f <= eb ->
  cap n (Emul.narrow lm f) (eb / f) = true
  /\ (Emul.is_at_least_one (Emul.narrow lm f) = true -> n * eb = regs lm * VLENB
      /\ n * (eb / f) = regs (Emul.narrow lm f) * VLENB).
Proof.
  intros Hl Hf Hle. destruct (geometry_facts _ _ Hlegal Hl) as (_ & _ & _ & He).
  rewrite <- (proj1 sew_bytes_pow) in *. destruct (He f Hf Hle) as [Hc Ho]. split; [done|].
  intros Hone. destruct (Ho Hone) as [Hr Hn]. split; [done|].
  assert (Hm : eb = f * (eb / f)).
  { destruct sew_bytes_pow as [_ Hw]. revert Hle Hw. generalize eb. unfold width.
    intros e Hle [-> | [-> | [-> | ->]]]; destruct Hf as [-> | [-> | ->]]; lia || done. }
  rewrite Hm, Hr in Hn. change VLENB with 16 in *.
  destruct Hf as [-> | [-> | ->]]; lia.
Qed.

(** The validator of a class. *)
Lemma validate_class c vm u :
  class_of (insn_op insn) = Some c -> validate insn vm s = (Ok u, s) ->
  exists u, match c with
  | Same => validate_same_width_integer_alu insn 0 s = (Ok u, s)
  | Widening w => exists dis, validate_widening_data insn w (insn_funct3 insn =? 2) dis s = (Ok u, s)
  | Narrowing => validate_narrowing insn s = (Ok u, s)
  | Extending f => validate_extension insn f s = (Ok u, s)
  end.
Proof.
  intros Hc (u' & Hv)%validate_ok. exists u'. revert Hv. unfold validate_op.
  rewrite (bind_ok get _ s s s eq_refl).
  destruct (insn_op insn); try discriminate Hc; injection Hc as <-; intros Hv; try exact Hv;
    by eexists.
Qed.

Abbreviation v := (c_v s).
Lemma file_length : length v = 512%nat.
Proof. apply Hs. Qed.

Lemma arranged_same lm :
  Emul.from_vtype (c_vtype s) = Some lm -> aligned (insn_rd insn) (regs lm) ->
  aligned (insn_rs2 insn) (regs lm) -> (is_vv insn = true -> aligned (insn_rs1 insn) (regs lm)) ->
  arranged s insn n Same.
Proof.
  intros Hl Hd H2 H1. destruct (counts lm Hl) as (Hc & _).
  pose proof (width_bounds _ (proj2 sew_bytes_pow)). pose proof file_length. unfold fits in *.
  split; cbn [dst_width vs2_width].
  - intros e He. eapply group_lanes; eauto; lia.
  - eapply placed_same; eauto; lia.
  - intros Hvv. specialize (H1 Hvv). eapply placed_same; eauto; lia.
Qed.

Lemma arranged_narrow lm :
  Emul.from_vtype (c_vtype s) = Some lm -> eb <= 4 -> aligned (insn_rd insn) (regs lm) ->
  aligned (insn_rs2 insn) (regs (Emul.widen lm)) ->
  insn_rd insn = insn_rs2 insn
  \/ apart (insn_rd insn) (regs lm) (insn_rs2 insn) (regs (Emul.widen lm)) ->
  (is_vv insn = true -> aligned (insn_rs1 insn) (regs lm)) ->
  arranged s insn n Narrowing.
Proof.
  intros Hl H4 Hd H2 Ho H1. destruct (counts lm Hl) as (Hc & Hw & _).
  pose proof (width_bounds _ (proj2 sew_bytes_pow)). pose proof file_length. unfold fits in *.
  split; cbn [dst_width vs2_width].
  - intros e He. eapply group_lanes; eauto; lia.
  - eapply placed_narrow; eauto; lia.
  - intros Hvv. specialize (H1 Hvv). eapply placed_same; eauto; lia.
Qed.

Lemma arranged_widen lm (w : bool) :
  let n' := regs (Emul.widen lm) in let one := Emul.is_at_least_one lm in
  Emul.from_vtype (c_vtype s) = Some lm -> eb <= 4 -> aligned (insn_rd insn) n' ->
  (if w then aligned (insn_rs2 insn) n'
   else beside (insn_rd insn) n' (insn_rs2 insn) (regs lm) one) ->
  (is_vv insn = true -> beside (insn_rd insn) n' (insn_rs1 insn) (regs lm) one) ->
  arranged s insn n (Widening w).
Proof.
  intros n' one Hl H4 Hd H2 H1. destruct (counts lm Hl) as (Hc & Hw & _ & _ & Ho).
  pose proof (width_bounds _ (proj2 sew_bytes_pow)). pose proof file_length. unfold fits in *.
  split; cbn [dst_width vs2_width].
  - intros e He. eapply group_lanes; eauto; lia.
  - destruct w; [eapply placed_same; eauto; lia | eapply placed_beside; eauto; lia].
  - intros Hvv. specialize (H1 Hvv). eapply placed_beside; eauto; lia.
Qed.

Lemma arranged_extend lm f :
  Emul.from_vtype (c_vtype s) = Some lm -> f = 2 \/ f = 4 \/ f = 8 -> f <= eb ->
  aligned (insn_rd insn) (regs lm) ->
  beside (insn_rd insn) (regs lm) (insn_rs2 insn) (regs (Emul.narrow lm f))
    (Emul.is_at_least_one (Emul.narrow lm f)) ->
  arranged s insn n (Extending f).
Proof.
  intros Hl Hf Hle Hd Hb. destruct (counts lm Hl) as (Hc & _). destruct sew_bytes_pow as [_ Hw].
  destruct (ext_counts lm f Hl Hf Hle) as [Hn Ho]. destruct (ext_width f eb Hw Hf Hle) as [Hx _].
  pose proof (width_bounds _ Hw). pose proof (width_bounds _ Hx). pose proof file_length.
  assert (eb / f <= eb) by (apply div_le_self; lia). unfold fits in *.
  split; cbn [dst_width vs2_width]; [| |done].
  - intros e He. eapply group_lanes; eauto; lia.
  - eapply placed_beside; eauto; lia.
Qed.

Lemma extending_factor f : class_of (insn_op insn) = Some (Extending f) -> f = 2 \/ f = 4 \/ f = 8.
Proof. destruct (insn_op insn); try discriminate; intros [= <-]; auto. Qed.

(** Validation arranges the lanes of every class; it does not look at the vector
    of shift amounts of a narrowing shift. *)
Lemma accepted_arranged c vm u :
  class_of (insn_op insn) = Some c -> form_ok c insn = true -> widths_ok c eb = true ->
  (c = Narrowing -> is_vv insn = true -> forall lm, Emul.from_vtype (c_vtype s) = Some lm ->
   aligned (insn_rs1 insn) (regs lm)) ->
  validate insn vm s = (Ok u, s) -> arranged s insn n c.
Proof.
  intros Hc Hf Hw H1 Hv. apply (validate_class c) in Hv as (u' & Hv); [|done].
  assert (Hcnt : forall lm, Emul.from_vtype (c_vtype s) = Some lm ->
    count_ok (regs lm) /\ count_ok (regs (Emul.widen lm))).
  { intros lm Hl. by destruct (counts lm Hl) as (_ & _ & ? & ? & _). }
  destruct c as [|w| |f]; cbn [widths_ok form_ok] in *; rewrite ?Z.leb_le in Hw.
  - apply accept_same_width in Hv as (lm & Hl & Hd & H2' & H1'). apply (arranged_same lm); [done..|].
    rewrite !orb_true_iff, !Z.eqb_eq in Hf. unfold is_vv. rewrite orb_true_iff, !Z.eqb_eq.
    intros Hvv. apply H1'. lia.
  - destruct Hv as (dis & Hv). apply accept_widening in Hv as (lm & Hl & Hd & H2' & H1'); [|done..].
    apply (arranged_widen lm); [done..|]. unfold is_vv. rewrite orb_true_iff, !Z.eqb_eq in *.
    intros Hvv. apply H1', Z.eqb_eq. lia.
  - apply accept_narrowing in Hv as (lm & Hl & Hd & H2' & Ho); [|done..].
    apply (arranged_narrow lm); auto.
  - pose proof (extending_factor f Hc) as Hf8.
    apply accept_extension in Hv as (lm & Hl & Hd & Hb); [|done..|].
    + by apply (arranged_extend lm).
    + intros lm Hl. split; [by apply Hcnt|]. destruct (ext_counts lm f Hl Hf8 Hw) as [Hx _].
      exact (proj1 (cap_spec _ _ _ Hx)).
Qed.
End Accepted.
