(* ===== verification/RvStep.v ===== *)
(** * Execute, step and run

    The dispatch of [RiscVCpu::execute] (src/isa/riscv/cpu.rs) and the
    fetch-decode-execute loop of src/isa/riscv/cpu/execution.rs. *)

From S2P Require Import Prelude RvIsa RvOp RvMemory RvDecode RvAlu RvCrypto RvState RvCsr.
From S2P Require Import RvAluOps RvExec RvFp RvVecExec.

(** The operations dispatched to the vector data path. *)
Definition is_vector (op : Op) : bool :=
  match op with
  | Vle | Vse | Vlse | Vsse | Vlxei | Vsxei | Vlm | Vsm | Vlre | Vsre | Vlseg | Vsseg |
    Vleff | Vadd | Vsub | Vrsub | Vand | Vor | Vxor | Vminu | Vmin | Vmaxu | Vmax | Vsll
    | Vsrl | Vsra | Vmerge | Vmseq | Vmsne | Vmsltu | Vmslt | Vmsleu | Vmsle | Vmsgtu |
    Vmsgt | Vmul | Vmulh | Vmulhu | Vmulhsu | Vdivu | Vdiv | Vremu | Vrem | Vfadd |
    Vfsub | Vfrsub | Vfmul | Vfdiv | Vfrdiv | Vfsqrt | Vfmin | Vfmax | Vfsgnj | Vfsgnjn
    | Vfsgnjx | Vmfeq | Vmfne | Vmflt | Vmfle | Vmfgt | Vmfge | Vfmacc | Vfnmacc |
    Vfmsac | Vfnmsac | Vfmadd | Vfnmadd | Vfmsub | Vfnmsub | Vredsum | Vredand | Vredor
    | Vredxor | Vredminu | Vredmin | Vredmaxu | Vredmax | Vfredusum | Vfredosum |
    Vfredmin | Vfredmax | VmvXS | VmvSX | VfmvFS | VfmvSF | Vmand | Vmnand | Vmandn |
    Vmxor | Vmor | Vmnor | Vmorn | Vmxnor | VzextVf2 | VsextVf2 | VzextVf4 | VsextVf4 |
    VzextVf8 | VsextVf8 | Vcpop | Vfirst | Vmsbf | Vmsof | Vmsif | Viota | Vid |
    Vslideup | Vslidedown | Vslide1up | Vslide1down | Vfslide1up | Vfslide1down |
    Vrgather | Vrgatherei16 | Vcompress | Vadc | Vmadc | Vsbc | Vmsbc | Vsaddu | Vsadd |
    Vssubu | Vssub | Vaaddu | Vaadd | Vasubu | Vasub | Vssrl | Vssra | Vsmul | Vwaddu |
    Vwadd | Vwsubu | Vwsub | VwadduW | VwaddW | VwsubuW | VwsubW | Vwmulu | Vwmulsu |
    Vwmul | Vwmaccu | Vwmacc | Vwmaccsu | Vwmaccus | Vnsrl | Vnsra | Vnclipu | Vnclip |
    VfcvtXuF | VfcvtXF | VfcvtFXu | VfcvtFX | VfcvtRtzXuF | VfcvtRtzXF | VfwcvtXuF |
    VfwcvtXF | VfwcvtFXu | VfwcvtFX | VfwcvtFF | VfwcvtRtzXuF | VfwcvtRtzXF | VfncvtXuF
    | VfncvtXF | VfncvtFXu | VfncvtFX | VfncvtFF | VfncvtRodFF | VfncvtRtzXuF |
    VfncvtRtzXF | Vfwadd | Vfwsub | Vfwmul | VfwaddW | VfwsubW | Vfwmacc | Vfwnmacc |
    Vfwmsac | Vfwnmsac | Vwredsumu | Vwredsum | Vfwredusum | Vfwredosum | Vfclass | Vmvr
    | Vfrsqrt7 | Vfrec7 | ThVmaqa | ThVmaqau | ThVmaqasu | ThVmaqaus => true
  | _ => false
  end.

Section Step.
Context {M : Type} `{Memory M}.
Abbreviation Hart := (RiscVCpu M).
Implicit Types (s : Hart) (insn : Insn).

(** ** Groups of arms *)

(** The value a register-writing operation gives to [rd]. *)
Definition alu s insn (pc : Z) : option Z :=
  let op := insn_op insn in
  let xl := cpu_xlen s in
  let a := get_x s (insn_rs1 insn) in
  let b := get_x s (insn_rs2 insn) in
  let imm := as_u64 (insn_imm insn) in
  or_else (alu_base xl op pc a b imm)
  $ or_else (alu_m xl op a b)
  $ or_else (alu_zb xl op a b imm)
  $ or_else (alu_zbk xl op a b imm)
  $ or_else (alu_crypto xl op (insn_raw insn) a b)
  $ or_else (alu_andes xl op (insn_rs2 insn) a b imm)
  $ alu_thead xl op (insn_rs2 insn) a b imm (get_x s (insn_rd insn)) (get_f s (insn_rs1 insn)).

(** Jumps and branches. *)
Definition exec_control s insn (pc : Z) : option (exec Hart Trap unit) :=
  let a := get_x s (insn_rs1 insn) in
  let b := get_x s (insn_rs2 insn) in
  let imm := as_u64 (insn_imm insn) in
  let xl := cpu_xlen s in
  match insn_op insn with
  | Jal => Some (jump (insn_rd insn) pc (insn_len insn) (wadd 64 pc imm))
  | Jalr => Some (jump (insn_rd insn) pc (insn_len insn) (Z.land (wadd 64 a imm) (wnot 64 1)))
  | Beq => Some (branch (sx xl a =? sx xl b) pc imm)
  | Bne => Some (branch (negb (sx xl a =? sx xl b)) pc imm)
  | Blt => Some (branch (sx xl a <? sx xl b) pc imm)
  | Bge => Some (branch (sx xl b <=? sx xl a) pc imm)
  | Bltu => Some (branch (a <? b) pc imm)
  | Bgeu => Some (branch (b <=? a) pc imm)
  | NdsBbc => Some (branch (Z.land (wshr 64 a (insn_rs2 insn)) 1 =? 0) pc imm)
  | NdsBbs => Some (branch (negb (Z.land (wshr 64 a (insn_rs2 insn)) 1 =? 0)) pc imm)
  | NdsBeqc => Some (branch (Z.land a (xmask s) =? insn_rs2 insn) pc imm)
  | NdsBnec => Some (branch (negb (Z.land a (xmask s) =? insn_rs2 insn)) pc imm)
  | _ => None
  end.

(** Scalar loads and stores, with the hypervisor and GP-relative forms. *)
Definition exec_mem s insn : option (exec Hart Trap unit) :=
  let rd := insn_rd insn in
  let a := get_x s (insn_rs1 insn) in
  let b := get_x s (insn_rs2 insn) in
  let imm := as_u64 (insn_imm insn) in
  match insn_op insn with
  | Lb | NdsLbgp => Some (load rd a imm 1 true)
  | Lh | NdsLhgp => Some (load rd a imm 2 true)
  | Lw | NdsLwgp => Some (load rd a imm 4 true)
  | Ld | NdsLdgp => Some (load rd a imm 8 true)
  | LdPair => Some (load_pair rd a imm)
  | Lbu | NdsLbugp => Some (load rd a imm 1 false)
  | Lhu | NdsLhugp => Some (load rd a imm 2 false)
  | Lwu | NdsLwugp => Some (load rd a imm 4 false)
  | Sb | NdsSbgp => Some (store a imm b 1)
  | Sh | NdsShgp => Some (store a imm b 2)
  | Sw | NdsSwgp => Some (store a imm b 4)
  | Sd | NdsSdgp => Some (store a imm b 8)
  | SdPair => Some (store_pair a imm (insn_rs2 insn))
  | CboZero => Some (cbo_zero a)
  | HlvB => Some (load rd a 0 1 true)
  | HlvBu => Some (load rd a 0 1 false)
  | HlvH => Some (load rd a 0 2 true)
  | HlvHu | HlvxHu => Some (load rd a 0 2 false)
  | HlvW => Some (load rd a 0 4 true)
  | HlvWu | HlvxWu => Some (load rd a 0 4 false)
  | HlvD => Some (load rd a 0 8 true)
  | HsvB => Some (store a 0 b 1)
  | HsvH => Some (store a 0 b 2)
  | HsvW => Some (store a 0 b 4)
  | HsvD => Some (store a 0 b 8)
  | _ => None
  end.

(** The remaining operations that retire with [Continue]. *)
Definition exec_misc s insn (pc : Z) : option (exec Hart Trap unit) :=
  let rd := insn_rd insn in
  let rs1 := insn_rs1 insn in
  let a := get_x s rs1 in
  let b := get_x s (insn_rs2 insn) in
  let imm := as_u64 (insn_imm insn) in
  match insn_op insn with
  | CmPush | CmPop | CmPopRetz | CmPopRet => Some (exec_zcmp_stack insn)
  | CmMvsa01 =>
      Some (s ← get; write_x rd (get_x s 10);; s ← get; write_x rs1 (get_x s 11))
  | CmMva01s =>
      Some (s ← get; write_x 10 (get_x s rd);; s ← get; write_x 11 (get_x s rs1))
  | CmJt | CmJalt => Some (exec_zcmt insn pc)
  | ThFmvHwX =>
      let old := Z.land (get_f s rd) 0x00000000ffffffff in
      Some (write_f rd (Z.lor old (wshl 64 (Z.land a 0xffffffff) 32)))
  | Mret | Sret | Uret => Some (modify exec_mret)
  | Csrrw | Csrrs | Csrrc | Csrrwi | Csrrsi | Csrrci => Some (exec_csr insn)
  | LrW | LrD | ScW | ScD => Some (exec_lrsc insn)
  | AmoswapW | AmoaddW | AmoxorW | AmoandW | AmoorW | AmominW | AmomaxW | AmominuW | AmomaxuW
  | AmoswapD | AmoaddD | AmoxorD | AmoandD | AmoorD | AmominD | AmomaxD | AmominuD
  | AmomaxuD => Some (exec_amo insn)
  | AmocasW | AmocasD | AmocasQ => Some (exec_amocas insn)
  | Aes64ks1i =>
      Some (v ← expect (aes64ks1i a (Z.land (wshr 32 (insn_raw insn) 20) 0xf)); write_x rd v)
  | Vsetvli => Some (vset rd imm (vset_avl rd rs1 a))
  | Vsetivli => Some (vset rd imm (AvlReg rs1))
  | Vsetvl => Some (vset rd b (vset_avl rd rs1 a))
  | _ => None
  end.

(** The T-Head memory operations, selected by their tables. *)
Definition exec_thead insn : option (exec Hart Trap unit) :=
  let op := insn_op insn in
  if bool_decide (is_Some (thead_auto_mem op)) then Some (exec_thead_auto_mem insn)
  else if bool_decide (is_Some (thead_reg_mem op)) then Some (exec_thead_reg_mem insn)
  else if bool_decide (is_Some (thead_pair_mem op)) then Some (exec_thead_pair_mem insn)
  else if bool_decide (is_Some (thead_fmem op)) then Some (exec_thead_fmem insn)
  else None.

(** ** Execute *)

(** The operations that leave with another exit than [Continue]. *)
Definition exec_exit insn (pc : Z) : option (exec Hart Trap RiscVExit.t) :=
  match insn_op insn with
  | Ecall => Some (write_pc pc;; eret RiscVExit.Ecall)
  | Ebreak => Some (write_pc pc;; eret RiscVExit.Ebreak)
  | H3Block | Wfi => Some (eret RiscVExit.Wfi)
  | _ => None
  end.

Definition execute insn (pc : Z) : exec Hart Trap RiscVExit.t :=
  s ← get;
  write_pc (Z.land (wadd 64 pc (insn_len insn)) (xmask s));;
  if is_fp (insn_op insn) then exec_fp insn pc
  else
    s ← get;
    let continue (m : exec Hart Trap unit) : exec Hart Trap RiscVExit.t :=
      m;; eret RiscVExit.Continue in
    match alu s insn pc with
    | Some v => continue (write_x (insn_rd insn) v)
    | None =>
        if is_hint (insn_op insn) then eret RiscVExit.Continue
        else
          match or_else (exec_control s insn pc)
                  (or_else (exec_mem s insn)
                     (or_else (exec_misc s insn pc) (exec_thead insn))) with
          | Some m => continue m
          | None =>
              match exec_exit insn pc with
              | Some m => m
              | None =>
                  if is_vector (insn_op insn) then continue (exec_vector insn)
                  else throw (trap_illegal (insn_raw insn))
              end
          end
    end.

(** ** Step and run *)

(** Account for an instruction that returned through the non-trap path. *)
Definition account_retired_exit (exit : RiscVExit.t) s : Hart :=
  match exit with
  | RiscVExit.Continue | RiscVExit.Wfi => set_c_instret (wadd 64 (c_instret s) 1) s
  | _ => s
  end.

(** Fetch, decode and execute one instruction; [None] is a panic. *)
Definition step s : option RiscVExit.t * Hart :=
  match pending_machine_interrupt s with
  | Some trap => (Some RiscVExit.Continue, deliver_trap trap (c_pc s) s)
  | None =>
      let pc := c_pc s in
      match decode_at (c_mem s) pc (cpu_xlen s) (cpu_isa s) with
      | inl _ =>
          let trap := mk_trap cause.INSTR_ACCESS_FAULT pc in
          (Some (RiscVExit.Trap trap), deliver_trap trap pc s)
      | inr insn =>
          let s := set_c_cycle (wadd 64 (c_cycle s) 1) s in
          match execute insn pc s with
          | (Ok exit, s) => (Some exit, account_retired_exit exit s)
          | (Err trap, s) => (Some (RiscVExit.Trap trap), deliver_trap trap pc s)
          | (Panic, s) => (None, s)
          end
      end
  end.

(** Run until an exit other than [Continue] or until the budget is exhausted. *)
Fixpoint run (max_insns : nat) s : option RiscVExit.t * Hart :=
  match max_insns with
  | O => (Some RiscVExit.Continue, s)
  | S n =>
      match step s with
      | (Some RiscVExit.Continue, s) => run n s
      | (other, s) => (other, s)
      end
  end.
End Step.
