(* ===== verification/RvFrame.v ===== *)
(** * Frames: what executing an instruction never changes

    [framed R m] says that a method relates the hart it starts in to the hart
    it leaves by [R], whatever its outcome.  The rules below lift this from
    the state updates to [execute], and the counters are one instance. *)

From S2P Require Import Prelude RvIsa RvOp RvMemory RvDecode RvAlu RvCrypto RvState RvCsr.
From S2P Require Import RvAluOps RvExec RvFp RvVec RvVecCheck RvVecValid RvVecMem RvVecExec RvStep.

(** A preorder on harts that admits the updates instructions make. *)
Record frame_rel {M} (R : RiscVCpu M -> RiscVCpu M -> Prop) : Prop := {
  fr_refl s : R s s;
  fr_trans s1 s2 s3 : R s1 s2 -> R s2 s3 -> R s1 s3;
  fr_x i v s : R s (set_x i v s);
  fr_f i v s : R s (set_f i v s);
  fr_pc v s : R s (set_c_pc v s);
  fr_mem m s : R s (set_c_mem m s);
  fr_reservation v s : R s (set_c_reservation v s);
  fr_csr csr v s : R s (csr_update csr v s);
  fr_ext_csr v s : R s (set_c_ext_csr v s);
  fr_fcsr v s : R s (set_c_fcsr v s);
  fr_mret s : R s (exec_mret s);
  fr_vtype v avl s : R s (set_vtype v avl s).2;
  fr_v v s : R s (set_c_v v s);
  fr_vl v s : R s (set_c_vl v s);
  fr_vstart v s : R s (set_c_vstart v s);
  fr_vxsat v s : R s (set_c_vxsat v s)
}.

Section Frame.
Context {M : Type} `{Memory M} (R : RiscVCpu M -> RiscVCpu M -> Prop) (HR : frame_rel R).
Abbreviation Hart := (RiscVCpu M).
Implicit Types (s : Hart) (insn : Insn).

Definition framed {A} (m : exec Hart Trap A) : Prop := forall s, R s (m s).2.

(** ** Rules *)

Lemma framed_ret {A} (a : A) : framed (eret a).
Proof. intros s. apply HR. Qed.
Lemma framed_throw {A} t : framed (throw t : exec Hart Trap A).
Proof. intros s. apply HR. Qed.
Lemma framed_panic {A} : framed (panic : exec Hart Trap A).
Proof. intros s. apply HR. Qed.
Lemma framed_expect {A} (o : option A) : framed (expect o).
Proof. destruct o; [apply framed_ret | apply framed_panic]. Qed.

Lemma framed_bind {A B} (m : exec Hart Trap A) (k : A -> exec Hart Trap B) :
  framed m -> (forall a, framed (k a)) -> framed (a ← m; k a).
Proof.
  intros Hm Hk s. unfold mbind, exec_bind, ebind. specialize (Hm s).
  destruct (m s) as [[a|t|] s']; [|done..]. eapply fr_trans; [done|exact Hm|]. apply Hk.
Qed.

Lemma framed_get {B} (k : Hart -> exec Hart Trap B) :
  (forall s, framed (k s)) -> framed (s ← get; k s).
Proof. intros Hk s. apply (Hk s s). Qed.

Lemma framed_modify f : (forall s, R s (f s)) -> framed (modify f).
Proof. intros Hf s. apply Hf. Qed.

Lemma framed_if {A} (c : bool) (m n : exec Hart Trap A) :
  framed m -> framed n -> framed (if c then m else n).
Proof. by destruct c. Qed.

Lemma framed_mem_get {A} (rd : M -> MemResult A) t : framed (mem_get rd t).
Proof. intros s. unfold mem_get. destruct (rd (c_mem s)); apply HR. Qed.

Lemma framed_mem_put (wr : M -> MemResult unit * M) t : framed (mem_put wr t).
Proof. intros s. unfold mem_put. destruct (wr (c_mem s)) as [[e|u] m]; apply HR. Qed.

Lemma framed_write_x i v : framed (write_x i v).
Proof. apply framed_modify. intros. apply HR. Qed.
Lemma framed_write_f i v : framed (write_f i v).
Proof. apply framed_modify. intros. apply HR. Qed.
Lemma framed_write_pc v : framed (write_pc v).
Proof. apply framed_modify. intros. apply HR. Qed.
Lemma framed_reservation v : framed (modify (set_c_reservation v)).
Proof. apply framed_modify. intros. apply HR. Qed.

Ltac frame_go :=
  cbv beta zeta;
  repeat (match goal with
  | |- framed (mbind _ get) => apply framed_get; intros
  | |- framed (if _ then _ else _) => apply framed_if
  | |- framed (throw _) => apply framed_throw
  | |- framed (eret _) => apply framed_ret
  | |- framed panic => apply framed_panic
  | |- framed (expect _) => apply framed_expect
  | |- framed (mem_get _ _) => apply framed_mem_get
  | |- framed (mem_put _ _) => apply framed_mem_put
  | |- framed (write_x _ _) => apply framed_write_x
  | |- framed (write_f _ _) => apply framed_write_f
  | |- framed (write_pc _) => apply framed_write_pc
  | |- framed (modify (set_c_reservation _)) => apply framed_reservation
  | |- framed (mbind _ _) => apply framed_bind; [|intros]
  | |- framed (match ?x with _ => _ end) => destruct x
  end; cbv beta zeta); eauto.

(** ** The methods *)

Lemma framed_branch taken pc imm : framed (branch taken pc imm).
Proof. unfold branch. frame_go. Qed.
Lemma framed_jump rd pc len target : framed (jump rd pc len target).
Proof. unfold jump. frame_go. Qed.
Lemma framed_load rd base imm size signed : framed (load rd base imm size signed).
Proof. unfold load. frame_go. Qed.
Lemma framed_store base imm val size : framed (store base imm val size).
Proof. unfold store. frame_go. Qed.
Lemma framed_load_pair rd base imm : framed (load_pair rd base imm).
Proof. unfold load_pair. frame_go. Qed.
Lemma framed_store_pair base imm rs2 : framed (store_pair base imm rs2).
Proof. unfold store_pair. frame_go. Qed.
Lemma framed_cbo_zero a : framed (cbo_zero a).
Proof. unfold cbo_zero. frame_go. Qed.
Hint Resolve framed_load framed_store : core.

Lemma framed_thead_auto_mem insn : framed (exec_thead_auto_mem insn).
Proof. unfold exec_thead_auto_mem. frame_go. Qed.
Lemma framed_thead_reg_mem insn : framed (exec_thead_reg_mem insn).
Proof. unfold exec_thead_reg_mem. frame_go. Qed.
Lemma framed_thead_pair_mem insn : framed (exec_thead_pair_mem insn).
Proof. unfold exec_thead_pair_mem. frame_go. Qed.
Lemma framed_thead_fmem insn : framed (exec_thead_fmem insn).
Proof. unfold exec_thead_fmem. frame_go. Qed.
Lemma framed_lrsc insn : framed (exec_lrsc insn).
Proof. unfold exec_lrsc. destruct (insn_op insn); frame_go. Qed.
Lemma framed_amo insn : framed (exec_amo insn).
Proof. unfold exec_amo. frame_go. Qed.
Lemma framed_amocas insn : framed (exec_amocas insn).
Proof. unfold exec_amocas. destruct (insn_op insn); frame_go. Qed.

Lemma framed_zcmp_push count sp adj size slots : framed (zcmp_push_loop count sp adj size slots).
Proof. induction slots; cbn [zcmp_push_loop]; frame_go. Qed.
Lemma framed_zcmp_pop count sp adj size ra slots :
  framed (zcmp_pop_loop count sp adj size ra slots).
Proof. revert ra. induction slots; intros ra; cbn [zcmp_pop_loop]; frame_go. Qed.
Hint Resolve framed_zcmp_push framed_zcmp_pop : core.

Lemma framed_zcmp_stack insn : framed (exec_zcmp_stack insn).
Proof.
  unfold exec_zcmp_stack. destruct (exec_zcmp_reg_count _); [|frame_go].
  apply framed_get. intros s. cbv zeta. destruct (insn_op insn); frame_go.
Qed.
Lemma framed_zcmt insn pc : framed (exec_zcmt insn pc).
Proof.
  unfold exec_zcmt. apply framed_get. intros s. apply framed_if; [frame_go|]. cbv zeta.
  apply framed_bind; [frame_go|]. intros. apply framed_bind; [|intros; frame_go].
  destruct (insn_op insn); frame_go.
Qed.

Lemma framed_csr_read addr : framed (csr_read addr).
Proof. unfold csr_read. frame_go. Qed.
Lemma framed_csr_write addr v : framed (csr_write addr v).
Proof. unfold csr_write. frame_go; apply framed_modify; intros; apply HR. Qed.
Hint Resolve framed_csr_read framed_csr_write : core.
Lemma framed_csr insn : framed (exec_csr insn).
Proof.
  unfold exec_csr. apply framed_get. intros s. cbv zeta. apply framed_if; [frame_go|].
  apply framed_bind; [frame_go|]. intros old.
  apply framed_bind; [|intros; apply framed_modify; intros; apply HR].
  apply framed_if; [|frame_go]. apply framed_bind; [|eauto]. destruct (insn_op insn); frame_go.
Qed.

Lemma framed_vset rd vtype avl : framed (vset rd vtype avl).
Proof.
  intros s. unfold vset, write_x, modify, get, mbind, exec_bind, ebind.
  pose proof (fr_vtype _ HR vtype avl s) as Hv. destruct (set_vtype vtype avl s) as [vl s'].
  eapply fr_trans; [done|exact Hv|]. apply HR.
Qed.

(** ** Floating point *)

Lemma fr_accrue flags s : R s (accrue flags s).
Proof. unfold accrue. apply HR. Qed.

Lemma framed_fp_mem s insn m : fp_mem s insn = Some m -> framed m.
Proof.
  unfold fp_mem. cbv zeta. intros Hm.
  destruct (insn_op insn); try discriminate Hm; apply (inj Some) in Hm; subst m; frame_go;
    apply framed_modify; intros; apply HR.
Qed.

Lemma fr_fp_write rd w s : R s (fp_write rd w s).
Proof.
  destruct w; unfold fp_write, wf16, wf32, wf64; (eapply fr_trans; [exact HR| |apply fr_accrue]);
    apply HR.
Qed.

Lemma framed_fp insn pc : framed (exec_fp insn pc).
Proof.
  unfold exec_fp. apply framed_if; [frame_go|]. apply framed_get. intros s.
  destruct (if fp_no_rm _ then _ else _) as [rm|]; [|frame_go].
  destruct (fp_mem s insn) as [m|] eqn:Em.
  - apply framed_bind; [by eapply framed_fp_mem|]. intros. apply framed_bind; [|intros; frame_go].
    apply framed_modify, fr_accrue.
  - destruct (fp_value s insn rm); [|frame_go]. apply framed_bind; [|intros; frame_go].
    apply framed_modify, fr_fp_write.
Qed.

(** ** Vectors *)

Lemma framed_velem vreg e eb : framed (velem vreg e eb).
Proof. unfold velem. frame_go. Qed.
Lemma framed_set_velem vreg e eb val : framed (set_velem vreg e eb val).
Proof. unfold set_velem. frame_go. apply framed_modify. intros. apply HR. Qed.
Lemma framed_vmask_bit e : framed (vmask_bit e).
Proof. unfold vmask_bit. frame_go. Qed.
Lemma framed_src1 insn vv scalar e eb : framed (src1 insn vv scalar e eb).
Proof. apply framed_if; [apply framed_velem | apply framed_ret]. Qed.
Lemma framed_set_mask vreg e val : framed (modify (set_vmask_bit vreg e val)).
Proof. apply framed_modify. intros s. unfold set_vmask_bit. case_match; apply HR. Qed.
Lemma framed_accrue flags : framed (accrue_flags flags).
Proof. apply framed_modify, fr_accrue. Qed.
Lemma framed_set_sat sat : framed (set_sat sat).
Proof. apply framed_if; [apply framed_modify; intros; apply HR | apply framed_ret]. Qed.

Lemma framed_fold_elems {A} l body (acc : A) :
  (forall e acc, framed (body e acc)) -> framed (fold_elems l body acc).
Proof.
  intros Hb. revert acc. induction l; intros acc; cbn [fold_elems]; [apply framed_ret|].
  by apply framed_bind.
Qed.
Lemma framed_active (vm : bool) e : framed (if vm then eret true else vmask_bit e).
Proof. apply framed_if; [apply framed_ret | apply framed_vmask_bit]. Qed.
Lemma framed_fold_active {A} vm start stop (acc : A) body :
  (forall e acc, framed (body e acc)) -> framed (fold_active vm start stop acc body).
Proof.
  intros Hb. apply framed_fold_elems. intros e a. apply framed_bind; [apply framed_active|].
  intros []; [done | apply framed_ret].
Qed.
Lemma framed_for_active vm start stop body :
  (forall e, framed (body e)) -> framed (for_active vm start stop body).
Proof. intros. by apply framed_fold_active. Qed.
Lemma framed_for_body start stop body :
  (forall e, framed (body e)) -> framed (for_body start stop body).
Proof. intros. by apply framed_fold_elems. Qed.
Lemma framed_write_active {A} vm start stop vd eb (acc : A) elem :
  (forall e acc, framed (elem e acc)) -> framed (write_active vm start stop vd eb acc elem).
Proof.
  intros Hb. apply framed_fold_active. intros. apply framed_bind; [done|]. intros.
  apply framed_bind; [apply framed_set_velem | intros; apply framed_ret].
Qed.
Lemma framed_write_each vm start stop vd eb elem :
  (forall e, framed (elem e)) -> framed (write_each vm start stop vd eb elem).
Proof.
  intros Hb. apply framed_for_active. intros. apply framed_bind; [done|]. intros.
  apply framed_set_velem.
Qed.

Lemma framed_vector_read e addr eb : framed (vector_read e addr eb).
Proof. intros s. unfold vector_read. case_match; apply HR. Qed.
Lemma framed_vector_write e addr data : framed (vector_write e addr data).
Proof.
  intros s. unfold vector_write. destruct (mem_write _ _ _) as [[] m]; [|apply HR].
  apply (fr_trans _ HR _ (set_c_mem m s)); apply HR.
Qed.
Lemma framed_transfer load reg e eb addr : framed (transfer load reg e eb addr).
Proof.
  unfold transfer. frame_go; auto using framed_vector_read, framed_set_velem, framed_velem,
    framed_vector_write.
Qed.
Lemma framed_encoded_width insn : framed (encoded_width insn).
Proof. unfold encoded_width, v_illegal. repeat case_match; auto using framed_ret, framed_throw. Qed.
Lemma framed_vleff vm vd eb base vl l : framed (vleff_loop vm vd eb base vl l).
Proof.
  induction l; cbn [vleff_loop]; [apply framed_ret|].
  apply framed_bind; [apply framed_active|]. intros []; [|done]. frame_go;
    auto using framed_set_velem. apply framed_modify. intros. apply HR.
Qed.
Lemma framed_first_set insn vm l : framed (first_set insn vm l).
Proof.
  induction l; cbn [first_set]; [apply framed_ret|].
  apply framed_bind; [apply framed_active|]. intros. frame_go.
Qed.
Lemma framed_validate insn vm : framed (validate insn vm).
Proof. intros s. destruct (checks_validate insn vm s) as [[a ->] | ->]; apply HR. Qed.

Ltac vframe_go :=
  repeat (cbv beta zeta; match goal with
  | |- framed (mbind _ get) => apply framed_get; intros
  | |- framed (velem _ _ _) => apply framed_velem
  | |- framed (set_velem _ _ _ _) => apply framed_set_velem
  | |- framed (vmask_bit _) => apply framed_vmask_bit
  | |- framed (src1 _ _ _ _ _) => apply framed_src1
  | |- framed (modify (set_vmask_bit _ _ _)) => apply framed_set_mask
  | |- framed (modify (set_x _ _)) => apply framed_write_x
  | |- framed (accrue_flags _) => apply framed_accrue
  | |- framed (set_sat _) => apply framed_set_sat
  | |- framed (transfer _ _ _ _ _) => apply framed_transfer
  | |- framed (encoded_width _) => apply framed_encoded_width
  | |- framed (first_set _ _ _) => apply framed_first_set
  | |- framed (vleff_loop _ _ _ _ _ _) => apply framed_vleff
  | |- framed (write_active _ _ _ _ _ _ _) => apply framed_write_active; intros
  | |- framed (write_each _ _ _ _ _ _) => apply framed_write_each; intros
  | |- framed (fold_active _ _ _ _ _) => apply framed_fold_active; intros
  | |- framed (fold_elems _ _ _) => apply framed_fold_elems; intros
  | |- framed (for_active _ _ _ _) => apply framed_for_active; intros
  | |- framed (for_body _ _ _) => apply framed_for_body; intros
  | |- framed (v_illegal _) => apply framed_throw
  | |- framed (eret _) => apply framed_ret
  | |- framed (expect _) => apply framed_expect
  | |- framed (modify _) => apply framed_modify; intros; apply HR
  | |- framed (if _ then _ else _) => apply framed_if
  | |- framed (mbind _ _) => apply framed_bind; [|intros]
  | |- framed (match ?x with _ => _ end) => destruct x
  end).

Lemma framed_fmv insn : framed (v_fmv_f_s insn).
Proof.
  unfold v_fmv_f_s. apply framed_get. intros s. apply framed_bind; [apply framed_velem|]. intros v.
  apply framed_modify. intros. unfold wf16, wf32, wf64. repeat case_match; apply HR.
Qed.

(** A method of the vector engine is one of those above. *)
Ltac head_of t := lazymatch t with ?f _ => head_of f | _ => t end.
Ltac vframe :=
  match goal with
  | |- framed (v_fmv_f_s _) => apply framed_fmv
  | |- framed (v_illegal _) => apply framed_throw
  | |- framed ?m => let f := head_of m in
      unfold f; vframe_go
  end.

Lemma framed_vector_memory insn vm vd vstart vl :
  framed (exec_vector_memory insn vm vd vstart vl).
Proof. unfold exec_vector_memory. destruct (insn_op insn); vframe. Qed.

Lemma framed_exec_vector insn : framed (exec_vector insn).
Proof.
  unfold exec_vector. apply framed_get. intros s. apply framed_if; [apply framed_throw|]. cbv zeta.
  apply framed_bind; [apply framed_validate|]. intros.
  apply framed_bind; [|intros; apply framed_modify; intros; apply HR].
  unfold exec_vector_op.
  destruct (insn_op insn);
    lazymatch goal with
    | |- framed (exec_vector_memory _ _ _ _ _) => apply framed_vector_memory
    | _ => vframe
    end.
Qed.

(** ** Execute *)

Hint Resolve framed_branch framed_jump framed_load_pair framed_store_pair framed_cbo_zero
  framed_thead_auto_mem framed_thead_reg_mem framed_thead_pair_mem framed_thead_fmem framed_lrsc
  framed_amo framed_amocas framed_zcmp_stack framed_zcmt framed_csr framed_vset : core.

Lemma framed_control s insn pc m : exec_control s insn pc = Some m -> framed m.
Proof.
  intros Hm. unfold exec_control in Hm.
  destruct (insn_op insn); try discriminate Hm; apply (inj Some) in Hm; subst m; auto.
Qed.

Lemma framed_mem s insn m : exec_mem s insn = Some m -> framed m.
Proof.
  intros Hm. unfold exec_mem in Hm.
  destruct (insn_op insn); try discriminate Hm; apply (inj Some) in Hm; subst m; auto.
Qed.

Lemma framed_misc s insn pc m : exec_misc s insn pc = Some m -> framed m.
Proof.
  intros Hm. unfold exec_misc in Hm.
  destruct (insn_op insn); try discriminate Hm; apply (inj Some) in Hm; subst m; auto;
    try (frame_go; fail); apply framed_modify; intros; apply HR.
Qed.

Lemma framed_thead insn m : exec_thead insn = Some m -> framed m.
Proof.
  unfold exec_thead. intros Hm.
  repeat match type of Hm with (if ?c then _ else _) = _ => destruct c end;
    try discriminate Hm; apply (inj Some) in Hm; subst m; auto.
Qed.

Lemma framed_exit insn pc m : exec_exit insn pc = Some m -> framed m.
Proof.
  intros Hm. unfold exec_exit in Hm.
  destruct (insn_op insn); try discriminate Hm; apply (inj Some) in Hm; subst m; frame_go.
Qed.

Lemma framed_execute insn pc : framed (execute insn pc).
Proof.
  unfold execute. apply framed_get. intros s0. apply framed_bind; [frame_go|].
  intros []. apply framed_if; [apply framed_fp|]. apply framed_get. intros s. cbv zeta.
  destruct (alu s insn pc) as [v|]; [frame_go|]. apply framed_if; [frame_go|].
  destruct (or_else _ _) as [m|] eqn:Hm.
  - apply framed_bind; [|intros; frame_go].
    destruct (exec_control s insn pc) eqn:E1; [|destruct (exec_mem s insn) eqn:E2;
      [|destruct (exec_misc s insn pc) eqn:E3; [|]]]; cbn [or_else] in Hm; simplify_eq;
      eauto using framed_control, framed_mem, framed_misc, framed_thead.
  - destruct (exec_exit insn pc) eqn:E; [by eapply framed_exit|].
    apply framed_if; [|frame_go]. apply framed_bind; [apply framed_exec_vector | intros; frame_go].
Qed.
End Frame.
