(* ===== verification/RvHartSafe.v ===== *)
(** * Execution keeps the hart well formed

    Every method that executes a scalar instruction keeps the hart invariant,
    raises well-formed traps and does not reach an [unreachable!()] or failed
    [expect] for an instruction the decoder produces. *)

From S2P Require Import Prelude RvIsa RvOp RvMemory RvAlu RvCrypto RvState RvCsr RvAluOps.
From S2P Require Import RvFloat RvFloatWf RvExec RvFp RvFpSpec RvVecExec RvStep RvHart.

(** ** Well-formed traps and written bytes *)

Lemma trap_ok_mk c tval : 0 <= c <= 15 -> fits 64 tval -> trap_ok (mk_trap c tval).
Proof. by split. Qed.

Lemma trap_ok_illegal raw : fits 32 raw -> trap_ok (trap_illegal raw).
Proof. intros. apply trap_ok_mk; [by vm_compute | by apply (fits_weaken 32)]. Qed.

Lemma trap_ok_acc_fault st addr : fits 64 addr -> trap_ok (acc_fault st addr).
Proof. intros. apply trap_ok_mk; [by destruct st; vm_compute | done]. Qed.

Lemma take_le_bytes_fits k n v : Forall (fits 8) (take k (to_le_bytes n v)).
Proof. apply Forall_take, to_le_bytes_fits. Qed.

Create HintDb safe.
#[export] Hint Resolve trap_ok_acc_fault trap_ok_illegal to_le_bytes_fits take_le_bytes_fits
  ok_set_x ok_set_pc ok_set_reservation : safe.
#[export] Hint Extern 2 (trap_ok (mk_trap _ _)) => (apply trap_ok_mk; [by vm_compute|]) : safe.

Section Safe.
Context {M : Type} `{MemoryLaws M} (cfg : RiscVConfig).
Implicit Types (s : RiscVCpu M) (insn : Insn).
Abbreviation Hart := (RiscVCpu M).
Abbreviation xb := (xlen_bits (cfg_xlen cfg)).
Abbreviation anything := (fun _ => True).

Lemma fits_64_land_xmask s v : hart_ok cfg s -> fits 64 (Z.land v (xmask s)).
Proof.
  intros Hs. apply (fits_weaken xb); [apply xbits_64 | by apply fits_land_xmask].
Qed.

Hint Resolve fits_land_xmask fits_64_land_xmask fits_get_x fits_get_x_64 : safe.

Ltac safe_go :=
  cbv beta zeta;
  repeat (match goal with
  | |- safe _ (mbind _ get) _ => apply (safe_get cfg); intros
  | |- safe _ (mbind _ (expect (Some _))) _ => apply (safe_expect_bind cfg)
  | |- safe _ (if _ then _ else _) _ => apply (safe_if cfg); intros
  | |- safe _ (throw _) _ => apply (safe_throw cfg)
  | |- safe _ (eret _) _ => apply (safe_ret cfg)
  | |- safe _ (mem_put (fun m => mem_write m _ _) _) _ => apply (safe_write_bytes cfg)
  | |- safe _ (mbind (fun _ => _) _) _ => apply (safe_seq cfg)
  | |- safe _ (mbind _ (if _ then _ else _)) _ => apply (safe_bind cfg _ _ anything); [|intros]
  | |- safe _ (mbind _ _) _ => eapply (safe_bind cfg); [|intros]
  end; cbv beta zeta); eauto with safe fits.

Lemma safe_write_x i v : safe cfg (write_x i v) (anything : unit -> Prop).
Proof. apply safe_modify. intros. by apply ok_set_x. Qed.
Lemma safe_write_f i v : fits 64 v -> safe cfg (write_f i v) (anything : unit -> Prop).
Proof. intros. apply safe_modify. intros. by apply ok_set_f. Qed.
Lemma safe_write_pc v : fits xb v -> safe cfg (write_pc v) (anything : unit -> Prop).
Proof. intros. apply safe_modify. intros. by apply ok_set_pc. Qed.
Hint Resolve safe_write_x safe_write_f safe_write_pc : safe.

Lemma safe_branch taken pc imm : safe cfg (branch taken pc imm) anything.
Proof. unfold branch. safe_go. Qed.

Lemma safe_jump rd pc len target :
  fits 64 target -> safe cfg (jump rd pc len target) anything.
Proof. intros. unfold jump. safe_go. Qed.

Lemma safe_mem_get_any {A} (rd : M -> MemResult A) t :
  trap_ok t -> safe cfg (mem_get rd t) anything.
Proof. intros. by apply safe_mem_get. Qed.
Hint Resolve safe_mem_get_any | 10 : safe.

Lemma safe_load rd base imm size signed : safe cfg (load rd base imm size signed) anything.
Proof. unfold load. safe_go. Qed.

Lemma safe_store base imm val size : safe cfg (store base imm val size) anything.
Proof. unfold store. safe_go. Qed.

Lemma safe_read_le n addr t :
  trap_ok t -> safe cfg (mem_get (fun m => read_le n m addr) t) (fits (8 * Z.of_nat n)).
Proof. intros. apply safe_mem_get; [done|]. intros. by eapply read_le_fits. Qed.

Lemma safe_read_u32 addr t :
  trap_ok t -> safe cfg (mem_get (fun m => read_u32 m addr) t) (fits 32).
Proof. apply (safe_read_le 4). Qed.
Lemma safe_read_u64 addr t :
  trap_ok t -> safe cfg (mem_get (fun m => read_u64 m addr) t) (fits 64).
Proof. apply (safe_read_le 8). Qed.

Lemma safe_write_u32 addr v t :
  trap_ok t -> safe cfg (mem_put (fun m => write_u32 m addr v) t) anything.
Proof. intros. apply safe_write_bytes; auto with safe. Qed.
Lemma safe_write_u64 addr v t :
  trap_ok t -> safe cfg (mem_put (fun m => write_u64 m addr v) t) anything.
Proof. intros. apply safe_write_bytes; auto with safe. Qed.
Hint Resolve safe_read_u32 safe_read_u64 safe_write_u32 safe_write_u64 safe_load safe_store : safe.

Lemma safe_load_pair rd base imm : safe cfg (load_pair rd base imm) anything.
Proof. unfold load_pair. safe_go. Qed.

Lemma safe_store_pair base imm rs2 : safe cfg (store_pair base imm rs2) anything.
Proof. unfold store_pair. safe_go. Qed.

Lemma safe_cbo_zero a : fits 64 a -> safe cfg (cbo_zero a) anything.
Proof.
  intros. unfold cbo_zero. apply safe_write_bytes.
  - apply trap_ok_mk; [by vm_compute | by apply fits_land_l].
  - by apply Forall_replicate, fits_0.
Qed.

(** ** T-Head *)

Lemma safe_thead_auto_mem insn :
  is_Some (thead_auto_mem (insn_op insn)) -> safe cfg (exec_thead_auto_mem insn) anything.
Proof.
  intros [k Hk]. unfold exec_thead_auto_mem. rewrite Hk. safe_go.
Qed.

Lemma safe_thead_reg_mem insn :
  is_Some (thead_reg_mem (insn_op insn)) -> safe cfg (exec_thead_reg_mem insn) anything.
Proof. intros [k Hk]. unfold exec_thead_reg_mem. rewrite Hk. safe_go. Qed.

Lemma safe_thead_pair_mem insn :
  is_Some (thead_pair_mem (insn_op insn)) -> safe cfg (exec_thead_pair_mem insn) anything.
Proof. intros [k Hk]. unfold exec_thead_pair_mem. rewrite Hk. safe_go. Qed.

Lemma safe_thead_fmem insn :
  is_Some (thead_fmem (insn_op insn)) -> safe cfg (exec_thead_fmem insn) anything.
Proof.
  intros [k Hk]. unfold exec_thead_fmem. rewrite Hk.
  assert (Hsz : k = kind_load 8 false \/ k = kind_load 4 false \/ k = kind_store 8
                \/ k = kind_store 4).
  { destruct (insn_op insn); try discriminate Hk; injection Hk as <-; tauto. }
  destruct Hsz as [-> | [-> | [-> | ->]]];
    safe_go; try discriminate.
  all: apply safe_write_f, fits_lor; [by vm_compute | by apply (fits_weaken 32)].
Qed.

(** ** Atomics *)

Lemma safe_set_reservation v : safe cfg (modify (set_c_reservation v)) anything.
Proof. apply safe_modify. auto with safe. Qed.
Hint Resolve safe_set_reservation : safe.

Lemma safe_lrsc insn :
  match insn_op insn with LrW | LrD | ScW | ScD => True | _ => False end ->
  safe cfg (exec_lrsc insn) anything.
Proof.
  intros Hop. unfold exec_lrsc. destruct (insn_op insn); try done; safe_go.
Qed.

Lemma safe_amo insn :
  match insn_op insn with
  | AmoswapW | AmoaddW | AmoxorW | AmoandW | AmoorW | AmominW | AmomaxW | AmominuW | AmomaxuW
  | AmoswapD | AmoaddD | AmoxorD | AmoandD | AmoorD | AmominD | AmomaxD | AmominuD | AmomaxuD =>
      True
  | _ => False
  end -> safe cfg (exec_amo insn) anything.
Proof.
  intros Hop. unfold exec_amo.
  destruct (insn_op insn); try done; cbn [is_amo_d amo_compute32 amo_compute64]; safe_go.
Qed.


Lemma safe_amocas insn :
  match insn_op insn with AmocasW | AmocasD | AmocasQ => True | _ => False end ->
  safe cfg (exec_amocas insn) anything.
Proof.
  intros Hop. unfold exec_amocas. destruct (insn_op insn); try done; safe_go.
Qed.

(** ** Zcmp and Zcmt *)

Lemma zcmp_reg_at_some n : (n <= 12)%nat -> is_Some (zcmp_reg_at n).
Proof.
  intros. unfold zcmp_reg_at. destruct n as [|[|[|n]]]; [done..|].
  destruct (Nat.leb_spec (S (S (S n))) 12); [done | lia].
Qed.

Lemma exec_zcmp_reg_count_le rlist count :
  exec_zcmp_reg_count rlist = Some count -> (1 <= count <= 13)%nat.
Proof.
  unfold exec_zcmp_reg_count. intros Hc. repeat case_match; simplify_eq; lia.
Qed.

Lemma safe_zcmp_push count sp adj size slots :
  (count <= 13)%nat -> safe cfg (zcmp_push_loop count sp adj size slots) anything.
Proof.
  intros. induction slots as [|n slots IH]; cbn [zcmp_push_loop]; [by apply safe_ret|].
  destruct (zcmp_reg_at_some (count - 1 - n)) as [r ->]; [lia|]. safe_go.
Qed.

Lemma safe_zcmp_pop count sp adj size ra slots :
  (count <= 13)%nat -> safe cfg (zcmp_pop_loop count sp adj size ra slots) anything.
Proof.
  intros. revert ra. induction slots as [|n slots IH]; intros ra; cbn [zcmp_pop_loop];
    [by apply safe_ret|].
  destruct (zcmp_reg_at_some (count - 1 - n)) as [r ->]; [lia|]. safe_go.
Qed.

Lemma safe_zcmp_stack insn :
  fits 32 (insn_raw insn) ->
  match insn_op insn with CmPush | CmPop | CmPopRetz | CmPopRet => True | _ => False end ->
  safe cfg (exec_zcmp_stack insn) anything.
Proof.
  intros Hraw Hop. unfold exec_zcmp_stack.
  destruct (exec_zcmp_reg_count _) as [count|] eqn:Hc; [|safe_go].
  apply exec_zcmp_reg_count_le in Hc.
  destruct (insn_op insn); try done; safe_go; try (apply safe_zcmp_push; lia).
  all: apply safe_zcmp_pop; lia.
Qed.

Lemma safe_zcmt insn pc :
  fits 32 (insn_raw insn) -> safe cfg (exec_zcmt insn pc) anything.
Proof.
  intros. unfold exec_zcmt. safe_go.
  case_match; safe_go.
Qed.

(** ** CSRs, traps and the vector configuration *)

Lemma xb_nonneg : 0 <= xb.
Proof. pose proof (xbits_32 cfg). lia. Qed.

Lemma fits_masked_update old mask v :
  fits xb old -> fits xb v -> fits xb (masked_update old mask v).
Proof. intros. unfold masked_update. auto using fits_lor, fits_land_l. Qed.

Lemma fits_xb_small n v : n <= 32 -> fits n v -> fits xb v.
Proof. pose proof (xbits_32 cfg). intros. apply (fits_weaken n); [lia|done]. Qed.

Lemma ok_csr_update csr v s : fits xb v -> hart_ok cfg s -> hart_ok cfg (csr_update csr v s).
Proof.
  intros Hv Hs. destruct (ok_csr_fields cfg s Hs) as (?&?&?&?&?&?&?&?&?&?&?).
  pose proof (ok_fcsr _ _ Hs). pose proof (fits_weaken _ 64 _ (xbits_64 cfg) Hv).
  destruct csr; cbn [csr_update]; auto using ok_set_mstatus, ok_set_medeleg, ok_set_mideleg,
    ok_set_mie, ok_set_mcounteren, ok_set_mscratch, ok_set_mcause, ok_set_mip, ok_set_vstart,
    ok_set_mtval, fits_masked_update.
  - apply ok_set_fcsr; [|done]. apply fits_lor; [by apply fits_land_l|].
    apply (fits_weaken 5); [done|]. by apply fits_mask.
  - apply ok_set_fcsr; [|done]. apply fits_lor; [by apply fits_land_l|].
    assert (fits 3 (Z.land (as_u32 v) 7)) as [??] by (by apply fits_mask).
    unfold wshl. rewrite as_u_small; unfold fits; rewrite Z.shiftl_mul_pow2 by done;
      change (2 ^ (5 mod 32)) with 32; lia.
  - apply ok_set_fcsr; [|done]. by apply fits_mask.
  - apply ok_set_jvt; eauto with safe.
  - apply ok_set_mtvec; [|done]. apply fits_lor; eauto with safe.
    apply (fits_xb_small 1); [done|]. by apply fits_of_bool.
  - apply ok_set_mepc; eauto with safe.
  - apply ok_set_vxsat; [|done]. by apply fits_mask.
  - apply ok_set_vxrm; [|done]. by apply fits_mask.
  - apply ok_set_vxrm; [by apply fits_mask|]. apply ok_set_vxsat; [|done]. by apply fits_mask.
Qed.

Lemma safe_csr_read addr : safe cfg (csr_read addr) (fits xb).
Proof.
  unfold csr_read. apply (safe_get cfg). intros s Hs.
  assert (trap_ok (trap_illegal 0)) by (by apply trap_ok_illegal).
  destruct (Csr.from_addr addr); safe_go.
Qed.

Lemma safe_csr_write addr v : fits xb v -> safe cfg (csr_write addr v) anything.
Proof.
  intros Hv. unfold csr_write. apply (safe_get cfg). intros s Hs.
  assert (trap_ok (trap_illegal 0)) by (by apply trap_ok_illegal).
  destruct (Csr.from_addr addr); safe_go; apply safe_modify; intros.
  - by apply ok_csr_update.
  - by apply ok_set_ext_csr.
Qed.

Lemma safe_csr insn :
  fits 5 (insn_rs1 insn) -> fits 32 (insn_raw insn) ->
  match insn_op insn with
  | Csrrw | Csrrs | Csrrc | Csrrwi | Csrrsi | Csrrci => True | _ => False
  end -> safe cfg (exec_csr insn) anything.
Proof.
  intros Hr Hraw Hop. unfold exec_csr. apply (safe_get cfg). intros s Hs. cbv zeta.
  match goal with |- context [if ?b then insn_rs1 insn else ?x] =>
    assert (Hsrc : fits xb (if b then insn_rs1 insn else x));
      [destruct b; [by apply (fits_xb_small 5) | eauto with safe]|];
    generalize dependent (if b then insn_rs1 insn else x); intros src Hsrc end.
  apply safe_if; intros _; [by apply safe_throw, trap_ok_illegal|].
  apply (safe_bind cfg _ _ (fits xb)).
  { apply safe_if; intros _; [apply safe_ret, fits_0, xb_nonneg | apply safe_csr_read]. }
  intros old Hold. apply safe_seq; [|apply safe_modify; intros; by apply ok_set_x].
  apply safe_if; intros _; [|by apply safe_ret].
  apply (safe_bind cfg _ _ (fits xb)); [|intros; by apply safe_csr_write].
  destruct (insn_op insn); try done; apply safe_ret; auto using fits_lor, fits_land_l.
Qed.

Lemma fits_xb_shifted v k n :
  0 <= k -> 0 <= n -> k + n <= 32 -> fits k v -> fits xb (wshl 64 v n).
Proof.
  intros Hk Hn Hs [Hv0 Hv]. apply (fits_xb_small 32); [done|]. unfold wshl.
  rewrite (Z.mod_small n 64), Z.shiftl_mul_pow2 by lia.
  assert (0 <= v * 2 ^ n < 2 ^ 32).
  { split; [lia|]. apply Z.lt_le_trans with (2 ^ k * 2 ^ n); [apply Z.mul_lt_mono_pos_r; lia|].
    rewrite <- Z.pow_add_r by lia. apply Z.pow_le_mono_r; lia. }
  rewrite as_u_small; unfold fits in *; lia.
Qed.

Lemma ok_deliver_trap t epc s :
  fits xb (trap_cause t) -> fits 64 (trap_tval t) -> fits xb epc ->
  hart_ok cfg s -> hart_ok cfg (deliver_trap t epc s).
Proof.
  intros Hc Ht He Hs. unfold deliver_trap. cbv zeta.
  set (s1 := set_c_mtval _ _).
  assert (Hs1 : hart_ok cfg s1) by (unfold s1; auto using ok_set_mtval, ok_set_mcause, ok_set_mepc).
  destruct (ok_csr_fields cfg s1 Hs1) as (Hms & _).
  match goal with |- context [set_c_mstatus ?v s1] => set (ms := v) end.
  assert (Hm : fits xb ms).
  { unfold ms. repeat apply fits_lor || apply fits_land_l; try done.
    - apply (fits_xb_shifted _ 1); try lia. by apply fits_mask.
    - apply (fits_xb_shifted _ 2); try lia. by apply fits_mask. }
  clearbody ms s1. set (s2 := set_c_priv _ _).
  assert (Hs2 : hart_ok cfg s2) by (unfold s2; auto using ok_set_priv, ok_set_mstatus).
  clearbody s2. apply ok_set_pc; [|done]. case_match; eauto with safe.
Qed.

Lemma fits_trap_cause t : trap_ok t -> fits xb (trap_cause t).
Proof. intros [? ?]. apply (fits_xb_small 4); [done|]. unfold fits. lia. Qed.

Lemma ok_exec_mret s : hart_ok cfg s -> hart_ok cfg (exec_mret s).
Proof.
  intros Hs. unfold exec_mret. cbv zeta. set (s1 := set_c_pc _ _).
  assert (Hs1 : hart_ok cfg s1).
  { unfold s1. apply ok_set_pc; [|done]. unfold mepc_read_value. eauto with safe. }
  destruct (ok_csr_fields cfg s1 Hs1) as (Hms & _). clearbody s1.
  apply ok_set_mstatus; [|by apply ok_set_priv].
  repeat apply fits_lor || apply fits_land_l; try done.
  - apply (fits_xb_shifted _ 1); try lia. by apply fits_mask.
  - by apply (fits_xb_small 8).
Qed.

Lemma div_range a b : 0 <= a -> 0 <= b -> 0 <= a / b <= a.
Proof.
  intros. destruct (Z.eq_dec b 0) as [->|]; [rewrite Z.div_0_r; lia|].
  split; [by apply Z_div_nonneg_nonneg|]. apply Z.div_le_upper_bound; nia.
Qed.

(** The VLMAX of [set_vtype] is the one of the invariant. *)
Lemma vlmax_of_VLMAX vtype :
  fits 8 vtype -> Z.land vtype 7 <> 4 ->
  vlmax_of (Z.land vtype 7) (wshl 64 8 (vsew vtype)) = VLMAX vtype.
Proof.
  intros Hv H4. apply Z.eqb_neq in H4.
  pose (P v := (Z.land v 7 =? 4) || (vlmax_of (Z.land v 7) (wshl 64 8 (vsew v)) =? VLMAX v)).
  assert (HP : P vtype = true) by (by apply (all_below 8 P); [vm_compute|]).
  unfold P in HP. rewrite H4 in HP. by apply Z.eqb_eq.
Qed.

Lemma ok_set_vtype_cfg vtype avl s :
  fits 64 vtype -> match avl with AvlReg v => fits 64 v | _ => True end ->
  hart_ok cfg s -> hart_ok cfg (snd (set_vtype vtype avl s)).
Proof.
  intros Hv Ha Hs. unfold set_vtype. cbv zeta.
  change (Z.land (wshr 64 vtype 3) 7) with (vsew vtype).
  change (wshr 64 vtype 8) with (Z.shiftr vtype 8).
  assert (Hs0 : hart_ok cfg (set_c_vstart 0 s)) by (by apply ok_set_vstart).
  generalize dependent (set_c_vstart 0 s). intros s0 Hs0.
  assert (Hill : hart_ok cfg (set_c_vl 0 (set_c_vtype (wshl 64 1 (xbits s0 - 1)) s0))).
  { apply ok_set_vconfig; [left; split; [|done] | done]. rewrite (ok_xbits cfg) by done.
    by destruct (cfg_xlen cfg). }
  match goal with |- context [if ?v then 0 else _] => destruct v eqn:Eill; [done|] end.
  apply orb_false_iff in Eill as [Eill Esew]. apply orb_false_iff in Eill as [E8 Emul].
  apply negb_false_iff, Z.eqb_eq in E8. apply Z.eqb_neq in Emul. apply Z.ltb_ge in Esew.
  assert (Hv8 : fits 8 vtype).
  { rewrite Z.shiftr_div_pow2 in E8 by lia. apply Z.div_small_iff in E8; [|lia].
    unfold fits in *. lia. }
  rewrite (vlmax_of_VLMAX vtype) by done. pose proof (VLMAX_range _ Hv8).
  destruct (_ =? 0); [done|]. cbn [snd]. apply ok_set_vconfig; [right | done].
  pose proof (vconfig_vl _ _ _ (ok_vconfig _ _ Hs0)). unfold fits in *. destruct avl; lia.
Qed.

(** ** Execute *)

(** What the decoder guarantees about an instruction. *)
Record insn_ok insn : Prop := {
  ok_raw : fits 32 (insn_raw insn);
  ok_rs1 : fits 5 (insn_rs1 insn);
  ok_ks1i : insn_op insn = Aes64ks1i -> Z.land (Z.shiftr (insn_raw insn) 20) 0xf <= 0xA
}.

Hint Resolve safe_branch safe_load_pair safe_store_pair : safe.

Lemma safe_control s insn pc m :
  hart_ok cfg s -> exec_control s insn pc = Some m -> safe cfg m anything.
Proof.
  intros Hs Hm. unfold exec_control in Hm.
  destruct (insn_op insn); try discriminate Hm; injection Hm as <-; auto with safe.
  - apply safe_jump. auto with fits.
  - apply safe_jump. apply fits_land_l. auto with fits.
Qed.

Lemma safe_mem s insn m :
  hart_ok cfg s -> exec_mem s insn = Some m -> safe cfg m anything.
Proof.
  intros Hs Hm. unfold exec_mem in Hm.
  destruct (insn_op insn); try discriminate Hm; injection Hm as <-; auto with safe.
  apply safe_cbo_zero. eauto with safe.
Qed.

Lemma aes64ks1i_some a n : 0 <= n <= 0xA -> is_Some (aes64ks1i a n).
Proof.
  intros. unfold aes64ks1i. destruct (Z.eqb_spec n 0xA); [done|].
  destruct (nth_error AES_RCON (Z.to_nat n)) eqn:E; [done|].
  apply nth_error_None in E. assert (length AES_RCON = 10%nat) by done. lia.
Qed.

Lemma safe_vset rd vtype avl :
  fits 64 vtype -> match avl with AvlReg v => fits 64 v | _ => True end ->
  safe cfg (vset rd vtype avl) anything.
Proof.
  intros Hv Ha s Hs. pose proof (ok_set_vtype_cfg vtype avl s Hv Ha Hs) as Hok.
  unfold vset, write_x, modify, get, mbind, exec_bind, ebind.
  destruct (set_vtype vtype avl s) as [vl s']. split; [|done]. by apply ok_set_x.
Qed.

Lemma fits_vset_avl rd rs1 a :
  fits 64 a -> match vset_avl rd rs1 a with AvlReg v => fits 64 v | _ => True end.
Proof. intros. unfold vset_avl. by repeat case_match; simplify_eq. Qed.

Lemma safe_misc s insn pc m :
  insn_ok insn -> hart_ok cfg s -> exec_misc s insn pc = Some m -> safe cfg m anything.
Proof.
  intros [Hraw Hrs1 Hks] Hs Hm. unfold exec_misc in Hm.
  destruct (insn_op insn) eqn:Hop; try discriminate Hm; apply (inj Some) in Hm; subst m.
  all: match goal with
       | |- safe _ (exec_lrsc _) _ => apply safe_lrsc; by rewrite Hop
       | |- safe _ (exec_amo _) _ => apply safe_amo; by rewrite Hop
       | |- safe _ (exec_amocas _) _ => apply safe_amocas; by rewrite Hop
       | |- safe _ (exec_zcmp_stack _) _ => apply safe_zcmp_stack; by rewrite ?Hop
       | |- safe _ (exec_zcmt _ _) _ => by apply safe_zcmt
       | |- safe _ (exec_csr _) _ => apply safe_csr; by rewrite ?Hop
       | |- safe _ (modify exec_mret) _ => apply safe_modify; intros; by apply ok_exec_mret
       | |- safe _ (vset _ _ _) _ =>
           apply safe_vset; [|try apply fits_vset_avl]; eauto with safe fits
       | |- safe _ (mbind _ (expect _)) _ =>
           destruct (aes64ks1i_some (get_x s (insn_rs1 insn))
             (Z.land (wshr 32 (insn_raw insn) 20) 0xf)) as [v ->];
             [split; [by apply (fits_mask 4) | by apply Hks] | safe_go]
       | |- _ => safe_go
       end.
  by apply (fits_weaken 5).
Qed.

Lemma safe_thead insn m : exec_thead insn = Some m -> safe cfg m anything.
Proof.
  unfold exec_thead. intros Hm.
  repeat match type of Hm with
  | (if bool_decide ?P then _ else _) = _ => destruct (bool_decide_reflect P)
  end; try discriminate Hm; apply (inj Some) in Hm; subst m.
  - by apply safe_thead_auto_mem.
  - by apply safe_thead_reg_mem.
  - by apply safe_thead_pair_mem.
  - by apply safe_thead_fmem.
Qed.

(** ** Floating point *)

Lemma ok_accrue flags s : hart_ok cfg s -> hart_ok cfg (accrue flags s).
Proof.
  intros Hs. apply ok_set_fcsr; [|done]. apply fits_lor; [apply Hs|].
  apply (fits_weaken 5); [lia|]. by apply (fits_mask 5).
Qed.

Lemma ok_wf16 rd v s : fits 16 v -> hart_ok cfg s -> hart_ok cfg (wf16 rd v s).
Proof. intros. apply ok_set_f; [|done]. apply fits_lor; [by split | by apply (fits_weaken 16)]. Qed.
Lemma ok_wf32 rd v s : fits 32 v -> hart_ok cfg s -> hart_ok cfg (wf32 rd v s).
Proof. intros. apply ok_set_f; [|done]. apply fits_lor; [by split | by apply (fits_weaken 32)]. Qed.

Lemma ok_fp_write rd w copies s :
  fp_write_wf copies w -> hart_ok cfg s -> hart_ok cfg (fp_write rd w s).
Proof.
  intros Hw Hs. destruct w; cbn [fp_write fp_write_wf] in *; apply ok_accrue.
  - by apply ok_set_x.
  - apply ok_wf16; [by apply as_u_fits | done].
  - apply ok_wf32; [by apply as_u_fits | done].
  - apply ok_set_f; tauto.
Qed.

Lemma safe_fp_mem s insn m :
  hart_ok cfg s -> fp_mem s insn = Some m -> safe cfg m (anything : unit -> Prop).
Proof.
  intros Hs Hm. unfold fp_mem in Hm. cbv zeta in Hm.
  set (addr := Z.land _ _) in Hm. assert (Ha : forall st, trap_ok (acc_fault st addr))
    by (intros; apply trap_ok_acc_fault, fits_64_land_xmask, Hs). clearbody addr.
  destruct (insn_op insn); try discriminate Hm; apply (inj Some) in Hm; subst m.
  - apply (safe_bind cfg _ _ (fits 32)); [by apply safe_read_u32|]. intros v Hv.
    apply safe_modify. intros. by apply ok_wf32.
  - by apply safe_write_u32.
  - apply (safe_bind cfg _ _ (fits 64)); [by apply safe_read_u64|]. intros v Hv.
    apply safe_modify. intros. by apply ok_set_f.
  - by apply safe_write_u64.
  - apply (safe_bind cfg _ _ (fits 16)); [by apply (safe_read_le 2)|]. intros v Hv.
    apply safe_modify. intros. by apply ok_wf16.
  - apply safe_write_bytes; auto with safe.
Qed.

(** The exits [execute] returns. *)
Definition plain_exit (e : RiscVExit.t) : Prop :=
  match e with RiscVExit.Trap _ => False | _ => True end.

Lemma safe_exit insn pc m :
  fits xb pc -> exec_exit insn pc = Some m -> safe cfg m plain_exit.
Proof.
  intros Hpc Hm. unfold exec_exit in Hm.
  destruct (insn_op insn); try discriminate Hm; apply (inj Some) in Hm; subst m; safe_go; done.
Qed.

Lemma safe_fp insn pc : insn_ok insn -> safe cfg (exec_fp insn pc) plain_exit.
Proof.
  intros Hi. assert (Ht : trap_ok (trap_illegal (insn_raw insn))) by apply trap_ok_illegal, Hi.
  unfold exec_fp. apply safe_if; intros _; [by apply safe_throw|].
  apply (safe_get cfg). intros s Hs.
  destruct (if fp_no_rm _ then _ else _) as [rm|]; [|by apply safe_throw].
  destruct (fp_mem s insn) as [m|] eqn:Em.
  - apply safe_seq; [by eapply safe_fp_mem|]. apply safe_seq; [|by apply safe_ret].
    apply safe_modify. intros. by apply ok_accrue.
  - destruct (fp_value s insn rm) as [w|] eqn:Ew; [|by apply safe_throw].
    apply safe_seq; [|by apply safe_ret]. apply safe_modify. intros s' Hs'.
    by eapply ok_fp_write; [apply (fp_value_wf cfg s insn rm)|].
Qed.

Lemma safe_execute insn pc :
  insn_ok insn -> safe cfg (exec_vector insn) anything ->
  fits xb pc -> safe cfg (execute insn pc) plain_exit.
Proof.
  intros Hi Hv Hpc. unfold execute. apply (safe_get cfg). intros s Hs. cbv zeta.
  apply safe_seq; [eauto with safe|].
  apply safe_if; intros _; [by apply safe_fp|]. apply (safe_get cfg). clear s Hs. intros s Hs.
  destruct (alu s insn pc) as [v|]; [apply safe_seq; [auto with safe | by apply safe_ret]|].
  destruct (is_hint (insn_op insn)); [by apply safe_ret|].
  destruct (or_else _ _) as [m|] eqn:Hm.
  - apply safe_seq; [|by apply safe_ret].
    destruct (exec_control s insn pc) eqn:E1; [|destruct (exec_mem s insn) eqn:E2;
      [|destruct (exec_misc s insn pc) eqn:E3; [|]]]; cbn [or_else] in Hm; simplify_eq.
    + by eapply safe_control.
    + by eapply safe_mem.
    + by eapply safe_misc.
    + by eapply safe_thead.
  - destruct (exec_exit insn pc) eqn:E; [by eapply safe_exit|].
    apply safe_if; intros _; [|apply safe_throw, trap_ok_illegal, Hi].
    apply safe_seq; [exact Hv | by apply safe_ret].
Qed.
End Safe.
