(* ===== verification/RvVecSafe.v ===== *)
(** * The vector engine keeps the hart well formed

    No vector instruction panics: element widths are at most 64 bits, mask
    indices stay below [vl], and each arm of the dispatch is reached only with
    the operations it handles. *)

From S2P Require Import Prelude RvIsa RvOp RvMemory RvAlu RvState RvFloat RvFloatOps RvFp RvHart.
From S2P Require Import RvVec RvVecCheck RvVecValid RvVecMem RvVecExec RvHartSafe.

Section VecSafe.
Context {M : Type} `{MemoryLaws M} (cfg : RiscVConfig).
Implicit Types (s : RiscVCpu M) (insn : Insn).
Abbreviation Hart := (RiscVCpu M).
Abbreviation anything := (fun _ => True).
Abbreviation safe := (safe cfg).

(** ** Elements *)

(** The element widths, in bytes. *)
Definition width_ok (eb : Z) : Prop := eb = 1 \/ eb = 2 \/ eb = 4 \/ eb = 8.

Lemma width_range eb : width_ok eb -> 1 <= eb <= 8.
Proof. unfold width_ok. lia. Qed.

Lemma sew_bytes_ok s : hart_ok cfg s -> width_ok (sew_bytes s).
Proof.
  intros Hs. pose proof (vconfig_vsew _ _ _ (xbits_32 cfg) (ok_vconfig _ _ Hs)) as Hv.
  unfold sew_bytes. change (Z.land (wshr 64 (c_vtype s) 3) 7) with (vsew (c_vtype s)).
  assert (Hc : vsew (c_vtype s) = 0 \/ vsew (c_vtype s) = 1 \/ vsew (c_vtype s) = 2
               \/ vsew (c_vtype s) = 3) by lia.
  unfold width_ok. destruct Hc as [-> | [-> | [-> | ->]]]; vm_compute; auto.
Qed.

Lemma safe_velem vreg e eb : 0 <= eb <= 8 -> safe (velem vreg e eb) (fits 64).
Proof.
  intros He. unfold velem. apply (safe_get cfg). intros s Hs. cbv zeta.
  apply safe_if; intros _; [|by apply safe_ret, fits_0]. rewrite (proj2 (Z.leb_le eb 8) (proj2 He)).
  apply safe_ret.
  eapply fits_weaken; [|apply from_le_bytes_fits].
  - rewrite length_take. lia.
  - apply Forall_take, Forall_drop, Hs.
Qed.

Lemma ok_splice off eb val s :
  (off + eb <= length (c_v s))%nat -> hart_ok cfg s ->
  hart_ok cfg (set_c_v (take off (c_v s) ++ to_le_bytes eb val ++ drop (off + eb) (c_v s)) s).
Proof.
  intros Hl Hs. pose proof (ok_v_len _ _ Hs). pose proof (ok_v _ _ Hs). apply ok_set_v; [| |done].
  - rewrite !length_app, length_take, to_le_bytes_length, length_drop. lia.
  - rewrite !Forall_app. split_and!; auto using Forall_take, Forall_drop, to_le_bytes_fits.
Qed.

Lemma safe_set_velem vreg e eb val : 0 <= eb <= 8 -> safe (set_velem vreg e eb val) anything.
Proof.
  intros He s Hs. unfold set_velem, mbind, exec_bind, ebind, get. cbv zeta.
  generalize (vreg * VLENB + e * eb). intros off.
  destruct (Z.leb_spec (off + eb) (Z.of_nat (length (c_v s)))); [|by split].
  rewrite (proj2 (Z.leb_le eb 8) (proj2 He)). split; [|done]. apply ok_splice; [|done].
  assert (length (c_v s) = 512%nat) by apply Hs. lia.
Qed.

Lemma safe_vmask_bit e : e < 4096 -> safe (vmask_bit e) anything.
Proof.
  intros He. unfold vmask_bit. apply (safe_get cfg). intros s Hs.
  eapply (safe_bind cfg _ _ anything); [|intros; by apply safe_ret].
  apply safe_expect. destruct (c_v s !! Z.to_nat (e / 8)) eqn:E; [by eexists|].
  apply lookup_ge_None in E. assert (length (c_v s) = 512%nat) by apply Hs.
  assert (e / 8 < 512) by (apply Z.div_lt_upper_bound; lia). lia.
Qed.

Lemma ok_set_vmask_bit vreg e val s : hart_ok cfg s -> hart_ok cfg (set_vmask_bit vreg e val s).
Proof.
  intros Hs. unfold set_vmask_bit. destruct (c_v s !! _) as [b|] eqn:E; [|done].
  pose proof (Forall_lookup_1 _ _ _ _ (ok_v _ _ Hs) E) as Hb.
  apply ok_set_v; [by rewrite length_insert; apply Hs| |done].
  apply Forall_insert; [apply Hs|]. destruct val; auto using fits_land_l with fits.
Qed.

(** ** Loops *)

Lemma range_elem e start stop : e ∈ range start stop -> start <= e < stop.
Proof. unfold range. rewrite elem_of_seqZ. lia. Qed.

Lemma safe_fold_elems {A} (I : A -> Prop) l body (acc : A) :
  (forall e acc, e ∈ l -> I acc -> safe (body e acc) I) -> I acc ->
  safe (fold_elems l body acc) I.
Proof.
  intros Hb. revert acc. induction l as [|e l IH]; intros acc Ha; cbn [fold_elems].
  { by apply safe_ret. }
  apply (safe_bind cfg _ _ I); [apply Hb; [set_solver|done]|].
  intros a Ha'. apply IH; [|done]. intros. apply Hb; [set_solver | done].
Qed.

Lemma safe_active (vm : bool) e :
  e < 4096 -> safe (if vm then eret true else vmask_bit e) anything.
Proof. intros. apply safe_if; intros _; [by apply safe_ret | by apply safe_vmask_bit]. Qed.

Lemma safe_fold_active {A} (I : A -> Prop) vm start stop acc body :
  stop <= 4096 -> (forall e acc, start <= e < stop -> I acc -> safe (body e acc) I) -> I acc ->
  safe (fold_active vm start stop acc body) I.
Proof.
  intros Hs Hb Ha. apply safe_fold_elems; [|done]. intros e a He Hi. apply range_elem in He.
  unfold if_active. apply (safe_bind cfg _ _ anything); [apply safe_active; lia|].
  intros [] _; [by apply Hb | by apply safe_ret].
Qed.

Lemma safe_for_active vm start stop body :
  stop <= 4096 -> (forall e, start <= e < stop -> safe (body e) anything) ->
  safe (for_active vm start stop body) anything.
Proof. intros. apply safe_fold_active; auto. Qed.

Lemma safe_for_body start stop body :
  (forall e, start <= e < stop -> safe (body e) anything) ->
  safe (for_body start stop body) anything.
Proof. intros Hb. apply safe_fold_elems; [|done]. intros e _ He _. by apply Hb, range_elem. Qed.

Lemma safe_write_active {A} vm start stop vd eb (acc : A) elem :
  stop <= 4096 -> 0 <= eb <= 8 ->
  (forall e acc, start <= e < stop -> safe (elem e acc) anything) ->
  safe (write_active vm start stop vd eb acc elem) anything.
Proof.
  intros Hs He Hb. apply safe_fold_active; [done| |done]. intros e a Hr _.
  apply (safe_bind cfg _ _ anything); [by apply Hb|]. intros.
  apply safe_seq; [by apply safe_set_velem | by apply safe_ret].
Qed.

Lemma safe_write_each vm start stop vd eb elem :
  stop <= 4096 -> 0 <= eb <= 8 -> (forall e, start <= e < stop -> safe (elem e) anything) ->
  safe (write_each vm start stop vd eb elem) anything.
Proof.
  intros Hs He Hb. apply safe_for_active; [done|]. intros e Hr.
  apply (safe_bind cfg _ _ anything); [by apply Hb|]. intros. by apply safe_set_velem.
Qed.

Lemma safe_src1 insn vv scalar e eb : 0 <= eb <= 8 -> safe (src1 insn vv scalar e eb) anything.
Proof.
  intros. apply safe_if; intros _; [|by apply safe_ret].
  by eapply safe_weaken; [|apply safe_velem].
Qed.

Lemma safe_velem_any vreg e eb : 0 <= eb <= 8 -> safe (velem vreg e eb) anything.
Proof. intros. by eapply safe_weaken; [|apply safe_velem]. Qed.

Lemma safe_accrue flags : safe (accrue_flags flags) anything.
Proof. apply safe_modify. intros. by apply ok_accrue. Qed.

Lemma safe_set_sat sat : safe (set_sat sat) anything.
Proof.
  apply safe_if; intros _; [|by apply safe_ret]. apply safe_modify. intros. by apply ok_set_vxsat.
Qed.

Lemma safe_set_mask vreg e val : safe (modify (set_vmask_bit vreg e val)) anything.
Proof. apply safe_modify. intros. by apply ok_set_vmask_bit. Qed.

Lemma safe_some {A} (o : option A) : is_Some o -> safe (expect o) anything.
Proof. intros [a ->]. by apply safe_ret. Qed.

(** ** Memory *)

Section Arms.
Variables (insn : Insn) (vm : bool) (vstart vl : Z).
Hypothesis Hi : insn_ok insn.
Hypothesis Hvl : 0 <= vl <= VLEN.
Hypothesis Hstart : fits 64 vstart.

Lemma safe_v_illegal {A} (Q : A -> Prop) : safe (v_illegal insn) Q.
Proof. apply safe_throw, trap_ok_illegal, Hi. Qed.

Lemma safe_encoded_width : safe (encoded_width insn) width_ok.
Proof.
  unfold encoded_width, width_ok. repeat case_match; try apply safe_v_illegal; apply safe_ret; lia.
Qed.

Lemma safe_vector_read e addr eb :
  fits 64 e -> fits 64 addr -> safe (vector_read e addr eb) anything.
Proof.
  intros He Ha s Hs. unfold vector_read. destruct (mem_read _ _ _); [|done].
  split; [by apply ok_set_vstart | by apply trap_ok_acc_fault].
Qed.

Lemma safe_vector_write e addr data :
  fits 64 e -> fits 64 addr -> Forall (fits 8) data -> safe (vector_write e addr data) anything.
Proof.
  intros He Ha Hd s Hs. unfold vector_write. destruct (mem_write _ _ _) as [r m] eqn:E.
  assert (hart_ok cfg (set_c_mem m s)).
  { apply ok_set_mem; [|done]. by eapply mem_write_wf; [apply Hs|exact Hd|exact E]. }
  destruct r; [|done]. split; [by apply ok_set_vstart | by apply trap_ok_acc_fault].
Qed.

Lemma safe_transfer load reg e eb addr :
  0 <= eb <= 8 -> fits 64 e -> fits 64 addr -> safe (transfer load reg e eb addr) anything.
Proof.
  intros Hb He Ha. unfold transfer. rewrite (proj2 (Z.ltb_ge 8 eb) (proj2 Hb)).
  destruct load; eapply (safe_bind cfg _ _ anything).
  - by apply safe_vector_read.
  - intros. by apply safe_set_velem.
  - by apply safe_velem_any.
  - intros. apply safe_vector_write; auto using to_le_bytes_fits.
Qed.

Lemma offset_addr_fits s base off : hart_ok cfg s -> fits 64 (offset_addr s base off).
Proof. apply fits_64_land_xmask. Qed.

(** One step of the walk through an arm; the width of the elements is known after
    the state has been read. *)
Ltac vstep :=
  match goal with
  | |- RvHart.safe _ (mbind _ get) _ =>
      let s := fresh "s" in let Hs := fresh "Hs" in
      apply (safe_get cfg); intros s Hs; pose proof (width_range _ (sew_bytes_ok s Hs))
  | |- RvHart.safe _ (v_illegal _) _ => apply safe_v_illegal
  | |- RvHart.safe _ (eret _) _ => apply safe_ret
  | |- RvHart.safe _ (velem _ _ _) _ => apply safe_velem_any
  | |- RvHart.safe _ (set_velem _ _ _ _) _ => apply safe_set_velem
  | |- RvHart.safe _ (vmask_bit _) _ => apply safe_vmask_bit
  | |- RvHart.safe _ (src1 _ _ _ _ _) _ => apply safe_src1
  | |- RvHart.safe _ (accrue_flags _) _ => apply safe_accrue
  | |- RvHart.safe _ (set_sat _) _ => apply safe_set_sat
  | |- RvHart.safe _ (modify (set_vmask_bit _ _ _)) _ => apply safe_set_mask
  | |- RvHart.safe _ (expect _) _ => apply safe_some
  | |- RvHart.safe _ (transfer _ _ _ _ _) _ => apply safe_transfer
  | |- RvHart.safe _ (write_active _ _ _ _ _ _ _) _ => apply safe_write_active; [| |intros]
  | |- RvHart.safe _ (write_each _ _ _ _ _ _) _ => apply safe_write_each; [| |intros]
  | |- RvHart.safe _ (for_active _ _ _ _) _ => apply safe_for_active; [|intros]
  | |- RvHart.safe _ (for_body _ _ _) _ => apply safe_for_body; intros
  | |- RvHart.safe _ (fold_active _ _ _ _ _) _ => apply safe_fold_active; [| |done]; [|intros]
  | |- RvHart.safe _ (fold_elems _ _ _) _ => apply safe_fold_elems; [intros|done]
  | |- RvHart.safe _ (if _ then _ else _) _ => apply safe_if; intros
  | |- RvHart.safe _ (mbind _ (encoded_width _)) _ =>
      apply (safe_bind cfg _ _ width_ok); [exact safe_encoded_width | intros ? ?%width_range]
  | |- RvHart.safe _ (mbind _ _) _ => apply (safe_bind cfg _ _ anything); [|intros]
  | |- RvHart.safe _ (match ?x with _ => _ end) _ => destruct x
  | |- fits 64 (offset_addr _ _ _) => by apply offset_addr_fits
  | |- fits 64 _ => unfold fits, VLEN in *; lia
  | |- _ <= _ => first [done | unfold VLEN, fits in *; lia]
  | |- _ < _ => first [done | unfold VLEN, fits in *; lia]
  | |- _ <= (if ?c then _ else _) <= _ => destruct c
  | |- _ /\ _ => first [done | unfold VLEN, fits in *; lia]
  end.
Ltac vgo := repeat (cbv beta zeta; vstep); try done.

Lemma safe_v_merge : safe (v_merge insn vm vstart vl) anything.
Proof. unfold v_merge. vgo. Qed.
Lemma safe_v_alu :
  (forall eb a b amount, is_Some (valu_elem (insn_op insn) eb a b amount)) ->
  safe (v_alu insn vm vstart vl) anything.
Proof. intros. unfold v_alu. vgo. Qed.
Lemma safe_v_mul :
  (forall eb a b, is_Some (vmul_elem (insn_op insn) eb a b)) ->
  safe (v_mul insn vm vstart vl) anything.
Proof. intros. unfold v_mul. vgo. Qed.
Lemma safe_v_red :
  (forall eb acc x, is_Some (vred_elem (insn_op insn) eb acc x)) ->
  safe (v_red insn vm vstart vl) anything.
Proof. intros. unfold v_red. vgo. Qed.
Lemma safe_v_cmp :
  (forall eb a b, is_Some (vcmp_elem (insn_op insn) eb a b)) ->
  safe (v_cmp insn vm vstart vl) anything.
Proof. intros. unfold v_cmp. vgo. Qed.
Lemma safe_v_fcvt : safe (v_fcvt insn vm vstart vl) anything.
Proof. unfold v_fcvt. vgo. Qed.
Lemma safe_v_wred : safe (v_wred insn vm vstart vl) anything.
Proof. unfold v_wred. vgo. Qed.
Lemma safe_v_fwcvt : safe (v_fwcvt insn vm vstart vl) anything.
Proof. unfold v_fwcvt. vgo. Qed.
Lemma safe_v_est7 : safe (v_est7 insn vm vstart vl) anything.
Proof. unfold v_est7. vgo. Qed.
Lemma safe_v_class : safe (v_class insn vm vstart vl) anything.
Proof. unfold v_class. vgo. Qed.
Lemma ext_factor_range op : 2 <= fst (ext_factor op) <= 8.
Proof. by destruct op; vm_compute. Qed.
Lemma safe_v_ext : safe (v_ext insn vm vstart vl) anything.
Proof.
  unfold v_ext. apply (safe_get cfg). intros s Hs. pose proof (width_range _ (sew_bytes_ok s Hs)).
  pose proof (ext_factor_range (insn_op insn)) as Hf. destruct (ext_factor _) as [factor signed].
  cbn [fst] in Hf. cbv zeta. pose proof (div_range (sew_bytes s) factor). vgo.
Qed.
Lemma safe_v_slideup : safe (v_slideup insn vm vstart vl) anything.
Proof. unfold v_slideup. vgo. Qed.
Lemma safe_v_slidedown : safe (v_slidedown insn vm vstart vl) anything.
Proof. unfold v_slidedown. vgo. Qed.
Lemma safe_v_slide1up : safe (v_slide1up insn vm vstart vl) anything.
Proof. unfold v_slide1up. vgo. Qed.
Lemma safe_v_slide1down : safe (v_slide1down insn vm vstart vl) anything.
Proof. unfold v_slide1down. vgo. Qed.
Lemma safe_v_wadd : safe (v_wadd insn vm vstart vl) anything.
Proof. unfold v_wadd. vgo. Qed.
Lemma safe_v_wmul : safe (v_wmul insn vm vstart vl) anything.
Proof. unfold v_wmul. vgo. Qed.
Lemma safe_v_narrow : safe (v_narrow insn vm vstart vl) anything.
Proof. unfold v_narrow. vgo. Qed.
Lemma safe_v_sshift : safe (v_sshift insn vm vstart vl) anything.
Proof. unfold v_sshift. vgo. Qed.
Lemma safe_v_smul : safe (v_smul insn vm vstart vl) anything.
Proof. unfold v_smul. vgo. Qed.
Lemma safe_v_avg : safe (v_avg insn vm vstart vl) anything.
Proof. unfold v_avg. vgo. Qed.
Lemma safe_v_sat : safe (v_sat insn vm vstart vl) anything.
Proof. unfold v_sat. vgo. Qed.
Lemma safe_v_madc : safe (v_madc insn vm vstart vl) anything.
Proof. unfold v_madc. vgo. Qed.
Lemma safe_v_gather : safe (v_gather insn vm vstart vl) anything.
Proof. unfold v_gather. vgo. Qed.
Lemma safe_v_msbf : safe (v_msbf insn vm vstart vl) anything.
Proof. unfold v_msbf. vgo. Qed.
Lemma safe_v_iota : safe (v_iota insn vm vstart vl) anything.
Proof. unfold v_iota. vgo. Qed.
Lemma safe_v_id : safe (v_id insn vm vstart vl) anything.
Proof. unfold v_id. vgo. Qed.
Lemma safe_v_compress : safe (v_compress insn vm vstart vl) anything.
Proof. unfold v_compress. vgo. Qed.
Lemma safe_v_adc : safe (v_adc insn vstart vl) anything.
Proof. unfold v_adc. vgo. Qed.
Lemma safe_v_mvr : safe (v_mvr insn vm) anything.
Proof. unfold v_mvr. vgo. Qed.
Lemma safe_v_mv_s_x : safe (v_mv_s_x insn vstart vl) anything.
Proof. unfold v_mv_s_x. vgo. Qed.
Lemma safe_v_fmv_s_f : safe (v_fmv_s_f insn vstart vl) anything.
Proof. unfold v_fmv_s_f. vgo. Qed.

Lemma safe_modify_x rd v : safe (modify (set_x rd v)) anything.
Proof. apply safe_modify. intros. by apply ok_set_x. Qed.

Lemma safe_v_cpop : safe (v_cpop insn vm vstart vl) anything.
Proof. unfold v_cpop. vgo. apply safe_modify_x. Qed.

Lemma safe_first_set l : Forall (fun e => e < 4096) l -> safe (first_set insn vm l) anything.
Proof.
  induction 1 as [|e l He _ IH]; cbn [first_set]; [by apply safe_ret|].
  apply (safe_bind cfg _ _ anything); [by apply safe_active|]. intros.
  apply (safe_get cfg). intros s Hs. apply safe_if; intros _; [by apply safe_ret | exact IH].
Qed.

Lemma safe_v_first : safe (v_first insn vm vstart vl) anything.
Proof.
  unfold v_first. apply safe_if; intros _; [apply safe_v_illegal|].
  apply (safe_bind cfg _ _ anything); [|intros; apply safe_modify_x].
  apply safe_first_set, Forall_forall. intros e ?%range_elem. unfold VLEN in *. lia.
Qed.

Lemma safe_v_mv_x_s : safe (v_mv_x_s insn) anything.
Proof. unfold v_mv_x_s. vgo. apply safe_modify_x. Qed.

Lemma safe_v_fmv_f_s : safe (v_fmv_f_s insn) anything.
Proof.
  unfold v_fmv_f_s. apply (safe_get cfg). intros s Hs. cbv zeta.
  pose proof (width_range _ (sew_bytes_ok s Hs)).
  apply (safe_bind cfg _ _ (fits 64)); [apply safe_velem; lia|]. intros v Hv.
  apply safe_modify. intros s' Hs'.
  repeat case_match; (apply ok_set_f; [|done]); try done; apply fits_lor; try done;
    by eapply fits_weaken; [|apply as_u_fits].
Qed.

Lemma safe_v_mask_logic :
  (forall a b, is_Some (vmlogic_elem (insn_op insn) a b)) ->
  safe (v_mask_logic insn vm vstart vl) anything.
Proof. intros. unfold v_mask_logic. vgo. Qed.

Lemma safe_v_maqa :
  match insn_op insn with ThVmaqa | ThVmaqau | ThVmaqasu | ThVmaqaus => True | _ => False end ->
  safe (v_maqa insn vm vstart vl) anything.
Proof.
  intros Hop. unfold v_maqa. vgo. by destruct (insn_op insn).
Qed.

(** *** Floating point *)

Lemma safe_v_fbin :
  (is_fsqrt (insn_op insn) = false ->
   forall eb a b rm flags, is_Some (vfp_bin (insn_op insn) eb a b rm flags)) ->
  safe (v_fbin insn vm vstart vl) anything.
Proof. intros Hop. unfold v_fbin. vgo. by apply Hop. Qed.

Lemma safe_v_fma :
  (forall eb a b c rm flags, is_Some (vfp_fma (insn_op insn) eb a b c rm flags)) ->
  safe (v_fma insn vm vstart vl) anything.
Proof. intros. unfold v_fma. vgo. Qed.

Lemma safe_v_fcmp :
  (forall eb a b flags, is_Some (vfp_cmp (insn_op insn) eb a b flags)) ->
  safe (v_fcmp insn vm vstart vl) anything.
Proof. intros. unfold v_fcmp. vgo. Qed.

(** The reductions and the widening operations use fixed operations. *)
Lemma fred_op_some op eb a b rm flags : is_Some (vfp_bin (fred_op op) eb a b rm flags).
Proof.
  assert (fred_op op = Vfadd \/ fred_op op = Vfmin \/ fred_op op = Vfmax) as [-> | [-> | ->]]
    by (destruct op; auto); eexists; reflexivity.
Qed.
Lemma fwarith_op_some op eb a b rm flags : is_Some (vfp_bin (fwarith_op op) eb a b rm flags).
Proof.
  assert (fwarith_op op = Vfadd \/ fwarith_op op = Vfsub \/ fwarith_op op = Vfmul)
    as [-> | [-> | ->]] by (destruct op; auto); eexists; reflexivity.
Qed.
Lemma fwmac_op_some op eb a b c rm flags : is_Some (vfp_fma (fwmac_op op) eb a b c rm flags).
Proof.
  assert (fwmac_op op = Vfmacc \/ fwmac_op op = Vfnmacc \/ fwmac_op op = Vfmsac
          \/ fwmac_op op = Vfnmsac) as [-> | [-> | [-> | ->]]]
    by (destruct op; auto); eexists; reflexivity.
Qed.

Lemma safe_v_fred : safe (v_fred insn vm vstart vl) anything.
Proof. unfold v_fred. vgo. apply fred_op_some. Qed.
Lemma safe_v_fwred : safe (v_fwred insn vm vstart vl) anything.
Proof. unfold v_fwred. vgo. Qed.
Lemma safe_v_fwmac : safe (v_fwmac insn vm vstart vl) anything.
Proof. unfold v_fwmac. vgo. apply fwmac_op_some. Qed.
Lemma safe_v_fwarith : safe (v_fwarith insn vm vstart vl) anything.
Proof. unfold v_fwarith. vgo; apply fwarith_op_some. Qed.

Lemma safe_validate : safe (validate insn vm) anything.
Proof.
  intros s Hs. destruct (checks_validate insn vm s) as [[a ->] | ->]; [done|].
  split; [done | apply trap_ok_illegal, Hi].
Qed.

(** *** Loads and stores *)

Lemma safe_vector_unit load vd : safe (vector_unit load insn vm vd vstart vl) anything.
Proof. unfold vector_unit. vgo. Qed.
Lemma safe_vector_strided load vd : safe (vector_strided load insn vm vd vstart vl) anything.
Proof. unfold vector_strided. vgo. Qed.
Lemma safe_vector_indexed load vd : safe (vector_indexed load insn vm vd vstart vl) anything.
Proof. unfold vector_indexed. vgo. Qed.
Lemma safe_vector_segment load vd : safe (vector_segment load insn vm vd vstart vl) anything.
Proof. unfold vector_segment. vgo. Qed.
Lemma safe_vector_mask load vd : safe (vector_mask load insn vm vd vstart vl) anything.
Proof. pose proof (Z.mul_div_le (vl + 7) 8). unfold vector_mask. vgo. Qed.
Lemma safe_vector_whole load vd : safe (vector_whole load insn vm vd vstart) anything.
Proof.
  unfold vector_whole. apply (safe_bind cfg _ _ width_ok); [exact safe_encoded_width|].
  intros eb Heb%width_range. cbv zeta. set (nreg := Z.land _ _ + 1).
  apply safe_if; intros Hn; [apply safe_v_illegal|].
  assert (0 <= nreg * VLENB <= 128).
  { do 2 apply orb_false_iff in Hn as [Hn _]. apply orb_false_iff in Hn as [_ Hn].
    apply negb_false_iff in Hn. rewrite !orb_true_iff, !Z.eqb_eq in Hn.
    destruct Hn as [[[-> | ->] | ->] | ->]; by vm_compute. }
  pose proof (div_range (nreg * VLENB) eb). vgo.
Qed.

(** *** The fault-only-first load *)

Lemma encoded_width_state s : (encoded_width insn s).2 = s.
Proof. unfold encoded_width. by repeat case_match. Qed.

Lemma set_velem_vl vreg e eb val s : c_vl (set_velem vreg e eb val s).2 = c_vl s.
Proof.
  unfold set_velem, mbind, exec_bind, ebind, get. cbv zeta. by repeat case_match.
Qed.

Lemma vmask_bit_state e s : (vmask_bit e s).2 = s.
Proof.
  unfold vmask_bit, mbind, exec_bind, ebind, get. by destruct (c_v s !! _).
Qed.

(** Its loop keeps [vl] and returns an element index within it. *)
Lemma vleff_loop_vl vd eb base l s : c_vl (vleff_loop vm vd eb base vl l s).2 = c_vl s.
Proof.
  revert s. induction l as [|e l IH]; intros s; cbn [vleff_loop]; [done|].
  unfold mbind, exec_bind, ebind.
  assert (Hb : ((if vm then eret true else vmask_bit e) s).2 = s)
    by (destruct vm; [done | apply vmask_bit_state]).
  destruct ((if vm then eret true else vmask_bit e) s) as [[[]|t|] s1]; cbn [snd] in Hb; subst s1; try done.
  unfold get. destruct (mem_read _ _ _); [by destruct (_ =? _)|].
  pose proof (set_velem_vl vd e eb (from_le_bytes l0) s) as Hv.
  destruct (set_velem _ _ _ _ s) as [[u|t|] s1]; [|done..]. by rewrite IH.
Qed.

Lemma safe_vleff_loop vd eb base l :
  0 <= eb <= 8 -> Forall (fun e => 0 <= e < vl) l ->
  safe (vleff_loop vm vd eb base vl l) (fun v => 0 <= v <= vl).
Proof.
  intros Heb. induction l as [|e l IH]; cbn [vleff_loop]; [intros; apply safe_ret; lia|].
  rewrite Forall_cons. intros [He Hl].
  apply (safe_bind cfg _ _ anything); [apply safe_active; unfold VLEN in *; lia|].
  intros [] _; [|by apply IH]. apply (safe_get cfg). intros s Hs. cbv zeta.
  destruct (mem_read _ _ _).
  - apply safe_if; intros _; [|apply safe_ret; lia].
    apply safe_seq; [apply safe_modify; intros; by apply ok_set_vstart|].
    apply safe_throw, trap_ok_acc_fault, offset_addr_fits, Hs.
  - apply safe_seq; [by apply safe_set_velem | by apply IH].
Qed.

(** [safe] from one state, which the new [vl] refers to. *)
Definition safe_from {A} s (m : exec Hart Trap A) : Prop :=
  match m s with
  | (Ok _, s') => hart_ok cfg s'
  | (Err t, s') => hart_ok cfg s' /\ trap_ok t
  | (Panic, _) => False
  end.

Lemma safe_safe_from {A} s (m : exec Hart Trap A) Q : hart_ok cfg s -> safe m Q -> safe_from s m.
Proof.
  intros Hs Hm. specialize (Hm s Hs). unfold safe_from.
  by destruct (m s) as [[a|t|] s']; destruct Hm.
Qed.

Lemma safe_from_bind {A B} s (m : exec Hart Trap A) (k : A -> exec Hart Trap B) Q :
  hart_ok cfg s -> safe m Q ->
  (forall a s', m s = (Ok a, s') -> hart_ok cfg s' -> Q a -> safe_from s' (k a)) ->
  safe_from s (a ← m; k a).
Proof.
  intros Hs Hm Hk. specialize (Hm s Hs). unfold safe_from, mbind, exec_bind, ebind in *.
  destruct (m s) as [[a|t|] s']; [|done..]. destruct Hm. by apply (Hk a s').
Qed.

Lemma safe_first_fault vd s :
  hart_ok cfg s -> c_vl s = vl -> safe_from s (vector_first_fault insn vm vd vstart vl).
Proof.
  intros Hs Hvs. unfold vector_first_fault.
  apply (safe_from_bind _ _ _ width_ok); [done | exact safe_encoded_width|].
  intros eb s1 Hw Hs1 Heb%width_range.
  pose proof (encoded_width_state s) as Hst. rewrite Hw in Hst. cbn [snd] in Hst. subst s1.
  change (safe_from s (new_vl ← vleff_loop vm vd eb (base_addr s insn) vl (range vstart vl);
                       modify (set_c_vl new_vl))).
  apply (safe_from_bind _ _ _ (fun v => 0 <= v <= vl)); [done | |].
  - apply safe_vleff_loop; [lia|]. apply Forall_forall. intros e ?%range_elem.
    unfold fits in Hstart. lia.
  - intros v s2 Hl Hs2 Hv. apply ok_set_vl; [|done].
    pose proof (vleff_loop_vl vd eb (base_addr s insn) (range vstart vl) s) as Hk.
    rewrite Hl in Hk. cbn [snd] in Hk. lia.
Qed.

Lemma safe_exec_memory vd s :
  hart_ok cfg s -> c_vl s = vl -> safe_from s (exec_vector_memory insn vm vd vstart vl).
Proof.
  intros Hs Hvs. pose proof (fun A (m : exec Hart Trap A) => safe_safe_from s m anything Hs) as Hw.
  unfold exec_vector_memory. destruct (insn_op insn);
    match goal with
    | |- safe_from _ (v_illegal _) => apply Hw, safe_v_illegal
    | |- safe_from _ (vector_unit _ _ _ _ _ _) => apply Hw, safe_vector_unit
    | |- safe_from _ (vector_strided _ _ _ _ _ _) => apply Hw, safe_vector_strided
    | |- safe_from _ (vector_indexed _ _ _ _ _ _) => apply Hw, safe_vector_indexed
    | |- safe_from _ (vector_segment _ _ _ _ _ _) => apply Hw, safe_vector_segment
    | |- safe_from _ (vector_mask _ _ _ _ _ _) => apply Hw, safe_vector_mask
    | |- safe_from _ (vector_whole _ _ _ _ _) => apply Hw, safe_vector_whole
    | |- safe_from _ (vector_first_fault _ _ _ _ _) => by apply safe_first_fault
    end.
Qed.

Lemma vfncvt_elem_safe eb wide frm flags :
  safe (match vfncvt_elem (insn_op insn) eb wide frm flags with
        | Some r => eret r | None => v_illegal insn end) anything.
Proof. destruct (vfncvt_elem _ _ _ _ _); [by apply safe_ret | apply safe_v_illegal]. Qed.

Lemma safe_narrow_conversion s :
  hart_ok cfg s -> safe_from s (exec_vector_narrow_conversion insn vm).
Proof.
  intros Hs. eapply safe_safe_from; [done|]. unfold exec_vector_narrow_conversion.
  apply (safe_get cfg). clear s Hs. intros s Hs. pose proof (width_range _ (sew_bytes_ok s Hs)).
  pose proof (vconfig_vl _ _ _ (ok_vconfig _ _ Hs)). cbv zeta.
  apply safe_if; intros Hw; [apply safe_v_illegal|]. apply orb_false_iff in Hw as [Hw _].
  vgo; apply vfncvt_elem_safe.
Qed.

(** ** The dispatch *)

Lemma safe_exec_vector_op s :
  hart_ok cfg s -> c_vl s = vl -> safe_from s (exec_vector_op insn vm vstart vl).
Proof.
  intros Hs Hvs. pose proof (fun A (m : exec Hart Trap A) => safe_safe_from s m anything Hs) as Hw.
  unfold exec_vector_op. destruct (insn_op insn) eqn:Hop;
    match goal with
    | |- safe_from _ (v_illegal _) => apply Hw, safe_v_illegal
    | |- safe_from _ (exec_vector_memory _ _ _ _ _) => by apply safe_exec_memory
    | |- safe_from _ (exec_vector_narrow_conversion _ _) => by apply safe_narrow_conversion
    | |- safe_from _ (v_merge _ _ _ _) => apply Hw, safe_v_merge
    | |- safe_from _ (v_fcvt _ _ _ _) => apply Hw, safe_v_fcvt
    | |- safe_from _ (v_wred _ _ _ _) => apply Hw, safe_v_wred
    | |- safe_from _ (v_fwcvt _ _ _ _) => apply Hw, safe_v_fwcvt
    | |- safe_from _ (v_est7 _ _ _ _) => apply Hw, safe_v_est7
    | |- safe_from _ (v_class _ _ _ _) => apply Hw, safe_v_class
    | |- safe_from _ (v_ext _ _ _ _) => apply Hw, safe_v_ext
    | |- safe_from _ (v_slideup _ _ _ _) => apply Hw, safe_v_slideup
    | |- safe_from _ (v_slidedown _ _ _ _) => apply Hw, safe_v_slidedown
    | |- safe_from _ (v_slide1up _ _ _ _) => apply Hw, safe_v_slide1up
    | |- safe_from _ (v_slide1down _ _ _ _) => apply Hw, safe_v_slide1down
    | |- safe_from _ (v_wadd _ _ _ _) => apply Hw, safe_v_wadd
    | |- safe_from _ (v_wmul _ _ _ _) => apply Hw, safe_v_wmul
    | |- safe_from _ (v_narrow _ _ _ _) => apply Hw, safe_v_narrow
    | |- safe_from _ (v_sshift _ _ _ _) => apply Hw, safe_v_sshift
    | |- safe_from _ (v_smul _ _ _ _) => apply Hw, safe_v_smul
    | |- safe_from _ (v_avg _ _ _ _) => apply Hw, safe_v_avg
    | |- safe_from _ (v_sat _ _ _ _) => apply Hw, safe_v_sat
    | |- safe_from _ (v_madc _ _ _ _) => apply Hw, safe_v_madc
    | |- safe_from _ (v_gather _ _ _ _) => apply Hw, safe_v_gather
    | |- safe_from _ (v_msbf _ _ _ _) => apply Hw, safe_v_msbf
    | |- safe_from _ (v_iota _ _ _ _) => apply Hw, safe_v_iota
    | |- safe_from _ (v_id _ _ _ _) => apply Hw, safe_v_id
    | |- safe_from _ (v_compress _ _ _ _) => apply Hw, safe_v_compress
    | |- safe_from _ (v_cpop _ _ _ _) => apply Hw, safe_v_cpop
    | |- safe_from _ (v_first _ _ _ _) => apply Hw, safe_v_first
    | |- safe_from _ (v_fred _ _ _ _) => apply Hw, safe_v_fred
    | |- safe_from _ (v_fwred _ _ _ _) => apply Hw, safe_v_fwred
    | |- safe_from _ (v_fwmac _ _ _ _) => apply Hw, safe_v_fwmac
    | |- safe_from _ (v_fwarith _ _ _ _) => apply Hw, safe_v_fwarith
    | |- safe_from _ (v_alu _ _ _ _) => apply Hw, safe_v_alu; rewrite Hop; intros; by eexists
    | |- safe_from _ (v_mul _ _ _ _) => apply Hw, safe_v_mul; rewrite Hop; intros; by eexists
    | |- safe_from _ (v_red _ _ _ _) => apply Hw, safe_v_red; rewrite Hop; intros; by eexists
    | |- safe_from _ (v_cmp _ _ _ _) => apply Hw, safe_v_cmp; rewrite Hop; intros; by eexists
    | |- safe_from _ (v_mask_logic _ _ _ _) => apply Hw, safe_v_mask_logic; rewrite Hop; intros; by eexists
    | |- safe_from _ (v_fma _ _ _ _) => apply Hw, safe_v_fma; rewrite Hop; intros; by eexists
    | |- safe_from _ (v_fcmp _ _ _ _) => apply Hw, safe_v_fcmp; rewrite Hop; intros; by eexists
    | |- safe_from _ (v_fbin _ _ _ _) => apply Hw, safe_v_fbin; rewrite Hop; intros Hq; by first [discriminate | eexists]
    | |- safe_from _ (v_maqa _ _ _ _) => apply Hw, safe_v_maqa; by rewrite Hop
    | |- safe_from _ (v_adc _ _ _) => apply Hw, safe_v_adc
    | |- safe_from _ (v_mv_s_x _ _ _) => apply Hw, safe_v_mv_s_x
    | |- safe_from _ (v_fmv_s_f _ _ _) => apply Hw, safe_v_fmv_s_f
    | |- safe_from _ (v_mvr _ _) => apply Hw, safe_v_mvr
    | |- safe_from _ (v_mv_x_s _) => apply Hw, safe_v_mv_x_s
    | |- safe_from _ (v_fmv_f_s _) => apply Hw, safe_v_fmv_f_s
    end.
Qed.
End Arms.

Lemma safe_exec_vector insn : insn_ok insn -> safe (exec_vector insn) anything.
Proof.
  intros Hi s Hs. pose proof (ok_vstart _ _ Hs) as Hst.
  pose proof (vconfig_vl _ _ _ (ok_vconfig _ _ Hs)) as Hvl.
  unfold exec_vector, get, mbind, exec_bind, ebind. cbv zeta.
  destruct (negb _ && _); [by apply safe_v_illegal|].
  set (vm := negb _).
  destruct (checks_validate insn vm s) as [[u ->] | ->];
    [|split; [done | apply trap_ok_illegal, Hi]].
  pose proof (safe_exec_vector_op insn vm _ _ Hi Hvl Hst s Hs eq_refl) as Hx. unfold safe_from in Hx.
  destruct (exec_vector_op _ _ _ _ s) as [[v|t|] s']; [|done..].
  split; [by apply ok_set_vstart | done].
Qed.
End VecSafe.
