(* ===== verification/RvStepSafe.v ===== *)
(** * Stepping keeps the hart well formed

    What the decoder guarantees about the instructions that reach [execute],
    and the invariants of [step] and [run]. *)

From S2P Require Import Prelude RvIsa RvOp RvDecodeBase RvDecodeFp RvDecodeVendor RvCompressed.
From S2P Require Import RvMemory RvDecode RvDecodeWf RvGating RvAlu RvCrypto RvState RvHart.
From S2P Require Import RvCsr RvAluOps RvExec RvStep RvHartSafe RvVecSafe.

(** ** AES64KS1I

    The round number of AES64KS1I is in range whenever the decoder yields it:
    it comes from a single arm, guarded by the check. *)

Definition ks1i_ok (w : Z) (i : Insn) : Prop :=
  insn_op i = Aes64ks1i -> Z.land (rs2 w) 0xf <= 0xA.

Lemma ks1i_base_or_illegal w o :
  (forall op, o = Some op -> op <> Aes64ks1i) -> ks1i_ok w (base_or_illegal o w).
Proof.
  intros Ho. apply (base_or_illegal_ind (ks1i_ok w)); [done|]. intros op Hop He.
  by destruct (Ho op).
Qed.

Lemma ks1i_try_base w c o k :
  (forall op, c = true -> o = Some op -> op = Aes64ks1i -> Z.land (rs2 w) 0xf <= 0xA) ->
  ks1i_ok w k -> ks1i_ok w (try_base w c o k).
Proof. intros Ho Hk. apply (try_base_ind (ks1i_ok w)); [|done]. intros op ? ? ?. by eapply Ho. Qed.

Lemma ks1i_try_imm w c o imm k :
  (forall op, o = Some op -> op <> Aes64ks1i) -> ks1i_ok w k -> ks1i_ok w (try_imm w c o imm k).
Proof.
  intros Ho Hk. apply (try_imm_ind (ks1i_ok w)); [|done]. intros op ? Hop He. by destruct (Ho op).
Qed.

Lemma ks1i_match_imm w o imm k :
  (forall op, o = Some op -> op <> Aes64ks1i) -> ks1i_ok w k ->
  ks1i_ok w (match o with Some op => with_imm op w imm | None => k end).
Proof. intros Ho Hk. destruct o as [op|]; [|done]. intros He. by destruct (Ho op). Qed.

Lemma arms_not_ks1i k l op :
  arms k l = Some op -> Forall (fun '(_, _, op) => op <> Aes64ks1i) l -> op <> Aes64ks1i.
Proof.
  intros Hop Hl. apply (arms_ind (fun op => op <> Aes64ks1i) _ _ _ Hop).
  eapply Forall_impl; [exact Hl|]. by intros [[? ?] ?].
Qed.

Ltac no_ks1i :=
  match goal with
  | H : arms _ _ = Some ?op |- ?op <> Aes64ks1i =>
      apply (arms_not_ks1i _ _ _ H); each_arm; discriminate
  | H : arms _ _ = Some ?op |- ?op = Aes64ks1i -> _ =>
      intros ->; apply (arms_not_ks1i _ _ _) in H; [done | each_arm; discriminate]
  | H : Some _ = Some ?op |- _ => injection H as <-; discriminate
  | |- ks1i_ok _ _ => discriminate
  end.

Ltac ks1i_go w :=
  cbv beta zeta;
  repeat first
    [ apply ks1i_base_or_illegal; intros
    | apply ks1i_try_base; [intros op Hc Ho|]
    | apply ks1i_try_imm; [intros op Ho|]
    | apply ks1i_match_imm; [intros op Ho|]
    | apply (if_ind (ks1i_ok w)); intros ];
  try no_ks1i.

Section Ks1i.
Context (w : Z) (rv64 : bool) (isa : Isa).

Lemma ks1i_op : ks1i_ok w (decode_op w rv64 isa).
Proof. unfold decode_op, decode_op_m, decode_op_aes, decode_op_base. ks1i_go w. Qed.

Lemma ks1i_op32 : ks1i_ok w (decode_op32 w isa).
Proof. unfold decode_op32. ks1i_go w. Qed.

Lemma ks1i_op_imm : ks1i_ok w (decode_op_imm w rv64 isa).
Proof.
  unfold decode_op_imm, decode_shift_left_imm, decode_shift_right_imm. ks1i_go w.
  intros _. repeat apply andb_prop in Hc as [Hc ?]. by apply Z.leb_le.
Qed.

End Ks1i.

(** The other groups do not look at Zkne and Zknd: they decode alike without
    them, where AES64KS1I is not enabled. *)
Definition without_aes (isa : Isa) : Isa :=
  {| isa_m := isa_m isa; isa_a := isa_a isa; isa_f := isa_f isa; isa_d := isa_d isa; isa_q :=
     isa_q isa; isa_c := isa_c isa; isa_zicsr := isa_zicsr isa; isa_zifencei := isa_zifencei isa;
     isa_zihintpause := isa_zihintpause isa; isa_zihintntl := isa_zihintntl isa; isa_zacas :=
     isa_zacas isa; isa_zawrs := isa_zawrs isa; isa_zicbom := isa_zicbom isa; isa_zicboz :=
     isa_zicboz isa; isa_zicbop := isa_zicbop isa; isa_zba := isa_zba isa; isa_zbb := isa_zbb
     isa; isa_zbc := isa_zbc isa; isa_zbs := isa_zbs isa; isa_zicond := isa_zicond isa; isa_zfa
     := isa_zfa isa; isa_zbkb := isa_zbkb isa; isa_zfh := isa_zfh isa; isa_zbkx := isa_zbkx isa;
     isa_zknh := isa_zknh isa; isa_zksh := isa_zksh isa; isa_zksed := isa_zksed isa; isa_zkne :=
     false; isa_zknd := false; isa_zcb := isa_zcb isa; isa_zcmp := isa_zcmp isa; isa_zcmt :=
     isa_zcmt isa; isa_zclsd := isa_zclsd isa; isa_zilsd := isa_zilsd isa; isa_h := isa_h isa;
     isa_svinval := isa_svinval isa; isa_v := isa_v isa; isa_xsoteria := isa_xsoteria isa;
     isa_xandes := isa_xandes isa; isa_xthead := isa_xthead isa; isa_xhazard3 := isa_xhazard3
     isa; isa_xida_sltw := isa_xida_sltw isa |}.

Lemma ks1i_gated w isa rv64 i :
  op_enabled (without_aes isa) rv64 (insn_op i) = true -> ks1i_ok w i.
Proof. intros He Hi. rewrite Hi in He. discriminate He. Qed.

Lemma ks1i_amo w isa rv64 :
  isa_a isa || isa_zacas isa = true -> ks1i_ok w (decode_amo w rv64 isa).
Proof.
  intros Ha. destruct (gate_amo (without_aes isa) rv64 w Ha) as [He|(Hop & _)].
  - by apply (ks1i_gated _ isa rv64).
  - intros Hi. change (decode_amo w rv64 (without_aes isa)) with (decode_amo w rv64 isa) in Hop.
    rewrite Hi in Hop. discriminate Hop.
Qed.

#[local] Opaque decode_op decode_op_imm.

Lemma decode_ks1i w xlen isa : ks1i_ok w (decode w xlen isa).
Proof.
  unfold decode. apply (arms_default_ind (ks1i_ok w)); [discriminate|].
  each_arm; try discriminate; auto using ks1i_op, ks1i_op_imm, ks1i_amo;
    apply (ks1i_gated _ isa (is_rv64 xlen)).
  all: match goal with
       | |- context [decode_branch] => exact (gate_branch (without_aes isa) _ w)
       | |- context [decode_load] => exact (gate_load (without_aes isa) _ w)
       | |- context [decode_store] => exact (gate_store (without_aes isa) _ w)
       | |- context [decode_op_imm32] => by refine (gate_op_imm32 (without_aes isa) _ w _)
       | |- context [decode_op32] => by refine (gate_op32 (without_aes isa) _ w _)
       | |- context [decode_fence] => exact (gate_fence (without_aes isa) _ w)
       | |- context [decode_system] => exact (gate_system (without_aes isa) _ w)
       | |- context [decode_load_fp] => by refine (gate_load_fp (without_aes isa) _ w _)
       | |- context [decode_store_fp] => by refine (gate_store_fp (without_aes isa) _ w _)
       | |- context [decode_op_fp] => by refine (gate_op_fp (without_aes isa) _ w _)
       | |- context [decode_fma] => refine (gate_fma (without_aes isa) _ _ _ _ _ w _ _ _ _)
       | |- context [decode_vector] => by refine (gate_vector (without_aes isa) _ w _)
       | |- context [decode_custom0] => exact (gate_custom0 (without_aes isa) _ w)
       | |- context [decode_custom1] => exact (gate_custom1 (without_aes isa) _ w)
       | |- context [decode_andes_custom2] => by refine (gate_andes2 (without_aes isa) _ w _)
       end.
  all: cbn [op_enabled without_aes isa_f isa_d isa_zfh isa_q]; gate_bool.
Qed.

Lemma decode_compressed_ks1i half xlen isa :
  insn_op (decode_compressed half xlen isa) <> Aes64ks1i.
Proof.
  intros He. pose proof (decode_compressed_gated half xlen (without_aes isa)) as Hg.
  change (decode_compressed half xlen (without_aes isa)) with (decode_compressed half xlen isa) in Hg.
  cbv zeta in Hg. unfold rvc_flw_slot in Hg. rewrite He in Hg. destruct Hg; discriminate || done.
Qed.

(** ** What [decode_at] yields *)

Lemma rs2_low w : Z.land (rs2 w) 0xf = Z.land (Z.shiftr w 20) 0xf.
Proof. unfold rs2. by rewrite <- Z.land_assoc. Qed.

Lemma read_u16_fits {M} `{MemoryLaws M} (m : M) a v :
  mem_wf m -> read_u16 m a = inr v -> fits 16 v.
Proof. apply (read_le_fits 2). Qed.

Lemma decode_at_insn_ok {M} `{MemoryLaws M} (mem : M) pc xlen isa i :
  mem_wf mem -> decode_at mem pc xlen isa = inr i -> insn_ok i.
Proof.
  intros Hm. unfold decode_at. destruct (read_u16 mem pc) as [|lo] eqn:Elo; [done|].
  apply read_u16_fits in Elo; [|done]. destruct (negb _).
  - intros [= <-]. pose proof (decode_compressed_wf lo xlen isa) as [? Hraw ? ? ? ? ? ? ?].
    split; [rewrite Hraw; by apply (fits_weaken 16) | done |].
    intros He. by destruct (decode_compressed_ks1i lo xlen isa).
  - destruct (read_u16 mem (wadd 64 pc 2)) as [|hi] eqn:Ehi; [done|].
    apply read_u16_fits in Ehi; [|done]. intros [= <-]. set (w := Z.lor lo (Z.shiftl hi 16)).
    pose proof (decode_wf w xlen isa) as [? Hraw ? ? ? ? ? ? ?].
    assert (fits 32 w).
    { unfold w. rewrite lor_halves by done. unfold fits in *. lia. }
    split; [by rewrite Hraw | done |].
    intros He. rewrite Hraw, <- rs2_low. by apply (decode_ks1i w xlen isa).
Qed.

(** ** Step and run *)

Lemma pending_interrupt_ok {M} `{MemoryLaws M} cfg (s : RiscVCpu M) t :
  hart_ok cfg s -> pending_machine_interrupt s = Some t ->
  fits (xlen_bits (cfg_xlen cfg)) (trap_cause t) /\ fits 64 (trap_tval t).
Proof.
  intros Hs. unfold pending_machine_interrupt, interrupt_cause_bit. rewrite (ok_xbits cfg) by done.
  destruct (negb _); [done|]. cbv zeta.
  repeat match goal with |- context [if ?b then _ else _] => destruct b end; intros [= <-];
    cbn [trap_cause trap_tval]; split; try done; by destruct (cfg_xlen cfg); vm_compute.
Qed.

(** What [step] and [run] promise about the state and the exit they leave. *)
Definition exit_ok {M} `{MemoryLaws M} (cfg : RiscVConfig)
    (r : option RiscVExit.t * RiscVCpu M) : Prop :=
  hart_ok cfg (snd r) /\
  match fst r with
  | None => False
  | Some (RiscVExit.Trap t) => trap_ok t
  | Some _ => True
  end.

Section Step.
Context {M : Type} `{MemoryLaws M} (cfg : RiscVConfig).
Implicit Types (s : RiscVCpu M).

Lemma step_exit_ok s :
  hart_ok cfg s -> exit_ok cfg (step s).
Proof.
  intros Hs. unfold step. destruct (pending_machine_interrupt s) as [t|] eqn:Et.
  { destruct (pending_interrupt_ok cfg s t Hs Et). split; [|done].
    apply ok_deliver_trap; try done. apply Hs. }
  assert (Hcfg : cpu_xlen s = cfg_xlen cfg /\ cpu_isa s = cfg_isa cfg)
    by (unfold cpu_xlen, cpu_isa; rewrite (ok_cfg _ _ Hs); done).
  destruct Hcfg as [-> ->]. pose proof (ok_pc _ _ Hs) as Hpc.
  destruct (decode_at _ _ _ _) as [e|insn] eqn:Ed.
  { assert (trap_ok (mk_trap cause.INSTR_ACCESS_FAULT (c_pc s))).
    { apply trap_ok_mk; [by vm_compute|]. by apply (fits_weaken _ 64 _ (xbits_64 cfg)). }
    split; [|done]. apply ok_deliver_trap; try done; [by apply fits_trap_cause | apply H1]. }
  pose proof (decode_at_insn_ok _ _ _ _ _ (ok_mem _ _ Hs) Ed) as Hi.
  set (s1 := set_c_cycle _ s).
  assert (Hs1 : hart_ok cfg s1) by (apply ok_set_cycle; [auto with fits | done]).
  pose proof (safe_execute cfg insn (c_pc s) Hi (safe_exec_vector cfg insn Hi) Hpc s1 Hs1) as Hx.
  destruct (execute insn (c_pc s) s1) as [[e|t|] s2]; [| |done]; destruct Hx as [Hs2 Hx].
  - split; [|by destruct e]. destruct e; try done; apply ok_set_instret; auto with fits.
  - split; [|done]. apply ok_deliver_trap; try done; [by apply fits_trap_cause | apply Hx].
Qed.

Lemma run_exit_ok n s :
  hart_ok cfg s -> exit_ok cfg (run n s).
Proof.
  revert s. induction n as [|n IH]; intros s Hs; cbn [run]; [by split|].
  pose proof (step_exit_ok s Hs) as Hx. destruct (step s) as [[[]|] s'];
    try done. apply IH, Hx.
Qed.

(** Construction and reset establish the invariant. *)
Lemma vconfig_reset n : vconfig_ok n 0 0.
Proof. right. by split_and!. Qed.

Lemma new_cpu_ok mem : mem_wf mem -> hart_ok cfg (new_cpu cfg mem).
Proof.
  intros Hm. assert (0 <= xlen_bits (cfg_xlen cfg)) by (by destruct (cfg_xlen cfg)).
  constructor; cbn [new_cpu c_cfg c_x c_f c_pc c_fcsr c_mtval c_vxrm c_vxsat c_v c_mem];
    try done; try (by apply fits_0); try (by apply Forall_replicate, fits_0).
  - unfold csr_fields. each_arm; by apply fits_0.
  - each_arm; by apply fits_0.
  - apply vconfig_reset.
Qed.

Lemma reset_ok entry s :
  fits (xlen_bits (cfg_xlen cfg)) entry -> hart_ok cfg s -> hart_ok cfg (reset entry s).
Proof.
  intros He Hs. assert (0 <= xlen_bits (cfg_xlen cfg)) by (by destruct (cfg_xlen cfg)).
  destruct Hs. constructor; cbn [reset c_cfg c_x c_f c_pc c_fcsr c_mtval c_vxrm c_vxsat c_v c_mem];
    try done; try (by apply fits_0); try (by apply Forall_replicate, fits_0).
  - unfold csr_fields. each_arm; by apply fits_0.
  - apply vconfig_reset.
Qed.
End Step.

(** ** Properties *)

(** C12.  Executing any instruction that the decoder yields, on a
    well-formed hart of any configuration, does not panic (no
    [unreachable!()], failed [expect] or index out of bounds), leaves a
    well-formed hart whether the instruction retires or traps ([x0] is zero,
    every register and CSR holds a value of its width, the memory holds
    bytes), and raises only traps with a valid synchronous cause. *)
Theorem execute_safe {M} `{MemoryLaws M} cfg (s : RiscVCpu M) pc insn :
  hart_ok cfg s ->
  decode_at (c_mem s) pc (cpu_xlen s) (cpu_isa s) = inr insn ->
  fits (xlen_bits (cfg_xlen cfg)) pc ->
  match execute insn pc s with
  | (Ok e, s') => hart_ok cfg s' /\ plain_exit e
  | (Err t, s') => hart_ok cfg s' /\ trap_ok t
  | (Panic, _) => False
  end.
Proof.
  intros Hs Hd Hpc. pose proof (decode_at_insn_ok _ _ _ _ _ (ok_mem _ _ Hs) Hd) as Hi.
  by apply safe_execute; [| apply safe_exec_vector | | ].
Qed.

(** A program for the witnesses: [addi x1, x0, 5] and [ecall]. *)
Definition demo_memory : FlatMemory :=
  FlatMemory.with_data 0 [0x93; 0x00; 0x50; 0x00; 0x73; 0x00; 0x00; 0x00].

Lemma demo_memory_wf : mem_wf demo_memory.
Proof. each_arm; by split. Qed.

Lemma execute_safe_witness :
  let s := new_cpu config_rv64gc demo_memory in
  exists insn, decode_at (c_mem s) 0 (cpu_xlen s) (cpu_isa s) = inr insn /\
  match execute insn 0 s with
  | (Ok e, s') => hart_ok config_rv64gc s' /\ plain_exit e
  | (Err t, s') => hart_ok config_rv64gc s' /\ trap_ok t
  | (Panic, _) => False
  end.
Proof.
  eexists. split; [vm_compute; reflexivity|].
  apply (execute_safe config_rv64gc (new_cpu config_rv64gc demo_memory));
    [apply new_cpu_ok, demo_memory_wf | vm_compute; reflexivity | by split].
Defined.

(** C2.  A hart runs safely whatever its
    configuration and its program are: from reset, after any number of instructions and interrupts,
    [run] has not panicked, the hart is well formed and a trap it stops on has
    a valid cause. *)
Theorem run_safe {M} `{MemoryLaws M} cfg (mem : M) entry n :
  mem_wf mem -> fits (xlen_bits (cfg_xlen cfg)) entry ->
  exit_ok cfg (run n (reset entry (new_cpu cfg mem))).
Proof. intros. by apply run_exit_ok, reset_ok, new_cpu_ok. Qed.

Lemma run_safe_witness :
  exit_ok (mk_config Rv64 imac)
    (run 2 (reset 0 (new_cpu (mk_config Rv64 imac) demo_memory))).
Proof.
  apply (run_safe (mk_config Rv64 imac)); [apply demo_memory_wf | by split].
Defined.
