(* ===== verification/RvExecSpec.v ===== *)
(** * What the integer, control-flow and memory instructions do

    The effect of [execute] on the whole hart for the integer computations,
    the branches and jumps, and the scalar loads and stores, on every branch
    of the code.  A register write is described by [with_reg]. *)

From S2P Require Import Prelude RvIsa RvOp RvMemory RvDecode RvAlu RvCrypto RvState RvHart RvCsr.
From S2P Require Import RvAluOps RvAluSpec RvExec RvStep RvHartSafe RvStepSafe.

(** ** The hart with one register and the program counter changed *)

Section Effects.
Context {M : Type}.
Implicit Types (s : RiscVCpu M).

(** [x[rd] <- v], where [x0] stays zero. *)
Definition with_reg (rd v : Z) s : RiscVCpu M :=
  if rd =? 0 then s else set_c_x (<[Z.to_nat rd := v]> (c_x s)) s.

(** The program counter of the next instruction in sequence. *)
Definition next_pc s (pc len : Z) : Z := (pc + len) mod 2 ^ xbits s.

Lemma set_x_with_reg rd v s :
  fits 5 rd -> set_x rd v s = with_reg rd (v mod 2 ^ xbits s) s.
Proof.
  intros Hrd. unfold set_x, with_reg, xmask, xbits. rewrite land_xlen_mask, reg_ix_small by done.
  change 31 with (Z.ones 5). rewrite Z.land_ones by lia.
  by rewrite (Z.mod_small rd) by exact Hrd.
Qed.

Lemma with_reg_pc rd v pc s : with_reg rd v (set_c_pc pc s) = set_c_pc pc (with_reg rd v s).
Proof. unfold with_reg. by destruct (rd =? 0). Qed.

Lemma next_pc_masked s pc len : Z.land (wadd 64 pc len) (xmask s) = next_pc s pc len.
Proof. unfold xmask, next_pc, xbits, wadd. by rewrite land_xlen_mask, as_u_64_mod. Qed.
End Effects.

(** ** Dispatch

    [execute] first moves the program counter, then runs the group of the
    operation. *)

Section Dispatch.
Context {M : Type} `{Memory M}.
Abbreviation Hart := (RiscVCpu M).
Implicit Types (s : Hart) (insn : Insn).

(** The hart in which the body of an instruction starts. *)
Definition started insn (pc : Z) s : Hart := set_c_pc (next_pc s pc (insn_len insn)) s.

(** A unit-valued body followed by [Continue]. *)
Definition continued (r : result Trap unit * Hart) : result Trap RiscVExit.t * Hart :=
  match r with
  | (Ok _, s) => (Ok RiscVExit.Continue, s)
  | (Err t, s) => (Err t, s)
  | (Panic, s) => (Panic, s)
  end.

Lemma execute_alu_arm insn pc s v :
  is_fp (insn_op insn) = false -> alu (started insn pc s) insn pc = Some v ->
  execute insn pc s = (Ok RiscVExit.Continue, set_x (insn_rd insn) v (started insn pc s)).
Proof.
  intros Hfp Ha. unfold execute, mbind, exec_bind, ebind, get, write_pc, modify.
  rewrite Hfp, next_pc_masked. fold (started insn pc s). by rewrite Ha.
Qed.

Lemma execute_body_arm insn pc s m :
  is_fp (insn_op insn) = false -> alu (started insn pc s) insn pc = None ->
  is_hint (insn_op insn) = false ->
  or_else (exec_control (started insn pc s) insn pc)
    (or_else (exec_mem (started insn pc s) insn)
       (or_else (exec_misc (started insn pc s) insn pc) (exec_thead insn))) = Some m ->
  execute insn pc s = continued (m (started insn pc s)).
Proof.
  intros Hfp Ha Hh Hm. unfold execute, mbind, exec_bind, ebind, get, write_pc, modify.
  rewrite Hfp, next_pc_masked. fold (started insn pc s). rewrite Ha, Hh, Hm.
  by destruct (m (started insn pc s)) as [[[]|t|] s'].
Qed.
End Dispatch.

(** The hart in which an instruction starts is well formed. *)
Lemma started_ok {M} `{MemoryLaws M} cfg insn pc (s : RiscVCpu M) :
  hart_ok cfg s -> hart_ok cfg (started insn pc s).
Proof.
  intros Hs. apply ok_set_pc; [|done]. unfold next_pc, xbits. rewrite (ok_xlen cfg s Hs).
  apply xlen_mod_fits.
Qed.

(** ** Specifications of the control-flow and memory operations *)

(** Whether a conditional branch on register values [a] and [b] is taken. *)
Definition branch_taken (xl : Xlen) (op : Op) (a b : Z) : option bool :=
  let s := as_i (xlen_bits xl) in
  match op with
  | Beq => Some (a =? b)
  | Bne => Some (negb (a =? b))
  | Blt => Some (s a <? s b)
  | Bge => Some (s b <=? s a)
  | Bltu => Some (a <? b)
  | Bgeu => Some (b <=? a)
  | _ => None
  end.

(** The target of an unconditional jump, before the alignment check. *)
Definition jump_target (op : Op) (pc a imm : Z) : option Z :=
  match op with
  | Jal => Some ((pc + imm) mod 2 ^ 64)
  | Jalr => Some (2 * ((a + imm) mod 2 ^ 64 / 2))
  | _ => None
  end.

(** The access size in bytes and the signedness of a scalar load. *)
Definition load_kind (op : Op) : option (nat * bool) :=
  match op with
  | Lb => Some (1%nat, true)
  | Lh => Some (2%nat, true)
  | Lw => Some (4%nat, true)
  | Ld => Some (8%nat, true)
  | Lbu => Some (1%nat, false)
  | Lhu => Some (2%nat, false)
  | Lwu => Some (4%nat, false)
  | _ => None
  end.

Definition store_kind (op : Op) : option nat :=
  match op with
  | Sb => Some 1%nat
  | Sh => Some 2%nat
  | Sw => Some 4%nat
  | Sd => Some 8%nat
  | _ => None
  end.

(** The value a load gives to its destination. *)
Definition loaded (n : Z) (k : nat * bool) (bs : list Z) : Z :=
  let v := from_le_bytes bs in
  (if k.2 then as_i (8 * Z.of_nat k.1) v else v) mod 2 ^ n.

(** ** Lemmas on the helpers *)

Lemma any_bits_3 t : any_bits t 0x3 = negb (t mod 4 =? 0).
Proof. unfold any_bits. change 0x3 with (Z.ones 2). by rewrite Z.land_ones by lia. Qed.

Lemma clear_bit0 t : fits 64 t -> Z.land t (wnot 64 1) = 2 * (t / 2).
Proof.
  intros Ht. rewrite <- (as_u_small 64 (Z.land t (wnot 64 1))) by by apply fits_land_l.
  etransitivity; [exact (andn_value Rv64 t 1 Ht)|].
  change 1 with (Z.ones 1). rewrite (Z.ldiff_ones_r t 1), Z.shiftr_div_pow2, Z.shiftl_mul_pow2 by lia.
  change (2 ^ 1) with 2. lia.
Qed.

Lemma from_le_bytes_app bs n : from_le_bytes (bs ++ replicate n 0) = from_le_bytes bs.
Proof.
  induction bs as [|b bs IH]; cbn [app from_le_bytes]; [|by rewrite IH].
  induction n as [|n IH]; cbn [replicate from_le_bytes]; [done|]. by rewrite IH.
Qed.

(** The sizes of the scalar accesses. *)
Definition scalar_size (n : nat) : bool :=
  match n with 1%nat | 2%nat | 4%nat | 8%nat => true | _ => false end.

Lemma sign_extend_value n raw :
  scalar_size n = true -> fits (8 * Z.of_nat n) raw ->
  sign_extend raw (Z.of_nat n) = as_u64 (as_i (8 * Z.of_nat n) raw).
Proof.
  intros Hn Hr. destruct n as [|[|[|[|[|[|[|[|[|n]]]]]]]]]; try discriminate Hn.
  1-3: cbv [sign_extend Z.of_nat Z.eqb Pos.eqb Pos.of_succ_nat Pos.succ]; f_equal;
    by apply as_i_as_u.
  rewrite as_u_as_i by lia. symmetry. by apply as_u_small.
Qed.

Lemma mask_bytes_ones n :
  scalar_size n = true -> mask_bytes (Z.of_nat n) = Z.ones (8 * Z.of_nat n).
Proof.
  intros Hn. by destruct n as [|[|[|[|[|[|[|[|[|n]]]]]]]]]; try discriminate Hn; vm_compute.
Qed.

(** [sign_extend] and [mask_bytes] on a value read from [k.1] bytes. *)
Lemma extend_value xl (k : nat * bool) raw :
  scalar_size k.1 = true -> fits (8 * Z.of_nat k.1) raw ->
  (if k.2 then sign_extend raw (Z.of_nat k.1) else Z.land raw (mask_bytes (Z.of_nat k.1)))
    mod 2 ^ xlen_bits xl
  = (if k.2 then as_i (8 * Z.of_nat k.1) raw else raw) mod 2 ^ xlen_bits xl.
Proof.
  intros Hn Hr. destruct k.2.
  - by rewrite sign_extend_value, as_u_64_mod by done.
  - rewrite mask_bytes_ones, Z.land_ones by (done || lia). by rewrite (Z.mod_small raw) by done.
Qed.

Lemma take_to_le_bytes n m v : (n <= m)%nat -> take n (to_le_bytes m v) = to_le_bytes n v.
Proof.
  revert m v. induction n as [|n IH]; intros [|m] v Hm; try (done || lia). simpl. f_equal.
  apply IH. lia.
Qed.

Section Arms.
Context {M : Type} `{Memory M}.
Abbreviation Hart := (RiscVCpu M).
Implicit Types (s : Hart) (insn : Insn).

(** Shows that an operation of one group is of no earlier group. *)
Ltac one_group insn Hm :=
  destruct (insn_op insn) eqn:Hop; try discriminate Hm;
  apply execute_body_arm; unfold alu, exec_control, exec_mem, exec_misc in *;
  rewrite ?Hop in *; try reflexivity; exact Hm.

Lemma execute_control_arm insn pc s m :
  exec_control (started insn pc s) insn pc = Some m ->
  execute insn pc s = continued (m (started insn pc s)).
Proof. intros Hm. unfold exec_control in Hm. one_group insn Hm. Qed.

Lemma execute_mem_arm insn pc s m :
  exec_mem (started insn pc s) insn = Some m ->
  execute insn pc s = continued (m (started insn pc s)).
Proof. intros Hm. unfold exec_mem in Hm. one_group insn Hm. Qed.

Lemma execute_misc_arm insn pc s m :
  exec_misc (started insn pc s) insn pc = Some m ->
  execute insn pc s = continued (m (started insn pc s)).
Proof. intros Hm. unfold exec_misc in Hm. one_group insn Hm. Qed.
End Arms.

(** ** Theorems *)

Section Theorems.
Context {M : Type} `{MemoryLaws M} (cfg : RiscVConfig).
Abbreviation Hart := (RiscVCpu M).
Implicit Types (s : Hart) (insn : Insn).
Abbreviation xl := (cfg_xlen cfg).

(** An operation of the specification is one of the register-writing arms. *)
Lemma alu_isa_value insn pc s v :
  hart_ok cfg s -> - 2 ^ 63 <= insn_imm insn < 2 ^ 63 ->
  isa_value xl (insn_op insn) pc (get_x s (insn_rs1 insn)) (get_x s (insn_rs2 insn))
    (insn_imm insn) = Some v ->
  is_fp (insn_op insn) = false
  /\ exists w, alu s insn pc = Some w /\ w mod 2 ^ xlen_bits xl = v.
Proof.
  intros Hs Himm Hv.
  pose proof (fits_get_x cfg s (insn_rs1 insn) Hs) as Ha.
  pose proof (fits_get_x cfg s (insn_rs2 insn) Hs) as Hb.
  unfold alu. rewrite (ok_xlen cfg s Hs). cbn zeta.
  generalize dependent (get_x s (insn_rs1 insn)). intros a Hv Ha.
  generalize dependent (get_x s (insn_rs2 insn)). intros b Hb Hv.
  destruct (insn_op insn); try discriminate Hv; (split; [reflexivity|]);
    (eexists; split; [reflexivity|]).
  all: first [ exact (alu_base_value _ _ _ _ _ Ha Hb Himm _ _ _ Hv eq_refl)
             | exact (alu_m_value _ _ _ _ _ Ha Hb _ _ _ Hv eq_refl)
             | exact (alu_zb_value _ _ _ _ _ Ha Hb _ _ _ Hv eq_refl)
             | exact (alu_zbk_value _ _ _ _ _ Ha Hb _ _ _ Hv eq_refl) ].
Qed.

(** C1. The I, M, Zba, Zbb, Zbs and Zicond computations: the destination gets the
    value the ISA manual assigns at the configured XLEN, the program counter moves
    to the next instruction, and nothing else of the hart changes. *)
Theorem execute_integer insn pc s v :
  hart_ok cfg s -> fits 5 (insn_rd insn) -> - 2 ^ 63 <= insn_imm insn < 2 ^ 63 ->
  isa_value xl (insn_op insn) pc (get_x s (insn_rs1 insn)) (get_x s (insn_rs2 insn))
    (insn_imm insn) = Some v ->
  execute insn pc s
  = (Ok RiscVExit.Continue,
     with_reg (insn_rd insn) v (set_c_pc (next_pc s pc (insn_len insn)) s)).
Proof.
  intros Hs Hrd Himm Hv.
  destruct (alu_isa_value insn pc s v Hs Himm Hv) as (Hfp & w & Hw & <-).
  rewrite (execute_alu_arm _ _ _ w Hfp Hw), set_x_with_reg by done.
  unfold xbits. by rewrite (ok_xlen cfg s Hs : cpu_xlen (started insn pc s) = _).
Qed.

(** The alignment check of a target, on integers. *)
Lemma target_misaligned_mod s t :
  target_misaligned s t = negb (isa_c (cpu_isa s)) && negb (t mod 4 =? 0).
Proof. unfold target_misaligned. by rewrite any_bits_3. Qed.

Lemma mod_4_wrap t : t mod 2 ^ 64 mod 4 = t mod 4.
Proof. apply (mod_pow_mod 2 64). lia. Qed.

Lemma eqb_as_i a b :
  fits (xlen_bits xl) a -> fits (xlen_bits xl) b ->
  (as_i (xlen_bits xl) a =? as_i (xlen_bits xl) b) = (a =? b).
Proof.
  intros Ha Hb. destruct (Z.eqb_spec a b) as [->|Hne]; [apply Z.eqb_refl|].
  apply Z.eqb_neq. intros E. apply Hne.
  rewrite <- (as_u_small _ a Ha), <- (as_u_small _ b Hb).
  assert (1 <= xlen_bits xl) by by destruct xl.
  by rewrite <- (as_u_as_i _ a), <- (as_u_as_i _ b), E.
Qed.

(** The body of a conditional branch. *)
Lemma exec_control_branch insn pc s taken :
  hart_ok cfg s ->
  branch_taken xl (insn_op insn) (get_x s (insn_rs1 insn)) (get_x s (insn_rs2 insn)) = Some taken ->
  exec_control (started insn pc s) insn pc = Some (branch taken pc (as_u64 (insn_imm insn))).
Proof.
  intros Hs Ht.
  pose proof (fits_get_x cfg s (insn_rs1 insn) Hs) as Ha.
  pose proof (fits_get_x cfg s (insn_rs2 insn) Hs) as Hb.
  unfold exec_control. rewrite (ok_xlen cfg s Hs : cpu_xlen (started insn pc s) = xl).
  destruct (insn_op insn); try discriminate Ht; cbn [branch_taken] in Ht;
    apply (inj Some) in Ht as <-; rewrite ?sx_as_i; try reflexivity; do 2 f_equal;
    by rewrite eqb_as_i.
Qed.

(** C29. A conditional branch compares its operands as the manual says (signed or
    unsigned at the configured XLEN).  Not taken, it falls through; taken, it sets
    the program counter to the target, or raises an instruction-address-misaligned
    exception when C is absent and the target is not a multiple of four.  No
    register changes. *)
Theorem execute_branch insn pc s taken :
  hart_ok cfg s ->
  branch_taken xl (insn_op insn) (get_x s (insn_rs1 insn)) (get_x s (insn_rs2 insn)) = Some taken ->
  execute insn pc s =
    let target := pc + insn_imm insn in
    if negb taken then (Ok RiscVExit.Continue, set_c_pc (next_pc s pc (insn_len insn)) s)
    else if negb (isa_c (cfg_isa cfg)) && negb (target mod 4 =? 0)
    then (Err (mk_trap cause.INSTR_MISALIGNED (target mod 2 ^ 64)),
          set_c_pc (next_pc s pc (insn_len insn)) s)
    else (Ok RiscVExit.Continue, set_c_pc (target mod 2 ^ xlen_bits xl) s).
Proof.
  intros Hs Ht. rewrite (execute_control_arm _ _ _ _ (exec_control_branch _ _ _ _ Hs Ht)).
  unfold branch, mbind, exec_bind, ebind, get. destruct taken; [|done]. cbn [negb].
  rewrite target_misaligned_mod, next_pc_masked. unfold wadd, as_u.
  rewrite Zplus_mod_idemp_r, mod_4_wrap.
  change (cpu_isa (started insn pc s)) with (cfg_isa (c_cfg s)). rewrite (ok_cfg _ _ Hs).
  destruct (_ && _); [done|]. unfold write_pc, modify, continued, next_pc. f_equal.
  unfold xbits. rewrite (ok_xlen cfg s Hs : cpu_xlen (started insn pc s) = _).
  unfold started, set_c_pc. cbn. f_equal. apply mod_add_congr; [done|]. apply as_u_64_mod.
Qed.

(** The body of a jump. *)
Lemma exec_control_jump insn pc s target :
  hart_ok cfg s ->
  jump_target (insn_op insn) pc (get_x s (insn_rs1 insn)) (insn_imm insn) = Some target ->
  exec_control (started insn pc s) insn pc = Some (jump (insn_rd insn) pc (insn_len insn) target).
Proof.
  intros Hs Ht. unfold exec_control.
  destruct (insn_op insn); try discriminate Ht; cbn [jump_target] in Ht; simplify_eq.
  - do 2 f_equal. unfold wadd, as_u. by rewrite Zplus_mod_idemp_r.
  - do 2 f_equal. rewrite clear_bit0 by by apply as_u_fits.
    unfold wadd, as_u. by rewrite Zplus_mod_idemp_r.
Qed.

(** C25. JAL and JALR write the address of the next instruction to the destination and
    set the program counter to the target (JALR clears bit 0); a target that is not
    a multiple of four raises an instruction-address-misaligned exception when C is
    absent, and then no register is written. *)
Theorem execute_jump insn pc s target :
  hart_ok cfg s -> fits 5 (insn_rd insn) ->
  jump_target (insn_op insn) pc (get_x s (insn_rs1 insn)) (insn_imm insn) = Some target ->
  execute insn pc s =
    let next := next_pc s pc (insn_len insn) in
    if negb (isa_c (cfg_isa cfg)) && negb (target mod 4 =? 0)
    then (Err (mk_trap cause.INSTR_MISALIGNED target), set_c_pc next s)
    else (Ok RiscVExit.Continue,
          set_c_pc (target mod 2 ^ xlen_bits xl) (with_reg (insn_rd insn) next s)).
Proof.
  intros Hs Hrd Ht. rewrite (execute_control_arm _ _ _ _ (exec_control_jump _ _ _ _ Hs Ht)).
  unfold jump, mbind, exec_bind, ebind, get. rewrite target_misaligned_mod.
  change (cpu_isa (started insn pc s)) with (cfg_isa (c_cfg s)). rewrite (ok_cfg _ _ Hs).
  destruct (_ && _); [done|]. unfold write_x, write_pc, modify, continued.
  unfold xmask. rewrite land_xlen_mask. rewrite (ok_xlen cfg s Hs : cpu_xlen (started insn pc s) = _).
  rewrite set_x_with_reg by done. f_equal. unfold xbits.
  rewrite (ok_xlen cfg s Hs : cpu_xlen (started insn pc s) = _). unfold wadd. rewrite as_u_64_mod.
  unfold next_pc, started, xbits. rewrite (ok_xlen cfg s Hs).
  unfold with_reg. by destruct (_ =? 0).
Qed.

(** The address of a load or store. *)
Definition access_addr insn s : Z :=
  (get_x s (insn_rs1 insn) + insn_imm insn) mod 2 ^ xbits s.

Lemma access_addr_masked insn s :
  Z.land (wadd 64 (get_x s (insn_rs1 insn)) (as_u64 (insn_imm insn))) (xmask s)
  = access_addr insn s.
Proof.
  unfold xmask, access_addr, xbits, wadd. rewrite land_xlen_mask, as_u_64_mod.
  apply mod_add_congr; [done|]. apply as_u_64_mod.
Qed.

Lemma load_kind_size op k : load_kind op = Some k -> scalar_size k.1 = true.
Proof. destruct op; intros Hk; try discriminate Hk; by apply (inj Some) in Hk as <-. Qed.
Lemma store_kind_size op n : store_kind op = Some n -> scalar_size n = true.
Proof. destruct op; intros Hk; try discriminate Hk; by apply (inj Some) in Hk as <-. Qed.

(** A scalar load, on both outcomes of the access. *)
Lemma load_effect insn pc s k :
  hart_ok cfg s -> fits 5 (insn_rd insn) -> load_kind (insn_op insn) = Some k ->
  execute insn pc s =
    let addr := access_addr insn s in
    let s' := set_c_pc (next_pc s pc (insn_len insn)) s in
    match mem_read (c_mem s) addr k.1 with
    | inl _ => (Err (mk_trap cause.LOAD_ACCESS_FAULT addr), s')
    | inr bs => (Ok RiscVExit.Continue,
                 with_reg (insn_rd insn) (loaded (xlen_bits xl) k bs) s')
    end.
Proof.
  intros Hs Hrd Hk.
  assert (exec_mem (started insn pc s) insn
          = Some (load (insn_rd insn) (get_x (started insn pc s) (insn_rs1 insn))
                    (as_u64 (insn_imm insn)) (Z.of_nat k.1) k.2)) as Hm.
  { unfold exec_mem. destruct (insn_op insn); try discriminate Hk; by simplify_eq/=. }
  rewrite (execute_mem_arm _ _ _ _ Hm). unfold load, mbind, exec_bind, ebind, get, mem_get.
  rewrite access_addr_masked, Nat2Z.id. cbn zeta.
  change (access_addr insn (started insn pc s)) with (access_addr insn s).
  change (c_mem (started insn pc s)) with (c_mem s).
  destruct (mem_read (c_mem s) _ k.1) as [e|bs] eqn:Er; [done|].
  apply mem_read_bytes in Er as [Hl Hb]; [|apply Hs]. unfold write_x, modify, continued.
  rewrite set_x_with_reg, from_le_bytes_app by done. do 2 f_equal.
  unfold xbits. rewrite (ok_xlen cfg s Hs : cpu_xlen (started insn pc s) = _).
  apply extend_value; [by eapply load_kind_size|]. rewrite <- Hl. by apply from_le_bytes_fits.
Qed.

(** A scalar store, on both outcomes of the access. *)
Lemma store_effect insn pc s n :
  hart_ok cfg s -> store_kind (insn_op insn) = Some n ->
  execute insn pc s =
    let addr := access_addr insn s in
    let s' := set_c_pc (next_pc s pc (insn_len insn)) s in
    match mem_write (c_mem s) addr (to_le_bytes n (get_x s (insn_rs2 insn))) with
    | (inl _, _) => (Err (mk_trap cause.STORE_ACCESS_FAULT addr), s')
    | (inr _, m) => (Ok RiscVExit.Continue, set_c_mem m s')
    end.
Proof.
  intros Hs Hk.
  assert (exec_mem (started insn pc s) insn
          = Some (store (get_x (started insn pc s) (insn_rs1 insn)) (as_u64 (insn_imm insn))
                    (get_x (started insn pc s) (insn_rs2 insn)) (Z.of_nat n))) as Hm.
  { unfold exec_mem. destruct (insn_op insn); try discriminate Hk; by simplify_eq/=. }
  rewrite (execute_mem_arm _ _ _ _ Hm). unfold store, mbind, exec_bind, ebind, get, mem_put.
  rewrite access_addr_masked, Nat2Z.id. cbn zeta.
  change (access_addr insn (started insn pc s)) with (access_addr insn s).
  change (c_mem (started insn pc s)) with (c_mem s).
  apply store_kind_size in Hk. rewrite take_to_le_bytes.
  2: { by destruct n as [|[|[|[|[|[|[|[|[|n]]]]]]]]]; try discriminate Hk; lia. }
  change (get_x (started insn pc s)) with (get_x s).
  destruct (mem_write _ _ _) as [[e|u] m] eqn:Ew; [|done].
  apply mem_write_err in Ew as ->; [done|apply Hs].
Qed.

(** C15. The scalar loads and stores access [rs1 + imm] modulo the address width.  A load
    writes the sign- or zero-extended little-endian value of its bytes to the
    destination; a store writes the low bytes of [rs2] and changes no register.  An
    access the memory rejects raises a load or store access fault that carries the
    address, and then neither a register nor the memory has changed. *)
Theorem execute_load_store insn pc s :
  hart_ok cfg s -> fits 5 (insn_rd insn) ->
  let addr := access_addr insn s in
  let s' := set_c_pc (next_pc s pc (insn_len insn)) s in
  (forall k, load_kind (insn_op insn) = Some k ->
     execute insn pc s =
       match mem_read (c_mem s) addr k.1 with
       | inl _ => (Err (mk_trap cause.LOAD_ACCESS_FAULT addr), s')
       | inr bs => (Ok RiscVExit.Continue,
                    with_reg (insn_rd insn) (loaded (xlen_bits xl) k bs) s')
       end)
  /\ (forall n, store_kind (insn_op insn) = Some n ->
        execute insn pc s =
          match mem_write (c_mem s) addr (to_le_bytes n (get_x s (insn_rs2 insn))) with
          | (inl _, _) => (Err (mk_trap cause.STORE_ACCESS_FAULT addr), s')
          | (inr _, m) => (Ok RiscVExit.Continue, set_c_mem m s')
          end).
Proof. intros Hs Hrd. split; intros k Hk; [by apply load_effect | by apply store_effect]. Qed.

Lemma get_with_reg rd v s : length (c_x s) = 32%nat -> fits 5 rd -> rd <> 0 ->
  get_x (with_reg rd v s) rd = v.
Proof.
  intros Hl Hrd Hz. unfold with_reg. destruct (Z.eqb_spec rd 0); [done|].
  unfold get_x. cbn [set_c_x c_x]. rewrite reg_ix_small, nth_lookup by done.
  rewrite list_lookup_insert_eq; [done|]. unfold fits in *. lia.
Qed.

(** Round trip through memory: after a store that retires, a load of the same
    width at the same address retires too, gives its destination the stored bytes
    sign- or zero-extended, and leaves the memory as the store left it. *)
Theorem store_then_load st ld pc pc' s s1 n signed :
  hart_ok cfg s -> store_kind (insn_op st) = Some n ->
  load_kind (insn_op ld) = Some (n, signed) ->
  access_addr ld s = access_addr st s -> fits 5 (insn_rd ld) -> insn_rd ld <> 0 ->
  execute st pc s = (Ok RiscVExit.Continue, s1) ->
  exists s2, execute ld pc' s1 = (Ok RiscVExit.Continue, s2)
    /\ c_mem s2 = c_mem s1
    /\ get_x s2 (insn_rd ld)
       = (if signed then as_i (8 * Z.of_nat n) (get_x s (insn_rs2 st))
          else get_x s (insn_rs2 st) mod 2 ^ (8 * Z.of_nat n)) mod 2 ^ xlen_bits xl.
Proof.
  intros Hs Hst Hld Haddr Hrd Hrd0 Hex. rewrite (store_effect _ _ _ _ Hs Hst) in Hex. cbn zeta in Hex.
  destruct (mem_write _ _ _) as [[e|[]] m] eqn:Ew; [done|]. injection Hex as <-.
  pose proof (mem_read_write _ _ _ _ (ok_mem _ _ Hs) Ew) as Hr. rewrite to_le_bytes_length in Hr.
  assert (hart_ok cfg (set_c_mem m (set_c_pc (next_pc s pc (insn_len st)) s))) as Hs1.
  { apply ok_set_mem; [|apply ok_set_pc; [|done]].
    - eapply mem_write_wf; [apply Hs| |exact Ew]. apply to_le_bytes_fits.
    - unfold next_pc, xbits. rewrite (ok_xlen cfg s Hs). apply xlen_mod_fits. }
  rewrite (load_effect _ _ _ _ Hs1 Hrd Hld). cbn zeta.
  change (access_addr ld (set_c_mem m (set_c_pc (next_pc s pc (insn_len st)) s)))
    with (access_addr ld s).
  rewrite Haddr. cbn [fst c_mem set_c_mem]. rewrite Hr. eexists. split; [reflexivity|]. split.
  - unfold with_reg. by destruct (_ =? 0).
  - rewrite get_with_reg by (done || apply Hs). unfold loaded. cbn [fst snd].
    rewrite from_to_le_bytes. apply load_kind_size in Hld. cbn [fst] in Hld.
    destruct signed; [|done]. by rewrite as_i_as_u by (destruct n; [discriminate|lia]).
Qed.
End Theorems.

(** ** Witnesses

    A hart with [x5 = 0x8877] over eight bytes of memory. *)

Definition demo_hart : RiscVCpu FlatMemory := set_x 5 0x8877 (new_cpu config_rv64gc demo_memory).

Lemma demo_hart_ok : hart_ok config_rv64gc demo_hart.
Proof. apply ok_set_x, new_cpu_ok, demo_memory_wf. Qed.


(** [mul x6, x5, x5]. *)
Definition demo_mul : Insn := decode 0x02528333 Rv64 rv64gc.

Lemma execute_integer_witness :
  execute demo_mul 0 demo_hart
  = (Ok RiscVExit.Continue,
     with_reg 6 (0x8877 * 0x8877) (set_c_pc (next_pc demo_hart 0 4) demo_hart)).
Proof.
  apply (execute_integer config_rv64gc demo_mul 0 demo_hart);
    [apply demo_hart_ok | by split | by split | vm_compute; reflexivity].
Defined.

(** [bne x5, x0, -4], which wraps around the address space. *)
Lemma execute_branch_witness :
  execute (decode 0xfe029ee3 Rv64 rv64gc) 0 demo_hart
  = (Ok RiscVExit.Continue, set_c_pc (2 ^ 64 - 4) demo_hart).
Proof.
  apply (execute_branch config_rv64gc (decode 0xfe029ee3 Rv64 rv64gc) 0 demo_hart true);
    [apply demo_hart_ok | vm_compute; reflexivity].
Defined.

(** [jalr x1, 2(x5)]. *)
Lemma execute_jump_witness :
  execute (decode 0x002280e7 Rv64 rv64gc) 0 demo_hart
  = (Ok RiscVExit.Continue, set_c_pc 0x8878 (with_reg 1 4 demo_hart)).
Proof.
  apply (execute_jump config_rv64gc (decode 0x002280e7 Rv64 rv64gc) 0 demo_hart 0x8878);
    [apply demo_hart_ok | by split | vm_compute; reflexivity].
Defined.

(** [sh x5, 2(x0)] and [lh x6, 2(x0)]. *)
Definition demo_sh : Insn := decode 0x00501123 Rv64 rv64gc.
Definition demo_lh : Insn := decode 0x00201303 Rv64 rv64gc.

Lemma execute_load_store_witness :
  execute demo_lh 0 demo_hart
  = (Ok RiscVExit.Continue, with_reg 6 0x50 (set_c_pc 4 demo_hart)).
Proof.
  destruct (execute_load_store config_rv64gc demo_lh 0 demo_hart) as [Hl _];
    [apply demo_hart_ok | by split |].
  rewrite (Hl (2%nat, true)) by reflexivity. vm_compute. reflexivity.
Defined.

Lemma store_then_load_witness :
  exists s1 s2, execute demo_sh 0 demo_hart = (Ok RiscVExit.Continue, s1)
    /\ execute demo_lh 4 s1 = (Ok RiscVExit.Continue, s2)
    /\ c_mem s2 = c_mem s1 /\ get_x s2 6 = 0xffffffffffff8877.
Proof.
  eexists.
  destruct (store_then_load config_rv64gc demo_sh demo_lh 0 4 demo_hart
              (snd (execute demo_sh 0 demo_hart)) 2%nat true) as (s2 & H1 & H2 & H3);
    [apply demo_hart_ok | vm_compute; reflexivity | vm_compute; reflexivity
    | vm_compute; reflexivity | by split | done | vm_compute; reflexivity |].
  exists s2. split; [vm_compute; reflexivity|]. split; [exact H1|]. split; [exact H2|].
  etransitivity; [exact H3|]. vm_compute. reflexivity.
Defined.
