(* ===== verification/RvVecSpec.v ===== *)
(** * What the vector instructions do

    The effect of [execute] on the whole hart for the integer vector
    instructions. *)

From S2P Require Import Prelude RvIsa RvOp RvMemory RvDecode RvAlu RvCrypto RvState RvHart RvAluOps.
From S2P Require Import RvExec RvFp RvStep.
From S2P Require Import RvVec RvVecCheck RvVecValid RvVecMem RvVecExec RvVecLanes RvVecArith.
From S2P Require Import RvStepSafe RvExecSpec.

Section VecSpec.
Context {M : Type} `{MemoryLaws M}.
Implicit Types (s : RiscVCpu M) (insn : Insn).

(** ** Dispatch *)

(** The vm bit of the encoding: clear when the instruction is masked by [v0]. *)
Definition insn_vm insn : bool := negb (Z.land (wshr 32 (insn_raw insn) 25) 1 =? 0).

(** The [vill] bit. *)
Definition vill s : bool := negb (Z.land (wshr 64 (c_vtype s) (xbits s - 1)) 1 =? 0).

Lemma vill_spec cfg s : hart_ok cfg s ->
  if vill s then c_vl s = 0
  else legal_vtype (c_vtype s) /\ c_vl s <= VLMAX (c_vtype s).
Proof.
  intros Hs. unfold vill. rewrite (ok_xbits cfg) by done. pose proof (xbits_32 cfg).
  pose proof (xbits_64 cfg). unfold wshr. rewrite Z.mod_small by lia.
  rewrite land_one_testbit by lia.
  destruct (ok_vconfig _ _ Hs) as [[-> ->] | (Hv & Hw & H4 & Hl)].
  - by rewrite Z.pow2_bits_true by lia.
  - rewrite (fits_testbit 8) by (done || lia). split; [by split_and! | lia].
Qed.

(** [execute] runs the vector engine on the operations of [is_vector]. *)
Lemma execute_vector_arm insn pc s :
  is_vector (insn_op insn) = true ->
  execute insn pc s = continued (exec_vector insn (started insn pc s)).
Proof.
  intros Hv. unfold execute, mbind, exec_bind, ebind, get, write_pc, modify.
  rewrite next_pc_masked. fold (started insn pc s).
  replace (is_fp (insn_op insn)) with false by (by destruct (insn_op insn)).
  replace (alu (started insn pc s) insn pc) with (@None Z)
    by (unfold alu; by destruct (insn_op insn)).
  replace (is_hint (insn_op insn)) with false by (by destruct (insn_op insn)).
  replace (or_else _ _) with (@None (exec (RiscVCpu M) Trap unit))
    by (unfold exec_control, exec_mem, exec_misc, exec_thead; by destruct (insn_op insn)).
  replace (exec_exit insn pc) with (@None (exec (RiscVCpu M) Trap RiscVExit.t))
    by (unfold exec_exit; by destruct (insn_op insn)).
  rewrite Hv. by destruct (exec_vector insn (started insn pc s)) as [[[]|t|] s'].
Qed.

(** ** Integer instructions *)

(** The instruction passes the checks of the engine: [vill] is clear, validation
    accepts it and its element widths exist. *)
Definition accepted (c : lane_class) insn s : Prop :=
  vill s = false /\ (exists u, validate insn (insn_vm insn) s = (Ok u, s))
  /\ widths_ok c (sew_bytes s) = true.

Lemma class_vector op c : class_of op = Some c -> is_vector op = true.
Proof. by destruct op. Qed.

Lemma op_computes cfg s insn vm n c :
  hart_ok cfg s -> fits 5 (insn_rd insn) -> fits 5 (insn_rs1 insn) ->
  vm = true \/ insn_rd insn <> 0 -> c_vl s <= n -> width (sew_bytes s) ->
  class_of (insn_op insn) = Some c -> form_ok c insn = true -> widths_ok c (sew_bytes s) = true ->
  arranged s insn n c ->
  computes s insn vm c (exec_vector_op insn vm (c_vstart s) (c_vl s)).
Proof.
  intros Hs Hd H1 Hm Hl Hw Hc Hf Hk Ha. unfold exec_vector_op.
  assert (Hext : forall f, c = Extending f -> f = 2 \/ f = 4 \/ f = 8)
    by (intros f ->; by eapply extending_factor).
  destruct c as [|w| |f]; cbn [widths_ok] in Hk; rewrite ?Z.leb_le in Hk.
  - destruct (insn_op insn) eqn:Hop; try discriminate Hc;
      apply (v_alu_computes cfg s insn vm n); auto; by rewrite Hop.
  - destruct (insn_op insn) eqn:Hop; try discriminate Hc; injection Hc as <-;
      first [ apply (v_wadd_computes cfg s insn vm n); auto; by rewrite Hop
            | apply (v_wmul_computes cfg s insn vm n); auto; by rewrite Hop; intros;
              cbn [isa_lane wmul_signs wmul_mac fst snd]; rewrite ?Z.add_0_r ].
  - destruct (insn_op insn) eqn:Hop; try discriminate Hc;
      apply (v_narrow_computes cfg s insn vm n); auto; by rewrite Hop.
  - destruct (insn_op insn) eqn:Hop; try discriminate Hc; injection Hc as <-;
      apply (v_ext_computes cfg s insn vm n); auto; by rewrite Hop.
Qed.

Lemma op_rejects s insn vm c :
  class_of (insn_op insn) = Some c -> widths_ok c (sew_bytes s) = false ->
  exec_vector_op insn vm (c_vstart s) (c_vl s) s = (Err (trap_illegal (insn_raw insn)), s).
Proof.
  intros Hc Hk. unfold exec_vector_op.
  destruct (insn_op insn) eqn:Hop; try discriminate Hc; injection Hc as <-;
    cbn [widths_ok] in Hk; try discriminate Hk; apply Z.leb_gt in Hk;
    unfold v_wadd, v_wmul, v_narrow, v_ext; rewrite (bind_ok get _ s s s eq_refl);
    cbv zeta; rewrite ?Hop; cbn [wmul_signs ext_factor];
    rewrite (proj2 (Z.ltb_lt _ _) Hk); reflexivity.
Qed.

Lemma exec_vector_accepts c insn s :
  class_of (insn_op insn) = Some c -> accepted c insn s ->
  exec_vector insn s
  = (exec_vector_op insn (insn_vm insn) (c_vstart s) (c_vl s);; modify (set_c_vstart 0)) s.
Proof.
  intros Hc (Hv & (u & Hu) & _). unfold exec_vector. rewrite (bind_ok get _ s s s eq_refl).
  fold (vill s). rewrite Hv. cbn [andb]. by rewrite (bind_ok _ _ _ _ _ Hu).
Qed.

Lemma exec_vector_rejects c insn s :
  class_of (insn_op insn) = Some c -> ~ accepted c insn s ->
  exec_vector insn s = (Err (trap_illegal (insn_raw insn)), s).
Proof.
  intros Hc Hn. unfold exec_vector. rewrite (bind_ok get _ s s s eq_refl). fold (vill s).
  replace (ignores_vill (insn_op insn)) with false by (by destruct (insn_op insn)).
  destruct (vill s) eqn:Hv; [done|]. cbn [andb]. fold (insn_vm insn).
  destruct (checks_validate insn (insn_vm insn) s) as [[u Hu] | Hu].
  - rewrite (bind_ok _ _ _ _ _ Hu). apply bind_err. apply (op_rejects _ _ _ c); [done|].
    apply not_true_is_false. intros Hk. apply Hn. split_and!; [done | by exists u | done].
  - by apply bind_err.
Qed.

(** The registers of an LMUL group, and the vector of shift amounts that a
    narrowing shift reads. *)
Definition lmul_regs s : Z := Z.max 1 (Z.shiftl 1 (as_i 3 (c_vtype s))).
Definition vs1_aligned insn s : Prop := insn_rs1 insn mod lmul_regs s = 0.

Lemma lmul_regs_spec s lm :
  legal_vtype (c_vtype s) -> Emul.from_vtype (c_vtype s) = Some lm ->
  regs lm = lmul_regs s /\ (lmul_regs s | 32).
Proof.
  intros (Hv & _ & _) Hl. unfold lmul_regs. revert Hl.
  pose (P t := match Emul.from_vtype t with
    | Some lm => (regs lm =? Z.max 1 (Z.shiftl 1 (as_i 3 t)))
                 && (32 mod Z.max 1 (Z.shiftl 1 (as_i 3 t)) =? 0)
    | None => true end).
  assert (HP : P (c_vtype s) = true) by (by apply (all_below 8 P); [vm_compute|]).
  unfold P in HP. intros Hl. rewrite Hl in HP. apply andb_true_iff in HP as [?%Z.eqb_eq Hd%Z.eqb_eq].
  split; [done|]. apply Z.mod_divide; [lia | done].
Qed.

Lemma vs1_group s insn lm :
  legal_vtype (c_vtype s) -> Emul.from_vtype (c_vtype s) = Some lm ->
  fits 5 (insn_rs1 insn) -> vs1_aligned insn s -> aligned (insn_rs1 insn) (regs lm).
Proof.
  intros Hv Hl H1 Ha. destruct (lmul_regs_spec s lm Hv Hl) as [-> [q Hq]].
  assert (1 <= lmul_regs s) by (unfold lmul_regs; lia). split; [done|].
  apply Z.mod_divide in Ha as [p Hp]; [|lia]. unfold fits in H1.
  rewrite Hp in *. change (2 ^ 5) with 32 in H1. assert (p < q) by nia. nia.
Qed.

(** The effect of an accepted integer instruction on the hart it starts in. *)
Lemma exec_vector_integer cfg s insn c :
  hart_ok cfg s -> fits 5 (insn_rd insn) -> fits 5 (insn_rs1 insn) -> fits 5 (insn_rs2 insn) ->
  class_of (insn_op insn) = Some c -> form_ok c insn = true ->
  insn_vm insn = true \/ insn_rd insn <> 0 ->
  (c = Narrowing -> is_vv insn = true -> vs1_aligned insn s) ->
  accepted c insn s ->
  exists v', exec_vector insn s = (Ok tt, set_c_vstart 0 (set_c_v v' s))
    /\ written (c_v s) v' (insn_rd insn) (dst_width c (sew_bytes s)) (c_vstart s) (c_vl s)
         (active (insn_vm insn) (c_v s)) (lane_value c s insn).
Proof.
  intros Hs Hd H1 H2 Hc Hf Hm Hn Hacc. pose proof Hacc as (Hv & (u & Hu) & Hk).
  pose proof (vill_spec cfg s Hs) as Hl. rewrite Hv in Hl. destruct Hl as [Hl Hvl].
  assert (Ha : arranged s insn (VLMAX (c_vtype s)) c).
  { apply (accepted_arranged cfg s insn Hs Hd H1 H2 Hl c (insn_vm insn) u); auto.
    intros -> Hvv lm Hlm. by apply (vs1_group s); auto. }
  destruct (op_computes cfg s insn (insn_vm insn) _ c Hs Hd H1 Hm Hvl) as (v' & He & Hw); auto.
  { apply sew_bytes_pow, Hl. }
  exists v'. split; [|done]. rewrite (exec_vector_accepts c) by done.
  by rewrite (bind_ok _ _ _ _ _ He).
Qed.

End VecSpec.

(** ** Witnesses

    A hart with SEW = 16, LMUL = 1 and [vl = 8], whose registers [v2] and [v3] hold
    the wide lanes [0x00010203 + 0x1000000 * e]. *)

Definition vector_bytes : list Z :=
  replicate 32 0 ++ concat (map (fun e => [3; 2; 1; e]) (range 0 8)) ++ replicate 448 0.
Definition vector_hart : RiscVCpu FlatMemory :=
  set_c_vl 8 (set_c_vtype 0x08 (set_c_v vector_bytes (new_cpu config_rv64gc demo_memory))).

Lemma vector_hart_ok : hart_ok config_rv64gc vector_hart.
Proof.
  apply ok_set_vconfig; [right; split_and!; by vm_compute|].
  apply ok_set_v; [done | | apply new_cpu_ok, demo_memory_wf].
  unfold vector_bytes. rewrite !Forall_app. split_and!; [| |]; try by apply Forall_replicate.
  vm_compute. repeat constructor; done.
Qed.

(** [vnsrl.wi v2, v2, 8]: narrowing in place. *)
Definition demo_vnsrl : Insn := Eval vm_compute in decode 0xb2243157 Rv64 rv64gc.

