(* ===== verification/RvVecMemSpec.v ===== *)
(** * What the vector loads and stores do

    Unit-stride and strided accesses: the lanes transferred, the element at which
    a fault stops them, and restarting them from [vstart]. *)

From S2P Require Import Prelude RvIsa RvOp RvMemory RvDecode RvAlu RvState RvHart RvAluSpec RvExec RvStep.
From S2P Require Import RvVec RvVecCheck RvVecValid RvVecMem RvVecExec RvVecLanes RvVecArith.
From S2P Require Import RvHartSafe RvStepSafe RvExecSpec RvVecSpec.

Section VecMemSpec.
Context {M : Type} `{MemoryLaws M}.
Abbreviation Hart := (RiscVCpu M).
Implicit Types (s : Hart) (insn : Insn).

(** ** Loops that may fault *)

(** The rule of the loops whose body can fail: [inv k s'] describes the state
    before element [k], where the loop may stop with the error of its body. *)
Lemma for_active_rule (inv : Z -> Hart -> Prop) (vm : bool) (on : Z -> bool) start stop body s :
  start <= stop -> inv start s ->
  (forall k s', start <= k < stop -> inv k s' ->
     (if vm then eret true else vmask_bit k) s' = (Ok (on k), s')
     /\ (on k = false -> inv (k + 1) s')
     /\ (on k = true -> (exists s1, body k s' = (Ok tt, s1) /\ inv (k + 1) s1)
                        \/ exists t s1, body k s' = (Err t, s1))) ->
  (exists s', for_active vm start stop body s = (Ok tt, s') /\ inv stop s')
  \/ (exists k s' t s1, start <= k < stop /\ on k = true /\ inv k s' /\ body k s' = (Err t, s1)
        /\ for_active vm start stop body s = (Err t, s1)).
Proof.
  intros Hle Hinv Hbody. unfold for_active, fold_active.
  cut (forall n, 0 <= n -> forall a s, start <= a -> a + n = stop -> inv a s ->
    (exists s', fold_elems (range a stop) (if_active vm (fun e _ => body e)) tt s = (Ok tt, s')
       /\ inv stop s')
    \/ (exists k s' t s1, start <= k < stop /\ on k = true /\ inv k s' /\ body k s' = (Err t, s1)
          /\ fold_elems (range a stop) (if_active vm (fun e _ => body e)) tt s = (Err t, s1))).
  { intros Hc. apply (Hc (stop - start)); lia || done. }
  apply (natlike_ind (fun n => forall a s, start <= a -> a + n = stop -> inv a s -> _)).
  { intros a s' _ Ha Hi. left. exists s'. rewrite range_nil by lia.
    replace stop with a by lia. done. }
  intros n Hn IH a s' Ha Hs' Hi. rewrite range_cons by lia. cbn [fold_elems].
  destruct (Hbody a s') as (Hon & Hoff & Hgo); [lia | done |].
  unfold mbind, exec_bind, ebind at 1 2, if_active at 1 3. unfold mbind, exec_bind, ebind.
  rewrite Hon. destruct (on a) eqn:Ea.
  - destruct (Hgo eq_refl) as [(s1 & Hb & Hi1) | (t & s1 & Hb)]; rewrite Hb.
    + apply IH; [lia | lia | done].
    + right. exists a, s', t, s1. split_and!; done || lia.
  - apply IH; [lia | lia | by apply Hoff].
Qed.

(** ** Loads *)

Section Loading.
Variables (s : Hart) (vm : bool) (rd eb stop : Z) (addr : Z -> Z) (on : Z -> bool).

(** The value in memory of an element, if it can be read. *)
Definition fetch (m : M) (a n : Z) : option Z :=
  match mem_read m a (Z.to_nat n) with inl _ => None | inr bs => Some (from_le_bytes bs) end.

(** Element [e] is active and its access is rejected. *)
Definition faults (m : M) (e : Z) : bool :=
  on e && match fetch m (addr e) eb with None => true | Some _ => false end.

(** The first such element. *)
Definition first_fault (m : M) (start : Z) : option Z := find (faults m) (range start stop).

(** The register file with the active elements of [start..k] loaded. *)
Definition loaded_lanes (m : M) (start k : Z) (v : list Z) : list Z :=
  fold_on on (fun e v => put_lane v rd e eb (default 0 (fetch m (addr e) eb))) start k v.

(** A register file whose lanes from [start] on can be loaded under its own mask. *)
Definition loadable (start : Z) (v : list Z) : Prop :=
  forall e, start <= e < stop -> lane_ok v rd e eb /\ active vm v e = on e.

Hypothesis Hstop : stop <= VLEN.
Hypothesis Hrd : 0 <= rd.
Hypothesis Hmask : vm = true \/ 1 <= rd.

Lemma active_put_lane v k val e :
  0 <= k -> lane_ok v rd k eb -> 0 <= e < VLEN ->
  active vm (put_lane v rd k eb val) e = active vm v e.
Proof.
  intros Hk Hok He. destruct vm; [done|]. destruct Hmask as [|Hr]; [done|].
  pose proof Hok as (_ & Hb & _). unfold active, mask_bit. cbn [orb]. rewrite !nth_lookup.
  do 2 f_equal. apply lookup_put_lane_other; [done|]. unfold in_lane, lane_offset.
  assert (e / 8 < 16) by (apply Z.div_lt_upper_bound; [lia|]; unfold VLEN in He; lia).
  pose proof (Z.div_pos e 8). change VLENB with 16. nia.
Qed.

Lemma loadable_put start v k val :
  0 <= k <= start -> lane_ok v rd k eb -> loadable start v -> loadable start (put_lane v rd k eb val).
Proof.
  intros Hk Hok Hl e He. destruct (Hl e He) as [He1 He2]. split.
  - unfold lane_ok in *. by rewrite length_put_lane.
  - rewrite active_put_lane; [done | lia | done | lia].
Qed.

Lemma loadable_next start v : loadable start v -> loadable (start + 1) v.
Proof. intros Hl e He. apply Hl. lia. Qed.

Lemma first_fault_range m start k : first_fault m start = Some k -> start <= k < stop.
Proof. intros [Hk _]%find_some. apply list_elem_of_In, elem_of_seqZ in Hk. lia. Qed.

Lemma loaded_lanes_cons m start k v :
  start < k ->
  loaded_lanes m start k v
  = loaded_lanes m (start + 1) k
      (if on start then put_lane v rd start eb (default 0 (fetch m (addr start) eb)) else v).
Proof. intros. unfold loaded_lanes, fold_on. by rewrite range_cons. Qed.

Lemma first_fault_cons m start :
  start < stop ->
  first_fault m start = if faults m start then Some start else first_fault m (start + 1).
Proof. intros. unfold first_fault. by rewrite range_cons. Qed.

(** The transfer of a load. *)
Lemma transfer_load e a v :
  lane_ok v rd e eb ->
  transfer true rd e eb a (set_c_v v s)
  = match fetch (c_mem s) a eb with
    | None => (Err (acc_fault false a), set_c_vstart e (set_c_v v s))
    | Some val => (Ok tt, set_c_v (put_lane v rd e eb val) s)
    end.
Proof.
  intros Hok. pose proof Hok as (_ & Hb & _). unfold transfer.
  rewrite (proj2 (Z.ltb_ge 8 eb)) by lia.
  unfold vector_read, fetch, mbind, exec_bind, ebind. cbn [set_c_v c_mem].
  destruct (mem_read _ _ _); [done|]. by rewrite set_velem_lane.
Qed.

(** Induction on the elements left. *)
Lemma elements_ind (P : Z -> Prop) :
  (forall a, stop <= a -> P a) -> (forall a, a < stop -> P (a + 1) -> P a) -> forall a, P a.
Proof.
  intros Hnil Hcons a. destruct (Z.le_gt_cases stop a) as [|Ha]; [by apply Hnil|].
  remember (Z.to_nat (stop - a)) as n eqn:Hn. revert a Ha Hn.
  induction n as [|n IH]; intros a Ha Hn; [lia|]. apply Hcons; [lia|].
  destruct (Z.le_gt_cases stop (a + 1)); [by apply Hnil | apply IH; lia].
Qed.

Lemma loadable_mask start v :
  0 <= start < stop -> loadable start v ->
  (if vm then eret true else vmask_bit start) (set_c_v v s) = (Ok (on start), set_c_v v s).
Proof.
  intros Hs Hl. destruct (Hl start) as [(_ & Hb & Hlen) Hon]; [lia|].
  rewrite active_spec; cbn [set_c_v c_v]; [by rewrite Hon | lia |].
  apply Z.div_lt_upper_bound; [lia|]. unfold lane_offset in Hlen. change VLENB with 16 in Hlen. nia.
Qed.

Lemma loadable_step start v val :
  0 <= start < stop -> loadable start v ->
  loadable (start + 1) (if on start then put_lane v rd start eb val else v).
Proof.
  intros Hs Hl. destruct (Hl start) as [Hok _]; [lia|]. apply loadable_next in Hl.
  destruct (on start); [apply loadable_put; done || lia | done].
Qed.

(** The outcome of a loop whose elements from [start] on are still to be loaded. *)
Lemma outcome_cons {B} (fault : Z -> list Z -> B) (finish : list Z -> B) m start v :
  start < stop ->
  match first_fault m start with
  | Some k => fault k (loaded_lanes m start k v)
  | None => finish (loaded_lanes m start stop v)
  end
  = if faults m start then fault start v
    else let v' := if on start then put_lane v rd start eb (default 0 (fetch m (addr start) eb))
                   else v in
         match first_fault m (start + 1) with
         | Some k => fault k (loaded_lanes m (start + 1) k v')
         | None => finish (loaded_lanes m (start + 1) stop v')
         end.
Proof.
  intros Hs. rewrite first_fault_cons by done. destruct (faults m start).
  - unfold loaded_lanes, fold_on. by rewrite range_nil.
  - destruct (first_fault m (start + 1)) as [k|] eqn:Hk.
    + apply first_fault_range in Hk. by rewrite loaded_lanes_cons by lia.
    + by rewrite loaded_lanes_cons.
Qed.

Lemma outcome_nil {B} (fault : Z -> list Z -> B) (finish : list Z -> B) m start v :
  stop <= start ->
  match first_fault m start with
  | Some k => fault k (loaded_lanes m start k v)
  | None => finish (loaded_lanes m start stop v)
  end = finish v.
Proof. intros. unfold first_fault, loaded_lanes, fold_on. by rewrite range_nil. Qed.

(** The loop of [vle] and [vlse]. *)
Lemma load_loop start v :
  0 <= start -> loadable start v ->
  for_active vm start stop (fun e => transfer true rd e eb (addr e)) (set_c_v v s)
  = match first_fault (c_mem s) start with
    | Some k => (Err (acc_fault false (addr k)),
                 set_c_vstart k (set_c_v (loaded_lanes (c_mem s) start k v) s))
    | None => (Ok tt, set_c_v (loaded_lanes (c_mem s) start stop v) s)
    end.
Proof.
  unfold for_active, fold_active. revert v. pattern start. apply elements_ind; clear start.
  { intros a Ha v _ _.
    rewrite (outcome_nil (fun k v => (Err _, set_c_vstart k (set_c_v v s)))
      (fun v => (Ok tt, set_c_v v s))) by done. by rewrite range_nil. }
  intros a Ha IH v Ha0 Hl.
  rewrite (outcome_cons (fun k v => (Err (acc_fault false (addr k)), set_c_vstart k (set_c_v v s)))
    (fun v => (Ok tt, set_c_v v s))) by done.
  rewrite range_cons by done. cbn [fold_elems].
  pose proof (loadable_step a v (default 0 (fetch (c_mem s) (addr a) eb)) (conj Ha0 Ha) Hl) as Hl'.
  assert (Hif : forall r, (if on a then transfer true rd a eb (addr a) else eret tt) (set_c_v v s) = r ->
    if_active vm (fun e _ => transfer true rd e eb (addr e)) a tt (set_c_v v s) = r).
  { intros r <-. unfold if_active. by rewrite (bind_ok _ _ _ _ _ (loadable_mask a v (conj Ha0 Ha) Hl)). }
  unfold faults. destruct (on a) eqn:Ea; cbn [andb].
  - rewrite transfer_load in Hif by (by apply Hl). destruct (fetch (c_mem s) (addr a) eb) as [val|].
    + rewrite (bind_ok _ _ _ _ _ (Hif _ eq_refl)). apply IH; [lia | done].
    + by rewrite (bind_err _ _ _ _ _ (Hif _ eq_refl)).
  - rewrite (bind_ok _ _ _ _ _ (Hif _ eq_refl)). apply IH; [lia | done].
Qed.

(** The loop of [vleff]. *)
Lemma vleff_loop_outcome base start v :
  (forall e, offset_addr s base (e * eb) = addr e) -> 0 <= start -> loadable start v ->
  vleff_loop vm rd eb base stop (range start stop) (set_c_v v s)
  = match first_fault (c_mem s) start with
    | Some k =>
        if k =? 0 then (Err (acc_fault false (addr k)),
                        set_c_vstart 0 (set_c_v (loaded_lanes (c_mem s) start k v) s))
        else (Ok k, set_c_v (loaded_lanes (c_mem s) start k v) s)
    | None => (Ok stop, set_c_v (loaded_lanes (c_mem s) start stop v) s)
    end.
Proof.
  intros Haddr. revert v. pattern start. apply elements_ind; clear start.
  { intros a Ha v _ _.
    rewrite (outcome_nil (fun k v => if k =? 0 then (Err _, set_c_vstart 0 (set_c_v v s))
                                     else (Ok k, set_c_v v s))
      (fun v => (Ok stop, set_c_v v s))) by done. by rewrite range_nil. }
  intros a Ha IH v Ha0 Hl.
  rewrite (outcome_cons (fun k v => if k =? 0
      then (Err (acc_fault false (addr k)), set_c_vstart 0 (set_c_v v s)) else (Ok k, set_c_v v s))
    (fun v => (Ok stop, set_c_v v s))) by done.
  rewrite range_cons by done. cbn [vleff_loop].
  pose proof (loadable_step a v (default 0 (fetch (c_mem s) (addr a) eb)) (conj Ha0 Ha) Hl) as Hl'.
  rewrite (bind_ok _ _ _ _ _ (loadable_mask a v (conj Ha0 Ha) Hl)).
  destruct (Hl a) as [Hok _]; [lia|]. unfold faults. destruct (on a) eqn:Ea; cbn [andb].
  - rewrite (bind_ok get _ _ _ _ eq_refl). cbv zeta.
    change (offset_addr (set_c_v v s) base (a * eb)) with (offset_addr s base (a * eb)).
    rewrite Haddr. cbn [set_c_v c_mem]. unfold fetch in *.
    destruct (mem_read (c_mem s) (addr a) (Z.to_nat eb)) as [|buf].
    + by destruct (a =? 0).
    + rewrite (bind_ok _ _ _ _ _ (set_velem_lane rd a eb _ (set_c_v v s) Hok)).
      apply IH; [lia | done].
  - apply IH; [lia | done].
Qed.

Lemma loaded_written m start k v :
  0 <= start -> (forall e, start <= e < k -> lane_ok v rd e eb) ->
  written v (loaded_lanes m start k v) rd eb start k on (fun e => default 0 (fetch m (addr e) eb)).
Proof.
  intros Hs. destruct (Z.le_gt_cases start k) as [Hk|Hk]; cycle 1.
  { intros _. unfold loaded_lanes, fold_on. rewrite range_nil by lia. apply written_nil. lia. }
  assert (exists n, 0 <= n /\ k = start + n) as (n & Hn & ->) by (exists (k - start); lia).
  clear Hk. revert n Hn. apply (natlike_ind (fun n => _ -> _)).
  { intros _. unfold loaded_lanes, fold_on. rewrite range_nil by lia. apply written_nil. lia. }
  intros n Hn IH Hok. rewrite <- Z.add_1_r, Z.add_assoc in *.
  specialize (IH ltac:(intros; apply Hok; lia)). unfold loaded_lanes in *.
  rewrite fold_on_snoc by lia. destruct (on (start + n)) eqn:E.
  - apply written_put; [apply Hok | | | | |]; done || lia.
  - by apply written_skip.
Qed.

End Loading.

Lemma loaded_active vm rd eb addr m start k v e :
  0 <= rd -> vm = true \/ 1 <= rd -> 0 <= start <= k ->
  (forall e, start <= e < k -> lane_ok v rd e eb) -> 0 <= eb -> 0 <= e < VLEN ->
  active vm (loaded_lanes rd eb addr (active vm v) m start k v) e = active vm v e.
Proof.
  intros Hrd Hm Hs Hok Hb He.
  pose proof (loaded_written rd eb addr (active vm v) Hrd m start k v (proj1 Hs) Hok) as Hw.
  by apply (written_active vm v _ rd eb start k _ e Hw); auto with lia.
Qed.

(** Loading some elements and then the others. *)
Lemma loaded_lanes_app rd eb addr on m start j k v :
  start <= j <= k ->
  loaded_lanes rd eb addr on m start k v
  = loaded_lanes rd eb addr on m j k (loaded_lanes rd eb addr on m start j v).
Proof. intros. unfold loaded_lanes, fold_on. by rewrite (range_split start j k), fold_left_app. Qed.

Lemma loaded_lanes_ext rd eb addr on m m' start k v :
  (forall e, start <= e < k -> on e = true -> fetch m' (addr e) eb = fetch m (addr e) eb) ->
  loaded_lanes rd eb addr on m' start k v = loaded_lanes rd eb addr on m start k v.
Proof.
  intros Hm. unfold loaded_lanes, fold_on.
  assert (Hin : forall e, e ∈ range start k -> start <= e < k)
    by (intros e He; apply elem_of_seqZ in He; lia).
  revert v Hin. induction (range start k) as [|e l IH]; intros v Hin; [done|]. cbn [fold_left].
  rewrite IH by (intros; apply Hin; by right). destruct (on e) eqn:E; [|done].
  rewrite Hm; [done | apply Hin; by left | done].
Qed.

Lemma find_app {A} (f : A -> bool) l1 l2 :
  find f (l1 ++ l2) = match find f l1 with Some x => Some x | None => find f l2 end.
Proof. induction l1 as [|x l1 IH]; [done|]. cbn. by destruct (f x). Qed.

(** An access that does not fault before [j] faults first from [j] on. *)
Lemma first_fault_app eb stop addr on m start j :
  start <= j <= stop -> (forall e, start <= e < j -> faults eb addr on m e = false) ->
  first_fault eb stop addr on m start = first_fault eb stop addr on m j.
Proof.
  intros Hj Hf. unfold first_fault. rewrite (range_split start j stop), find_app by done.
  destruct (find _ (range start j)) as [e|] eqn:E; [|done]. apply find_some in E as [He Hb].
  apply list_elem_of_In, elem_of_seqZ in He. rewrite Hf in Hb by lia. done.
Qed.

Lemma first_fault_some eb stop addr on m start k :
  first_fault eb stop addr on m start = Some k ->
  start <= k < stop /\ faults eb addr on m k = true
  /\ forall e, start <= e < k -> faults eb addr on m e = false.
Proof.
  intros Hk. pose proof (first_fault_range _ _ _ _ _ _ _ Hk) as Hr. split; [done|].
  pose proof (find_some _ _ Hk) as [_ Hb]. split; [done|]. intros e He.
  unfold first_fault in Hk. rewrite (range_split start k stop), find_app in Hk by lia.
  destruct (find _ (range start k)) as [j|] eqn:E.
  - apply find_some in E as [Hj _]. apply list_elem_of_In, elem_of_seqZ in Hj.
    injection Hk as ->. lia.
  - apply (find_none _ _ E). apply list_elem_of_In, elem_of_seqZ. lia.
Qed.

Lemma first_fault_none eb stop addr on m start :
  first_fault eb stop addr on m start = None ->
  forall e, start <= e < stop -> faults eb addr on m e = false.
Proof. intros E e He. apply (find_none _ _ E). apply list_elem_of_In, elem_of_seqZ. lia. Qed.

Lemma faults_fetch eb addr on m e :
  faults eb addr on m e = false -> on e = true -> is_Some (fetch m (addr e) eb).
Proof. unfold faults. intros Hf Hon. rewrite Hon in Hf. by destruct (fetch _ _ _). Qed.

(** ** Unit-stride and strided instructions *)

(** The element width of the encoding. *)
Definition elem_bytes insn : option Z :=
  match insn_funct3 insn with
  | 0 => Some 1
  | 5 => Some 2
  | 6 => Some 4
  | 7 => Some 8
  | _ => None
  end.

(** The address of element [e]: [rs1] plus [e] steps of the element width or of
    [rs2], modulo the address space. *)
Definition elem_addr insn s (eb e : Z) : Z :=
  let step := match insn_op insn with Vlse | Vsse => get_x s (insn_rs2 insn) | _ => eb end in
  (get_x s (insn_rs1 insn) + e * step) mod 2 ^ xbits s.

(** The accesses with computed addresses and one element per index: unit-stride,
    strided and fault-only-first.  Indexed, segment, mask and whole-register accesses
    are outside the theorems of this file. *)
Definition is_strided_load (op : Op) : bool := match op with Vle | Vlse | Vleff => true | _ => false end.
Definition is_strided_store (op : Op) : bool := match op with Vse | Vsse => true | _ => false end.
Definition fault_only_first (op : Op) : bool := match op with Vleff => true | _ => false end.

(** Not an encoding of the arithmetic opcode OP-V. *)
Definition memory_encoding insn : Prop := Z.land (insn_raw insn) 0x7f <> 0x57.

Lemma encoded_width_ok insn eb s :
  elem_bytes insn = Some eb -> encoded_width insn s = (Ok eb, s).
Proof. unfold elem_bytes, encoded_width. intros Hb. by repeat case_match; simplify_eq. Qed.

Lemma elem_bytes_range insn eb : elem_bytes insn = Some eb -> 1 <= eb <= 8.
Proof. unfold elem_bytes. intros Hb. repeat case_match; simplify_eq; lia. Qed.

Lemma offset_addr_mod s insn off :
  offset_addr s (base_addr s insn) off = (get_x s (insn_rs1 insn) + off) mod 2 ^ xbits s.
Proof.
  unfold offset_addr, base_addr, xmask, xbits, wadd. rewrite !land_xlen_mask, as_u_64_mod.
  apply mod_add_congr; [apply Zmod_mod | apply as_u_64_mod].
Qed.

Lemma as_i_64_mod xl x : as_i64 x mod 2 ^ xlen_bits xl = x mod 2 ^ xlen_bits xl.
Proof. rewrite <- (as_u_64_mod xl (as_i64 x)), <- (as_u_64_mod xl x). f_equal. by apply as_u_as_i. Qed.

Lemma strided_mod xl e x :
  strided e (as_i64 x) mod 2 ^ xlen_bits xl = (e * x) mod 2 ^ xlen_bits xl.
Proof.
  unfold strided. rewrite as_u_64_mod, as_i_64_mod. apply mod_mul_congr; apply as_i_64_mod.
Qed.

Lemma unit_addr insn s eb e :
  match insn_op insn with Vlse | Vsse => False | _ => True end ->
  offset_addr s (base_addr s insn) (e * eb) = elem_addr insn s eb e.
Proof. intros Hop. rewrite offset_addr_mod. unfold elem_addr. by destruct (insn_op insn). Qed.

Lemma strided_addr insn s eb e :
  match insn_op insn with Vlse | Vsse => True | _ => False end ->
  offset_addr s (base_addr s insn) (strided e (as_i64 (get_x s (insn_rs2 insn))))
  = elem_addr insn s eb e.
Proof.
  intros Hop. rewrite offset_addr_mod. unfold elem_addr, xbits.
  transitivity ((get_x s (insn_rs1 insn) + e * get_x s (insn_rs2 insn)) mod 2 ^ xlen_bits (cpu_xlen s)).
  - apply mod_add_congr; [done | apply strided_mod].
  - by destruct (insn_op insn).
Qed.

(** A vector memory instruction on a hart where [vill] is clear. *)
Lemma exec_vector_access insn s :
  is_strided_load (insn_op insn) || is_strided_store (insn_op insn) = true -> memory_encoding insn ->
  vill s = false ->
  exec_vector insn s
  = (exec_vector_memory insn (insn_vm insn) (insn_rd insn) (c_vstart s) (c_vl s);;
     modify (set_c_vstart 0)) s.
Proof.
  intros Hop He Hv. unfold exec_vector. rewrite (bind_ok get _ s s s eq_refl).
  fold (vill s). rewrite Hv. cbn [andb]. fold (insn_vm insn).
  rewrite (bind_ok (validate insn (insn_vm insn)) _ s tt s).
  { unfold exec_vector_op. by destruct (insn_op insn). }
  unfold validate, is_vector_fp_encoding. rewrite (bind_ok get _ s s s eq_refl).
  rewrite (proj2 (Z.eqb_neq _ _) He). unfold validate_op. by destruct (insn_op insn).
Qed.

Lemma for_active_ext (vm : bool) start stop body body' s :
  (forall e, body e = body' e) -> for_active vm start stop body s = for_active vm start stop body' s.
Proof.
  intros Hb. apply fold_elems_ext. intros e a s'. unfold if_active, mbind, exec_bind, ebind.
  destruct vm; unfold eret; [by rewrite Hb|].
  destruct (vmask_bit e s') as [[[]|t|] s1]; by rewrite ?Hb.
Qed.

(** The loop of an access other than [vleff]. *)
Lemma access_loop (load : bool) insn s eb :
  elem_bytes insn = Some eb ->
  match insn_op insn with
  | Vle | Vlse => load = true
  | Vse | Vsse => load = false
  | _ => False
  end ->
  exec_vector_memory insn (insn_vm insn) (insn_rd insn) (c_vstart s) (c_vl s) s
  = for_active (insn_vm insn) (c_vstart s) (c_vl s)
      (fun e => transfer load (insn_rd insn) e eb (elem_addr insn s eb e)) s.
Proof.
  intros Hb Hop. unfold exec_vector_memory.
  destruct (insn_op insn) eqn:E; try contradiction; subst load; unfold vector_unit, vector_strided;
    rewrite (bind_ok _ _ _ _ _ (encoded_width_ok _ _ s Hb)), (bind_ok get _ s s s eq_refl);
    cbv zeta; apply for_active_ext; intros e; f_equal;
    solve [apply unit_addr; by rewrite E | apply strided_addr; by rewrite E].
Qed.

(** A hart on which the instruction transfers elements of [eb] bytes. *)
Record transfers insn s (eb : Z) : Prop := {
  tr_bytes : elem_bytes insn = Some eb;
  tr_encoding : memory_encoding insn;
  tr_vill : vill s = false;
  tr_length : length (c_v s) = Z.to_nat (32 * VLENB);
  tr_vl : c_vl s <= VLEN;
  tr_vstart : 0 <= c_vstart s;
  tr_rd : 0 <= insn_rd insn;
  tr_group : insn_rd insn * VLENB + c_vl s * eb <= 32 * VLENB
}.

Lemma transfers_lane insn s eb e :
  transfers insn s eb -> 0 <= e < c_vl s -> lane_ok (c_v s) (insn_rd insn) e eb.
Proof.
  intros Ht He. pose proof (elem_bytes_range _ _ (tr_bytes _ _ _ Ht)). destruct Ht.
  split_and!; [by apply lane_offset_nonneg; lia | lia | lia |].
  rewrite tr_length0. unfold lane_offset. change VLENB with 16 in *. nia.
Qed.

(** The outcome of a load, where [on] tells the active elements. *)
Definition load_outcome insn s (eb : Z) (on : Z -> bool) : result Trap unit * Hart :=
  let addr := elem_addr insn s eb in
  let loaded k := set_c_v (loaded_lanes (insn_rd insn) eb addr on (c_mem s) (c_vstart s) k (c_v s)) s in
  match first_fault eb (c_vl s) addr on (c_mem s) (c_vstart s) with
  | None => (Ok tt, set_c_vstart 0 (loaded (c_vl s)))
  | Some k =>
      if fault_only_first (insn_op insn) && negb (k =? 0)
      then (Ok tt, set_c_vstart 0 (set_c_vl k (loaded k)))
      else (Err (acc_fault false (addr k)), set_c_vstart k (loaded k))
  end.

Lemma set_v_same s : set_c_v (c_v s) s = s.
Proof. by destruct s. Qed.

Lemma exec_vector_load insn s eb on :
  is_strided_load (insn_op insn) = true -> transfers insn s eb ->
  insn_vm insn = true \/ insn_rd insn <> 0 ->
  (forall e, c_vstart s <= e < c_vl s -> active (insn_vm insn) (c_v s) e = on e) ->
  exec_vector insn s = load_outcome insn s eb on.
Proof.
  intros Hop Ht Hm Hon. rewrite exec_vector_access; [|by rewrite Hop | by apply Ht..].
  assert (Hl : loadable (insn_vm insn) (insn_rd insn) eb (c_vl s) on (c_vstart s) (c_v s)).
  { intros e He. split; [|by apply Hon]. pose proof (tr_vstart _ _ _ Ht).
    apply (transfers_lane insn s); [done | lia]. }
  assert (Hm' : insn_vm insn = true \/ 1 <= insn_rd insn)
    by (pose proof (tr_rd _ _ _ Ht); destruct Hm; [by left | right; lia]).
  pose proof (load_loop s _ _ _ _ (elem_addr insn s eb) on (tr_vl _ _ _ Ht) (tr_rd _ _ _ Ht) Hm'
    (c_vstart s) (c_v s) (tr_vstart _ _ _ Ht) Hl) as Hloop.
  pose proof (vleff_loop_outcome s _ _ eb _ (elem_addr insn s eb) on (tr_vl _ _ _ Ht)
    (tr_rd _ _ _ Ht) Hm' (base_addr s insn) (c_vstart s) (c_v s)) as Hff.
  rewrite set_v_same in Hloop, Hff. unfold load_outcome.
  destruct (fault_only_first (insn_op insn)) eqn:E; cbn [andb].
  - specialize (Hff ltac:(intros; apply unit_addr; by destruct (insn_op insn))
      (tr_vstart _ _ _ Ht) Hl).
    replace (exec_vector_memory insn) with (vector_first_fault insn)
      by (unfold exec_vector_memory; by destruct (insn_op insn)).
    unfold vector_first_fault, mbind, exec_bind, ebind.
    rewrite (encoded_width_ok _ _ s (tr_bytes _ _ _ Ht)). unfold get. rewrite Hff.
    destruct (first_fault _ _ _ _ _ _) as [k|]; [|by destruct s].
    destruct (Z.eqb_spec k 0) as [->|]; done.
  - unfold mbind, exec_bind, ebind.
    rewrite (access_loop true _ _ eb), Hloop; [|apply Ht|by destruct (insn_op insn)].
    by destruct (first_fault _ _ _ _ _ _).
Qed.

(** The hypotheses of [transfers] on a well-formed hart. *)
Definition group_fits insn s (eb : Z) : Prop :=
  insn_rd insn * VLENB + c_vl s * eb <= 32 * VLENB.

Lemma hart_transfers cfg insn s eb :
  hart_ok cfg s -> fits 5 (insn_rd insn) -> elem_bytes insn = Some eb -> memory_encoding insn ->
  vill s = false -> group_fits insn s eb -> transfers insn s eb.
Proof.
  intros Hs Hd Hb He Hv Hg. pose proof (vconfig_vl _ _ _ (ok_vconfig _ _ Hs)).
  split; try done; [apply Hs | lia | apply (ok_vstart _ _ Hs) | apply Hd].
Qed.

Lemma access_vector op : is_strided_load op || is_strided_store op = true -> is_vector op = true.
Proof. by destruct op. Qed.

Lemma exec_vector_vill insn s :
  ignores_vill (insn_op insn) = false -> vill s = true ->
  exec_vector insn s = (Err (trap_illegal (insn_raw insn)), s).
Proof.
  intros Hi Hv. unfold exec_vector. rewrite (bind_ok get _ s s s eq_refl). fold (vill s).
  by rewrite Hv, Hi.
Qed.

(** C8. The unit-stride, strided and fault-only-first loads: with [vill] set they are
    illegal.  Otherwise element [e] is read at [rs1] plus [e] element widths (or
    [e] times [rs2]) modulo the address space.  When every active body element can
    be read, each is loaded from memory, the rest of the register file and of
    the hart is unchanged and [vstart] returns to zero.  Otherwise there is a
    first element [k] whose access is rejected: exactly the active elements before
    it are loaded, and either the access fault of [k] is raised with [vstart] at
    [k], or, for a fault-only-first load past element 0, the instruction retires with
    [vl] cut to [k].  The register group must lie inside the register file and a
    masked load must not overwrite [v0]: the engine checks neither. *)
Theorem execute_vector_load cfg insn pc s eb :
  let s0 := started insn pc s in
  let on := active (insn_vm insn) (c_v s) in
  let addr := elem_addr insn s eb in
  let value e := default 0 (fetch (c_mem s) (addr e) eb) in
  let readable e := is_Some (fetch (c_mem s) (addr e) eb) in
  hart_ok cfg s -> fits 5 (insn_rd insn) -> is_strided_load (insn_op insn) = true ->
  elem_bytes insn = Some eb -> memory_encoding insn -> group_fits insn s eb ->
  insn_vm insn = true \/ insn_rd insn <> 0 ->
  if vill s then execute insn pc s = (Err (trap_illegal (insn_raw insn)), s0)
  else
    (exists v', (forall e, c_vstart s <= e < c_vl s -> on e = true -> readable e)
       /\ written (c_v s) v' (insn_rd insn) eb (c_vstart s) (c_vl s) on value
       /\ execute insn pc s = (Ok RiscVExit.Continue, set_c_vstart 0 (set_c_v v' s0)))
    \/ (exists k v', c_vstart s <= k < c_vl s /\ on k = true /\ ~ readable k
          /\ (forall e, c_vstart s <= e < k -> on e = true -> readable e)
          /\ written (c_v s) v' (insn_rd insn) eb (c_vstart s) k on value
          /\ execute insn pc s
             = if fault_only_first (insn_op insn) && negb (k =? 0)
               then (Ok RiscVExit.Continue, set_c_vstart 0 (set_c_vl k (set_c_v v' s0)))
               else (Err (acc_fault false (addr k)), set_c_vstart k (set_c_v v' s0))).
Proof.
  intros s0 on addr value readable Hs Hd Hop Hb He Hg Hm.
  rewrite execute_vector_arm by (apply access_vector; by rewrite Hop). fold s0.
  destruct (vill s) eqn:Hv.
  { by rewrite exec_vector_vill by (done || by destruct (insn_op insn)). }
  assert (Ht : transfers insn s0 eb) by (by apply (hart_transfers cfg); [apply started_ok| ..]).
  rewrite (exec_vector_load insn s0 eb on) by done. unfold load_outcome.
  change (elem_addr insn s0 eb) with addr. change (c_mem s0) with (c_mem s).
  change (c_v s0) with (c_v s). change (c_vl s0) with (c_vl s). change (c_vstart s0) with (c_vstart s).
  assert (Hw : forall k, k <= c_vl s ->
    written (c_v s) (loaded_lanes (insn_rd insn) eb addr on (c_mem s) (c_vstart s) k (c_v s))
      (insn_rd insn) eb (c_vstart s) k on value).
  { intros k Hk. pose proof (tr_vstart _ _ _ Ht : 0 <= c_vstart s).
    apply loaded_written; [apply Hd | lia |]. intros e He'. apply (transfers_lane insn s0); [done|].
    change (c_vl s0) with (c_vl s). lia. }
  destruct (first_fault _ _ _ _ _ _) as [k|] eqn:Hk.
  - right. apply first_fault_some in Hk as (Hr & Hf & Hlt).
    unfold faults in Hf. apply andb_true_iff in Hf as [Hon Hf].
    eexists k, _. split_and!; [lia | lia | done | | | apply Hw; lia |].
    + unfold readable. destruct (fetch _ _ _); [done|]. by intros [? ?].
    + intros e He' Hoe. by apply (faults_fetch eb addr on); [apply Hlt|].
    + by destruct (_ && _).
  - left. eexists. split_and!; [|by apply Hw|reflexivity].
    + intros e He' Hoe. by apply (faults_fetch eb addr on); [apply (first_fault_none _ _ _ _ _ _ Hk)|].
Qed.

(** The outcome of a load does not depend on what [vstart] skips. *)
Lemma load_outcome_resume insn s eb on k m m2 :
  let addr := elem_addr insn s eb in
  c_vstart s <= k < c_vl s ->
  (forall e, c_vstart s <= e < k -> faults eb addr on m e = false) ->
  (forall e, c_vstart s <= e < k -> on e = true -> fetch m2 (addr e) eb = fetch m (addr e) eb) ->
  load_outcome insn (set_c_mem m2 (set_c_vstart k (set_c_v
    (loaded_lanes (insn_rd insn) eb addr on m (c_vstart s) k (c_v s)) s))) eb on
  = load_outcome insn (set_c_mem m2 s) eb on.
Proof.
  intros addr Hk Hlt Hag. unfold load_outcome. cbn [set_c_mem set_c_vstart set_c_v c_v c_vl c_mem c_vstart].
  match goal with |- context [elem_addr insn ?x eb] => change (elem_addr insn x eb) with addr end.
  change (elem_addr insn (set_c_mem m2 s) eb) with addr.
  rewrite <- (loaded_lanes_ext _ _ _ _ _ m2) by done.
  rewrite (first_fault_app eb (c_vl s) addr on m2 (c_vstart s) k); [|lia|].
  - destruct (first_fault _ _ _ _ _ k) as [j|] eqn:Hj.
    + apply first_fault_range in Hj. rewrite <- loaded_lanes_app by lia. by destruct (_ && _).
    + by rewrite <- loaded_lanes_app by lia.
  - intros e He. specialize (Hlt e He). unfold faults in *. destruct (on e) eqn:E; [|done].
    by rewrite Hag.
Qed.

(** C7. The unit-stride, strided and fault-only-first loads can be restarted.  One that
    faulted left [vstart] at the element it could not read; executed again after the
    memory was repaired - any memory that still holds the elements already loaded -
    it ends exactly as the whole instruction would have on the repaired memory,
    further faults included.  The register group must lie inside the register file
    and a masked load must not overwrite [v0]: the engine checks neither. *)
Theorem vector_load_restart cfg insn pc s eb t s1 m2 :
  hart_ok cfg s -> fits 5 (insn_rd insn) -> is_strided_load (insn_op insn) = true ->
  elem_bytes insn = Some eb -> memory_encoding insn -> vill s = false -> group_fits insn s eb ->
  insn_vm insn = true \/ insn_rd insn <> 0 ->
  execute insn pc s = (Err t, s1) ->
  (forall e, c_vstart s <= e < c_vstart s1 -> active (insn_vm insn) (c_v s) e = true ->
     fetch m2 (elem_addr insn s eb e) eb = fetch (c_mem s) (elem_addr insn s eb e) eb) ->
  execute insn pc (set_c_mem m2 s1) = execute insn pc (set_c_mem m2 s).
Proof.
  intros Hs Hd Hop Hb He Hv Hg Hm Hx Hag. revert Hx. set (on := active (insn_vm insn) (c_v s)) in *.
  pose proof (elem_bytes_range _ _ Hb) as Heb.
  assert (Hvec : is_vector (insn_op insn) = true) by (apply access_vector; by rewrite Hop).
  rewrite !execute_vector_arm by done. set (s0 := started insn pc s).
  assert (Ht : transfers insn s0 eb) by (by apply (hart_transfers cfg); [apply started_ok| ..]).
  rewrite (exec_vector_load insn s0 eb on) by done. unfold load_outcome. cbv zeta.
  destruct (first_fault _ _ _ _ _ _) as [k|] eqn:Hk; [|done]. destruct (_ && _); [done|].
  cbn [continued]. intros [= <- <-].
  apply first_fault_some in Hk as (Hr & Hf & Hlt).
  assert (Hok : forall e, c_vstart s0 <= e < k -> lane_ok (c_v s0) (insn_rd insn) e eb).
  { intros e He'. pose proof (tr_vstart _ _ _ Ht). apply (transfers_lane insn s0); [done|lia]. }
  set (v' := loaded_lanes _ _ _ _ _ _ _ _) in *.
  assert (Hw : written (c_v s0) v' (insn_rd insn) eb (c_vstart s0) k on _)
    by (apply loaded_written; [apply Hd | apply Ht | done]).
  rewrite (exec_vector_load insn (started insn pc (set_c_mem m2 (set_c_vstart k (set_c_v v' s0)))) eb on); try done.
  - rewrite (exec_vector_load insn (started insn pc (set_c_mem m2 s)) eb on); try done.
    + f_equal. apply (load_outcome_resume insn s0 eb on k (c_mem s) m2); done.
    + destruct Ht. by split.
  - destruct Ht. split; try done; cbn.
    + by rewrite (wr_length _ _ _ _ _ _ _ _ Hw).
    + lia.
  - intros e He'. pose proof (tr_vl _ _ _ Ht). pose proof (tr_vstart _ _ _ Ht).
    apply (loaded_active (insn_vm insn) (insn_rd insn) eb _ (c_mem s) (c_vstart s) k (c_v s));
      try done; cbn in *; [apply Hd | | lia | lia | lia].
    pose proof (proj1 Hd). destruct Hm; [by left | right; lia].
Qed.

(** ** Stores *)

Section Storing.
Variables (s : Hart) (vm : bool) (rd eb start stop : Z) (addr : Z -> Z).
Abbreviation v := (c_v s).
Abbreviation on := (active vm (c_v s)).

Definition lane_bytes (e : Z) : list Z := to_le_bytes (Z.to_nat eb) (lane v rd e eb).

(** The memory after the active elements of [start..k] were written in turn. *)
Definition stored_mem (k : Z) : M :=
  fold_on on (fun e m => snd (mem_write m (addr e) (lane_bytes e))) start k (c_mem s).

(** Every one of these writes was accepted. *)
Definition writable (k : Z) : Prop :=
  forall e, start <= e < k -> on e = true ->
    fst (mem_write (stored_mem e) (addr e) (lane_bytes e)) = inr tt.

(** No two active elements share a byte. *)
Definition elements_apart : Prop :=
  forall e e', start <= e < e' -> e' < stop -> on e = true -> on e' = true ->
    addr e + eb <= addr e' \/ addr e' + eb <= addr e.

Hypothesis Hstart : 0 <= start.
Hypothesis Hstop : stop <= VLEN.
Hypothesis Hlen : length v = Z.to_nat (32 * VLENB).
Hypothesis Hok : forall e, start <= e < stop -> lane_ok v rd e eb.
Hypothesis Hwf : mem_wf (c_mem s).

Lemma stored_mem_nil : stored_mem start = c_mem s.
Proof. unfold stored_mem, fold_on. by rewrite range_nil. Qed.

Lemma stored_mem_snoc k :
  start <= k ->
  stored_mem (k + 1)
  = if on k then snd (mem_write (stored_mem k) (addr k) (lane_bytes k)) else stored_mem k.
Proof. intros. unfold stored_mem. by rewrite fold_on_snoc. Qed.

Lemma stored_mem_wf k : mem_wf (stored_mem k).
Proof.
  unfold stored_mem, fold_on. revert Hwf. generalize (c_mem s) as m.
  induction (range start k) as [|e l IH]; intros m Hm; [done|]. cbn [fold_left]. apply IH.
  destruct (on e); [|done]. destruct (mem_write m (addr e) (lane_bytes e)) as [r m'] eqn:E.
  eapply mem_write_wf; [done | apply to_le_bytes_fits | done].
Qed.

Lemma writable_snoc k :
  writable k -> (on k = true -> fst (mem_write (stored_mem k) (addr k) (lane_bytes k)) = inr tt) ->
  writable (k + 1).
Proof.
  intros Hw Hk e He Hon. destruct (decide (e = k)) as [->|]; [by apply Hk|]. apply Hw; [lia|done].
Qed.

(** The transfer of a store. *)
Lemma transfer_store e m :
  lane_ok v rd e eb ->
  transfer false rd e eb (addr e) (set_c_mem m s)
  = let '(r, m') := mem_write m (addr e) (lane_bytes e) in
    match r with
    | inl _ => (Err (acc_fault true (addr e)), set_c_vstart e (set_c_mem m' s))
    | inr _ => (Ok tt, set_c_mem m' s)
    end.
Proof.
  intros Ho. pose proof Ho as (_ & Hb & _). unfold transfer.
  rewrite (proj2 (Z.ltb_ge 8 eb)) by lia. unfold mbind, exec_bind, ebind.
  rewrite velem_lane by done. unfold vector_write. cbn [set_c_mem c_mem c_v]. fold (lane_bytes e).
  by destruct (mem_write m (addr e) (lane_bytes e)) as [[]].
Qed.

(** The loop of [vse] and [vsse]. *)
Lemma store_loop :
  (writable stop
   /\ for_active vm start stop (fun e => transfer false rd e eb (addr e)) s
      = (Ok tt, set_c_mem (stored_mem stop) s))
  \/ (exists k, start <= k < stop /\ on k = true /\ writable k
        /\ fst (mem_write (stored_mem k) (addr k) (lane_bytes k)) <> inr tt
        /\ for_active vm start stop (fun e => transfer false rd e eb (addr e)) s
           = (Err (acc_fault true (addr k)), set_c_vstart k (set_c_mem (stored_mem k) s))).
Proof.
  destruct (Z.le_gt_cases start stop) as [Hle|Hgt]; cycle 1.
  { left. split; [intros e He; lia|]. unfold for_active, fold_active, stored_mem, fold_on.
    rewrite range_nil by lia. by destruct s. }
  pose (inv k s' := s' = set_c_mem (stored_mem k) s /\ writable k).
  destruct (for_active_rule inv vm on start stop
    (fun e => transfer false rd e eb (addr e)) s Hle) as [H1|H1].
  - split; [rewrite stored_mem_nil; by destruct s | intros e He; lia].
  - intros k s' Hk [-> Hw]. split_and!.
    + apply (active_spec vm k (set_c_mem (stored_mem k) s)); [lia|]. cbn [set_c_mem c_v]. rewrite Hlen.
      apply Z.div_lt_upper_bound; [lia|]. unfold VLEN in *. change VLENB with 16. lia.
    + intros Hoff. split; [by rewrite stored_mem_snoc, Hoff by lia|]. apply writable_snoc; [done|]. by rewrite Hoff.
    + intros Hon. rewrite transfer_store by (apply Hok; lia).
      destruct (mem_write (stored_mem k) (addr k) (lane_bytes k)) as [[err|[]] m'] eqn:E.
      * right. eexists _, _. done.
      * left. eexists. split; [done|]. split.
        -- by rewrite stored_mem_snoc, Hon, E by lia.
        -- apply writable_snoc; [done|]. by rewrite E.
  - left. destruct H1 as (s' & Hl & -> & Hw). done.
  - right. destruct H1 as (k & s' & t & s1 & Hk & Hon & [-> Hw] & Hb & Hl). exists k.
    rewrite transfer_store in Hb by (apply Hok; lia).
    destruct (mem_write (stored_mem k) (addr k) (lane_bytes k)) as [[err|[]] m'] eqn:E; [|done].
    apply mem_write_err in E as ->; [|apply stored_mem_wf]. injection Hb as <- <-. done.
Qed.

(** A stored element reads back. *)
Lemma stored_fetch k e :
  elements_apart -> 0 <= eb -> Forall (fits 8) v -> writable k -> start <= e < k -> k <= stop ->
  on e = true -> fetch (stored_mem k) (addr e) eb = Some (lane v rd e eb).
Proof.
  intros Hap Hb Hv Hw [He Hek] Hks Hon.
  assert (exists n, 0 <= n /\ k = e + 1 + n) as (n & Hn & ->) by (exists (k - e - 1); lia).
  clear Hek. revert n Hn Hw Hks. apply (natlike_ind (fun n => _ -> _ -> _)).
  - intros Hw _. rewrite Z.add_0_r, stored_mem_snoc, Hon by lia. rewrite Z.add_0_r in Hw.
    destruct (mem_write (stored_mem e) (addr e) (lane_bytes e)) as [r m'] eqn:E.
    specialize (Hw e ltac:(lia) Hon). rewrite E in Hw. cbn in Hw. subst r.
    apply mem_read_write in E; [|apply stored_mem_wf]. unfold lane_bytes in E.
    rewrite to_le_bytes_length in E. unfold fetch. cbn [snd]. rewrite E.
    rewrite from_to_le_bytes, Z2Nat.id by done. f_equal. apply as_u_small, lane_fits; done.
  - intros n Hn IH Hw Hks. rewrite <- Z.add_1_r, Z.add_assoc in *.
    assert (Hw' : writable (e + 1 + n)) by (intros e' ?; apply Hw; lia).
    rewrite stored_mem_snoc by lia. destruct (on (e + 1 + n)) eqn:Hon'; [|apply IH; [done|lia]].
    rewrite <- IH by (done || lia). specialize (Hw (e + 1 + n) ltac:(lia) Hon').
    destruct (mem_write (stored_mem _) _ _) as [r m'] eqn:E. cbn in *. subst r.
    unfold fetch. rewrite (mem_read_frame _ _ _ _ (addr e) (Z.to_nat eb) (stored_mem_wf _) E); [done|].
    unfold lane_bytes. rewrite to_le_bytes_length, Z2Nat.id by done.
    apply Hap; lia || done.
Qed.
End Storing.

(** A store on the hart it starts in. *)
Lemma exec_vector_store insn s eb :
  let vm := insn_vm insn in
  let addr := elem_addr insn s eb in
  let mem := stored_mem s vm (insn_rd insn) eb (c_vstart s) addr in
  let upto := writable s vm (insn_rd insn) eb (c_vstart s) addr in
  is_strided_store (insn_op insn) = true -> transfers insn s eb -> mem_wf (c_mem s) ->
  (upto (c_vl s) /\ exec_vector insn s = (Ok tt, set_c_vstart 0 (set_c_mem (mem (c_vl s)) s)))
  \/ (exists k, c_vstart s <= k < c_vl s /\ active vm (c_v s) k = true /\ upto k
        /\ fst (mem_write (mem k) (addr k) (lane_bytes s (insn_rd insn) eb k)) <> inr tt
        /\ exec_vector insn s
           = (Err (acc_fault true (addr k)), set_c_vstart k (set_c_mem (mem k) s))).
Proof.
  intros vm addr mem upto Hop Ht Hwf. subst vm addr mem upto.
  rewrite exec_vector_access; [|by rewrite Hop, orb_true_r | by apply Ht..].
  unfold mbind, exec_bind, ebind.
  rewrite (access_loop false _ _ eb); [|apply Ht|by destruct (insn_op insn)].
  assert (Hok : forall e, c_vstart s <= e < c_vl s -> lane_ok (c_v s) (insn_rd insn) e eb).
  { intros e He. pose proof (tr_vstart _ _ _ Ht). apply (transfers_lane insn s); [done|lia]. }
  destruct (store_loop s (insn_vm insn) (insn_rd insn) eb _ _ (elem_addr insn s eb) (tr_vstart _ _ _ Ht)
    (tr_vl _ _ _ Ht) (tr_length _ _ _ Ht) Hok Hwf) as [H1|H1].
  - left. destruct H1 as [Hu ->]. done.
  - right. destruct H1 as (k & Hk & Hon & Hu & Hf & ->). by exists k.
Qed.

(** The unit-stride and strided stores: with [vill] set they are illegal.
    Otherwise the bytes of each active body element are written at its address, in
    element order.  When memory accepts them all, nothing but memory changes and
    [vstart] returns to zero.  Otherwise there is a first element [k] whose write
    memory rejects: the access fault of [k] is raised with [vstart] at [k], and
    memory holds exactly the elements before it. *)
Theorem execute_vector_store cfg insn pc s eb :
  let s0 := started insn pc s in
  let vm := insn_vm insn in
  let addr := elem_addr insn s eb in
  let mem := stored_mem s vm (insn_rd insn) eb (c_vstart s) addr in
  let upto := writable s vm (insn_rd insn) eb (c_vstart s) addr in
  hart_ok cfg s -> fits 5 (insn_rd insn) -> is_strided_store (insn_op insn) = true ->
  elem_bytes insn = Some eb -> memory_encoding insn -> group_fits insn s eb ->
  if vill s then execute insn pc s = (Err (trap_illegal (insn_raw insn)), s0)
  else
    (upto (c_vl s)
     /\ execute insn pc s
        = (Ok RiscVExit.Continue, set_c_vstart 0 (set_c_mem (mem (c_vl s)) s0)))
    \/ (exists k, c_vstart s <= k < c_vl s /\ active vm (c_v s) k = true /\ upto k
          /\ fst (mem_write (mem k) (addr k) (lane_bytes s (insn_rd insn) eb k)) <> inr tt
          /\ execute insn pc s
             = (Err (acc_fault true (addr k)), set_c_vstart k (set_c_mem (mem k) s0))).
Proof.
  intros s0 vm addr mem upto Hs Hd Hop Hb He Hg.
  rewrite execute_vector_arm by (apply access_vector; by rewrite Hop, orb_true_r). fold s0.
  destruct (vill s) eqn:Hv.
  { by rewrite exec_vector_vill by (done || by destruct (insn_op insn)). }
  assert (Ht : transfers insn s0 eb) by (by apply (hart_transfers cfg); [apply started_ok| ..]).
  destruct (exec_vector_store insn s0 eb Hop Ht (ok_mem _ _ Hs))
    as [[Hu ->] | (k & Hk & Hon & Hu & Hf & ->)].
  - by left.
  - right. by exists k.
Qed.

(** C9. A vector register group stored and loaded again: when a unit-stride or
    strided store from [vstart = 0] whose elements do not overlap retires, the
    unit-stride, strided or fault-only-first load of the same element width, mask
    and addresses retires too and puts into every active element of its group the
    element that was stored.  Both register groups must lie inside the register file
    and a masked load must not overwrite [v0]: the engine checks neither. *)
Theorem vector_store_load cfg st ld pc pc' s eb s1 :
  let on := active (insn_vm st) (c_v s) in
  hart_ok cfg s -> fits 5 (insn_rd st) -> fits 5 (insn_rd ld) ->
  is_strided_store (insn_op st) = true -> is_strided_load (insn_op ld) = true ->
  elem_bytes st = Some eb -> elem_bytes ld = Some eb ->
  memory_encoding st -> memory_encoding ld -> group_fits st s eb -> group_fits ld s eb ->
  insn_vm ld = insn_vm st -> insn_vm ld = true \/ insn_rd ld <> 0 ->
  (forall e, elem_addr ld s eb e = elem_addr st s eb e) ->
  elements_apart s (insn_vm st) eb 0 (c_vl s) (elem_addr st s eb) ->
  c_vstart s = 0 -> execute st pc s = (Ok RiscVExit.Continue, s1) ->
  exists v', execute ld pc' s1
    = (Ok RiscVExit.Continue, set_c_vstart 0 (set_c_v v' (started ld pc' s1)))
    /\ written (c_v s) v' (insn_rd ld) eb 0 (c_vl s) on (fun e => lane (c_v s) (insn_rd st) e eb).
Proof.
  intros on Hs Hd Hd' Hop Hop' Hb Hb' He He' Hg Hg' Hvm Hm Haddr Hap H0' Hx.
  rewrite execute_vector_arm in Hx by (apply access_vector; by rewrite Hop, orb_true_r).
  rewrite execute_vector_arm by (apply access_vector; by rewrite Hop'). revert Hx.
  set (s0 := started st pc s). pose proof (elem_bytes_range _ _ Hb) as Heb.
  destruct (vill s) eqn:Hv.
  { by rewrite exec_vector_vill by (done || by destruct (insn_op st)). }
  assert (Ht : transfers st s0 eb) by (by apply (hart_transfers cfg); [apply started_ok| ..]).
  destruct (exec_vector_store st s0 eb Hop Ht (ok_mem _ _ Hs))
    as [[Hu ->] | (k & Hk & Hon & Hu & Hf & ->)]; [|done].
  intros [= <-]. set (m := stored_mem _ _ _ _ _ _ _). set (s2 := started ld pc' _).
  assert (Hf : forall e, 0 <= e < c_vl s -> on e = true ->
    fetch m (elem_addr ld s2 eb e) eb = Some (lane (c_v s) (insn_rd st) e eb)).
  { intros e Hr Hon. change (elem_addr ld s2 eb e) with (elem_addr ld s eb e). rewrite Haddr.
    apply (stored_fetch s0 (insn_vm st) (insn_rd st) eb (c_vstart s) (c_vl s) (elem_addr st s eb)
      (ok_v_len _ _ Hs) (ok_mem _ _ Hs) (c_vl s));
      first [exact Hu | done | lia | apply Hs | rewrite H0'; exact Hap]. }
  assert (Ht' : transfers ld s2 eb) by (destruct Ht; split; try done; apply Hd').
  rewrite (exec_vector_load ld s2 eb on) by (done || intros e _; by rewrite Hvm).
  unfold load_outcome. cbv zeta. change (c_vstart s2) with 0.
  destruct (first_fault _ _ _ _ _ _) as [k|] eqn:Hk.
  { apply first_fault_some in Hk as (Hr & Hk & _). unfold faults in Hk.
    apply andb_true_iff in Hk as [Hon Hk]. by rewrite Hf in Hk. }
  eexists. split; [reflexivity|].
  eapply written_ext; [|apply loaded_written; [apply Hd' | done |]].
  - intros e Hr Hon. cbn beta. change (c_mem s2) with m. by rewrite Hf.
  - intros e Hr. apply (transfers_lane ld s2); done.
Qed.
End VecMemSpec.

(** ** Witnesses

    [vle16.v v4, (x5)] and [vse16.v v2, (x5)] on the hart [vector_hart] ([vl = 8]),
    whose memory ends after four elements, and on one with room for all of them. *)

Definition demo_vle : Insn := Eval vm_compute in decode 0x0202d207 Rv64 rv64gc.
Definition demo_vse : Insn := Eval vm_compute in decode 0x0202d127 Rv64 rv64gc.
Definition wide_memory : FlatMemory :=
  FlatMemory.with_data 0 (flat_data demo_memory ++ replicate 8 0x11).
Definition wide_hart : RiscVCpu FlatMemory := set_c_mem wide_memory vector_hart.

Lemma wide_hart_ok : hart_ok config_rv64gc wide_hart.
Proof.
  apply ok_set_mem; [|apply vector_hart_ok]. unfold wide_memory. cbn.
  repeat constructor; done.
Qed.

Lemma execute_vector_load_witness :
  exists v', execute demo_vle 0 vector_hart
    = (Err (acc_fault false 8), set_c_vstart 4 (set_c_v v' (started demo_vle 0 vector_hart)))
  /\ lane v' 4 0 2 = 0x0093 /\ lane v' 4 3 2 = 0.
Proof.
  destruct (execute_vector_load config_rv64gc demo_vle 0 vector_hart 2)
    as [(v' & Hr & _) | (k & v' & Hk & _ & Hnr & Hlt & Hw & Hx)].
  - apply vector_hart_ok.
  - by split.
  - reflexivity.
  - reflexivity.
  - discriminate.
  - vm_compute. discriminate.
  - by left.
  - exfalso. assert (Hn : ~ is_Some (fetch (c_mem vector_hart) (elem_addr demo_vle vector_hart 2 4) 2))
      by (intros [x Hx]; vm_compute in Hx; discriminate).
    apply Hn, Hr; [by vm_compute | reflexivity].
  - assert (k = 4) as ->.
    { change (0 <= k < 8) in Hk. destruct (Z.lt_trichotomy k 4) as [Hlo | [->|Hhi]]; [|done|].
      - exfalso. apply Hnr. assert (k = 0 \/ k = 1 \/ k = 2 \/ k = 3) as Hc by lia. clear - Hc.
        destruct Hc as [->|[->|[->| ->]]]; eexists; vm_compute; reflexivity.
      - destruct (Hlt 4) as [x Hx']; [change (0 <= 4 < k); lia | reflexivity |].
        exfalso. clear - Hx'. vm_compute in Hx'. discriminate. }
    exists v'. split; [exact Hx|]. pose proof (wr_lane _ _ _ _ _ _ _ _ Hw) as Hl.
    change (insn_rd demo_vle) with 4 in Hl.
    split; [rewrite (Hl 0) | rewrite (Hl 3)]; clear;
      solve [vm_compute; reflexivity | by vm_compute].
Defined.

Lemma vector_load_restart_witness :
  exists s1, execute demo_vle 0 vector_hart = (Err (acc_fault false 8), s1)
  /\ execute demo_vle 0 (set_c_mem wide_memory s1) = execute demo_vle 0 wide_hart
  /\ fst (execute demo_vle 0 (set_c_mem wide_memory s1)) = Ok RiscVExit.Continue.
Proof.
  eexists. split; [vm_compute; reflexivity|].
  assert (Heq : forall s1, execute demo_vle 0 vector_hart = (Err (acc_fault false 8), s1) ->
    execute demo_vle 0 (set_c_mem wide_memory s1) = execute demo_vle 0 wide_hart).
  { intros s1 Hs1.
    apply (vector_load_restart config_rv64gc demo_vle 0 vector_hart 2 (acc_fault false 8) s1 wide_memory);
      [apply vector_hart_ok | by split | reflexivity | reflexivity | discriminate | reflexivity
      | vm_compute; discriminate | by left | exact Hs1 |].
    intros e He _. assert (Hv : c_vstart s1 = 4).
    { assert (E : c_vstart (snd (execute demo_vle 0 vector_hart)) = 4) by (vm_compute; reflexivity).
      by rewrite Hs1 in E. }
    rewrite Hv in He. change (0 <= e < 4) in He.
    assert (e = 0 \/ e = 1 \/ e = 2 \/ e = 3) as Hc by lia. clear - Hc.
    destruct Hc as [->|[->|[->| ->]]]; vm_compute; reflexivity. }
  split; [apply Heq|]; vm_compute; reflexivity.
Defined.

Lemma execute_vector_store_witness :
  exists m, execute demo_vse 0 vector_hart
    = (Err (acc_fault true 8), set_c_vstart 4 (set_c_mem m (started demo_vse 0 vector_hart)))
  /\ flat_data m = [3; 2; 1; 0; 3; 2; 1; 1].
Proof.
  destruct (execute_vector_store config_rv64gc demo_vse 0 vector_hart 2)
    as [(Hu & Hx) | (k & Hk & _ & Hu & Hf & Hx)].
  - apply vector_hart_ok.
  - by split.
  - reflexivity.
  - reflexivity.
  - discriminate.
  - vm_compute. discriminate.
  - exfalso. clear - Hx. vm_compute in Hx. discriminate.
  - assert (k = 4) as ->.
    { assert (E : c_vstart (snd (execute demo_vse 0 vector_hart)) = 4) by (vm_compute; reflexivity).
      by rewrite Hx in E. }
    eexists. split; [exact Hx|]. clear. vm_compute. reflexivity.
Defined.

Lemma wide_hart_apart :
  elements_apart wide_hart (insn_vm demo_vse) 2 0 (c_vl wide_hart) (elem_addr demo_vse wide_hart 2).
Proof.
  intros e e' He He' _ _. left. unfold elem_addr.
  assert (c_vl wide_hart = 8) as Hvl by (vm_compute; reflexivity).
  assert (xbits wide_hart = 64) as -> by (vm_compute; reflexivity).
  assert (get_x wide_hart (insn_rs1 demo_vse) = 0) as -> by (vm_compute; reflexivity).
  cbv zeta iota. rewrite Hvl in He'. cbn [demo_vse insn_op].
  rewrite !Z.mod_small by (split; [lia|]; cbn; lia). lia.
Qed.

Lemma wide_hart_addr e : elem_addr demo_vle wide_hart 2 e = elem_addr demo_vse wide_hart 2 e.
Proof. reflexivity. Qed.

Lemma vector_store_load_witness :
  exists s1 v', execute demo_vse 0 wide_hart = (Ok RiscVExit.Continue, s1)
  /\ execute demo_vle 4 s1
     = (Ok RiscVExit.Continue, set_c_vstart 0 (set_c_v v' (started demo_vle 4 s1)))
  /\ written (c_v wide_hart) v' 4 2 0 8 (active true (c_v wide_hart))
       (fun e => lane (c_v wide_hart) 2 e 2).
Proof.
  destruct (execute demo_vse 0 wide_hart) as [r s1] eqn:Hs1.
  assert (r = Ok RiscVExit.Continue) as ->.
  { assert (E : fst (execute demo_vse 0 wide_hart) = Ok RiscVExit.Continue)
      by (vm_compute; reflexivity). by rewrite Hs1 in E. }
  destruct (vector_store_load config_rv64gc demo_vse demo_vle 0 4 wide_hart 2 s1) as (v' & Hx & Hw);
    [apply wide_hart_ok | by split | by split | reflexivity | reflexivity | reflexivity | reflexivity
    | discriminate | discriminate | vm_compute; discriminate | vm_compute; discriminate | reflexivity
    | by left | apply wide_hart_addr | apply wide_hart_apart | reflexivity | exact Hs1 |].
  exists s1, v'. split; [reflexivity|]. split; [exact Hx | exact Hw].
Defined.
