(* ===== verification/RvFpExec.v ===== *)
(** * What the floating-point instructions do

    The effect of [execute] on the whole hart for the floating-point
    instructions: IEEE-754 arithmetic in every rounding mode, the conversions with
    the integers, the comparisons, the form of the results, and the agreement
    of the interpreter with the evaluator that lifted code calls.  The last
    section gives the inputs on which the routines depart from IEEE-754. *)

From Stdlib Require Import Reals.
From S2P Require Import Prelude RvIsa RvOp RvMemory RvDecode RvFloat RvHostFloat RvFloatOps RvState.
From S2P Require Import RvRound RvFloatSpec RvFloatAdd RvFloatWf RvHostSpec RvHostAdd RvHostConv.
From S2P Require Import RvAluSpec RvExec RvFp RvHart RvFpSpec RvFpIeee RvStep RvStepSafe RvExecSpec.

(** ** Effects *)

Section Effects.
Context {M : Type} `{MemoryLaws M}.
Implicit Types (s : RiscVCpu M) (insn : Insn).

(** A result and its flags in a floating-point register and in [fcsr]. *)
Definition with_float (rd : Z) (fmt : Fmt.t) (r : Z * Z) s : RiscVCpu M :=
  set_c_fcsr (Z.lor (c_fcsr s) (Z.land r.2 0x1f)) (set_f rd (nan_box fmt r.1) s).

(** A result in an integer register. *)
Definition with_int (rd : Z) (r : Z * Z) s : RiscVCpu M :=
  set_c_fcsr (Z.lor (c_fcsr s) (Z.land r.2 0x1f)) (set_x rd r.1 s).

Lemma execute_fp_arm insn pc s :
  is_fp (insn_op insn) = true -> execute insn pc s = exec_fp insn pc (started insn pc s).
Proof.
  intros Hfp. unfold execute, mbind, exec_bind, ebind, get, write_pc, modify.
  by rewrite Hfp, next_pc_masked.
Qed.

Lemma exec_fp_reserved insn pc s :
  eval_excludes (insn_op insn) = false -> fp_no_rm (insn_op insn) = false ->
  eff_rm s (insn_funct3 insn) = None -> exec_fp insn pc s = (Err (trap_illegal (insn_raw insn)), s).
Proof. intros He Hn Hr. by rewrite exec_fp_value, Hn, Hr by done. Qed.

(** What [execute] does with an operation whose rounding mode is [funct3]. *)
Lemma execute_fp_rounded cfg insn pc s dst (Q : RoundingMode -> Z * Z -> Prop) :
  hart_ok cfg s -> is_fp (insn_op insn) = true -> fp_no_rm (insn_op insn) = false ->
  eval_excludes (insn_op insn) = false -> fp_dst_fmt (insn_op insn) = Some dst ->
  (forall rm, exists w, fp_value (started insn pc s) insn rm = Some w /\ Q rm (fp_raw w)) ->
  match eff_rm s (insn_funct3 insn) with
  | None => execute insn pc s = (Err (trap_illegal (insn_raw insn)), started insn pc s)
  | Some rm =>
      exists r, execute insn pc s =
          (Ok RiscVExit.Continue, with_float (insn_rd insn) dst r (started insn pc s)) /\ Q rm r
  end.
Proof.
  intros Hs Hf Hn He Hd HQ. rewrite execute_fp_arm by done. pose proof (started_ok cfg insn pc s Hs) as Hs'.
  change (eff_rm s) with (eff_rm (started insn pc s)).
  destruct (eff_rm (started insn pc s) (insn_funct3 insn)) as [rm|] eqn:Er; [|by apply exec_fp_reserved].
  destruct (HQ rm) as (w & Hw & Hq). exists (fp_raw w). split; [|done].
  apply (fp_retires cfg _ insn pc rm dst w Hs' Hd); [by rewrite Hn | done].
Qed.

(** The same for an operation with an integer result. *)
Lemma execute_fp_int insn pc s (Q : RoundingMode -> Z * Z -> Prop) :
  is_fp (insn_op insn) = true -> eval_excludes (insn_op insn) = false ->
  (forall rm, exists v f, fp_value (started insn pc s) insn rm = Some (ToX v f) /\ Q rm (v, f)) ->
  match (if fp_no_rm (insn_op insn) then Some Rne else eff_rm s (insn_funct3 insn)) with
  | None => execute insn pc s = (Err (trap_illegal (insn_raw insn)), started insn pc s)
  | Some rm =>
      exists r, execute insn pc s =
          (Ok RiscVExit.Continue, with_int (insn_rd insn) r (started insn pc s)) /\ Q rm r
  end.
Proof.
  intros Hf He HQ. rewrite execute_fp_arm by done.
  change (eff_rm s) with (eff_rm (started insn pc s)).
  destruct (if fp_no_rm (insn_op insn) then _ else _) as [rm|] eqn:Er.
  - destruct (HQ rm) as (v & f & Hw & Hq). exists (v, f). split; [|done].
    by apply (fp_retires_int _ insn pc rm v f He).
  - by rewrite exec_fp_value, Er by done.
Qed.
End Effects.

(** ** The operations *)

(** The integer conversions: to a signed or unsigned integer of a width, or from
    the integer a register holds. *)
Inductive IntConv : Type :=
  | ToInt (src : Fmt.t) (sg : bool) (width : Z)
  | OfInt (dst : Fmt.t) (read : Z -> Z).

Definition fp_int_conv (op : Op) : option IntConv :=
  match op with
  | FcvtWS => Some (ToInt F32 true 32)
  | FcvtWuS => Some (ToInt F32 false 32)
  | FcvtLS => Some (ToInt F32 true 64)
  | FcvtLuS => Some (ToInt F32 false 64)
  | FcvtWD => Some (ToInt F64 true 32)
  | FcvtWuD => Some (ToInt F64 false 32)
  | FcvtLD => Some (ToInt F64 true 64)
  | FcvtLuD => Some (ToInt F64 false 64)
  | FcvtSW => Some (OfInt F32 as_i32)
  | FcvtSWu => Some (OfInt F32 as_u32)
  | FcvtSL => Some (OfInt F32 as_i64)
  | FcvtSLu => Some (OfInt F32 as_u64)
  | FcvtDW => Some (OfInt F64 as_i32)
  | FcvtDWu => Some (OfInt F64 as_u32)
  | FcvtDL => Some (OfInt F64 as_i64)
  | FcvtDLu => Some (OfInt F64 as_u64)
  | FcvtHW => Some (OfInt F16 as_i32)
  | FcvtHWu => Some (OfInt F16 as_u32)
  | FcvtHL => Some (OfInt F16 as_i64)
  | FcvtHLu => Some (OfInt F16 as_u64)
  | _ => None
  end.

(** The rounding of an integer. *)
Definition promise_of_int (fmt : Fmt.t) (m : RoundingMode) (v : Z) (r : Z * Z) : Prop :=
  if v =? 0 then r = (zero_of fmt false, 0)
  else correctly_rounded fmt m (v <? 0) (IZR (Z.abs v)) 0 r.

(** The least and the greatest integer of a destination (ISA manual, domains of
    FCVT.W, FCVT.WU, FCVT.L and FCVT.LU). *)
Definition least_int (sg : bool) (width : Z) : Z := if sg then - 2 ^ (width - 1) else 0.
Definition greatest_int (sg : bool) (width : Z) : Z :=
  if sg then 2 ^ (width - 1) - 1 else 2 ^ width - 1.

(** An integer as the 64 bits of a register: the low [width] bits are its binary
    representation and the others copies of bit [width - 1], for FCVT.WU too. *)
Definition register_image (width v : Z) : Z :=
  let u := v mod 2 ^ width in if u <? 2 ^ (width - 1) then u else u + (2 ^ 64 - 2 ^ width).

(** The rounding to an integer, saturated: a NaN goes to the greatest integer. *)
Definition promise_to_int (sg : bool) (width : Z) (m : RoundingMode) (x : datum) (r : Z * Z) : Prop :=
  let lo := least_int sg width in
  let hi := greatest_int sg width in
  match x with
  | NaN _ => r = (register_image width hi, fflags.NV)
  | Inf s => r = (register_image width (if s then lo else hi), fflags.NV)
  | Zero _ => r = (0, 0)
  | Finite s a =>
      exists k (nx : bool), int_rounds m s a k /\ (nx = true <-> IZR k <> a)
        /\ r = let v := if s then - k else k in
               if v <? lo then (register_image width lo, fflags.NV)
               else if hi <? v then (register_image width hi, fflags.NV)
               else (register_image width v, if nx then fflags.NX else 0)
  end.

(** The comparisons of singles and doubles. *)
Definition fp_comparison (op : Op) : option (Fmt.t * Comparison * bool) :=
  match op with
  | FeqS => Some (F32, CmpEq, false)
  | FltS => Some (F32, CmpLt, true)
  | FleS => Some (F32, CmpLe, true)
  | FltqS => Some (F32, CmpLt, false)
  | FleqS => Some (F32, CmpLe, false)
  | FeqD => Some (F64, CmpEq, false)
  | FltD => Some (F64, CmpLt, true)
  | FleD => Some (F64, CmpLe, true)
  | FltqD => Some (F64, CmpLt, false)
  | FleqD => Some (F64, CmpLe, false)
  | _ => None
  end.

Lemma itof_promise fmt v m :
  host_fmt fmt -> Z.abs v <= 2 ^ 64 -> promise_of_int fmt m v (itof fmt v m 0).
Proof.
  intros Hf Hv. unfold promise_of_int. destruct (Z.eqb_spec v 0) as [->|Hne]; [done|].
  by apply itof_ieee.
Qed.

Lemma itof_fmt_promise fmt v m :
  fmt_ok fmt -> Z.abs v <= 2 ^ 64 -> promise_of_int fmt m v (itof_fmt fmt v m 0).
Proof.
  intros Hf Hv. unfold promise_of_int. assert (2 ^ 64 < 2 ^ 127) by done.
  destruct (itof_fmt_rounds fmt v m 0 Hf ltac:(lia)) as [[-> ->]|[Hne Hr]]; [done|].
  by destruct (Z.eqb_spec v 0).
Qed.

(** The destinations of the code are those of the manual. *)
Lemma int_dest_manual sg width :
  width = 32 \/ width = 64 ->
  int_dest sg width = Some (least_int sg width, greatest_int sg width, width).
Proof. by intros [-> | ->]; destruct sg. Qed.

Lemma register_image_ext64 width v :
  width = 32 \/ width = 64 -> ext64 width v = register_image width v.
Proof.
  intros [-> | ->]; unfold ext64, register_image, as_i, as_u; cbv zeta;
    match goal with |- context [?u <? ?h] => destruct (Z.ltb_spec u h) end;
    Z.to_euclidean_division_equations; lia.
Qed.

Lemma ftoi_promise fmt x sg width m :
  host_fmt fmt -> fits (Fmt.width fmt) x -> width = 32 \/ width = 64 ->
  promise_to_int sg width m (interp fmt x) (ftoi fmt x sg width m 0).
Proof.
  intros Hf Hx Hw. pose proof (ftoi_ieee fmt Hf x sg width _ _ _ m 0 Hx (int_dest_manual sg width Hw)) as Hi.
  unfold promise_to_int. cbv zeta.
  destruct (interp fmt x); cbn [ieee_to_int] in Hi; rewrite ?register_image_ext64 in Hi by done;
    rewrite ?Hi; try done; [by destruct Hw as [-> | ->]|].
  destruct Hi as (k & nx & Hr & Hn & ->). exists k, nx. split; [done|]. split; [done|].
  unfold saturates. rewrite !register_image_ext64 by done. by destruct nx.
Qed.

(** ** Properties *)

(** Read off the operation from an equation on one of the tables. *)
Ltac read_table H := first
  [ exact (False_ind _ (eq_ind None (fun o => match o with Some _ => False | None => True end) I _ H))
  | apply (inj Some) in H ].

Section Theorems.
Context {M : Type} `{MemoryLaws M}.
Implicit Types (s : RiscVCpu M) (insn : Insn).
#[local] Hint Resolve feq_promise flt_promise fle_promise fltq_promise fleq_promise add_promise sub_promise
  itof_promise itof_fmt_promise ftoi_promise : fpwf.

Lemma arith_facts op src dst promise :
  fp_arith op = Some (src, dst, promise) ->
  is_fp op = true /\ fp_no_rm op = false /\ eval_excludes op = false /\ fp_dst_fmt op = Some dst.
Proof.
  destruct op; intros Ha; read_table Ha; injection Ha as _ <- _; by repeat split.
Qed.

(** C3. Multiplication, division, square root and the four fused multiply-adds of
    the single, double and half formats, the sum and difference of halves and the
    conversions between a half and the wider formats round the exact result of
    the IEEE-754 data their operands box, in the rounding mode of the instruction
    or of [fcsr], special operands included; the result is boxed, the flags are
    accrued, nothing else changes, and a reserved rounding mode is illegal. *)
Theorem execute_fp_arith cfg insn pc s src dst promise :
  hart_ok cfg s -> fp_arith (insn_op insn) = Some (src, dst, promise) ->
  match eff_rm s (insn_funct3 insn) with
  | None => execute insn pc s = (Err (trap_illegal (insn_raw insn)), started insn pc s)
  | Some rm =>
      exists r,
        execute insn pc s =
          (Ok RiscVExit.Continue, with_float (insn_rd insn) dst r (started insn pc s))
        /\ promise rm (boxed_datum src (get_f s (insn_rs1 insn)))
             (boxed_datum src (get_f s (insn_rs2 insn))) (boxed_datum src (get_f s (insn_rs3 insn))) r
  end.
Proof.
  intros Hs Ha. destruct (arith_facts _ _ _ _ Ha) as (Hf & Hn & He & Hd).
  apply (execute_fp_rounded cfg insn pc s dst (fun rm r => promise rm _ _ _ r)); try done.
  intros rm. apply (fp_arith_value (started insn pc s) insn rm src dst promise); [|done].
  intros i. by apply (fits_get_f cfg), started_ok.
Qed.

Lemma addition_value s insn rm fmt subtracts :
  (forall i, fits 64 (get_f s i)) -> fp_addition (insn_op insn) = Some (fmt, subtracts) ->
  ~ is_largest fmt (boxed_datum fmt (get_f s (insn_rs2 insn))) ->
  exists w, fp_value s insn rm = Some w
    /\ promise_sum fmt rm (boxed_datum fmt (get_f s (insn_rs1 insn)))
         (let y := boxed_datum fmt (get_f s (insn_rs2 insn)) in
          if (subtracts : bool) then neg_datum y else y) (fp_raw w).
Proof.
  intros Hg. pose proof (fun i => double_datum _ (Hg i)) as Hd.
  assert (Hg' : forall i, fits (Fmt.width F64) (get_f s i)) by exact Hg.
  unfold fp_value, or_else, fp_arith_s, fp_arith_d, fp_sgnj, fp_select,
    fp_convert, fp_zfa, fp_arith_h, fp_select_h, fp_convert_h, to_16, to_32, to_64, fp_addition.
  destruct (insn_op insn); intros Ha; read_table Ha.
  all: injection Ha as <- <-; cbv zeta; intros Hl; eexists; split; [reflexivity|].
  all: unfold fp_raw, rf32, rf64; rewrite <- surjective_pairing.
  all: rewrite <- ?unbox_s_datum, <- ?Hd in *; auto 8 with fpwf.
Qed.

(** C10. The single- and double-precision sums and differences are correctly rounded
    in every mode, with their flags but for an overflow flag that may be raised
    early, whenever the second operand is not the largest finite number or its
    opposite; signed zeros, infinities and NaNs are as IEEE-754 has them. *)
Theorem execute_fp_add cfg insn pc s fmt subtracts :
  hart_ok cfg s -> fp_addition (insn_op insn) = Some (fmt, subtracts) ->
  ~ is_largest fmt (boxed_datum fmt (get_f s (insn_rs2 insn))) ->
  match eff_rm s (insn_funct3 insn) with
  | None => execute insn pc s = (Err (trap_illegal (insn_raw insn)), started insn pc s)
  | Some rm =>
      exists r,
        execute insn pc s =
          (Ok RiscVExit.Continue, with_float (insn_rd insn) fmt r (started insn pc s))
        /\ promise_sum fmt rm (boxed_datum fmt (get_f s (insn_rs1 insn)))
             (let y := boxed_datum fmt (get_f s (insn_rs2 insn)) in
              if (subtracts : bool) then neg_datum y else y) r
  end.
Proof.
  intros Hs Ha Hl.
  assert (Hop : is_fp (insn_op insn) = true /\ fp_no_rm (insn_op insn) = false
    /\ eval_excludes (insn_op insn) = false /\ fp_dst_fmt (insn_op insn) = Some fmt).
  { destruct (insn_op insn); read_table Ha; injection Ha as <- _; by repeat split. }
  destruct Hop as (Hf & Hn & He & Hd).
  apply (execute_fp_rounded cfg insn pc s fmt (fun rm r => promise_sum fmt rm _ _ r)); try done.
  intros rm. apply (addition_value (started insn pc s) insn rm fmt subtracts); [|done|done].
  intros i. by apply (fits_get_f cfg), started_ok.
Qed.

Lemma to_int_value s insn rm src sg width :
  (forall i, fits 64 (get_f s i)) -> fp_int_conv (insn_op insn) = Some (ToInt src sg width) ->
  exists v f, fp_value s insn rm = Some (ToX v f)
    /\ promise_to_int sg width rm (boxed_datum src (get_f s (insn_rs1 insn))) (v, f).
Proof.
  intros Hg. pose proof (fun i => double_datum _ (Hg i)) as Hd.
  assert (Hg' : forall i, fits (Fmt.width F64) (get_f s i)) by exact Hg.
  unfold fp_value, or_else, fp_arith_s, fp_arith_d, fp_sgnj, fp_select,
    fp_convert, fp_zfa, fp_arith_h, fp_select_h, fp_convert_h, to_x, fp_int_conv.
  destruct (insn_op insn); intros Ha; read_table Ha; try discriminate Ha.
  all: injection Ha as <- <- <-; cbv zeta; eexists _, _; split; [reflexivity|].
  all: unfold rf32, rf64; rewrite <- surjective_pairing, <- ?unbox_s_datum, <- ?Hd; auto 8 with fpwf.
Qed.

Lemma of_int_value s insn rm dst read :
  (forall i, fits 64 (get_x s i)) -> fp_int_conv (insn_op insn) = Some (OfInt dst read) ->
  exists w, fp_value s insn rm = Some w
    /\ promise_of_int dst rm (read (get_x s (insn_rs1 insn))) (fp_raw w).
Proof.
  intros Hg. unfold fp_value, or_else, fp_arith_s, fp_arith_d, fp_sgnj, fp_select,
    fp_convert, fp_zfa, fp_arith_h, fp_select_h, fp_convert_h, to_16, to_32, to_64, fp_int_conv.
  specialize (Hg (insn_rs1 insn)). set (v := get_x s (insn_rs1 insn)) in *. clearbody v.
  assert (Hu : as_u64 v = v) by (by apply as_u_small).
  assert (Hb : Z.abs (as_i32 v) <= 2 ^ 64 /\ Z.abs (as_u32 v) <= 2 ^ 64 /\ Z.abs (as_i64 v) <= 2 ^ 64
    /\ Z.abs v <= 2 ^ 64).
  { pose proof (as_i_range 32 v ltac:(lia)). pose proof (as_i_range 64 v ltac:(lia)).
    pose proof (as_u_fits 32 v ltac:(lia)). unfold fits in *. lia. }
  destruct Hb as (B1 & B2 & B3 & B4).
  destruct (insn_op insn); intros Ha; read_table Ha; try discriminate Ha.
  all: injection Ha as <- <-; cbv zeta; rewrite ?Hu; eexists; split; [reflexivity|].
  all: unfold fp_raw; rewrite <- surjective_pairing; auto 8 with fpwf.
Qed.

(** C11. The conversions of singles and doubles to signed and unsigned 32- and 64-bit
    integers round in the mode of the instruction and saturate to the range of the
    destination, invalid exactly when out of range and inexact exactly when the
    value changed; a 32-bit result, unsigned too, is sign-extended into the
    register; the conversions of 32- and 64-bit integers to the three formats are
    correctly rounded, with their flags. *)
Theorem execute_fp_int_conv cfg insn pc s conv :
  hart_ok cfg s -> fp_int_conv (insn_op insn) = Some conv ->
  match eff_rm s (insn_funct3 insn), conv with
  | None, _ => execute insn pc s = (Err (trap_illegal (insn_raw insn)), started insn pc s)
  | Some rm, ToInt src sg width =>
      exists r,
        execute insn pc s = (Ok RiscVExit.Continue, with_int (insn_rd insn) r (started insn pc s))
        /\ promise_to_int sg width rm (boxed_datum src (get_f s (insn_rs1 insn))) r
  | Some rm, OfInt dst read =>
      exists r,
        execute insn pc s = (Ok RiscVExit.Continue, with_float (insn_rd insn) dst r (started insn pc s))
        /\ promise_of_int dst rm (read (get_x s (insn_rs1 insn))) r
  end.
Proof.
  intros Hs Hc.
  assert (Hop : is_fp (insn_op insn) = true /\ fp_no_rm (insn_op insn) = false
    /\ eval_excludes (insn_op insn) = false
    /\ match conv with OfInt dst _ => fp_dst_fmt (insn_op insn) = Some dst | _ => True end).
  { destruct (insn_op insn); read_table Hc; subst conv; by repeat split. }
  destruct Hop as (Hf & Hn & He & Hd). destruct conv as [src sg width|dst read].
  - pose proof (execute_fp_int insn pc s
      (fun rm r => promise_to_int sg width rm (boxed_datum src (get_f s (insn_rs1 insn))) r) Hf He) as HH.
    rewrite Hn in HH. destruct (eff_rm s (insn_funct3 insn)); apply HH; intros rm;
      apply (to_int_value (started insn pc s)); try done; intros i; by apply (fits_get_f cfg), started_ok.
  - pose proof (execute_fp_rounded cfg insn pc s dst
      (fun rm r => promise_of_int dst rm (read (get_x s (insn_rs1 insn))) r) Hs Hf Hn He Hd) as HH.
    destruct (eff_rm s (insn_funct3 insn)); apply HH; intros rm;
      apply (of_int_value (started insn pc s)); try done; intros i; by apply (fits_get_x_64 cfg), started_ok.
Qed.

Lemma comparison_value s insn rm fmt c signals :
  (forall i, fits 64 (get_f s i)) -> fp_comparison (insn_op insn) = Some (fmt, c, signals) ->
  exists t f, fp_value s insn rm = Some (ToX (of_bool t) f)
    /\ promise_compare c signals (boxed_datum fmt (get_f s (insn_rs1 insn)))
         (boxed_datum fmt (get_f s (insn_rs2 insn))) (t, f).
Proof.
  intros Hg. pose proof (fun i => double_datum _ (Hg i)) as Hd.
  assert (Hg' : forall i, fits (Fmt.width F64) (get_f s i)) by exact Hg.
  unfold fp_value, or_else, fp_arith_s, fp_arith_d, fp_sgnj, fp_select,
    fp_convert, fp_zfa, fp_arith_h, fp_select_h, fp_convert_h, to_bool, fp_comparison.
  destruct (insn_op insn); intros Ha; read_table Ha; try discriminate Ha.
  all: injection Ha as <- <- <-; cbv zeta; eexists _, _; split; [reflexivity|].
  all: unfold rf32, rf64; rewrite <- surjective_pairing, <- ?unbox_s_datum, <- ?Hd; auto 8 with fpwf.
Qed.

(** C19. The comparisons of singles and doubles write 1 exactly when the data are in
    the order asked for, infinities outermost and zeros equal, and 0 on a NaN,
    which is invalid for the signaling comparisons and when it is signaling. *)
Theorem execute_fp_compare cfg insn pc s fmt c signals :
  hart_ok cfg s -> fp_comparison (insn_op insn) = Some (fmt, c, signals) ->
  exists t f,
    execute insn pc s =
      (Ok RiscVExit.Continue, with_int (insn_rd insn) (of_bool t, f) (started insn pc s))
    /\ promise_compare c signals (boxed_datum fmt (get_f s (insn_rs1 insn)))
         (boxed_datum fmt (get_f s (insn_rs2 insn))) (t, f).
Proof.
  intros Hs Hc.
  assert (Hop : is_fp (insn_op insn) = true /\ fp_no_rm (insn_op insn) = true
    /\ eval_excludes (insn_op insn) = false).
  { destruct (insn_op insn); read_table Hc; by repeat split. }
  destruct Hop as (Hf & Hn & He).
  destruct (comparison_value (started insn pc s) insn Rne fmt c signals) as (t & f & Hv & Hp); [|done|].
  { intros i. by apply (fits_get_f cfg), started_ok. }
  exists t, f. split; [|done]. rewrite execute_fp_arm by done.
  apply (fp_retires_int _ insn pc Rne); [done | by rewrite Hn | done].
Qed.
End Theorems.

(** C18. The pure evaluator that lifted code calls, [eval_scalar_fp], computes what the
    interpreter's [exec_fp] does: it returns a value and an [fcsr] exactly when
    [exec_fp] writes that value to the destination register, integer or
    floating-point, leaves that [fcsr] and retires; and it returns nothing
    exactly for the operations it excludes and those [exec_fp] finds illegal. *)
Theorem eval_scalar_fp_agrees {M} `{Memory M} (s : RiscVCpu M) insn pc :
  is_fp (insn_op insn) = true ->
  match eval_scalar_fp (insn_op insn) (insn_funct3 insn) (c_fcsr s) (eval_a s insn)
          (get_f s (insn_rs2 insn)) (get_f s (insn_rs3 insn)) with
  | Some (v, fcsr) =>
      eval_excludes (insn_op insn) = false
      /\ exec_fp insn pc s =
           (Ok RiscVExit.Continue,
            set_c_fcsr fcsr
              (if fp_writes_int_dst (insn_op insn) then set_x (insn_rd insn) v s
               else set_f (insn_rd insn) v s))
  | None =>
      eval_excludes (insn_op insn) = true
      \/ exec_fp insn pc s = (Err (trap_illegal (insn_raw insn)), s)
  end.
Proof.
  intros Hfp. unfold eval_scalar_fp. destruct (eval_excludes (insn_op insn)) eqn:He.
  { destruct (eval_rm _ _ _) as [rm|]; cbn [mbind option_bind]; [|by left].
    rewrite eval_value_excluded by (by right). by left. }
  rewrite eval_rm_agrees, exec_fp_value by done.
  destruct (if fp_no_rm _ then _ else _) as [rm|]; cbn [mbind option_bind]; [|by right].
  destruct (eval_value_agrees s insn rm Hfp He) as (w & -> & -> & Hi). cbn [mbind option_bind].
  rewrite fp_write_agrees, Hi. by destruct (write_value w).
Qed.

(** C23. Every floating-point arithmetic operation that retires leaves in its destination
    register a value of its format, NaN-boxed when the format is narrower than
    the register, and a NaN it produces is the canonical one. *)
Theorem fp_results_canonical {M} `{MemoryLaws M} cfg (s : RiscVCpu M) insn pc fmt e s' :
  hart_ok cfg s -> fp_dst_fmt (insn_op insn) = Some fmt -> exec_fp insn pc s = (Ok e, s') ->
  exists r, get_f s' (insn_rd insn) = nan_box fmt r /\ fits (Fmt.width fmt) r
    /\ (Sf.is_nan fmt r = true -> r = Fmt.canon fmt).
Proof.
  intros Hs Hd He. assert (Hq : fp_quad (insn_op insn) = false /\ fp_mem s insn = None).
  { unfold fp_mem. destruct (insn_op insn); try (by split); discriminate Hd. }
  destruct Hq as [Hq Hm]. unfold exec_fp in He. rewrite Hq in He.
  unfold mbind, exec_bind, ebind, get in He.
  destruct (if fp_no_rm _ then _ else _) as [rm|]; [|done]. rewrite Hm in He.
  destruct (fp_value s insn rm) as [w|] eqn:Hw; [|done].
  apply (f_equal snd) in He. cbn in He. subst s'. by apply (fp_write_boxed cfg s insn rm fmt w).
Qed.

(** ** Witnesses

    A hart with [f1 = 1.5] and [f2 = -0.25], boxed singles. *)

Definition float_hart : RiscVCpu FlatMemory :=
  set_f 2 0xffffffffbe800000 (set_f 1 0xffffffff3fc00000 (new_cpu config_rv64gc demo_memory)).

Lemma float_hart_ok : hart_ok config_rv64gc float_hart.
Proof. apply ok_set_f; [by split|]. apply ok_set_f; [by split|]. apply new_cpu_ok, demo_memory_wf. Qed.

(** [fmul.s f3, f1, f2], [fadd.s f3, f1, f2], [fcvt.w.s x3, f1] and [flt.s x3, f2, f1]. *)
Definition demo_fmul : Insn := decode 0x1020f1d3 Rv64 rv64gc.
Definition demo_fadd : Insn := decode 0x0020f1d3 Rv64 rv64gc.
Definition demo_fcvt : Insn := decode 0xc000f1d3 Rv64 rv64gc.
Definition demo_flt : Insn := decode 0xa01111d3 Rv64 rv64gc.

Lemma execute_fp_arith_witness :
  exists r,
    execute demo_fmul 0 float_hart
      = (Ok RiscVExit.Continue, with_float 3 F32 r (started demo_fmul 0 float_hart))
    /\ ieee_mul F32 Rne 0 (interp F32 0x3fc00000) (interp F32 0xbe800000) r.
Proof.
  apply (execute_fp_arith config_rv64gc demo_fmul 0 float_hart F32 F32 (promise_mul F32));
    [apply float_hart_ok | reflexivity].
Defined.

Lemma second_not_largest : ~ is_largest F32 (boxed_datum F32 (get_f float_hart (insn_rs2 demo_fadd))).
Proof.
  change (get_f float_hart (insn_rs2 demo_fadd)) with 0xffffffffbe800000.
  change (boxed_datum F32 0xffffffffbe800000) with (Finite true (mag_val F32 0x3e800000)).
  intros [t E]. injection E as _ E. change (inf_mag F32 - 1) with 0x7f7fffff in E.
  rewrite !(magval F32 F32_ok) in E by lia. apply val_inj in E. vm_compute in E. discriminate E.
Qed.

Lemma execute_fp_add_witness :
  exists r,
    execute demo_fadd 0 float_hart
      = (Ok RiscVExit.Continue, with_float 3 F32 r (started demo_fadd 0 float_hart))
    /\ promise_sum F32 Rne (interp F32 0x3fc00000) (interp F32 0xbe800000) r.
Proof.
  apply (execute_fp_add config_rv64gc demo_fadd 0 float_hart F32 false);
    [apply float_hart_ok | reflexivity | exact second_not_largest].
Defined.

Lemma execute_fp_int_conv_witness :
  exists r,
    execute demo_fcvt 0 float_hart
      = (Ok RiscVExit.Continue, with_int 3 r (started demo_fcvt 0 float_hart))
    /\ promise_to_int true 32 Rne (interp F32 0x3fc00000) r.
Proof.
  apply (execute_fp_int_conv config_rv64gc demo_fcvt 0 float_hart (ToInt F32 true 32));
    [apply float_hart_ok | reflexivity].
Defined.

Lemma execute_fp_compare_witness :
  exists t f,
    execute demo_flt 0 float_hart
      = (Ok RiscVExit.Continue, with_int 3 (of_bool t, f) (started demo_flt 0 float_hart))
    /\ promise_compare CmpLt true (interp F32 0xbe800000) (interp F32 0x3fc00000) (t, f).
Proof.
  apply (execute_fp_compare config_rv64gc demo_flt 0 float_hart F32 CmpLt true);
    [apply float_hart_ok | reflexivity].
Defined.

Lemma eval_scalar_fp_agrees_witness :
  exec_fp demo_fmul 0 float_hart
  = (Ok RiscVExit.Continue, set_c_fcsr 0 (set_f 3 0xffffffffbec00000 float_hart)).
Proof. exact (proj2 (eval_scalar_fp_agrees float_hart demo_fmul 0 eq_refl)). Defined.

Lemma fp_results_canonical_witness :
  exists r, get_f (exec_fp demo_fmul 0 float_hart).2 3 = nan_box F32 r /\ fits 32 r
    /\ (Sf.is_nan F32 r = true -> r = Fmt.canon F32).
Proof.
  refine (fp_results_canonical config_rv64gc float_hart demo_fmul 0 F32 RiscVExit.Continue _ _ _ _);
    [apply float_hart_ok | reflexivity | vm_compute; reflexivity].
Defined.

(** ** The exclusions are needed

    Single inputs on which the routines depart from IEEE-754, where the theorems
    above make their exceptions: the largest finite number as the second operand
    and the early overflow flag of a sum, and the code's notion of underflow.  The
    software float [sf_add] gives the correctly rounded sum and flags on every
    input, so it is the reference for [add] here. *)

(** A sum whose second operand is the largest finite number: the
    subtraction [r - a] that recovers the residual overflows, the residual is
    NaN, and the directed modes step the wrong way.  Adding [1.5] units in the
    last place of the largest number to its opposite, rounding down or up, is off
    by one unit; the same operands in the other order are summed correctly. *)
Lemma add_residual_overflow :
  add F32 0x73c00000 0xff7fffff Rdn 0 = (0xff7fffff, fflags.NX)
  /\ sf_add F32 0x73c00000 0xff7fffff Rdn 0 = (0xff7ffffe, fflags.NX)
  /\ add F32 0xff7fffff 0x73c00000 Rdn 0 = (0xff7ffffe, fflags.NX)
  /\ add F32 0x73c00000 0xff7fffff Rup 0 = (0xff7ffffe, fflags.NX)
  /\ sf_add F32 0x73c00000 0xff7fffff Rup 0 = (0xff7ffffd, fflags.NX).
Proof. repeat split; vm_compute; reflexivity. Qed.

(** A sum, and a narrowed double, that only rounding to nearest carries past the
    largest finite number: the truncated result is finite and right, and the
    overflow flag is raised all the same. *)
Lemma overflow_raised_early :
  add F32 0x7f7fffff 0x73000000 Rtz 0 = (0x7f7fffff, Z.lor fflags.OF fflags.NX)
  /\ sf_add F32 0x7f7fffff 0x73000000 Rtz 0 = (0x7f7fffff, fflags.NX)
  /\ f64_to_f32 0x47effffff0000000 Rtz 0 = (0x7f7fffff, Z.lor fflags.OF fflags.NX)
  /\ fcvt_round F64 F32 0x47effffff0000000 Rtz 0 = (0x7f7fffff, fflags.NX).
Proof. repeat split; vm_compute; reflexivity. Qed.

(** A product below the smallest normal number, exact to the precision of the
    format if the exponent were unbounded and so tiny after rounding, is rounded
    up to that number without the underflow flag. *)
Lemma underflow_missed :
  sf_mul F32 0x00ffffff 0x3f000000 Rne 0 = (0x00800000, fflags.NX)
  /\ (mag_val F32 0x00ffffff * mag_val F32 0x3f000000 = IZR (2 ^ 24 - 1) * bpow (- 150))%R
  /\ (IZR (2 ^ 24 - 1) * bpow (- 150) < mag_val F32 0x00800000)%R.
Proof.
  split; [vm_compute; reflexivity|].
  assert (E : forall n, 0 <= n -> mag_val F32 n = (IZR (mag_units F32 n) * bpow (- 149))%R).
  { intros n Hn. by apply (magval F32 F32_ok). }
  rewrite !E by lia. change (mag_units F32 0x00ffffff) with (2 ^ 24 - 1).
  change (mag_units F32 0x3f000000) with (2 ^ 148). change (mag_units F32 0x00800000) with (2 ^ 23).
  split.
  - rewrite <- (bpow_nonneg 148) by lia. rewrite Rmult_assoc, <- !bpow_add. done.
  - change (- 150) with (- 1 + - 149). rewrite bpow_add, <- Rmult_assoc.
    apply Rmult_lt_compat_r; [apply bpow_pos|]. apply (Rmult_lt_reg_r (bpow 1)); [apply bpow_pos|].
    rewrite Rmult_assoc, <- bpow_add. change (- 1 + 1) with 0. rewrite bpow_0, Rmult_1_r.
    rewrite bpow_nonneg, <- mult_IZR by lia. apply IZR_lt. lia.
Qed.
