(* ===== verification/RvTrapSpec.v ===== *)
(** * Traps and interrupts

    Trap entry and [mret] bit by bit and as a round trip, and the selection of
    interrupts between instructions. *)

From S2P Require Import Prelude RvIsa RvOp RvMemory RvDecode RvAlu RvState RvHart RvCsr RvExec.
From S2P Require Import RvAluOps RvAluSpec RvStep RvHartSafe RvStepSafe RvExecSpec.

(** ** Bits *)

(** [(v >> k) & 1] is bit [k]. *)
Lemma bit_of v k : 0 <= k < 64 -> Z.land (wshr 64 v k) 1 = Z.b2z (Z.testbit v k).
Proof.
  intros Hk. unfold wshr. rewrite (Z.mod_small k 64), Z.testbit_spec', Z.shiftr_div_pow2 by lia.
  apply (Z.land_ones _ 1). lia.
Qed.

Lemma any_bits_one v k : 0 <= k -> any_bits v (Z.shiftl 1 k) = Z.testbit v k.
Proof.
  intros Hk. unfold any_bits. rewrite Z.shiftl_1_l.
  destruct (Z.testbit v k) eqn:E.
  - apply negb_true_iff, Z.eqb_neq. intros H0.
    assert (Z.testbit (Z.land v (2 ^ k)) k = true) as Ht
      by (rewrite Z.land_spec, E, Z.pow2_bits_true; done).
    by rewrite H0, Z.bits_0 in Ht.
  - apply negb_false_iff, Z.eqb_eq, Z.bits_inj'. intros i Hi.
    rewrite Z.land_spec, Z.bits_0, Z.pow2_bits_eqb by done.
    destruct (Z.eqb_spec k i) as [->|]; [by rewrite E|apply andb_false_r].
Qed.

Lemma wnot_testbit v i : 0 <= i < 64 -> Z.testbit (wnot 64 v) i = negb (Z.testbit v i).
Proof. intros. unfold wnot, as_u. rewrite Z.mod_pow2_bits_low, Z.lnot_spec by lia. done. Qed.

Lemma wshl_testbit v k i :
  0 <= k < 64 -> 0 <= i < 64 -> Z.testbit (wshl 64 v k) i = Z.testbit v (i - k).
Proof.
  intros Hk Hi. unfold wshl, as_u. rewrite Z.mod_pow2_bits_low by lia.
  by rewrite (Z.mod_small k 64), Z.shiftl_spec by lia.
Qed.

Lemma wshr_testbit v k i :
  0 <= k < 64 -> 0 <= i -> Z.testbit (wshr 64 v k) i = Z.testbit v (i + k).
Proof. intros. unfold wshr. by rewrite (Z.mod_small k 64), Z.shiftr_spec by lia. Qed.

Lemma b2z_testbit b i : Z.testbit (Z.b2z b) i = b && (i =? 0).
Proof.
  destruct (Z.ltb_spec i 0).
  { rewrite Z.testbit_neg_r by done. destruct b; [|done]. simpl. lia. }
  destruct b; [|by rewrite Z.bits_0].
  change (Z.b2z true) with (2 ^ 0). rewrite Z.pow2_bits_eqb by lia. by rewrite Z.eqb_sym.
Qed.

(** ** The status register *)

(** [mstatus] after a trap taken from privilege [p]. *)
Definition trap_status_bit (p : Priv) (ms i : Z) : bool :=
  if i =? 3 then false
  else if i =? 7 then Z.testbit ms 3
  else if (i =? 11) || (i =? 12) then Z.testbit (priv_code p) (i - 11)
  else Z.testbit ms i.

(** [mstatus] after [mret]. *)
Definition mret_status_bit (ms i : Z) : bool :=
  if i =? 3 then Z.testbit ms 7
  else if i =? 7 then true
  else if (i =? 11) || (i =? 12) then false
  else Z.testbit ms i.

Lemma one_bit k i : 0 <= k -> 0 <= i -> Z.testbit (Z.shiftl 1 k) i = (i =? k).
Proof. intros. by rewrite Z.shiftl_1_l, Z.pow2_bits_eqb, Z.eqb_sym by lia. Qed.

Lemma three_bits j : Z.testbit 3 j = (j =? 0) || (j =? 1).
Proof.
  destruct (Z.ltb_spec j 0); [rewrite Z.testbit_neg_r by done; lia|].
  destruct (Z.leb_spec 2 j); [rewrite (fits_testbit 2 3 j) by done; lia|].
  by assert (j = 0 \/ j = 1) as [-> | ->] by lia.
Qed.

Lemma mpp_bits i : 0 <= i -> Z.testbit (Z.shiftl 0x3 11) i = (i =? 11) || (i =? 12).
Proof. intros. rewrite Z.shiftl_spec, three_bits by done. lia. Qed.

Lemma sub_eqb i k j : (i - k =? j) = (i =? k + j).
Proof. lia. Qed.

(** Reads a bit of an expression built by the trap code. *)
Ltac bits :=
  repeat rewrite ?Z.lor_spec, ?Z.land_spec, ?wnot_testbit, ?one_bit, ?mpp_bits, ?wshl_testbit,
    ?wshr_testbit, ?b2z_testbit, ?three_bits, ?sub_eqb by lia;
  change (11 + 0) with 11; change (11 + 1) with 12; change (7 + 0) with 7; change (3 + 0) with 3.

(** Case analysis on the bit number. *)
Ltac which_bit i :=
  destruct (Z.eqb_spec i 3) as [->|];
  [ cbn; btauto
  | destruct (Z.eqb_spec i 7) as [->|];
    [ cbn; btauto
    | destruct (Z.eqb_spec i 11) as [->|];
      [ cbn; btauto | destruct (Z.eqb_spec i 12) as [->|]; cbn; btauto ] ] ].

Section Traps.
Context {M : Type} `{MemoryLaws M} (cfg : RiscVConfig).
Implicit Types (s : RiscVCpu M).

Lemma deliver_trap_status t epc s i :
  0 <= i < 64 ->
  Z.testbit (c_mstatus (deliver_trap t epc s)) i = trap_status_bit (c_priv s) (c_mstatus s) i.
Proof.
  intros Hi. unfold deliver_trap. cbn -[Z.land Z.lor wnot wshl wshr Z.shiftl].
  rewrite bit_of by lia. unfold trap_status_bit. bits.
  which_bit i.
Qed.

Lemma exec_mret_status s i :
  0 <= i < 64 -> Z.testbit (c_mstatus (exec_mret s)) i = mret_status_bit (c_mstatus s) i.
Proof.
  intros Hi. unfold exec_mret. cbn -[Z.land Z.lor wnot wshl wshr Z.shiftl].
  rewrite bit_of by lia. unfold mret_status_bit. bits. which_bit i.
Qed.

(** The two MPP bits. *)
Definition mpp (ms : Z) : Z := Z.b2z (Z.testbit ms 11) + 2 * Z.b2z (Z.testbit ms 12).

Lemma mpp_field ms : Z.land (wshr 64 ms 11) 0x3 = mpp ms.
Proof.
  change 0x3 with (Z.ones 2). unfold wshr, mpp. rewrite Z.land_ones by lia.
  change (11 mod 64) with 11.
  rewrite <- (Z.shiftr_spec ms 11 1 Z.le_0_1 : _ = Z.testbit ms 12).
  rewrite <- (Z.shiftr_spec ms 11 0 (Z.le_refl 0) : _ = Z.testbit ms 11).
  generalize (Z.shiftr ms 11). intros v. rewrite !Z.testbit_spec' by lia.
  change (2 ^ 2) with (2 * 2). rewrite Z.rem_mul_r by lia. by rewrite Z.div_1_r.
Qed.

(** The privilege [mret] returns to. *)
Definition priv_of_mpp (m : Z) : Priv :=
  if m =? 3 then Machine else if m =? 1 then Supervisor else User.

Lemma exec_mret_priv s : c_priv (exec_mret s) = priv_of_mpp (mpp (c_mstatus s)).
Proof.
  unfold exec_mret. cbn -[Z.land Z.lor wnot wshl wshr Z.shiftl]. rewrite mpp_field.
  unfold priv_of_mpp. rewrite bit_of by lia.
  enough (mpp (Z.lor (Z.lor (Z.land (c_mstatus s) (wnot 64 (Z.shiftl 1 3)))
    (wshl 64 (Z.b2z (Z.testbit (c_mstatus s) 7)) 3)) (Z.shiftl 1 7)) = mpp (c_mstatus s)) as ->
    by done.
  unfold mpp. bits. cbn. by rewrite !andb_true_r, !andb_false_r, !orb_false_r.
Qed.

Lemma deliver_trap_mpp t epc s : mpp (c_mstatus (deliver_trap t epc s)) = priv_code (c_priv s).
Proof. unfold mpp. rewrite !deliver_trap_status by lia. by destruct (c_priv s). Qed.

(** Clearing the low [k] bits. *)
Lemma clear_low n k v :
  0 <= k -> 0 <= n -> fits n v -> n <= 64 -> Z.land v (wnot 64 (Z.ones k)) = 2 ^ k * (v / 2 ^ k).
Proof.
  intros Hk Hn Hv Hn64. assert (fits 64 v) as Hv' by by apply (fits_weaken n).
  rewrite <- (as_u_small 64 (Z.land v _)) by by apply fits_land_l.
  etransitivity; [exact (andn_value Rv64 v (Z.ones k) Hv')|].
  by rewrite Z.ldiff_ones_r, Z.shiftr_div_pow2, Z.shiftl_mul_pow2, Z.mul_comm by lia.
Qed.

Lemma multiple_of k v : 0 <= k -> v mod 2 ^ k = 0 -> 2 ^ k * (v / 2 ^ k) = v.
Proof. intros Hk Hv. rewrite (Z.div_mod v (2 ^ k)) at 2 by lia. lia. Qed.

(** Instruction alignment: two bytes with C, four without. *)
Definition ialign s : Z := if isa_c (cpu_isa s) then 2 else 4.

Lemma mepc_read_aligned s :
  fits (xbits s) (c_mepc s) -> c_mepc s mod ialign s = 0 -> mepc_read_value s = c_mepc s.
Proof.
  intros Hf Ha. unfold mepc_read_value, mepc_alignment_mask, xmask. unfold ialign in Ha.
  assert (0 <= xbits s <= 64) by (unfold xbits; by destruct (cpu_xlen s)).
  assert (Z.land (c_mepc s) (if isa_c (cpu_isa s) then wnot 64 1 else wnot 64 3) = c_mepc s) as ->.
  { destruct (isa_c (cpu_isa s)).
    - change 1 with (Z.ones 1). rewrite (clear_low (xbits s) 1) by (done || lia).
      by apply multiple_of.
    - change 3 with (Z.ones 2). rewrite (clear_low (xbits s) 2) by (done || lia).
      by apply multiple_of. }
  rewrite land_xlen_mask. by apply Z.mod_small.
Qed.

(** C16. Trap entry followed by [mret] is a round trip: the hart resumes at the
    interrupted instruction in the privilege it had, with MIE restored, MPIE set
    and MPP cleared, every other status bit unchanged, and registers, memory and
    reservation untouched. *)
Theorem trap_return t epc s :
  fits (xbits s) epc -> epc mod ialign s = 0 ->
  let s' := exec_mret (deliver_trap t epc s) in
  c_pc s' = epc /\ c_priv s' = c_priv s
  /\ (forall i, 0 <= i < 64 ->
        Z.testbit (c_mstatus s') i
        = if i =? 7 then true
          else if (i =? 11) || (i =? 12) then false else Z.testbit (c_mstatus s) i)
  /\ c_x s' = c_x s /\ c_f s' = c_f s /\ c_mem s' = c_mem s
  /\ c_reservation s' = c_reservation s.
Proof.
  intros Hf Ha. cbn zeta. split.
  { change (c_pc (exec_mret (deliver_trap t epc s))) with (mepc_read_value (deliver_trap t epc s)).
    by rewrite (mepc_read_aligned (deliver_trap t epc s)). }
  split.
  { rewrite exec_mret_priv, deliver_trap_mpp. by destruct (c_priv s). }
  split; [|done]. intros i Hi. rewrite exec_mret_status by done. unfold mret_status_bit.
  rewrite !deliver_trap_status by lia. unfold trap_status_bit. cbn.
  destruct (Z.eqb_spec i 3) as [->|]; [done|]. destruct (i =? 7); [done|].
  by destruct (_ || _).
Qed.

(** ** The trap vector *)

Lemma top_bit n c : 1 <= n -> fits n c -> Z.testbit c (n - 1) = (2 ^ (n - 1) <=? c).
Proof.
  intros Hn [? ?]. assert (2 ^ n = 2 * 2 ^ (n - 1)) as E
    by (rewrite <- Z.pow_succ_r by lia; f_equal; lia).
  apply Z.b2z_inj. rewrite Z.testbit_spec' by lia. destruct (Z.leb_spec (2 ^ (n - 1)) c); simpl.
  - rewrite <- (Z.div_unique c (2 ^ (n - 1)) 1 (c - 2 ^ (n - 1))) by lia. done.
  - by rewrite Z.div_small by lia.
Qed.

Lemma interrupt_bit s : interrupt_cause_bit s = 2 ^ (xbits s - 1).
Proof. unfold interrupt_cause_bit, xbits. by destruct (cpu_xlen s). Qed.

(** Where a trap with cause [c] starts: the base of [mtvec], or the entry of an
    interrupt in vectored mode. *)
Definition trap_vector (n mtvec c : Z) : Z :=
  let base := 4 * (mtvec / 4) in
  if (2 ^ (n - 1) <=? c) && (mtvec mod 4 =? 1)
  then (base + 4 * (c - 2 ^ (n - 1))) mod 2 ^ n else base.

Lemma sub_top_bit n c :
  1 <= n <= 64 -> fits n c -> 2 ^ (n - 1) <= c -> Z.land c (wnot 64 (2 ^ (n - 1))) = c - 2 ^ (n - 1).
Proof.
  intros Hn Hf Hc. assert (fits 64 c) as Hc' by (apply (fits_weaken n); [lia|done]).
  rewrite <- (as_u_small 64 (Z.land c _)) by by apply fits_land_l.
  etransitivity; [exact (andn_value Rv64 c (2 ^ (n - 1)) Hc')|].
  rewrite (Z.sub_nocarry_ldiff c (2 ^ (n - 1))); [done|]. apply Z.bits_inj'. intros i Hi.
  rewrite Z.ldiff_spec, Z.bits_0, Z.pow2_bits_eqb by lia.
  destruct (Z.eqb_spec (n - 1) i) as [<-|]; [|done]. rewrite top_bit by (done || lia). lia.
Qed.

Lemma deliver_trap_pc t epc s :
  hart_ok cfg s -> fits (xlen_bits (cfg_xlen cfg)) (trap_cause t) ->
  c_pc (deliver_trap t epc s)
  = trap_vector (xlen_bits (cfg_xlen cfg)) (c_mtvec s) (trap_cause t).
Proof.
  intros Hs Hc. unfold deliver_trap. cbn -[Z.land Z.lor wnot wshl wshr Z.shiftl].
  match goal with |- context [interrupt_cause_bit ?s'] => set (s1 := s') end.
  assert (xbits s1 = xlen_bits (cfg_xlen cfg)) as Hx by (apply (ok_xbits cfg s Hs)).
  assert (1 <= xlen_bits (cfg_xlen cfg) <= 64) as Hn by by destruct (cfg_xlen cfg).
  destruct (ok_csr_fields cfg s Hs) as (_ & Ht & _).
  unfold xmask. change (cpu_xlen s1) with (cpu_xlen s). rewrite (ok_xlen cfg s Hs), !land_xlen_mask.
  rewrite interrupt_bit, Hx. change 3 with (Z.ones 2).
  rewrite (clear_low (xlen_bits (cfg_xlen cfg)) 2) by (done || lia).
  rewrite <- Z.shiftl_1_l, any_bits_one, top_bit by (done || lia). rewrite Z.shiftl_1_l.
  rewrite Z.land_ones by lia. change (2 ^ 2) with 4. unfold trap_vector.
  assert (fits (xlen_bits (cfg_xlen cfg)) (4 * (c_mtvec s / 4))) as Hb.
  { destruct Ht. pose proof (Z.mul_div_le (c_mtvec s) 4). pose proof (Z.div_pos (c_mtvec s) 4).
    split; lia. }
  destruct (Z.leb_spec (2 ^ (xlen_bits (cfg_xlen cfg) - 1)) (trap_cause t)); cbn [andb];
    [|by apply Z.mod_small].
  destruct (_ =? 1); [|by apply Z.mod_small]. rewrite sub_top_bit by done.
  unfold wadd, wmul. rewrite as_u_64_mod. apply mod_add_congr; [done|]. apply as_u_64_mod.
Qed.

(** C33. Trap entry records the interrupted address, the cause and the trap value,
    stacks MIE and the privilege in MPIE and MPP, disables interrupts, enters
    machine mode and continues at the trap vector; in vectored mode an interrupt
    enters its own slot.  Registers, memory and the other status bits are kept. *)
Theorem trap_entry t epc s :
  hart_ok cfg s -> fits (xlen_bits (cfg_xlen cfg)) (trap_cause t) ->
  let s' := deliver_trap t epc s in
  c_mepc s' = epc /\ c_mcause s' = trap_cause t /\ c_mtval s' = trap_tval t
  /\ c_priv s' = Machine
  /\ (forall i, 0 <= i < 64 ->
        Z.testbit (c_mstatus s') i = trap_status_bit (c_priv s) (c_mstatus s) i)
  /\ c_pc s' = trap_vector (xlen_bits (cfg_xlen cfg)) (c_mtvec s) (trap_cause t)
  /\ c_x s' = c_x s /\ c_f s' = c_f s /\ c_mem s' = c_mem s.
Proof.
  intros Hs Hc. cbn zeta. split_and!; try done.
  - intros. by apply deliver_trap_status.
  - by apply deliver_trap_pc.
Qed.

(** ** Interrupts *)

(** Interrupt [i] is pending, enabled and not delegated. *)
Definition ready s (i : Z) : bool :=
  Z.testbit (c_mip s) i && Z.testbit (c_mie s) i && negb (Z.testbit (c_mideleg s) i).

(** The ready machine interrupt of the highest priority: external, software, timer. *)
Definition highest_ready s : option Z :=
  head (filter (fun i => ready s i = true)
          [cause.INT_M_EXTERNAL; cause.INT_M_SOFTWARE; cause.INT_M_TIMER]).

Definition interrupts_enabled s : bool :=
  below_machine (c_priv s) || Z.testbit (c_mstatus s) 3.

Lemma pending_bit s i :
  i ∈ [3; 7; 11] ->
  any_bits (Z.land (Z.land (Z.land (Z.land (c_mip s) (c_mie s)) (wnot 64 (c_mideleg s)))
                      M_INTERRUPT_MASK) (xmask s)) (Z.shiftl 1 i) = ready s i.
Proof.
  intros Hi.
  assert (0 <= i < 64 /\ Z.testbit M_INTERRUPT_MASK i = true /\ Z.testbit (xmask s) i = true)
    as (Hr & Hm & Hx).
  { unfold xmask. repeat (apply elem_of_cons in Hi as [->|Hi]); [..|by apply elem_of_nil in Hi];
      destruct (cpu_xlen s); by vm_compute. }
  rewrite any_bits_one, !Z.land_spec, wnot_testbit, Hm, Hx by lia. unfold ready. btauto.
Qed.

Lemma interrupt_cause_sum s code :
  fits 4 code -> Z.lor (interrupt_cause_bit s) code = 2 ^ (xbits s - 1) + code.
Proof.
  intros Hc. rewrite interrupt_bit. symmetry. apply Z.add_nocarry_lor, Z.bits_inj'. intros i Hi.
  assert (32 <= xbits s) by (unfold xbits; by destruct (cpu_xlen s)).
  rewrite Z.land_spec, Z.bits_0, Z.pow2_bits_eqb by lia.
  destruct (Z.eqb_spec (xbits s - 1) i) as [<-|]; [|done].
  by rewrite (fits_testbit 4 code) by (done || lia).
Qed.

Lemma pending_interrupt_spec s :
  pending_machine_interrupt s
  = if interrupts_enabled s
    then option_map (fun code => mk_trap (2 ^ (xbits s - 1) + code) 0) (highest_ready s)
    else None.
Proof.
  unfold pending_machine_interrupt. cbn zeta. unfold MSTATUS_MIE. rewrite any_bits_one by lia.
  fold (interrupts_enabled s). destruct (interrupts_enabled s); [|done]. cbn [negb].
  unfold MIP_MEIP, MIP_MSIP, MIP_MTIP. rewrite !pending_bit by (vm_compute; set_solver).
  unfold highest_ready. rewrite !filter_cons, filter_nil.
  rewrite !interrupt_cause_sum by by split.
  destruct (ready s cause.INT_M_EXTERNAL); [done|].
  destruct (ready s cause.INT_M_SOFTWARE); [done|].
  by destruct (ready s cause.INT_M_TIMER).
Qed.

(** A trap masks machine interrupts. *)
Lemma deliver_trap_masks t epc s : pending_machine_interrupt (deliver_trap t epc s) = None.
Proof.
  rewrite pending_interrupt_spec. unfold interrupts_enabled.
  by rewrite deliver_trap_status by lia.
Qed.

(** C28. Between instructions, a step takes an interrupt exactly when machine interrupts
    are enabled (MIE set, or a lower privilege) and one of them is pending, enabled
    and not delegated; it takes the external before the software before the timer
    interrupt, at the current program counter and before fetching anything, and no
    further machine interrupt is taken until the handler enables them again. *)
Theorem step_interrupt s :
  (interrupts_enabled s = true -> forall code, highest_ready s = Some code ->
     let s' := deliver_trap (mk_trap (2 ^ (xbits s - 1) + code) 0) (c_pc s) s in
     step s = (Some RiscVExit.Continue, s') /\ pending_machine_interrupt s' = None)
  /\ (interrupts_enabled s = false \/ highest_ready s = None ->
      pending_machine_interrupt s = None).
Proof.
  split.
  - intros He code Hc. cbn zeta. split; [|apply deliver_trap_masks].
    unfold step. by rewrite pending_interrupt_spec, He, Hc.
  - rewrite pending_interrupt_spec. intros [-> | ->]; [done|]. by destruct (interrupts_enabled s).
Qed.
End Traps.

(** ** Witnesses *)

(** A breakpoint at address 8, then [mret]. *)
Lemma trap_return_witness :
  let s' := exec_mret (deliver_trap (mk_trap cause.BREAKPOINT 8) 8 demo_hart) in
  c_pc s' = 8 /\ c_priv s' = Machine.
Proof.
  destruct (trap_return (mk_trap cause.BREAKPOINT 8) 8 demo_hart) as (H1 & H2 & _);
    [by split | reflexivity |].
  split; [exact H1 | exact H2].
Defined.

(** A timer interrupt in vectored mode. *)
Lemma trap_entry_witness :
  let s := set_c_mtvec 0x1001 demo_hart in
  c_pc (deliver_trap (mk_trap (2 ^ 63 + 7) 0) 8 s) = 0x101c.
Proof.
  destruct (trap_entry config_rv64gc (mk_trap (2 ^ 63 + 7) 0) 8 (set_c_mtvec 0x1001 demo_hart))
    as (_ & _ & _ & _ & _ & Hpc & _);
    [apply ok_set_mtvec; [by split | apply demo_hart_ok] | by split |].
  etransitivity; [exact Hpc | vm_compute; reflexivity].
Defined.

(** The timer and the software interrupt are pending: the software one is taken. *)
Lemma step_interrupt_witness :
  let s := set_c_mstatus 8 (set_c_mie 0x88 (set_c_mip 0x88 demo_hart)) in
  step s
  = (Some RiscVExit.Continue, deliver_trap (mk_trap (2 ^ 63 + 3) 0) (c_pc s) s).
Proof.
  destruct (step_interrupt (set_c_mstatus 8 (set_c_mie 0x88 (set_c_mip 0x88 demo_hart))))
    as [Ht _].
  destruct (Ht eq_refl 3 eq_refl) as [Hs _]. exact Hs.
Defined.
