(* ===== verification/RvCsrSpec.v ===== *)
(** * The CSR instructions

    The effect of CSRRW, CSRRS, CSRRC and their immediate forms on every
    branch, the values writes are legalised to, and the supervisor views of
    machine registers. *)

From S2P Require Import Prelude RvIsa RvOp RvMemory RvDecode RvAlu RvState RvHart RvCsr RvExec.
From S2P Require Import RvAluOps RvAluSpec RvStep RvHartSafe RvStepSafe RvExecSpec RvTrapSpec.

(** ** The instructions *)

Inductive CsrAction : Type := CsrWrite | CsrSet | CsrClear.

(** The action of an operation and whether its source is the [rs1] field itself. *)
Definition csr_action (op : Op) : option (CsrAction * bool) :=
  match op with
  | Csrrw => Some (CsrWrite, false)
  | Csrrs => Some (CsrSet, false)
  | Csrrc => Some (CsrClear, false)
  | Csrrwi => Some (CsrWrite, true)
  | Csrrsi => Some (CsrSet, true)
  | Csrrci => Some (CsrClear, true)
  | _ => None
  end.

(** The new value of a CSR that holds [old]. *)
Definition csr_new (act : CsrAction) (old src : Z) : Z :=
  match act with
  | CsrWrite => src
  | CsrSet => Z.lor old src
  | CsrClear => Z.ldiff old src
  end.

(** Set and clear with [rs1 = x0] (or a zero immediate) only read. *)
Definition csr_writes (act : CsrAction) (rs1 : Z) : bool :=
  match act with CsrWrite => true | _ => negb (rs1 =? 0) end.

Section CsrSpec.
Context {M : Type} `{MemoryLaws M} (cfg : RiscVConfig).
Abbreviation Hart := (RiscVCpu M).
Abbreviation n := (xlen_bits (cfg_xlen cfg)).
Implicit Types (s : Hart) (insn : Insn).

(** What a CSR address names: its value and the effect of a write, or nothing. *)
Definition csr_at s (addr : Z) : option (Z * (Z -> Hart -> Hart)) :=
  match Csr.from_addr addr with
  | Some csr => if csr_available s csr then Some (csr_value s csr, csr_update csr) else None
  | None =>
      if isa_xsoteria (cpu_isa s)
      then Some (default 0 (c_ext_csr s !! addr),
                 fun v s => set_c_ext_csr (<[addr := v mod 2 ^ xbits s]> (c_ext_csr s)) s)
      else None
  end.

Lemma csr_read_at addr s :
  csr_read addr s = match csr_at s addr with
                    | Some (v, _) => (Ok (v mod 2 ^ xbits s), s)
                    | None => (Err (trap_illegal 0), s)
                    end.
Proof.
  unfold csr_read, csr_at, mbind, exec_bind, ebind, get, xmask, xbits.
  destruct (Csr.from_addr addr) as [csr|].
  - destruct (csr_available s csr); [|done]. unfold eret. by rewrite land_xlen_mask.
  - destruct (isa_xsoteria _); [|done]. unfold eret. by rewrite land_xlen_mask.
Qed.

Lemma csr_write_at addr v s :
  csr_write addr v s = match csr_at s addr with
                       | Some (_, w) => (Ok tt, w v s)
                       | None => (Err (trap_illegal 0), s)
                       end.
Proof.
  unfold csr_write, csr_at, mbind, exec_bind, ebind, get, xmask, xbits.
  destruct (Csr.from_addr addr) as [csr|].
  - by destruct (csr_available s csr).
  - destruct (isa_xsoteria _); [|done]. unfold modify. by rewrite land_xlen_mask.
Qed.

(** A write keeps the configuration and the registers. *)
Lemma csr_at_write_frame s addr old w v s1 :
  csr_at s addr = Some (old, w) -> c_cfg (w v s1) = c_cfg s1 /\ c_x (w v s1) = c_x s1.
Proof.
  unfold csr_at. destruct (Csr.from_addr addr) as [csr|].
  - destruct (csr_available s csr); [|done]. intros [= <- <-]. by destruct csr.
  - destruct (isa_xsoteria _); [|done]. by intros [= <- <-].
Qed.

Lemma csr_at_pc pc s addr : csr_at (set_c_pc pc s) addr = csr_at s addr.
Proof.
  unfold csr_at. destruct (Csr.from_addr addr) as [csr|]; [|done].
  by destruct csr.
Qed.

Lemma csr_clear old src : fits 64 old -> Z.land old (wnot 64 src) = Z.ldiff old src.
Proof.
  intros Ho. rewrite <- (as_u_small 64 (Z.land old _)) by by apply fits_land_l.
  exact (andn_value Rv64 old src Ho).
Qed.

Lemma mod_xbits_fits s v : fits 64 (v mod 2 ^ xbits s).
Proof.
  apply (fits_weaken (xbits s)); [unfold xbits; by destruct (cpu_xlen s)|apply xlen_mod_fits].
Qed.

(** The decomposition of an operation in the source. *)
Lemma csr_action_ops insn act imm :
  csr_action (insn_op insn) = Some (act, imm) ->
  match insn_op insn with Csrrwi | Csrrsi | Csrrci => true | _ => false end = imm
  /\ match insn_op insn with Csrrw | Csrrwi => true | _ => false end
     = match act with CsrWrite => true | _ => false end
  /\ forall old src, fits 64 old ->
       match insn_op insn with
       | Csrrw | Csrrwi => eret src
       | Csrrs | Csrrsi => eret (Z.lor old src)
       | Csrrc | Csrrci => eret (Z.land old (wnot 64 src))
       | _ => panic
       end = @eret Hart Trap Z (csr_new act old src).
Proof.
  destruct (insn_op insn); intros Ha; try discriminate Ha; cbn in Ha; simplify_eq;
    (split_and!; [done|done|]); intros old src Ho; cbn; rewrite ?csr_clear; done.
Qed.

(** The read of the old value, which CSRRW to [x0] skips. *)
Lemma csr_old addr act rd v w s :
  csr_at s addr = Some (v, w) -> fits 5 rd ->
  exists old, (if match act with CsrWrite => true | _ => false end && (rd =? 0)
               then eret 0 else csr_read addr) s = (Ok old, s)
    /\ fits 64 old
    /\ (forall src, csr_new act old src = csr_new act (v mod 2 ^ xbits s) src)
    /\ forall s', xbits s' = xbits s -> set_x rd old s' = with_reg rd (v mod 2 ^ xbits s) s'.
Proof.
  intros Ec Hrd. destruct (match act with CsrWrite => true | _ => false end && (rd =? 0)) eqn:Er.
  - apply andb_prop in Er as [Hact ->%Z.eqb_eq]. exists 0. by destruct act.
  - exists (v mod 2 ^ xbits s). rewrite csr_read_at, Ec. split_and!; try done.
    + apply mod_xbits_fits.
    + intros s' Hx. rewrite set_x_with_reg by done. by rewrite Hx, Zmod_mod.
Qed.

Lemma exec_csr_effect insn s act imm :
  csr_action (insn_op insn) = Some (act, imm) -> fits 5 (insn_rd insn) ->
  exec_csr insn s =
    let src := if imm : bool then insn_rs1 insn else get_x s (insn_rs1 insn) in
    let writes := csr_writes act (insn_rs1 insn) in
    if writes && Csr.is_read_only (insn_csr insn) then (Err (trap_illegal (insn_raw insn)), s)
    else match csr_at s (insn_csr insn) with
         | None => (Err (trap_illegal 0), s)
         | Some (v, w) =>
             let old := v mod 2 ^ xbits s in
             (Ok tt, with_reg (insn_rd insn) old
                       (if writes then w (csr_new act old src) s else s))
         end.
Proof.
  intros Ha Hrd. destruct (csr_action_ops insn act imm Ha) as (Hi & Hw & Hn).
  unfold exec_csr. erewrite bind_ok by reflexivity. cbv beta zeta. rewrite Hi, Hw.
  replace (match act with CsrWrite => true | _ => false end || negb (insn_rs1 insn =? 0))
    with (csr_writes act (insn_rs1 insn)) by (by destruct act).
  destruct (_ && Csr.is_read_only _); [done|].
  destruct (csr_at s (insn_csr insn)) as [[v w]|] eqn:Ec.
  - destruct (csr_old _ act (insn_rd insn) v w s Ec Hrd) as (old & Hr & Hf & Hnew & Hset).
    rewrite (bind_ok _ _ _ _ _ Hr). rewrite Hn by done. rewrite Hnew.
    destruct (csr_writes act (insn_rs1 insn)); [|by rewrite <- Hset].
    erewrite bind_ok; [|erewrite bind_ok by reflexivity; rewrite csr_write_at, Ec; reflexivity].
    unfold modify. rewrite Hset; [done|].
    unfold xbits, cpu_xlen. by rewrite (proj1 (csr_at_write_frame s _ _ _ _ s Ec)).
  - destruct (match act with CsrWrite => true | _ => false end && (insn_rd insn =? 0)) eqn:Er.
    + apply andb_prop in Er as [Hact _]. destruct act; try discriminate Hact.
      erewrite bind_ok by reflexivity. rewrite Hn by done. cbn [csr_writes csr_new].
      erewrite bind_err; [done|]. erewrite bind_ok by reflexivity. by rewrite csr_write_at, Ec.
    + erewrite bind_err; [done|]. by rewrite csr_read_at, Ec.
Qed.

(** C32. The CSR instructions: an attempt to write a read-only CSR raises an illegal
    instruction with the encoding, an address that names no CSR of the profile
    raises an illegal instruction, and otherwise the destination gets the old
    value and the CSR is written with the source, with the source's bits set or
    with them cleared; set and clear with a zero source field do not write.  When
    the instruction traps, nothing but the program counter has changed. *)
Theorem execute_csr insn pc s act imm :
  csr_action (insn_op insn) = Some (act, imm) -> fits 5 (insn_rd insn) ->
  execute insn pc s =
    let s' := set_c_pc (next_pc s pc (insn_len insn)) s in
    let src := if imm : bool then insn_rs1 insn else get_x s (insn_rs1 insn) in
    let writes := csr_writes act (insn_rs1 insn) in
    if writes && Csr.is_read_only (insn_csr insn) then (Err (trap_illegal (insn_raw insn)), s')
    else match csr_at s (insn_csr insn) with
         | None => (Err (trap_illegal 0), s')
         | Some (v, w) =>
             let old := v mod 2 ^ xbits s in
             (Ok RiscVExit.Continue,
              with_reg (insn_rd insn) old (if writes then w (csr_new act old src) s' else s'))
         end.
Proof.
  intros Ha Hrd. rewrite (execute_misc_arm insn pc s (exec_csr insn)).
  - rewrite (exec_csr_effect _ _ _ _ Ha Hrd). cbn zeta.
    change (csr_at (started insn pc s)) with (csr_at (set_c_pc (next_pc s pc (insn_len insn)) s)).
    rewrite csr_at_pc. destruct (_ && _); [done|]. by destruct (csr_at s _) as [[v w]|].
  - unfold exec_misc. destruct (insn_op insn); (discriminate Ha || done).
Qed.

(** ** Legalised writes *)

(** The value a CSR of hart [s] holds after [v] is written to it. *)
Definition csr_legal s (csr : Csr.t) (v : Z) : Z :=
  match csr with
  | Csr.Fflags => v mod 32
  | Csr.Frm => v mod 8
  | Csr.Fcsr => v mod 256
  | Csr.Jvt => 64 * (v / 64)
  | Csr.Mstatus | Csr.Medeleg | Csr.Mideleg | Csr.Mie | Csr.Mcounteren | Csr.Mscratch
  | Csr.Mcause | Csr.Mtval | Csr.Mip | Csr.Vstart => v
  | Csr.Sstatus => Z.land v (sstatus_mask s)
  | Csr.Sie => Z.land v (supervisor_interrupt_mask s)
  | Csr.Sip =>
      Z.lor (Z.ldiff (Z.land (c_mip s) (supervisor_interrupt_mask s)) (Z.shiftl 1 1))
        (Z.land v (supervisor_software_interrupt_mask s))
  | Csr.Mtvec => 4 * (v / 4) + Z.b2z (v mod 4 =? 1)
  | Csr.Mepc => ialign s * (v / ialign s)
  | Csr.Vxsat => v mod 2
  | Csr.Vxrm => v mod 4
  | Csr.Vcsr => v mod 8
  | _ => csr_value s csr mod 2 ^ xbits s
  end.

Lemma masked_update_land old mask v :
  fits 64 mask -> Z.land (masked_update old mask v) mask = Z.land v mask.
Proof.
  intros Hm. unfold masked_update. apply Z.bits_inj'. intros i Hi.
  rewrite !Z.land_spec, Z.lor_spec, !Z.land_spec.
  destruct (Z.ltb_spec i 64); [rewrite wnot_testbit by lia; btauto|].
  rewrite (fits_testbit 64 mask) by done. btauto.
Qed.

Lemma land_mod k m v : m = Z.ones k -> 0 <= k -> Z.land v m = v mod 2 ^ k.
Proof. intros -> Hk. by apply Z.land_ones. Qed.

Lemma fflags_write old v :
  Z.land (Z.lor (Z.land old (wnot 32 0x1f)) (Z.land (as_u32 v) 0x1f)) 0x1f = v mod 32.
Proof.
  rewrite Z.land_lor_distr_l, <- !Z.land_assoc.
  change (Z.land (wnot 32 0x1f) 0x1f) with 0. change (Z.land 0x1f 0x1f) with 0x1f.
  rewrite Z.land_0_r, (land_mod 5) by done. apply (mod_pow_mod 5 32). lia.
Qed.

Lemma frm_write old v :
  Z.land (wshr 32 (Z.lor (Z.land old (wnot 32 0xe0)) (wshl 32 (Z.land (as_u32 v) 0x7) 5)) 5) 0x7
  = v mod 8.
Proof.
  unfold wshr. change (5 mod 32) with 5. rewrite Z.shiftr_lor, Z.shiftr_land.
  rewrite Z.land_lor_distr_l, <- Z.land_assoc.
  change (Z.land (Z.shiftr (wnot 32 0xe0) 5) 0x7) with 0. rewrite Z.land_0_r, Z.lor_0_l.
  assert (wshl 32 (Z.land (as_u32 v) 0x7) 5 = Z.shiftl (Z.land (as_u32 v) 0x7) 5) as ->.
  { apply as_u_small, fits_field; vm_compute; congruence. }
  rewrite Z.shiftr_shiftl_l, Z.shiftl_0_r, <- Z.land_assoc by lia.
  change (Z.land 0x7 0x7) with 0x7. rewrite (land_mod 3) by done. apply (mod_pow_mod 3 32). lia.
Qed.

Lemma vcsr_write v :
  Z.lor (wshl 64 (Z.land (wshr 64 v 1) 3) 1) (Z.land v 1) = v mod 8.
Proof.
  rewrite (land_mod 2 3), (land_mod 1 1) by done. unfold wshl, wshr. change (1 mod 64) with 1.
  rewrite Z.shiftr_div_pow2, Z.shiftl_mul_pow2 by lia.
  pose proof (Z.mod_pos_bound (v / 2 ^ 1) (2 ^ 2)).
  rewrite as_u_small by (split; lia). rewrite lor_join by (lia || by apply Z.mod_pos_bound).
  change (2 ^ 2) with 4 in *. change (2 ^ 1) with 2 in *. change 8 with (2 * 4).
  rewrite Z.rem_mul_r by lia. lia.
Qed.

Lemma mtvec_write v :
  fits n v ->
  Z.lor (Z.land (Z.land v (wnot 64 0x3)) (xlen_mask (cfg_xlen cfg))) (of_bool (Z.land v 0x3 =? 1))
  = 4 * (v / 4) + Z.b2z (v mod 4 =? 1).
Proof.
  intros Hv. assert (0 <= n <= 64) by by destruct (cfg_xlen cfg).
  assert (Z.land v (wnot 64 3) = 4 * (v / 4)) as ->
    by (change 3 with (Z.ones 2); by rewrite (clear_low n 2) by (done || lia)).
  rewrite land_xlen_mask, (land_mod 2 3) by done. change (2 ^ 2) with 4.
  assert (fits n (4 * (v / 4))) as Hb.
  { destruct Hv. pose proof (Z.mul_div_le v 4). pose proof (Z.div_pos v 4). split; lia. }
  rewrite Z.mod_small by done. rewrite Z.mul_comm. change 4 with (2 ^ 2) at 2.
  apply lor_join; [lia|]. by destruct (_ =? 1).
Qed.

Lemma mepc_write s v :
  hart_ok cfg s -> fits n v ->
  Z.land (Z.land v (mepc_alignment_mask s)) (xmask s) = ialign s * (v / ialign s)
  /\ fits n (ialign s * (v / ialign s)) /\ (ialign s * (v / ialign s)) mod ialign s = 0.
Proof.
  intros Hs Hv. assert (0 <= n <= 64) by by destruct (cfg_xlen cfg).
  rewrite (ok_xmask cfg s Hs), land_xlen_mask. unfold mepc_alignment_mask, ialign.
  assert (forall k, 0 < k -> fits n (k * (v / k)) /\ (k * (v / k)) mod k = 0) as Hb.
  { intros k Hk. destruct Hv. pose proof (Z.mul_div_le v k). pose proof (Z.div_pos v k).
    split; [split; nia|]. rewrite Z.mul_comm. by apply Z_mod_mult. }
  destruct (isa_c (cpu_isa s)).
  - split; [|by apply Hb]. change 1 with (Z.ones 1). rewrite (clear_low n 1) by (done || lia).
    apply Z.mod_small. by apply (Hb 2).
  - split; [|by apply Hb]. change 3 with (Z.ones 2). rewrite (clear_low n 2) by (done || lia).
    apply Z.mod_small. by apply (Hb 4).
Qed.

Lemma jvt_write v :
  fits n v -> Z.land (Z.land v (wnot 64 0x3f)) (xlen_mask (cfg_xlen cfg)) = 64 * (v / 64)
  /\ fits n (64 * (v / 64)).
Proof.
  intros Hv. assert (0 <= n <= 64) by by destruct (cfg_xlen cfg).
  assert (fits n (64 * (v / 64))) as Hb.
  { destruct Hv. pose proof (Z.mul_div_le v 64). pose proof (Z.div_pos v 64). split; lia. }
  split; [|done]. change 0x3f with (Z.ones 6). rewrite (clear_low n 6) by (done || lia).
  rewrite land_xlen_mask. by apply Z.mod_small.
Qed.

Lemma sip_write s v :
  hart_ok cfg s ->
  Z.land (masked_update (c_mip s) (supervisor_software_interrupt_mask s) v)
    (supervisor_interrupt_mask s)
  = Z.lor (Z.ldiff (Z.land (c_mip s) (supervisor_interrupt_mask s)) (Z.shiftl 1 1))
      (Z.land v (supervisor_software_interrupt_mask s)).
Proof.
  intros Hs. unfold supervisor_software_interrupt_mask, supervisor_interrupt_mask, masked_update.
  rewrite (ok_xmask cfg s Hs). apply Z.bits_inj'. intros i Hi.
  rewrite ?Z.land_spec, ?Z.lor_spec, ?Z.ldiff_spec, ?Z.land_spec, !one_bit by lia.
  destruct (Z.eqb_spec i 1) as [->|].
  - rewrite wnot_testbit, !Z.land_spec, one_bit by lia.
    change (Z.testbit S_INTERRUPT_MASK 1) with true. cbn. btauto.
  - destruct (Z.ltb_spec i 64).
    + rewrite wnot_testbit, !Z.land_spec, one_bit by lia.
      destruct (Z.eqb_spec i 1); [done|]. btauto.
    + rewrite (fits_testbit 64 (xlen_mask (cfg_xlen cfg))) by (done || by destruct (cfg_xlen cfg)).
      btauto.
Qed.

Lemma fits_mod_n w v : 0 <= w <= 32 -> fits n (v mod 2 ^ w).
Proof.
  intros Hw. apply (fits_weaken w); [destruct (cfg_xlen cfg); simpl; lia|].
  apply Z.mod_pos_bound. lia.
Qed.

Lemma csr_value_update s csr v :
  hart_ok cfg s -> fits n v -> csr_value (csr_update csr v s) csr mod 2 ^ n = csr_legal s csr v.
Proof.
  intros Hs Hv. pose proof (ok_xmask cfg s Hs) as Hx.
  assert (forall u, u mod 2 ^ n = u <-> fits n u) as Hsm.
  { intros u. split; [intros <-; apply xlen_mod_fits | by apply Z.mod_small]. }
  assert (forall m, fits n (Z.land v (Z.land m (xmask s)))) as Hm.
  { intros m. rewrite Hx. apply fits_land_r, fits_mask_x. }
  assert (forall m, fits 64 (Z.land m (xmask s))) as Hm64.
  { intros m. rewrite Hx. eapply fits_weaken; [apply (xbits_64 cfg)|apply fits_mask_x]. }
  destruct csr; cbn [csr_update csr_value csr_legal]; cbn -[Z.land Z.lor Z.ldiff];
    try (unfold xbits; by rewrite (ok_xlen cfg s Hs)); try by apply Hsm.
  - rewrite fflags_write. apply Hsm, (fits_mod_n 5). lia.
  - rewrite frm_write. apply Hsm, (fits_mod_n 3). lia.
  - rewrite <- Z.land_assoc. change (Z.land 0xff 0xff) with 0xff. rewrite (land_mod 8) by done.
    unfold as_u. rewrite (mod_pow_mod 8 32) by lia. apply Hsm, (fits_mod_n 8). lia.
  - rewrite Hx. destruct (jvt_write v Hv) as [-> ?]. by apply Hsm.
  - etransitivity; [|apply Hsm, Hm]. f_equal. apply masked_update_land, Hm64.
  - etransitivity; [|apply Hsm, Hm]. f_equal. apply masked_update_land, Hm64.
  - rewrite Hx, mtvec_write by done. apply Hsm. destruct Hv. pose proof (Z.mul_div_le v 4).
    pose proof (Z.div_pos v 4). destruct (Z.eqb_spec (v mod 4) 1); simpl; split; try lia.
    pose proof (Z.div_mod v 4). lia.
  - destruct (mepc_write s v Hs Hv) as (E & Hf & Ha). rewrite E.
    rewrite mepc_read_aligned; [by apply Hsm| |done]. cbn [set_c_mepc c_mepc].
    unfold xbits. by rewrite (ok_xlen cfg s Hs : cpu_xlen (set_c_mepc _ s) = _).
  - etransitivity; [|apply (sip_write s v Hs)]. apply Hsm.
    apply fits_land_r. unfold supervisor_interrupt_mask. rewrite Hx. apply fits_mask_x.
  - rewrite (land_mod 1) by done. apply Hsm, (fits_mod_n 1). lia.
  - rewrite (land_mod 2) by done. apply Hsm, (fits_mod_n 2). lia.
  - rewrite vcsr_write. apply Hsm, (fits_mod_n 3). lia.
Qed.

(** C17. Writing a CSR and reading it back gives the legalised value: the whole value for
    the plain registers, the field for the floating-point and vector status, an
    aligned base for [jvt], [mtvec] (whose mode is direct or vectored) and [mepc],
    the delegated or supervisor-visible bits for the supervisor views, and the old
    value for the registers without storage. *)
Theorem csr_write_read addr csr v s :
  hart_ok cfg s -> fits n v -> Csr.from_addr addr = Some csr -> csr_available s csr = true ->
  exists s', csr_write addr v s = (Ok tt, s')
    /\ csr_read addr s' = (Ok (csr_legal s csr v), s').
Proof.
  intros Hs Hv Hc Ha. assert (csr_at s addr = Some (csr_value s csr, csr_update csr)) as Hat.
  { unfold csr_at. by rewrite Hc, Ha. }
  exists (csr_update csr v s). rewrite csr_write_at, Hat. split; [done|].
  destruct (csr_at_write_frame s _ _ _ v s Hat) as [Hcfg _].
  rewrite csr_read_at. unfold csr_at. rewrite Hc.
  replace (csr_available (csr_update csr v s) csr) with (csr_available s csr)
    by (unfold csr_available, cpu_isa, cpu_xlen; by rewrite Hcfg).
  rewrite Ha. unfold xbits, cpu_xlen. rewrite Hcfg, (ok_cfg _ _ Hs).
  by rewrite csr_value_update.
Qed.

Lemma masked_update_bit old mask v i :
  0 <= i < 64 ->
  Z.testbit (masked_update old mask v) i
  = if Z.testbit mask i then Z.testbit v i else Z.testbit old i.
Proof.
  intros Hi. unfold masked_update. rewrite Z.lor_spec, !Z.land_spec, wnot_testbit by done.
  destruct (Z.testbit mask i); btauto.
Qed.

(** The supervisor registers are windows on the machine ones: a write to [sstatus],
    [sie] or [sip] changes exactly the bits of the window of [mstatus], [mie] or
    [mip], and the machine-level MIE, MPIE and MPP are outside the window. *)
Theorem supervisor_writes v s i :
  hart_ok cfg s -> 0 <= i < 64 ->
  (Z.testbit (c_mstatus (csr_update Csr.Sstatus v s)) i
   = if Z.testbit (sstatus_mask s) i then Z.testbit v i else Z.testbit (c_mstatus s) i)
  /\ (Z.testbit (c_mie (csr_update Csr.Sie v s)) i
      = if Z.testbit (c_mideleg s) i && ((i =? 1) || (i =? 5) || (i =? 9))
        then Z.testbit v i else Z.testbit (c_mie s) i)
  /\ (Z.testbit (c_mip (csr_update Csr.Sip v s)) i
      = if Z.testbit (c_mideleg s) i && (i =? 1) then Z.testbit v i else Z.testbit (c_mip s) i)
  /\ Forall (fun j => Z.testbit (sstatus_mask s) j = false) [3; 7; 11; 12].
Proof.
  intros Hs Hi. cbn [csr_update c_mstatus c_mie c_mip set_c_mstatus set_c_mie set_c_mip].
  rewrite !masked_update_bit by done. split_and!; [done|..].
  - unfold supervisor_interrupt_mask, S_INTERRUPT_MASK. cbn [foldl].
    rewrite !Z.land_spec, !Z.lor_spec, !one_bit, Z.bits_0 by lia. cbn [orb].
    destruct (Z.eqb_spec i 1) as [->|]; [|destruct (Z.eqb_spec i 5) as [->|];
      [|destruct (Z.eqb_spec i 9) as [->|]]]; rewrite ?andb_false_r; try done;
      rewrite (ok_xmask cfg s Hs); by destruct (cfg_xlen cfg), (Z.testbit (c_mideleg s) _).
  - unfold supervisor_software_interrupt_mask. rewrite !Z.land_spec, one_bit by lia.
    destruct (Z.eqb_spec i 1) as [->|]; rewrite ?andb_false_r; try done.
    rewrite (ok_xmask cfg s Hs). by destruct (cfg_xlen cfg), (Z.testbit (c_mideleg s) _).
  - unfold sstatus_mask, xbits. rewrite (ok_xmask cfg s Hs), (ok_xlen cfg s Hs).
    each_arm; by destruct (cfg_xlen cfg).
Qed.
End CsrSpec.

(** ** Witnesses *)

(** [csrrw x6, mtvec, x5]: the base is aligned and the mode is direct. *)
Lemma execute_csr_witness :
  exists s', execute (decode 0x30529373 Rv64 rv64gc) 0 demo_hart
             = (Ok RiscVExit.Continue, s')
    /\ c_mtvec s' = 0x8874 /\ get_x s' 6 = 0.
Proof.
  eexists. split.
  - refine (execute_csr (decode 0x30529373 Rv64 rv64gc) 0 demo_hart CsrWrite false _ _);
      [vm_compute; reflexivity | by split].
  - split; vm_compute; reflexivity.
Defined.

Lemma csr_write_read_witness :
  exists s', csr_write 0x305 0x8877 demo_hart = (Ok tt, s')
    /\ csr_read 0x305 s' = (Ok 0x8874, s').
Proof.
  apply (csr_write_read config_rv64gc 0x305 Csr.Mtvec 0x8877 demo_hart);
    [apply demo_hart_ok | by split | reflexivity | reflexivity].
Defined.

(** A write of all ones through [sstatus] leaves MIE clear. *)
Lemma supervisor_writes_witness :
  Z.testbit (c_mstatus (csr_update Csr.Sstatus (2 ^ 64 - 1) demo_hart)) 3 = false.
Proof.
  destruct (supervisor_writes config_rv64gc (2 ^ 64 - 1) demo_hart 3) as (H1 & _);
    [apply demo_hart_ok | lia |].
  etransitivity; [exact H1 | vm_compute; reflexivity].
Defined.
