(* ===== verification/RvAtomicSpec.v ===== *)
(** * Atomic instructions

    Load-reserved and store-conditional, the atomic read-modify-write
    operations and compare-and-swap, on every branch of the code. *)

From S2P Require Import Prelude RvIsa RvOp RvMemory RvDecode RvAlu RvState RvHart RvCsr RvExec.
From S2P Require Import RvAluOps RvAluSpec RvStep RvHartSafe RvStepSafe RvExecSpec.

(** ** Specification *)

(** The number of bytes of a load-reserved or store-conditional. *)
Definition lr_size (op : Op) : option nat :=
  match op with LrW => Some 4%nat | LrD => Some 8%nat | _ => None end.
Definition sc_size (op : Op) : option nat :=
  match op with ScW => Some 4%nat | ScD => Some 8%nat | _ => None end.

(** The atomic operations on [w]-bit values. *)
Inductive AmoFun : Type := Swap | AAdd | AXor | AAnd | AOr | AMin | AMax | AMinu | AMaxu.

Definition amo_apply (w : Z) (f : AmoFun) (old src : Z) : Z :=
  match f with
  | Swap => src
  | AAdd => (old + src) mod 2 ^ w
  | AXor => Z.lxor old src
  | AAnd => Z.land old src
  | AOr => Z.lor old src
  | AMin => if as_i w src <? as_i w old then src else old
  | AMax => if as_i w old <? as_i w src then src else old
  | AMinu => Z.min old src
  | AMaxu => Z.max old src
  end.

Definition amo_kind (op : Op) : option (nat * AmoFun) :=
  match op with
  | AmoswapW => Some (4%nat, Swap)
  | AmoaddW => Some (4%nat, AAdd)
  | AmoxorW => Some (4%nat, AXor)
  | AmoandW => Some (4%nat, AAnd)
  | AmoorW => Some (4%nat, AOr)
  | AmominW => Some (4%nat, AMin)
  | AmomaxW => Some (4%nat, AMax)
  | AmominuW => Some (4%nat, AMinu)
  | AmomaxuW => Some (4%nat, AMaxu)
  | AmoswapD => Some (8%nat, Swap)
  | AmoaddD => Some (8%nat, AAdd)
  | AmoxorD => Some (8%nat, AXor)
  | AmoandD => Some (8%nat, AAnd)
  | AmoorD => Some (8%nat, AOr)
  | AmominD => Some (8%nat, AMin)
  | AmomaxD => Some (8%nat, AMax)
  | AmominuD => Some (8%nat, AMinu)
  | AmomaxuD => Some (8%nat, AMaxu)
  | _ => None
  end.

Lemma signed_pick w x y (c : Z -> Z -> Z) (b : bool) :
  1 <= w -> fits w x -> fits w y ->
  c (as_i w x) (as_i w y) = (if b then as_i w y else as_i w x) ->
  as_u w (c (as_i w x) (as_i w y)) = if b then y else x.
Proof.
  intros Hw Hx Hy ->. destruct b; rewrite as_u_as_i by done; by apply as_u_small.
Qed.

Lemma amo_min w x y :
  1 <= w -> fits w x -> fits w y ->
  as_u w (Z.min (as_i w x) (as_i w y)) = if as_i w y <? as_i w x then y else x.
Proof. intros. apply signed_pick; try done. destruct (Z.ltb_spec (as_i w y) (as_i w x)); lia. Qed.

Lemma amo_max w x y :
  1 <= w -> fits w x -> fits w y ->
  as_u w (Z.max (as_i w x) (as_i w y)) = if as_i w x <? as_i w y then y else x.
Proof. intros. apply signed_pick; try done. destruct (Z.ltb_spec (as_i w x) (as_i w y)); lia. Qed.

(** The computations of the source are the specified ones. *)
Lemma amo_compute32_apply op f old src :
  amo_kind op = Some (4%nat, f) -> fits 32 old -> fits 32 src ->
  amo_compute32 op old src = Some (amo_apply 32 f old src) /\ is_amo_d op = false.
Proof.
  intros Hk Ho Hs. destruct op; try discriminate Hk; apply (inj Some) in Hk; simplify_eq;
    (split; [|done]); cbn; rewrite ?amo_min, ?amo_max by done; done.
Qed.

Lemma amo_compute64_apply op f old src :
  amo_kind op = Some (8%nat, f) -> fits 64 old -> fits 64 src ->
  amo_compute64 op old src = Some (amo_apply 64 f old src) /\ is_amo_d op = true.
Proof.
  intros Hk Ho Hs. destruct op; try discriminate Hk; apply (inj Some) in Hk; simplify_eq;
    (split; [|done]); cbn; rewrite ?amo_min, ?amo_max by done; done.
Qed.

Lemma amo_kind_size op n f : amo_kind op = Some (n, f) -> n = 4%nat \/ n = 8%nat.
Proof. destruct op; intros Hk; try discriminate Hk; simplify_eq/=; auto. Qed.

Lemma to_le_bytes_wrap k v : to_le_bytes k (as_u (8 * Z.of_nat k) v) = to_le_bytes k v.
Proof.
  rewrite <- from_to_le_bytes. rewrite <- (to_le_bytes_length k v) at 1.
  apply to_from_le_bytes, to_le_bytes_fits.
Qed.

(** ** Effects *)

Section Atomics.
Context {M : Type} `{MemoryLaws M} (cfg : RiscVConfig).
Abbreviation Hart := (RiscVCpu M).
Implicit Types (s : Hart) (insn : Insn).
Abbreviation n := (xlen_bits (cfg_xlen cfg)).

(** The address of an atomic access. *)
Abbreviation addr_of insn s := (get_x s (insn_rs1 insn)).

Lemma addr_masked s i : hart_ok cfg s -> Z.land (get_x s i) (xmask s) = get_x s i.
Proof.
  intros Hs. rewrite (ok_xmask cfg s Hs), land_xlen_mask. apply Z.mod_small. by apply fits_get_x.
Qed.

Lemma xbits_started insn pc s : hart_ok cfg s -> xbits (started insn pc s) = n.
Proof. intros Hs. apply (ok_xbits cfg), started_ok, Hs. Qed.

(** A loaded word or doubleword as the source writes it to a register. *)
Lemma loaded_w bs : as_u64 (as_i32 (from_le_bytes bs)) mod 2 ^ n = loaded n (4%nat, true) bs.
Proof. apply as_u_64_mod. Qed.
Lemma loaded_d bs : from_le_bytes bs mod 2 ^ n = loaded n (8%nat, true) bs.
Proof.
  unfold loaded. cbn [fst snd]. rewrite <- (as_u_64_mod _ (as_i _ _)).
  rewrite as_u_as_i by lia. by rewrite as_u_64_mod.
Qed.

(** A register write in a hart that differs from [s] outside the configuration. *)
Lemma set_x_n rd v s : xbits s = n -> fits 5 rd -> set_x rd v s = with_reg rd (v mod 2 ^ n) s.
Proof. intros Hx Hrd. rewrite set_x_with_reg by done. by rewrite Hx. Qed.

Lemma lr_effect insn pc s sz :
  hart_ok cfg s -> fits 5 (insn_rd insn) -> lr_size (insn_op insn) = Some sz ->
  execute insn pc s =
    let addr := addr_of insn s in
    let s' := started insn pc s in
    if negb (addr mod Z.of_nat sz =? 0) then (Err (mk_trap cause.LOAD_MISALIGNED addr), s')
    else match mem_read (c_mem s) addr sz with
         | inl _ => (Err (mk_trap cause.LOAD_ACCESS_FAULT addr), s')
         | inr bs => (Ok RiscVExit.Continue,
                      with_reg (insn_rd insn) (loaded n (sz, true) bs)
                        (set_c_reservation (Some addr) s'))
         end.
Proof.
  intros Hs Hrd Hk. rewrite (execute_misc_arm insn pc s (exec_lrsc insn)).
  2: { unfold exec_misc. destruct (insn_op insn); (discriminate Hk || done). }
  unfold exec_lrsc. erewrite bind_ok by reflexivity. cbv beta zeta.
  rewrite (addr_masked _ _ (started_ok cfg insn pc s Hs)).
  change (get_x (started insn pc s)) with (get_x s).
  pose proof (xbits_started insn pc s Hs) as Hx.
  destruct (insn_op insn); try discriminate Hk; apply (inj Some) in Hk as <-;
    cbn [Z.of_nat Pos.of_succ_nat Pos.succ].
  all: destruct (_ =? 0); [cbn [negb]|done].
  all: unfold read_u32, read_u64, read_le, mem_get, mbind, exec_bind, ebind;
    change (c_mem (started insn pc s)) with (c_mem s);
    destruct (mem_read (c_mem s) _ _) as [e|bs] eqn:Er; [done|];
    unfold write_x, modify, continued; rewrite set_x_n by done.
  - by rewrite loaded_w.
  - by rewrite loaded_d.
Qed.

Lemma sc_effect insn pc s sz :
  hart_ok cfg s -> fits 5 (insn_rd insn) -> sc_size (insn_op insn) = Some sz ->
  execute insn pc s =
    let addr := addr_of insn s in
    let s' := started insn pc s in
    let released := set_c_reservation None s' in
    if negb (addr mod Z.of_nat sz =? 0) then (Err (mk_trap cause.STORE_MISALIGNED addr), s')
    else if bool_decide (c_reservation s = Some addr)
    then match mem_write (c_mem s) addr (to_le_bytes sz (get_x s (insn_rs2 insn))) with
         | (inl _, _) => (Err (mk_trap cause.STORE_ACCESS_FAULT addr), released)
         | (inr _, m) => (Ok RiscVExit.Continue, with_reg (insn_rd insn) 0 (set_c_mem m released))
         end
    else match mem_probe (c_mem s) addr (Z.of_nat sz) true with
         | inl _ => (Err (mk_trap cause.STORE_ACCESS_FAULT addr), released)
         | inr _ => (Ok RiscVExit.Continue, with_reg (insn_rd insn) 1 released)
         end.
Proof.
  intros Hs Hrd Hk. rewrite (execute_misc_arm insn pc s (exec_lrsc insn)).
  2: { unfold exec_misc. destruct (insn_op insn); (discriminate Hk || done). }
  unfold exec_lrsc. erewrite bind_ok by reflexivity. cbv beta zeta.
  rewrite (addr_masked _ _ (started_ok cfg insn pc s Hs)).
  change (get_x (started insn pc s)) with (get_x s).
  change (c_reservation (started insn pc s)) with (c_reservation s).
  pose proof (xbits_started insn pc s Hs) as Hx.
  assert (1 mod 2 ^ n = 1) as H1 by by destruct (cfg_xlen cfg).
  destruct (insn_op insn); try discriminate Hk; apply (inj Some) in Hk as <-;
    cbn [Z.of_nat Pos.of_succ_nat Pos.succ].
  all: destruct (_ =? 0); [cbn [negb]|done].
  all: unfold write_u32, write_u64, mem_get, mem_put, mbind, exec_bind, ebind, write_x, modify.
  all: destruct (bool_decide _); cbn [c_mem set_c_reservation set_c_mem started set_c_pc].
  all: rewrite ?(to_le_bytes_wrap 4 : forall v, to_le_bytes 4 (as_u32 v) = _).
  1,3: destruct (mem_write _ _ _) as [[e|u] m] eqn:Ew; cbn [continued];
    [by rewrite (mem_write_err _ _ _ _ _ (ok_mem _ _ Hs) Ew) | by rewrite set_x_n].
  all: cbn [Z.of_nat Pos.of_succ_nat Pos.succ];
    destruct (mem_probe _ _ _ _); cbn [continued]; [done|];
    by rewrite set_x_n, H1.
Qed.

(** A read, a computation on the value read, and a write of the result. *)
Lemma rmw_effect sz addr (compute : Z -> option Z) (ret : Z -> Z) rd t1 t2 s :
  hart_ok cfg s ->
  (old ← mem_get (fun m => read_le sz m addr) t1;
   new ← expect (compute old);
   mem_put (fun m => mem_write m addr (to_le_bytes sz new)) t2;;
   write_x rd (ret old)) s
  = match mem_read (c_mem s) addr sz with
    | inl _ => (Err t1, s)
    | inr bs =>
        match compute (from_le_bytes bs) with
        | None => (Panic, s)
        | Some new =>
            match mem_write (c_mem s) addr (to_le_bytes sz new) with
            | (inl _, _) => (Err t2, s)
            | (inr _, m) => (Ok tt, set_x rd (ret (from_le_bytes bs)) (set_c_mem m s))
            end
        end
    end.
Proof.
  intros Hs. unfold mem_get, mem_put, mbind, exec_bind, ebind, read_le.
  destruct (mem_read (c_mem s) addr sz) as [e|bs]; [done|].
  destruct (compute _) as [new|]; [|done]. unfold expect, eret.
  destruct (mem_write _ _ _) as [[e|u] m] eqn:Ew; [|done].
  rewrite (mem_write_err _ _ _ _ _ (ok_mem _ _ Hs) Ew). by destruct s.
Qed.

(** The source operand of a [sz]-byte operation. *)
Definition operand (sz : nat) (v : Z) : Z := v mod 2 ^ (8 * Z.of_nat sz).

(** C30. An atomic memory operation reads the naturally aligned word or doubleword at
    [rs1], writes back the result of the operation on it and [rs2], and gives the
    destination the sign-extended old value.  A misaligned address raises a
    store/AMO misaligned exception; a rejected read or write raises an access fault
    and leaves registers and memory unchanged. *)
Theorem execute_amo insn pc s sz f :
  hart_ok cfg s -> fits 5 (insn_rd insn) -> amo_kind (insn_op insn) = Some (sz, f) ->
  execute insn pc s =
    let addr := addr_of insn s in
    let s' := started insn pc s in
    let src := operand sz (get_x s (insn_rs2 insn)) in
    if negb (addr mod Z.of_nat sz =? 0) then (Err (mk_trap cause.STORE_MISALIGNED addr), s')
    else match mem_read (c_mem s) addr sz with
         | inl _ => (Err (mk_trap cause.LOAD_ACCESS_FAULT addr), s')
         | inr bs =>
             let new := amo_apply (8 * Z.of_nat sz) f (from_le_bytes bs) src in
             match mem_write (c_mem s) addr (to_le_bytes sz new) with
             | (inl _, _) => (Err (mk_trap cause.STORE_ACCESS_FAULT addr), s')
             | (inr _, m) => (Ok RiscVExit.Continue,
                              with_reg (insn_rd insn) (loaded n (sz, true) bs) (set_c_mem m s'))
             end
         end.
Proof.
  intros Hs Hrd Hk. rewrite (execute_misc_arm insn pc s (exec_amo insn)).
  2: { unfold exec_misc. destruct (insn_op insn); (discriminate Hk || done). }
  unfold exec_amo. erewrite bind_ok by reflexivity. cbv beta zeta.
  rewrite (addr_masked _ _ (started_ok cfg insn pc s Hs)).
  change (get_x (started insn pc s)) with (get_x s).
  pose proof (xbits_started insn pc s Hs) as Hx.
  pose proof (fits_get_x_64 cfg s (insn_rs2 insn) Hs) as Hsrc.
  destruct (amo_kind_size _ _ _ Hk) as [-> | ->].
  - destruct (amo_compute32_apply _ _ 0 0 Hk) as [_ ->]; [done..|].
    change (Z.of_nat 4) with 4. destruct (_ =? 0); [cbn [negb]|done].
    unfold read_u32, write_u32. rewrite (rmw_effect 4) by by apply started_ok.
    change (c_mem (started insn pc s)) with (c_mem s).
    destruct (mem_read (c_mem s) _ 4) as [e|bs] eqn:Er; [done|].
    apply mem_read_bytes in Er as [Hl Hb]; [|apply Hs]. pose proof (from_le_bytes_fits bs Hb) as Hf.
    rewrite Hl in Hf. destruct (amo_compute32_apply _ _ (from_le_bytes bs)
      (as_u32 (get_x s (insn_rs2 insn))) Hk Hf) as [-> _]; [by apply as_u_fits|].
    cbv zeta. change (as_u32 (get_x s (insn_rs2 insn))) with (operand 4 (get_x s (insn_rs2 insn))).
    change (8 * Z.of_nat 4) with 32.
    destruct (mem_write _ _ _) as [[e|u] m]; cbn [continued]; [done|].
    by rewrite set_x_n, loaded_w.
  - destruct (amo_compute64_apply _ _ 0 0 Hk) as [_ ->]; [done..|].
    change (Z.of_nat 8) with 8. destruct (_ =? 0); [cbn [negb]|done].
    unfold read_u64, write_u64. rewrite (rmw_effect 8) by by apply started_ok.
    change (c_mem (started insn pc s)) with (c_mem s).
    destruct (mem_read (c_mem s) _ 8) as [e|bs] eqn:Er; [done|].
    apply mem_read_bytes in Er as [Hl Hb]; [|apply Hs]. pose proof (from_le_bytes_fits bs Hb) as Hf.
    rewrite Hl in Hf. destruct (amo_compute64_apply _ _ (from_le_bytes bs)
      (get_x s (insn_rs2 insn)) Hk Hf Hsrc) as [-> _].
    cbv zeta. unfold operand. change (8 * Z.of_nat 8) with 64. rewrite (Z.mod_small _ _ Hsrc).
    destruct (mem_write _ _ _) as [[e|u] m]; cbn [continued]; [done|].
    by rewrite set_x_n, loaded_d.
Qed.

(** The access size of a single-register compare-and-swap. *)
Definition cas_size (op : Op) : option nat :=
  match op with AmocasW => Some 4%nat | AmocasD => Some 8%nat | _ => None end.

(** The write of a compare-and-swap, which happens only on a match. *)
Lemma cas_body sz addr (hit : Z -> bool) new (ret : Z -> Z) rd t1 t2 s :
  hart_ok cfg s ->
  (old ← mem_get (fun m => read_le sz m addr) t1;
   (if hit old then mem_put (fun m => mem_write m addr (to_le_bytes sz new)) t2 else eret tt);;
   write_x rd (ret old)) s
  = match mem_read (c_mem s) addr sz with
    | inl _ => (Err t1, s)
    | inr bs =>
        if hit (from_le_bytes bs)
        then match mem_write (c_mem s) addr (to_le_bytes sz new) with
             | (inl _, _) => (Err t2, s)
             | (inr _, m) => (Ok tt, set_x rd (ret (from_le_bytes bs)) (set_c_mem m s))
             end
        else (Ok tt, set_x rd (ret (from_le_bytes bs)) s)
    end.
Proof.
  intros Hs. unfold mem_get, mem_put, mbind, exec_bind, ebind, read_le.
  destruct (mem_read (c_mem s) addr sz) as [e|bs]; [done|]. destruct (hit _); [|done].
  destruct (mem_write _ _ _) as [[e|u] m] eqn:Ew; [|done].
  rewrite (mem_write_err _ _ _ _ _ (ok_mem _ _ Hs) Ew). by destruct s.
Qed.

(** Compare-and-swap writes [rs2] exactly when the word or doubleword in memory is
    the one in the destination register, and gives the destination the old value
    in both cases; a mismatch changes no memory. *)
Theorem execute_cas insn pc s sz :
  hart_ok cfg s -> fits 5 (insn_rd insn) -> cas_size (insn_op insn) = Some sz ->
  execute insn pc s =
    let addr := addr_of insn s in
    let s' := started insn pc s in
    if negb (addr mod Z.of_nat sz =? 0) then (Err (mk_trap cause.STORE_MISALIGNED addr), s')
    else match mem_read (c_mem s) addr sz with
         | inl _ => (Err (mk_trap cause.LOAD_ACCESS_FAULT addr), s')
         | inr bs =>
             let old := with_reg (insn_rd insn) (loaded n (sz, true) bs) in
             if from_le_bytes bs =? operand sz (get_x s (insn_rd insn))
             then match mem_write (c_mem s) addr (to_le_bytes sz (get_x s (insn_rs2 insn))) with
                  | (inl _, _) => (Err (mk_trap cause.STORE_ACCESS_FAULT addr), s')
                  | (inr _, m) => (Ok RiscVExit.Continue, old (set_c_mem m s'))
                  end
             else (Ok RiscVExit.Continue, old s')
         end.
Proof.
  intros Hs Hrd Hk. rewrite (execute_misc_arm insn pc s (exec_amocas insn)).
  2: { unfold exec_misc. destruct (insn_op insn); (discriminate Hk || done). }
  unfold exec_amocas. erewrite bind_ok by reflexivity. cbv beta zeta.
  rewrite (addr_masked _ _ (started_ok cfg insn pc s Hs)).
  change (get_x (started insn pc s)) with (get_x s).
  pose proof (xbits_started insn pc s Hs) as Hx. pose proof (started_ok cfg insn pc s Hs) as Hs'.
  destruct (insn_op insn); try discriminate Hk; apply (inj Some) in Hk as <-.
  - change (Z.of_nat 4) with 4. destruct (_ =? 0); [cbn [negb]|done].
    unfold read_u32, write_u32.
    rewrite (cas_body 4 _ (fun old => old =? as_u32 (get_x s (insn_rd insn)))) by done.
    change (c_mem (started insn pc s)) with (c_mem s).
    rewrite (to_le_bytes_wrap 4 : forall v, to_le_bytes 4 (as_u32 v) = _).
    destruct (mem_read (c_mem s) _ 4) as [e|bs]; [done|]. unfold operand.
    change (8 * Z.of_nat 4) with 32. destruct (_ =? _); cbn [continued]; [|by rewrite set_x_n, loaded_w].
    destruct (mem_write _ _ _) as [[e|u] m]; cbn [continued]; [done|]. by rewrite set_x_n, loaded_w.
  - change (Z.of_nat 8) with 8. destruct (_ =? 0); [cbn [negb]|done].
    unfold read_u64, write_u64.
    rewrite (cas_body 8 _ (fun old => old =? get_x s (insn_rd insn))) by done.
    change (c_mem (started insn pc s)) with (c_mem s).
    destruct (mem_read (c_mem s) _ 8) as [e|bs]; [done|]. unfold operand.
    change (8 * Z.of_nat 8) with 64.
    rewrite (Z.mod_small (get_x s (insn_rd insn))) by (by apply (fits_get_x_64 cfg)).
    destruct (_ =? _); cbn [continued]; [|by rewrite set_x_n, loaded_d].
    destruct (mem_write _ _ _) as [[e|u] m]; cbn [continued]; [done|]. by rewrite set_x_n, loaded_d.
Qed.

(** C31. Load-reserved gives its destination the sign-extended value and reserves the
    address.  Store-conditional on an aligned address gives the reservation up,
    whether or not its access is rejected; it stores and returns zero when the
    reservation held is for its address, and otherwise stores nothing and returns
    one, after the same permission check.  A misaligned address traps and leaves the
    reservation as it was; rejected accesses trap with the address. *)
Theorem execute_lr_sc insn pc s :
  hart_ok cfg s -> fits 5 (insn_rd insn) ->
  let addr := addr_of insn s in
  let s' := started insn pc s in
  let released := set_c_reservation None s' in
  (forall sz, lr_size (insn_op insn) = Some sz ->
     execute insn pc s =
       if negb (addr mod Z.of_nat sz =? 0) then (Err (mk_trap cause.LOAD_MISALIGNED addr), s')
       else match mem_read (c_mem s) addr sz with
            | inl _ => (Err (mk_trap cause.LOAD_ACCESS_FAULT addr), s')
            | inr bs => (Ok RiscVExit.Continue,
                         with_reg (insn_rd insn) (loaded n (sz, true) bs)
                           (set_c_reservation (Some addr) s'))
            end)
  /\ (forall sz, sc_size (insn_op insn) = Some sz ->
        execute insn pc s =
          if negb (addr mod Z.of_nat sz =? 0) then (Err (mk_trap cause.STORE_MISALIGNED addr), s')
          else if bool_decide (c_reservation s = Some addr)
          then match mem_write (c_mem s) addr (to_le_bytes sz (get_x s (insn_rs2 insn))) with
               | (inl _, _) => (Err (mk_trap cause.STORE_ACCESS_FAULT addr), released)
               | (inr _, m) => (Ok RiscVExit.Continue,
                                with_reg (insn_rd insn) 0 (set_c_mem m released))
               end
          else match mem_probe (c_mem s) addr (Z.of_nat sz) true with
               | inl _ => (Err (mk_trap cause.STORE_ACCESS_FAULT addr), released)
               | inr _ => (Ok RiscVExit.Continue, with_reg (insn_rd insn) 1 released)
               end).
Proof. intros Hs Hrd. split; intros sz Hk; [by apply lr_effect | by apply sc_effect]. Qed.

Lemma with_reg_fields rd v s :
  c_mem (with_reg rd v s) = c_mem s /\ c_reservation (with_reg rd v s) = c_reservation s
  /\ (hart_ok cfg s -> fits n v -> fits 5 rd -> hart_ok cfg (with_reg rd v s)).
Proof.
  split_and!; try (unfold with_reg; by destruct (rd =? 0)). intros Hs Hv Hrd.
  rewrite <- (Z.mod_small v (2 ^ n)) by done. rewrite <- set_x_n; try done.
  - by apply ok_set_x.
  - by apply (ok_xbits cfg).
Qed.

Lemma sc_size_pos op sz : sc_size op = Some sz -> exists k, sz = S k /\ lr_size op = None.
Proof. destruct op; intros Hk; try discriminate Hk; apply (inj Some) in Hk as <-; eauto. Qed.

(** Without a reservation a store-conditional fails. *)
Lemma sc_unreserved insn pc s :
  hart_ok cfg s -> fits 5 (insn_rd insn) -> is_Some (sc_size (insn_op insn)) ->
  c_reservation s = None ->
  c_mem (execute insn pc s).2 = c_mem s
  /\ (forall s', execute insn pc s = (Ok RiscVExit.Continue, s') ->
        insn_rd insn <> 0 -> get_x s' (insn_rd insn) = 1).
Proof.
  intros Hs Hrd [sz Hsz] Hres. rewrite (sc_effect _ _ _ _ Hs Hrd Hsz). cbv zeta. rewrite Hres.
  destruct (negb _); [by split|]. rewrite bool_decide_false by done.
  destruct (mem_probe _ _ _ _); [by split|]. split.
  { cbn [snd]. by rewrite (proj1 (with_reg_fields _ _ _)). }
  intros s' [= <-] Hr0. apply get_with_reg; [apply Hs|done..].
Qed.

(** C26. The reservation protocol makes progress and is used up: after a load-reserved
    that retires, a store-conditional of the same size at the same address whose
    range is writable succeeds, returns zero and leaves the stored bytes in memory,
    and a second one to any address fails and leaves the memory as it is. *)
Theorem lr_sc_pair lr sc sc' pc pc' pc'' s s1 sz :
  hart_ok cfg s -> lr_size (insn_op lr) = Some sz -> sc_size (insn_op sc) = Some sz ->
  fits 5 (insn_rd lr) -> fits 5 (insn_rd sc) -> insn_rd sc <> 0 -> fits 5 (insn_rd sc') ->
  execute lr pc s = (Ok RiscVExit.Continue, s1) ->
  addr_of sc s1 = addr_of lr s ->
  mem_probe (c_mem s) (addr_of lr s) (Z.of_nat sz) true = inr tt ->
  exists s2, execute sc pc' s1 = (Ok RiscVExit.Continue, s2)
    /\ get_x s2 (insn_rd sc) = 0
    /\ mem_read (c_mem s2) (addr_of lr s) sz = inr (to_le_bytes sz (get_x s1 (insn_rs2 sc)))
    /\ (is_Some (sc_size (insn_op sc')) ->
        c_mem (execute sc' pc'' s2).2 = c_mem s2
        /\ (forall s3, execute sc' pc'' s2 = (Ok RiscVExit.Continue, s3) ->
              insn_rd sc' <> 0 -> get_x s3 (insn_rd sc') = 1)).
Proof.
  intros Hs Hlr Hsc Hrl Hrs Hr0 Hrs' Hex Hadr Hpr. rewrite (lr_effect _ _ _ _ Hs Hrl Hlr) in Hex.
  cbv zeta in Hex. destruct (negb _) eqn:Hal; [done|].
  destruct (mem_read _ _ _) as [e|bs]; [done|]. injection Hex as <-.
  set (s1 := with_reg _ _ _) in *.
  assert (hart_ok cfg s1 /\ c_mem s1 = c_mem s /\ c_reservation s1 = Some (addr_of lr s))
    as (Hs1 & Hm1 & Hres1).
  { destruct (with_reg_fields (insn_rd lr) (loaded n (sz, true) bs)
      (set_c_reservation (Some (addr_of lr s)) (started lr pc s))) as (Hm & Hr & Hok).
    split_and!; [|exact Hm|exact Hr]. apply Hok; [|apply xlen_mod_fits|done].
    by apply ok_set_reservation, started_ok. }
  rewrite (sc_effect _ _ _ _ Hs1 Hrs Hsc). cbv zeta. rewrite Hadr, Hal, Hm1, Hres1.
  rewrite bool_decide_true by done.
  destruct (proj1 (mem_probe_write (c_mem s) (addr_of lr s)
    (to_le_bytes sz (get_x s1 (insn_rs2 sc))) (ok_mem _ _ Hs))) as [m Hw].
  { by rewrite to_le_bytes_length. }
  rewrite Hw. eexists. split; [reflexivity|]. set (s2 := with_reg _ _ _).
  assert (hart_ok cfg s2 /\ c_mem s2 = m /\ c_reservation s2 = None) as (Hs2 & Hm2 & Hres2).
  { destruct (with_reg_fields (insn_rd sc) 0
      (set_c_mem m (set_c_reservation None (started sc pc' s1)))) as (Hm & Hr & Hok).
    split_and!; [|exact Hm|exact Hr]. apply Hok; [|by apply fits_0; destruct (cfg_xlen cfg)|done].
    apply ok_set_mem; [|by apply ok_set_reservation, started_ok].
    eapply mem_write_wf; [apply Hs|apply to_le_bytes_fits|exact Hw]. }
  split_and!.
  - apply get_with_reg; [apply Hs1|done..].
  - rewrite Hm2. pose proof (mem_read_write _ _ _ _ (ok_mem _ _ Hs) Hw) as Hr.
    by rewrite to_le_bytes_length in Hr.
  - intros Hsc'. by apply sc_unreserved.
Qed.
End Atomics.

(** ** Witnesses

    [x5] holds the address zero, [x6] the value to store. *)

Definition atomic_hart : RiscVCpu FlatMemory :=
  set_x 6 0x8877665544332211 (set_x 5 0 (new_cpu config_rv64gc demo_memory)).

Lemma atomic_hart_ok : hart_ok config_rv64gc atomic_hart.
Proof. apply ok_set_x, ok_set_x, new_cpu_ok, demo_memory_wf. Qed.

(** [amoadd.w x7, x6, (x5)]. *)
Lemma execute_amo_witness :
  exists s', execute (decode 0x0062a3af Rv64 rv64gc) 0 atomic_hart
             = (Ok RiscVExit.Continue, s')
    /\ get_x s' 7 = 0x00500093 /\ read_u32 (c_mem s') 0 = inr 0x448322a4.
Proof.
  eexists. split.
  - refine (execute_amo config_rv64gc (decode 0x0062a3af Rv64 rv64gc) 0 atomic_hart
              4 AAdd _ _ _);
      [apply atomic_hart_ok | by split | vm_compute; reflexivity].
  - split; vm_compute; reflexivity.
Defined.

(** [amocas.d x7, x6, (x5)]: no match, so the memory keeps its value. *)
Definition demo_cas : Insn := mk_insn AmocasD 7 5 6 0 0 3 0 false false 4 0x2862b3af.

Lemma execute_cas_witness :
  execute demo_cas 0 atomic_hart
  = (Ok RiscVExit.Continue, with_reg 7 0x7300500093 (set_c_pc 4 atomic_hart)).
Proof.
  refine (execute_cas config_rv64gc demo_cas 0 atomic_hart 8 _ _ _);
    [apply atomic_hart_ok | by split | reflexivity].
Defined.

(** [lr.d x7, (x5)] and [sc.d x8, x6, (x5)]. *)
Definition demo_lr : Insn := decode 0x1002b3af Rv64 rv64gc.
Definition demo_sc : Insn := decode 0x1862b42f Rv64 rv64gc.

Lemma execute_lr_sc_witness :
  execute demo_sc 0 atomic_hart
  = (Ok RiscVExit.Continue,
     with_reg 8 1 (set_c_reservation None (set_c_pc 4 atomic_hart))).
Proof.
  destruct (execute_lr_sc config_rv64gc demo_sc 0 atomic_hart) as [_ Hsc];
    [apply atomic_hart_ok | by split |].
  rewrite (Hsc 8%nat) by reflexivity. vm_compute. reflexivity.
Defined.

Lemma lr_sc_pair_witness :
  let s1 := (execute demo_lr 0 atomic_hart).2 in
  exists s2, execute demo_sc 4 s1 = (Ok RiscVExit.Continue, s2)
    /\ get_x s2 8 = 0 /\ c_mem (execute demo_sc 8 s2).2 = c_mem s2.
Proof.
  destruct (lr_sc_pair config_rv64gc demo_lr demo_sc demo_sc 0 4 8 atomic_hart
              (execute demo_lr 0 atomic_hart).2 8) as (s2 & H1 & H2 & _ & H3);
    [ apply atomic_hart_ok | vm_compute; reflexivity | vm_compute; reflexivity | by split
    | by split | done | by split | vm_compute; reflexivity | vm_compute; reflexivity
    | vm_compute; reflexivity |].
  exists s2. split; [exact H1|]. split; [exact H2|].
  apply H3. by exists 8%nat.
Defined.
