(* ===== verification/RvRunSpec.v ===== *)
(** * Stepping and running

    The counters and the composition of [run]. *)

From S2P Require Import Prelude RvIsa RvOp RvMemory RvDecode RvAlu RvCrypto RvState RvHart RvCsr.
From S2P Require Import RvAluOps RvAluSpec RvExec RvStep RvFrame RvHartSafe RvStepSafe RvExecSpec.

(** ** Counters *)

(** The configuration, the hart id and the counters are the same. *)
Definition same_counters {M} (s s' : RiscVCpu M) : Prop :=
  c_cfg s' = c_cfg s /\ c_mhartid s' = c_mhartid s /\ c_cycle s' = c_cycle s
  /\ c_time s' = c_time s /\ c_instret s' = c_instret s.

Lemma same_counters_frame {M} : frame_rel (@same_counters M).
Proof.
  constructor; try done.
  - intros s1 s2 s3 (?&?&?&?&?) (?&?&?&?&?). unfold same_counters. split_and!; congruence.
  - intros i v s. unfold set_x. by destruct (_ =? 0).
  - intros csr v s. by destruct csr.
  - intros v avl s. unfold set_vtype. cbv zeta.
    match goal with |- context [if ?c then (0, _) else _] => by destruct c end.
Qed.

Section Run.
Context {M : Type} `{Memory M}.
Abbreviation Hart := (RiscVCpu M).
Implicit Types (s : Hart).

(** Whether a step executes an instruction: it does not when it takes an interrupt or
    the fetch fails. *)
Definition fetches s : bool :=
  match pending_machine_interrupt s, decode_at (c_mem s) (c_pc s) (cpu_xlen s) (cpu_isa s) with
  | None, inr _ => true
  | _, _ => false
  end.

(** Whether an exit retires the instruction. *)
Definition retires (e : option RiscVExit.t) : bool :=
  match e with Some RiscVExit.Continue | Some RiscVExit.Wfi => true | _ => false end.

Lemma deliver_trap_counters t epc s : same_counters s (deliver_trap t epc s).
Proof. done. Qed.

Lemma step_counts s :
  let '(e, s') := step s in
  c_cfg s' = c_cfg s /\ c_time s' = c_time s
  /\ c_cycle s' = (if fetches s then (c_cycle s + 1) mod 2 ^ 64 else c_cycle s)
  /\ c_instret s'
     = (if fetches s && retires e then (c_instret s + 1) mod 2 ^ 64 else c_instret s).
Proof.
  unfold step, fetches. destruct (pending_machine_interrupt s) as [t|]; [done|].
  destruct (decode_at _ _ _ _) as [e|insn]; [done|].
  set (s1 := set_c_cycle _ s).
  pose proof (framed_execute same_counters same_counters_frame insn (c_pc s) s1)
    as (Hc & _ & Hcy & Ht & Hi).
  destruct (execute insn (c_pc s) s1) as [[e|t|] s2]; cbn [snd] in *.
  - destruct e; cbn [account_retired_exit retires]; split_and!; try done.
    all: cbn [set_c_instret c_instret]; by rewrite Hi.
  - done.
  - done.
Qed.

Lemma mod_succ_steps c k : ((c + 1) mod 2 ^ 64 + k) mod 2 ^ 64 = (c + (k + 1)) mod 2 ^ 64.
Proof. rewrite Zplus_mod_idemp_l. f_equal. lia. Qed.

(** C34. Accounting: a step advances the cycle counter exactly when it fetches an
    instruction, and the retired-instruction counter exactly when that instruction
    completes without a trap or an environment exit; interrupts and failed fetches
    advance neither.  Hence a run with a budget of [n] advances the cycle counter
    (modulo [2 ^ 64]) by some [k] of at most [n] and the retired counter by at most
    [k]; neither touches the time counter or the configuration. *)
Theorem run_accounting n s :
  (let '(e, s') := step s in
   c_cycle s' = (if fetches s then (c_cycle s + 1) mod 2 ^ 64 else c_cycle s)
   /\ c_instret s'
      = (if fetches s && retires e then (c_instret s + 1) mod 2 ^ 64 else c_instret s))
  /\ (fits 64 (c_cycle s) -> fits 64 (c_instret s) ->
      let s' := (run n s).2 in
      c_cfg s' = c_cfg s /\ c_time s' = c_time s
      /\ exists k j, 0 <= j <= k /\ k <= Z.of_nat n
          /\ c_cycle s' = (c_cycle s + k) mod 2 ^ 64
          /\ c_instret s' = (c_instret s + j) mod 2 ^ 64).
Proof.
  split; [pose proof (step_counts s) as Hst; destruct (step s); tauto|].
  revert s. induction n as [|n IH]; intros s Hc Hi; cbn [run snd].
  { split_and!; try done. exists 0, 0. rewrite !Z.add_0_r, !Z.mod_small by done. split_and!; lia. }
  pose proof (step_counts s) as Hst. destruct (step s) as [e s1].
  destruct Hst as (Hcfg & Ht & Hcy & Hin).
  assert (exists k j, 0 <= j <= k /\ k <= 1 /\ c_cycle s1 = (c_cycle s + k) mod 2 ^ 64
    /\ c_instret s1 = (c_instret s + j) mod 2 ^ 64) as (k1 & j1 & Hj1 & Hk1 & Hcy1 & Hin1).
  { destruct (fetches s); cbn [andb] in Hin; [destruct (retires e)|].
    - exists 1, 1. split_and!; (lia || done).
    - exists 1, 0. rewrite Z.add_0_r, (Z.mod_small (c_instret s)) by done. split_and!; (lia || done).
    - exists 0, 0. rewrite !Z.add_0_r, !Z.mod_small by done. split_and!; (lia || done). }
  assert (forall x y z, ((x + y) mod 2 ^ 64 + z) mod 2 ^ 64 = (x + (y + z)) mod 2 ^ 64) as Hadd.
  { intros. rewrite Zplus_mod_idemp_l. f_equal. lia. }
  assert (fits 64 (c_cycle s1) /\ fits 64 (c_instret s1)) as [Hc1 Hi1].
  { rewrite Hcy1, Hin1. split; by apply Z.mod_pos_bound. }
  destruct e as [[]|]; cbn [snd];
    try (split; [done|]; split; [done|]; exists k1, j1; split_and!; lia || done).
  destruct (IH s1 Hc1 Hi1) as (Hcfg2 & Ht2 & k & j & Hj & Hk & Hcy2 & Hin2).
  split; [congruence|]. split; [congruence|]. exists (k1 + k), (j1 + j).
  rewrite Hcy2, Hin2, Hcy1, Hin1, !Hadd. split_and!; (lia || done).
Qed.

(** Runs compose: running with a budget of [n + m] is running with [n] and, when that
    ends only because the budget is spent, running with [m] from there. *)
Theorem run_add n m s :
  run (n + m) s =
    match run n s with
    | (Some RiscVExit.Continue, s') => run m s'
    | (e, s') => (e, s')
    end.
Proof.
  revert s. induction n as [|n IH]; intros s; [done|]. cbn [run Nat.add].
  by destruct (step s) as [[[]|] s'].
Qed.
End Run.

(** ** Witness *)

Lemma run_accounting_witness :
  let s := new_cpu config_rv64gc demo_memory in
  let s' := (run 2 s).2 in
  exists k j, 0 <= j <= k /\ k <= 2 /\ c_cycle s' = (c_cycle s + k) mod 2 ^ 64
    /\ c_instret s' = (c_instret s + j) mod 2 ^ 64.
Proof.
  destruct (run_accounting 2 (new_cpu config_rv64gc demo_memory)) as [_ Hr].
  destruct Hr as (_ & _ & Hr); [by split | by split | exact Hr].
Defined.
