(* ===== verification/RvPrecise.v ===== *)
(** * Precise traps

    An instruction that traps leaves the registers, the CSRs and the memory as
    they were, so that a handler can resume it.  The exceptions are the
    multi-access instructions and the pre-indexed T-Head accesses, for which
    the last theorem shows what is lost. *)

From S2P Require Import Prelude RvIsa RvOp RvMemory RvDecode RvAlu RvCrypto RvState RvHart RvCsr.
From S2P Require Import RvAluOps RvAluSpec RvExec RvFp RvStep RvFrame RvHartSafe RvStepSafe RvExecSpec.

(** The hart is as it was, but for the program counter and the reservation. *)
Definition unharmed {M} (s s' : RiscVCpu M) : Prop :=
  s' = set_c_pc (c_pc s') (set_c_reservation (c_reservation s') s).

Section Precise.
Context {M : Type} `{MemoryLaws M}.
Abbreviation Hart := (RiscVCpu M).
Implicit Types (s : Hart) (insn : Insn).

Lemma unharmed_refl s : unharmed s s.
Proof. by destruct s. Qed.

Lemma unharmed_trans s1 s2 s3 : unharmed s1 s2 -> unharmed s2 s3 -> unharmed s1 s3.
Proof. unfold unharmed. intros -> ->. done. Qed.

Lemma unharmed_mem s s' : unharmed s s' -> c_mem s' = c_mem s.
Proof. unfold unharmed. by intros ->. Qed.

(** [precise m]: when [m] fails, the hart is unharmed. *)
Definition precise {A} (m : exec Hart Trap A) : Prop :=
  forall s t s', mem_wf (c_mem s) -> m s = (Err t, s') -> unharmed s s'.
(** [reads m]: [m] leaves the hart as it is. *)
Definition reads {A} (m : exec Hart Trap A) : Prop := forall s, (m s).2 = s.
(** [no_err m]: [m] does not fail. *)
Definition no_err {A} (m : exec Hart Trap A) : Prop := forall s t s', m s <> (Err t, s').

(** ** Rules *)

Lemma reads_precise {A} (m : exec Hart Trap A) : reads m -> precise m.
Proof. intros Hm s t s' _ E. specialize (Hm s). rewrite E in Hm. subst. apply unharmed_refl. Qed.

Lemma no_err_precise {A} (m : exec Hart Trap A) : no_err m -> precise m.
Proof. intros Hm s t s' _ E. by destruct (Hm s t s'). Qed.

Lemma precise_reads_bind {A B} (m : exec Hart Trap A) (k : A -> exec Hart Trap B) :
  reads m -> (forall a, precise (k a)) -> precise (a ← m; k a).
Proof.
  intros Hm Hk s t s' Hw. unfold mbind, exec_bind, ebind. specialize (Hm s).
  destruct (m s) as [[a|t'|] s1]; cbn [snd] in Hm; subst s1; intros E.
  - by eapply Hk.
  - simplify_eq. apply unharmed_refl.
  - done.
Qed.

Lemma precise_no_err_bind {A B} (m : exec Hart Trap A) (k : A -> exec Hart Trap B) :
  precise m -> (forall a, no_err (k a)) -> precise (a ← m; k a).
Proof.
  intros Hm Hk s t s' Hw. unfold mbind, exec_bind, ebind.
  destruct (m s) as [[a|t'|] s1] eqn:E1; intros E.
  - by destruct (Hk a s1 t s').
  - simplify_eq. by eapply Hm.
  - done.
Qed.

(** An update of the program counter or the reservation may come first. *)
Lemma precise_update_bind {B} f (k : exec Hart Trap B) :
  (forall s, unharmed s (f s)) -> precise k -> precise (modify f;; k).
Proof.
  intros Hf Hk s t s' Hw E. change ((modify f;; k) s) with (k (f s)) in E.
  eapply unharmed_trans; [apply Hf|]. eapply Hk; [|exact E].
  by rewrite (unharmed_mem s) by apply Hf.
Qed.

Lemma no_err_bind {A B} (m : exec Hart Trap A) (k : A -> exec Hart Trap B) :
  no_err m -> (forall a, no_err (k a)) -> no_err (a ← m; k a).
Proof.
  intros Hm Hk s t s'. unfold mbind, exec_bind, ebind.
  destruct (m s) as [[a|t'|] s1] eqn:E1; [apply Hk | by destruct (Hm s t' s1) | done].
Qed.

Lemma precise_mem_put addr bs t : precise (mem_put (fun m => mem_write m addr bs) t).
Proof.
  intros s t' s' Hw. unfold mem_put. destruct (mem_write (c_mem s) addr bs) as [[e|u] m] eqn:Ew;
    [|done]. intros [= _ <-]. apply mem_write_err in Ew as ->; [|done]. by destruct s.
Qed.

Lemma reads_mem_get {A} (rd : M -> MemResult A) t : reads (mem_get rd t).
Proof. intros s. unfold mem_get. by destruct (rd (c_mem s)). Qed.

Lemma reads_if {A} (c : bool) (m n : exec Hart Trap A) : reads m -> reads n -> reads (if c then m else n).
Proof. by destruct c. Qed.
Lemma precise_if {A} (c : bool) (m n : exec Hart Trap A) :
  precise m -> precise n -> precise (if c then m else n).
Proof. by destruct c. Qed.
Lemma no_err_if {A} (c : bool) (m n : exec Hart Trap A) :
  no_err m -> no_err n -> no_err (if c then m else n).
Proof. by destruct c. Qed.
Lemma precise_expect_bind {A B} (a : A) (k : A -> exec Hart Trap B) :
  precise (k a) -> precise (a ← expect (Some a); k a).
Proof. done. Qed.
Lemma reads_expect {A} (o : option A) : reads (expect o : exec Hart Trap A).
Proof. by destruct o. Qed.

Ltac precise_go :=
  cbv beta zeta;
  repeat (match goal with
  | |- precise (mbind _ get) => apply precise_reads_bind; [done|intros]
  | |- precise (mbind _ (mem_get _ _)) => apply precise_reads_bind; [apply reads_mem_get|intros]
  | |- precise (mbind _ (expect _)) => apply precise_reads_bind; [apply reads_expect|intros]
  | |- precise (mbind _ (modify (set_c_reservation _))) => apply precise_update_bind; [done|]
  | |- precise (mbind _ (if _ then mem_get _ _ else mem_get _ _)) =>
      apply precise_reads_bind; [apply reads_if; apply reads_mem_get|intros]
  | |- precise (if _ then _ else _) => apply precise_if
  | |- precise (throw _) => by apply reads_precise
  | |- precise (eret _) => by apply reads_precise
  | |- precise (panic) => by apply reads_precise
  | |- precise (mem_get _ _) => apply reads_precise, reads_mem_get
  | |- precise (mem_put _ _) => apply precise_mem_put
  | |- precise (write_x _ _) => by apply no_err_precise
  | |- precise (write_f _ _) => by apply no_err_precise
  | |- precise (write_pc _) => by apply no_err_precise
  | |- precise (modify _) => by apply no_err_precise
  | |- precise (mbind _ _) => apply precise_no_err_bind; [|intros]
  | |- no_err (mbind _ _) => apply no_err_bind; [|intros]
  | |- no_err (if _ then _ else _) => apply no_err_if
  | |- no_err get => done
  | |- no_err (write_x _ _) => done
  | |- no_err (write_pc _) => done
  | |- no_err (eret _) => done
  | |- no_err (modify _) => done
  end; cbv beta zeta).

(** ** The methods *)

Lemma precise_branch taken pc imm : precise (branch taken pc imm).
Proof. unfold branch. precise_go. Qed.
Lemma precise_jump rd pc len target : precise (jump rd pc len target).
Proof. unfold jump. precise_go. Qed.
Lemma precise_load rd base imm size signed : precise (load rd base imm size signed).
Proof. unfold load. precise_go. Qed.
Lemma precise_store base imm val size : precise (store base imm val size).
Proof. unfold store. precise_go. Qed.
Lemma precise_load_pair rd base imm : precise (load_pair rd base imm).
Proof. unfold load_pair. precise_go. Qed.
Lemma precise_store_pair base imm rs2 : precise (store_pair base imm rs2).
Proof. unfold store_pair. precise_go. Qed.
Lemma precise_cbo_zero a : precise (cbo_zero a).
Proof. unfold cbo_zero. precise_go. Qed.
Lemma precise_thead_reg_mem insn : precise (exec_thead_reg_mem insn).
Proof. unfold exec_thead_reg_mem. precise_go; [apply precise_load | apply precise_store]. Qed.
Lemma precise_thead_fmem insn : precise (exec_thead_fmem insn).
Proof. unfold exec_thead_fmem. precise_go. Qed.
Lemma precise_amo insn : precise (exec_amo insn).
Proof. unfold exec_amo. precise_go. Qed.
Lemma precise_lrsc insn : precise (exec_lrsc insn).
Proof.
  unfold exec_lrsc. precise_go.
  destruct (insn_op insn); precise_go.
Qed.
Lemma precise_amocas insn : precise (exec_amocas insn).
Proof. unfold exec_amocas. precise_go. destruct (insn_op insn); precise_go. Qed.
Lemma precise_zcmt insn pc : precise (exec_zcmt insn pc).
Proof.
  unfold exec_zcmt. precise_go. destruct (insn_op insn); by apply no_err_precise.
Qed.

Lemma reads_csr_read addr : reads (csr_read addr).
Proof.
  intros s. unfold csr_read, mbind, exec_bind, ebind, get.
  destruct (Csr.from_addr addr); by case_match.
Qed.
Lemma precise_csr_write addr v : precise (csr_write addr v).
Proof. unfold csr_write. precise_go. destruct (Csr.from_addr addr); precise_go. Qed.

Lemma precise_csr insn : precise (exec_csr insn).
Proof.
  unfold exec_csr. apply precise_reads_bind; [done|]. intros s. cbv zeta.
  apply precise_if; [precise_go|].
  apply precise_reads_bind; [apply reads_if; [done|apply reads_csr_read]|]. intros old.
  apply precise_no_err_bind; [|done]. apply precise_if; [|precise_go].
  apply precise_reads_bind; [|intros; apply precise_csr_write].
  by destruct (insn_op insn).
Qed.

Lemma no_err_vset rd vtype avl : no_err (vset rd vtype avl).
Proof.
  intros s t s'. unfold vset, write_x, modify, get, mbind, exec_bind, ebind.
  by destruct (set_vtype vtype avl s) as [vl s1].
Qed.

(** The instructions that change state before an access that can fail: those with
    several accesses and the pre-indexed T-Head ones. *)
Definition multi_step (op : Op) : bool :=
  match thead_auto_mem op, thead_pair_mem op with
  | Some k, _ => tk_pre k
  | _, Some _ => true
  | _, _ => match op with CmPush | CmPop | CmPopRetz | CmPopRet => true | _ => false end
  end.

Lemma precise_thead_auto_mem insn :
  is_Some (thead_auto_mem (insn_op insn)) -> multi_step (insn_op insn) = false ->
  precise (exec_thead_auto_mem insn).
Proof.
  intros [k Hk] Hp. unfold multi_step in Hp. rewrite Hk in Hp. unfold exec_thead_auto_mem.
  rewrite Hk. apply precise_expect_bind. rewrite Hp. cbn [negb].
  apply precise_reads_bind; [done|]. intros s. apply precise_reads_bind; [done|]. intros _.
  apply precise_no_err_bind; [|done]. apply precise_if; [apply precise_load|].
  apply precise_reads_bind; [done|]. intros. apply precise_store.
Qed.

(** ** Execute *)

Hint Resolve precise_branch precise_jump precise_load precise_store precise_load_pair
  precise_store_pair precise_cbo_zero precise_thead_reg_mem precise_thead_fmem precise_lrsc
  precise_amo precise_amocas precise_zcmt precise_csr : core.

Lemma precise_control s insn pc m : exec_control s insn pc = Some m -> precise m.
Proof.
  intros Hm. unfold exec_control in Hm.
  destruct (insn_op insn); try discriminate Hm; apply (inj Some) in Hm; subst m; auto.
Qed.

Lemma precise_mem s insn m : exec_mem s insn = Some m -> precise m.
Proof.
  intros Hm. unfold exec_mem in Hm.
  destruct (insn_op insn); try discriminate Hm; apply (inj Some) in Hm; subst m; auto.
Qed.

Lemma precise_misc s insn pc m :
  multi_step (insn_op insn) = false -> exec_misc s insn pc = Some m -> precise m.
Proof.
  intros Hp Hm. unfold exec_misc in Hm.
  destruct (insn_op insn); try discriminate Hm; try discriminate Hp;
    apply (inj Some) in Hm; subst m; auto; try (precise_go; fail);
    apply no_err_precise, no_err_vset.
Qed.

Lemma precise_thead insn m :
  multi_step (insn_op insn) = false -> exec_thead insn = Some m -> precise m.
Proof.
  intros Hp. unfold exec_thead. intros Hm.
  repeat match type of Hm with
  | (if bool_decide ?P then _ else _) = _ => destruct (bool_decide_reflect P)
  end; try discriminate Hm; apply (inj Some) in Hm; subst m; auto.
  - by apply precise_thead_auto_mem.
  - exfalso. match goal with HP : is_Some (thead_pair_mem _) |- _ => destruct HP as [k Hk] end.
    unfold multi_step in Hp. rewrite Hk in Hp.
    destruct (thead_auto_mem (insn_op insn)) eqn:E; [|done].
    match goal with HP : ~ is_Some (Some _) |- _ => by apply HP end.
Qed.

Lemma precise_exit insn pc m : exec_exit insn pc = Some m -> precise m.
Proof.
  intros Hm. unfold exec_exit in Hm.
  destruct (insn_op insn); try discriminate Hm; apply (inj Some) in Hm; subst m; precise_go.
Qed.

Lemma precise_fp insn pc : precise (exec_fp insn pc).
Proof.
  unfold exec_fp. apply precise_if; [precise_go|]. apply precise_reads_bind; [done|]. intros s.
  destruct (if fp_no_rm _ then _ else _) as [rm|]; [|precise_go].
  destruct (fp_mem s insn) as [m|] eqn:Em.
  - apply precise_no_err_bind; [|done]. unfold fp_mem in Em. cbv zeta in Em.
    destruct (insn_op insn); try discriminate Em; apply (inj Some) in Em; subst m; precise_go.
  - destruct (fp_value s insn rm); precise_go.
Qed.

Lemma precise_execute insn pc :
  is_vector (insn_op insn) = false ->
  multi_step (insn_op insn) = false -> precise (execute insn pc).
Proof.
  intros Hv Hp. unfold execute. apply precise_reads_bind; [done|]. intros s0.
  apply precise_update_bind; [done|]. apply precise_if; [apply precise_fp|].
  apply precise_reads_bind; [done|].
  intros s. cbv zeta. destruct (alu s insn pc) as [v|]; [precise_go|].
  apply precise_if; [precise_go|]. destruct (or_else _ _) as [m|] eqn:Hm.
  - apply precise_no_err_bind; [|done].
    destruct (exec_control s insn pc) eqn:E1; [|destruct (exec_mem s insn) eqn:E2;
      [|destruct (exec_misc s insn pc) eqn:E3; [|]]]; cbn [or_else] in Hm; simplify_eq;
      eauto using precise_control, precise_mem, precise_misc, precise_thead.
  - destruct (exec_exit insn pc) eqn:E; [by eapply precise_exit|]. rewrite Hv. precise_go.
Qed.

(** C14. Traps are precise: when a scalar instruction other than the multi-access and
    pre-indexed ones traps, the step leaves every register, the vector state and
    the memory as they were, reports the address of the instruction in [mepc] and
    the cause and value in [mcause] and [mtval], so a handler can resume it. *)
Theorem step_trap_precise s insn t s' :
  mem_wf (c_mem s) -> pending_machine_interrupt s = None ->
  decode_at (c_mem s) (c_pc s) (cpu_xlen s) (cpu_isa s) = inr insn ->
  is_vector (insn_op insn) = false ->
  multi_step (insn_op insn) = false ->
  execute insn (c_pc s) (set_c_cycle (wadd 64 (c_cycle s) 1) s) = (Err t, s') ->
  exists s1, step s = (Some (RiscVExit.Trap t), s1)
    /\ c_x s1 = c_x s /\ c_f s1 = c_f s /\ c_v s1 = c_v s /\ c_mem s1 = c_mem s
    /\ c_vl s1 = c_vl s /\ c_vtype s1 = c_vtype s /\ c_fcsr s1 = c_fcsr s
    /\ c_mepc s1 = c_pc s /\ c_mcause s1 = trap_cause t /\ c_mtval s1 = trap_tval t
    /\ c_instret s1 = c_instret s.
Proof.
  intros Hw Hint Hd Hv Hp Hex. eexists. split.
  { unfold step. rewrite Hint, Hd. cbv zeta. rewrite Hex. reflexivity. }
  apply (precise_execute insn (c_pc s) Hv Hp) in Hex; [|done].
  unfold unharmed in Hex. rewrite Hex. done.
Qed.

(** The address increment of an indexed T-Head access. *)
Definition thead_inc insn : Z :=
  as_u64 (wshl 64 (as_i64 (sext5 (insn_rs2 insn))) (as_u32 (insn_imm insn))).

(** C40. The pre-indexed T-Head loads are not precise: the base register is updated
    before the access, so when the access faults the trap is raised with the base
    already moved, and resuming the instruction would move it again. *)
Theorem thead_preindex_imprecise cfg insn pc s k e :
  hart_ok cfg s -> fits 5 (insn_rs1 insn) ->
  thead_auto_mem (insn_op insn) = Some k -> tk_pre k = true -> tk_load k = true ->
  let base := (get_x s (insn_rs1 insn) + thead_inc insn) mod 2 ^ xlen_bits (cfg_xlen cfg) in
  mem_read (c_mem s) base (Z.to_nat (tk_size k)) = inl e ->
  execute insn pc s
  = (Err (mk_trap cause.LOAD_ACCESS_FAULT base),
     with_reg (insn_rs1 insn) base (started insn pc s)).
Proof.
  intros Hs Hr Hk Hpre Hld base Hrd.
  assert (Hx : xbits s = xlen_bits (cfg_xlen cfg)) by (by apply (ok_xbits cfg)).
  assert (exec_thead insn = Some (exec_thead_auto_mem insn)) as Hm.
  { unfold exec_thead. rewrite bool_decide_true; [done|]. by exists k. }
  rewrite (execute_body_arm insn pc s (exec_thead_auto_mem insn)).
  2-5: unfold alu, exec_control, exec_mem, exec_misc; rewrite ?Hm;
    destruct (insn_op insn); try discriminate Hk; reflexivity.
  unfold exec_thead_auto_mem. rewrite Hk. unfold expect. erewrite bind_ok by reflexivity.
  erewrite bind_ok by reflexivity. cbv zeta. rewrite Hpre, Hld. cbn [negb].
  change (get_x (started insn pc s)) with (get_x s). fold (thead_inc insn).
  assert (Z.land (wadd 64 (get_x s (insn_rs1 insn)) (thead_inc insn)) (xmask (started insn pc s))
          = base) as ->.
  { unfold base. rewrite <- Hx. apply next_pc_masked. }
  erewrite bind_ok by reflexivity. erewrite bind_err; [done|].
  assert (set_x (insn_rs1 insn) base (started insn pc s)
          = with_reg (insn_rs1 insn) base (started insn pc s)) as ->.
  { rewrite set_x_with_reg by done. f_equal.
    change (xbits (started insn pc s)) with (xbits s). rewrite Hx. unfold base.
    apply mod_xlen_idemp. }
  assert (xmask (with_reg (insn_rs1 insn) base (started insn pc s)) = xmask s) as Hxm
    by (unfold with_reg; by destruct (_ =? 0)).
  assert (c_mem (with_reg (insn_rs1 insn) base (started insn pc s)) = c_mem s) as Hmem
    by (unfold with_reg; by destruct (_ =? 0)).
  unfold load. erewrite bind_ok by reflexivity. cbv zeta. rewrite Hxm.
  assert (Z.land (wadd 64 base 0) (xmask s) = base) as ->.
  { rewrite next_pc_masked. unfold next_pc. rewrite Z.add_0_r, Hx. unfold base.
    apply mod_xlen_idemp. }
  erewrite bind_err; [done|]. unfold mem_get. by rewrite Hmem, Hrd.
Qed.
End Precise.

(** ** Witnesses *)

(** [ld x6, 0(x5)] at address 0, where [x5] points outside the memory. *)
Definition fault_memory : FlatMemory := FlatMemory.with_data 0 [0x03; 0xb3; 0x02; 0x00].
Definition fault_hart : RiscVCpu FlatMemory := set_x 5 0x8878 (new_cpu config_rv64gc fault_memory).

Lemma fault_hart_ok : hart_ok config_rv64gc fault_hart.
Proof. apply ok_set_x, new_cpu_ok. each_arm; by split. Qed.

Lemma step_trap_precise_witness :
  exists s1, step fault_hart
             = (Some (RiscVExit.Trap (mk_trap cause.LOAD_ACCESS_FAULT 0x8878)), s1)
    /\ c_x s1 = c_x fault_hart.
Proof.
  destruct (step_trap_precise fault_hart (decode 0x0002b303 Rv64 rv64gc)
              (mk_trap cause.LOAD_ACCESS_FAULT 0x8878)
              (execute (decode 0x0002b303 Rv64 rv64gc) 0
                 (set_c_cycle 1 fault_hart)).2) as (s1 & H1 & H2 & _);
    [ each_arm; by split | vm_compute; reflexivity | vm_compute; reflexivity
    | vm_compute; reflexivity | vm_compute; reflexivity | vm_compute; reflexivity |].
  exists s1. split; [exact H1 | exact H2].
Defined.

(** [th.ldib x6, (x5), 8, 0]: the base moves from 0x8878 to 0x8880. *)
Definition demo_ldib : Insn := mk_insn ThLdib 6 5 8 0 0 4 0 false false 4 0x6882c30b.

Lemma thead_preindex_imprecise_witness :
  execute demo_ldib 0 fault_hart
  = (Err (mk_trap cause.LOAD_ACCESS_FAULT 0x8880),
     with_reg 5 0x8880 (started demo_ldib 0 fault_hart)).
Proof.
  apply (thead_preindex_imprecise config_rv64gc demo_ldib 0 fault_hart
           (auto_load 8 false true) (OutOfBounds 0x8880 8));
    [apply fault_hart_ok | by split | reflexivity | reflexivity | reflexivity
    | vm_compute; reflexivity].
Defined.
