(* ===== verification/RvBitSpec.v ===== *)
(** * Bit manipulation and carry-less multiplication

    The carry-less products of Zbc are slices of one polynomial product, and
    the permutations of Zbb and Zbkb are the bit permutations of the manual,
    hence involutions or mutual inverses. *)

From S2P Require Import Prelude RvIsa RvOp RvAlu RvAluOps RvAluSpec RvTrapSpec.

(** ** Carry-less multiplication *)

(** The product of [a] and the [n]-bit [b] as polynomials over the two-element field. *)
Definition clprod (n : nat) (a b : Z) : Z :=
  for_range n 0 (fun i out => if Z.testbit b i then Z.lxor out (Z.shiftl a i) else out) 0.

Lemma bit_test b i : 0 <= i < 64 -> negb (Z.land (wshr 64 b i) 1 =? 0) = Z.testbit b i.
Proof. intros. rewrite bit_of by done. by destruct (Z.testbit b i). Qed.

Section Clmul.
Context (xl : Xlen) (a b : Z).
Abbreviation n := (xlen_bits xl).
Hypothesis Ha : fits n a.

Lemma n_range : 32 <= n <= 64.
Proof. by destruct xl. Qed.

Lemma mask_xbits_mod v : fits 64 v -> mask_xbits v n = v mod 2 ^ n.
Proof.
  intros Hv. unfold mask_xbits. destruct xl; cbn [xlen_bits].
  - apply (Z.land_ones v 32). lia.
  - symmetry. by apply Z.mod_small.
Qed.

Lemma shiftr_fits m : 0 <= m -> fits 64 (Z.shiftr a m).
Proof. intros. apply fits_shiftr; [done|]. apply (fits_weaken n); [apply n_range|done]. Qed.

Lemma clmul_low : clmul a b n = clprod (Z.to_nat n) a b mod 2 ^ n.
Proof.
  pose proof n_range. unfold clmul, clprod. rewrite mask_xbits_mod.
  - rewrite !(for_range_hom (fun v => v mod 2 ^ n) _
      (fun i out => if Z.testbit b i then Z.lxor out (Z.shiftl a i mod 2 ^ n) else out)).
    + done.
    + intros j v Hj. destruct (Z.testbit b j); [|done]. apply mod_lxor. lia.
    + intros j v Hj. rewrite bit_test by lia. destruct (Z.testbit b j); [|done].
      rewrite mod_lxor by lia. f_equal. unfold wshl. rewrite (Z.mod_small j 64) by lia.
      apply as_u_64_mod.
  - apply for_range_inv; [by split|]. intros j v Hj Hv. destruct (negb _); [|done].
    apply fits_lxor; [done|]. by apply as_u_fits.
Qed.

Lemma clmulr_high : clmulr a b n = clprod (Z.to_nat n) a b / 2 ^ (n - 1).
Proof.
  pose proof n_range. rewrite <- Z.shiftr_div_pow2 by lia. unfold clmulr, clprod.
  rewrite (for_range_hom (fun v => Z.shiftr v (n - 1)) _
    (fun i out => if Z.testbit b i then Z.lxor out (Z.shiftr a (n - 1 - i)) else out)).
  - rewrite Z.shiftr_0_l, (for_range_ext _
      (fun i out => if Z.testbit b i then Z.lxor out (Z.shiftr a (n - 1 - i)) else out)).
    + assert (fits n (for_range (Z.to_nat n) 0 (fun i out =>
        if Z.testbit b i then Z.lxor out (Z.shiftr a (n - 1 - i)) else out) 0)) as Hf.
      { apply for_range_inv; [apply fits_0; lia|]. intros j v Hj Hv.
        destruct (Z.testbit b j); [|done]. apply fits_lxor; [done|]. apply fits_shiftr; [lia|done]. }
      rewrite mask_xbits_mod; [by apply Z.mod_small|].
      apply (fits_weaken n); [lia|done].
    + intros j v Hj. rewrite bit_test by lia. destruct (Z.testbit b j); [|done].
      unfold wshr. rewrite Z.mod_small by lia. do 2 f_equal. lia.
  - intros j v Hj. destruct (Z.testbit b j); [|done]. rewrite Z.shiftr_lxor. f_equal.
    rewrite Z.shiftr_shiftl_r by lia. done.
Qed.

Lemma clmulh_high : clmulh a b n = clprod (Z.to_nat n) a b / 2 ^ n.
Proof.
  pose proof n_range. rewrite <- Z.shiftr_div_pow2 by lia. unfold clmulh, clprod.
  set (body := fun i out => if Z.testbit b i then Z.lxor out (Z.shiftr a (n - i)) else out).
  rewrite (for_range_hom (fun v => Z.shiftr v n) _ body).
  - replace (Z.to_nat n) with (S (Z.to_nat (n - 1))) by lia. cbn [for_range].
    assert (body 0 (Z.shiftr 0 n) = 0) as ->.
    { unfold body. rewrite Z.shiftr_0_l, Z.sub_0_r, Z.lxor_0_l, (Z.shiftr_div_pow2 a), Z.div_small
        by (done || lia). by destruct (Z.testbit b 0). }
    rewrite (for_range_ext _ body).
    + assert (fits n (for_range (Z.to_nat (n - 1)) (0 + 1) body 0)) as Hf.
      { apply for_range_inv; [apply fits_0; lia|]. intros j v Hj Hv. unfold body.
        destruct (Z.testbit b j); [|done]. apply fits_lxor; [done|]. apply fits_shiftr; [lia|done]. }
      rewrite mask_xbits_mod; [by apply Z.mod_small|]. apply (fits_weaken n); [lia|done].
    + intros j v Hj. rewrite bit_test by lia. unfold body. destruct (Z.testbit b j); [|done].
      unfold wshr. by rewrite (Z.mod_small (n - j)) by lia.
  - intros j v Hj. unfold body. destruct (Z.testbit b j); [|done]. rewrite Z.shiftr_lxor. f_equal.
    by rewrite Z.shiftr_shiftl_r by lia.
Qed.
End Clmul.

(** Bit [k] of the product is the parity of the pairs [a_i], [b_j] with [i + j = k]. *)
Definition conv_bit (n : nat) (a b k : Z) : bool :=
  for_range n 0 (fun i out => xorb out (Z.testbit b i && Z.testbit a (k - i))) false.

Lemma clprod_bit n a b k : 0 <= k -> Z.testbit (clprod n a b) k = conv_bit n a b k.
Proof.
  intros Hk. unfold clprod, conv_bit.
  rewrite (for_range_hom (fun v => Z.testbit v k) _
    (fun i out => xorb out (Z.testbit b i && Z.testbit a (k - i)))).
  - by rewrite Z.bits_0.
  - intros j v Hj. destruct (Z.testbit b j); cbn [andb]; [|by rewrite xorb_false_r].
    by rewrite Z.lxor_spec, Z.shiftl_spec.
Qed.

(** CLMUL, CLMULH and CLMULR are the low half, the high half and the reversed slice of
    one polynomial product over the two-element field, at either register width:
    bit [k] of the product is the parity of the [a_i * b_j] with [i + j = k]. *)
Theorem clmul_slices xl a b :
  let n := xlen_bits xl in
  fits n a ->
  exists p, (forall k, 0 <= k -> Z.testbit p k = conv_bit (Z.to_nat n) a b k)
    /\ clmul a b n = p mod 2 ^ n
    /\ clmulh a b n = p / 2 ^ n
    /\ clmulr a b n = p / 2 ^ (n - 1).
Proof.
  intros n Ha. exists (clprod (Z.to_nat n) a b). split_and!.
  - intros. by apply clprod_bit.
  - by apply clmul_low.
  - by apply clmulh_high.
  - by apply clmulr_high.
Qed.

Lemma clmul_slices_witness :
  exists p, clmul 0x80000001 0x80000003 32 = p mod 2 ^ 32 /\ 0x40000001 = p / 2 ^ 32.
Proof.
  destruct (clmul_slices Rv32 0x80000001 0x80000003) as (p & _ & Hl & Hh & _); [by split|].
  exists p. split; [exact Hl|]. etransitivity; [|exact Hh]. vm_compute. reflexivity.
Defined.

(** ** Byte and bit permutations *)

Lemma swap_bytes_fits k a : fits (8 * Z.of_nat k) (swap_bytes k a).
Proof.
  unfold swap_bytes. rewrite <- (to_le_bytes_length k a) at 1. rewrite <- length_rev.
  apply from_le_bytes_fits, Forall_rev, to_le_bytes_fits.
Qed.

Lemma swap_bytes_involutive k a : fits (8 * Z.of_nat k) a -> swap_bytes k (swap_bytes k a) = a.
Proof.
  intros Ha. unfold swap_bytes.
  assert (to_le_bytes k (from_le_bytes (rev (to_le_bytes k a))) = rev (to_le_bytes k a)) as ->.
  { rewrite <- (to_le_bytes_length k a) at 1. rewrite <- length_rev.
    apply to_from_le_bytes, Forall_rev, to_le_bytes_fits. }
  rewrite rev_involutive, from_to_le_bytes. by apply as_u_small.
Qed.

(** A value assembled byte by byte from the low end. *)
Lemma or_bytes_range n f acc i :
  0 <= i -> i + Z.of_nat n <= 8 -> fits (8 * i) acc -> (forall j, fits 8 (f j)) ->
  for_range n i (fun j out => Z.lor out (wshl 64 (f j) (j * 8))) acc
  = acc + 2 ^ (8 * i) * from_le_bytes (map f (seqZ i (Z.of_nat n))).
Proof.
  revert i acc. induction n as [|n IH]; intros i acc Hi Hn Ha Hf; cbn [for_range].
  { rewrite seqZ_nil by lia. cbn. lia. }
  assert (Z.lor acc (wshl 64 (f i) (i * 8)) = acc + 2 ^ (8 * i) * f i) as E.
  { unfold wshl. rewrite (Z.mod_small (i * 8) 64), Z.shiftl_mul_pow2 by lia.
    replace (i * 8) with (8 * i) by lia. destruct (Hf i) as [Hf0 Hf1].
    assert (2 ^ (8 * i) * 2 ^ 8 <= 2 ^ 64) as Hle
      by (rewrite <- Z.pow_add_r by lia; apply Z.pow_le_mono_r; lia).
    rewrite as_u_small by (split; nia). rewrite Z.lor_comm.
    rewrite <- Z.add_nocarry_lor; [ring|]. apply Z.bits_inj'. intros k Hk.
    rewrite Z.land_spec, Z.bits_0. destruct (Z.ltb_spec k (8 * i)).
    - by rewrite Z.mul_pow2_bits_low.
    - rewrite (fits_testbit (8 * i) acc) by done. apply andb_false_r. }
  rewrite E, IH; [|lia|lia| |done].
  - rewrite Nat2Z.inj_succ, (seqZ_cons i) by lia. cbn [map from_le_bytes].
    replace (8 * (i + 1)) with (8 * i + 8) by lia. rewrite Z.pow_add_r by lia.
    rewrite Z.shiftl_mul_pow2 by lia. rewrite Z.pred_succ. replace (Z.succ i) with (i + 1) by lia. ring.
  - destruct (Hf i), Ha. replace (8 * (i + 1)) with (8 * i + 8) by lia. unfold fits.
    rewrite Z.pow_add_r by lia. nia.
Qed.

Lemma or_bytes f :
  (forall j, fits 8 (f j)) ->
  for_range 8 0 (fun j out => Z.lor out (wshl 64 (f j) (j * 8))) 0
  = from_le_bytes (map f (seqZ 0 8)).
Proof.
  intros Hf. rewrite (or_bytes_range 8) by (done || lia || by split).
  change (2 ^ (8 * 0)) with 1. change (Z.of_nat 8) with 8. lia.
Qed.

Lemma byte_at_fits a i : fits 8 (byte_at a i).
Proof. by apply fits_mask. Qed.

(** The bytes of a doubleword are its [byte_at]s. *)
Lemma to_le_bytes_at n a i :
  0 <= i -> i + Z.of_nat n <= 8 ->
  to_le_bytes n (Z.shiftr a (i * 8)) = map (byte_at a) (seqZ i (Z.of_nat n)).
Proof.
  revert i. induction n as [|n IH]; intros i Hi Hn; [by rewrite seqZ_nil|].
  rewrite Nat2Z.inj_succ, seqZ_cons by lia. cbn [to_le_bytes map]. f_equal.
  - unfold byte_at, wshr. rewrite (Z.mod_small (i * 8)) by lia. symmetry.
    by apply (Z.land_ones _ 8).
  - rewrite Z.pred_succ, Z.shiftr_shiftr by lia. replace (i * 8 + 8) with ((i + 1) * 8) by lia.
    rewrite IH by lia. by replace (Z.succ i) with (i + 1) by lia.
Qed.

Lemma byte_at_bytes a : map (byte_at a) (seqZ 0 8) = to_le_bytes 8 a.
Proof. symmetry. rewrite <- (Z.shiftr_0_r a) at 1. by apply (to_le_bytes_at 8 a 0). Qed.

(** A loop that applies [g] to every byte. *)
Lemma map_bytes g a :
  (forall x, fits 8 x -> fits 8 (g x)) ->
  for_range 8 0 (fun j out => Z.lor out (wshl 64 (g (byte_at a j)) (j * 8))) 0
  = from_le_bytes (map g (to_le_bytes 8 a)).
Proof.
  intros Hg. rewrite (or_bytes (fun j => g (byte_at a j))).
  - by rewrite <- byte_at_bytes, map_map.
  - intros j. apply Hg, byte_at_fits.
Qed.

(** Applying a bytewise function and its inverse. *)
Lemma map_bytes_inverse g h a :
  (forall x, fits 8 x -> fits 8 (g x)) -> (forall x, fits 8 x -> h (g x) = x) -> fits 64 a ->
  from_le_bytes (map h (to_le_bytes 8 (from_le_bytes (map g (to_le_bytes 8 a))))) = a.
Proof.
  intros Hg Hgh Ha. assert (Forall (fits 8) (map g (to_le_bytes 8 a))) as Hf.
  { apply Forall_map, (Forall_impl (fits 8)); [apply to_le_bytes_fits|done]. }
  assert (to_le_bytes 8 (from_le_bytes (map g (to_le_bytes 8 a))) = map g (to_le_bytes 8 a)) as ->.
  { pose proof (to_from_le_bytes _ Hf) as E. by rewrite length_map, to_le_bytes_length in E. }
  rewrite map_map. rewrite (map_ext_in _ (fun x => x)), map_id, from_to_le_bytes.
  - by apply as_u_small.
  - intros x Hx. apply Hgh. pose proof (to_le_bytes_fits 8 a) as Hl.
    rewrite Forall_forall in Hl. apply Hl. by apply list_elem_of_In.
Qed.

(** ** BREV8 *)

Lemma reverse_bits8_checked x :
  fits 8 x -> fits 8 (reverse_bits8 x) /\ reverse_bits8 (reverse_bits8 x) = x.
Proof.
  intros Hx.
  pose proof (all_below 8 (fun x => (0 <=? reverse_bits8 x) && (reverse_bits8 x <? 256)
    && (reverse_bits8 (reverse_bits8 x) =? x)) x ltac:(vm_compute; reflexivity) Hx) as Hc.
  cbv beta in Hc. unfold fits. change (2 ^ 8) with 256. lia.
Qed.

Lemma brev8_bytes a : brev8 a = from_le_bytes (map reverse_bits8 (to_le_bytes 8 a)).
Proof. apply map_bytes. intros. by apply reverse_bits8_checked. Qed.

Lemma brev8_involutive a : fits 64 a -> brev8 (brev8 a) = a.
Proof.
  intros. rewrite !brev8_bytes. apply map_bytes_inverse; try done;
    intros; by apply reverse_bits8_checked.
Qed.

(** ** ZIP and UNZIP *)

(** Setting one bit of a word. *)
Lemma put_bit x s k : 0 <= s < 32 -> 0 <= k -> Z.testbit (wshl 32 (Z.b2z x) s) k = x && (k =? s).
Proof.
  intros Hs Hk. unfold wshl, as_u. rewrite (Z.mod_small s 32) by lia.
  destruct (Z.ltb_spec k 32).
  - rewrite Z.mod_pow2_bits_low, Z.shiftl_spec, b2z_testbit by lia. f_equal. lia.
  - rewrite Z.mod_pow2_bits_high by lia. destruct x; [|done]. cbn [andb]. lia.
Qed.

Lemma bit_of_32 v k : 0 <= k < 32 -> Z.land (wshr 32 v k) 1 = Z.b2z (Z.testbit v k).
Proof.
  intros Hk. unfold wshr. rewrite (Z.mod_small k 32), Z.testbit_spec', Z.shiftr_div_pow2 by lia.
  apply (Z.land_ones _ 1). lia.
Qed.

(** Bit [k] of the interleaved word. *)
Definition zip_bit (a k : Z) : bool :=
  if Z.even k then Z.testbit a (k / 2) else Z.testbit a (k / 2 + 16).
Definition unzip_bit (a k : Z) : bool :=
  if k <? 16 then Z.testbit a (2 * k) else Z.testbit a (2 * (k - 16) + 1).

Lemma zip32_testbit a k : 0 <= k -> Z.testbit (zip32 a) k = (k <? 32) && zip_bit a k.
Proof.
  revert k. unfold zip32.
  apply (for_range_ind (fun m out => forall k, 0 <= k ->
    Z.testbit out k = (k <? 2 * m) && zip_bit a k) _ 16 0 0).
  { intros k Hk. rewrite Z.bits_0. destruct (Z.ltb_spec k (2 * 0)); [lia|done]. }
  intros j out Hj IH k Hk. rewrite !bit_of_32, !Z.lor_spec, IH, !put_bit by lia.
  unfold zip_bit. destruct (Z.eqb_spec k (j * 2)) as [->|].
  - rewrite Z.even_mul, orb_true_r, Z.div_mul by lia.
    replace (j * 2 =? j * 2 + 1) with false by lia.
    replace (j * 2 <? 2 * j) with false by lia. replace (j * 2 <? 2 * (j + 1)) with true by lia.
    btauto.
  - destruct (Z.eqb_spec k (j * 2 + 1)) as [->|].
    + rewrite Z.even_add, Z.even_mul, orb_true_r. cbn [Z.even eqb].
      rewrite Z.div_add_l, (Z.div_small 1 2), Z.add_0_r by lia.
      replace (j * 2 + 1 <? 2 * j) with false by lia.
      replace (j * 2 + 1 <? 2 * (j + 1)) with true by lia. btauto.
    + replace (k <? 2 * (j + 1)) with (k <? 2 * j) by lia. btauto.
Qed.

Lemma unzip32_testbit a k : 0 <= k -> Z.testbit (unzip32 a) k = (k <? 32) && unzip_bit a k.
Proof.
  intros Hk. transitivity (((k <? 16) || (16 <=? k) && (k <? 16 + 16)) && unzip_bit a k).
  2: { f_equal. lia. }
  revert k Hk. unfold unzip32.
  apply (for_range_ind (fun m out => forall k, 0 <= k ->
    Z.testbit out k = ((k <? m) || (16 <=? k) && (k <? 16 + m)) && unzip_bit a k) _ 16 0 0).
  { intros k Hk. rewrite Z.bits_0.
    replace ((k <? 0) || (16 <=? k) && (k <? 16 + 0)) with false by lia. done. }
  intros j out Hj IH k Hk. rewrite !bit_of_32, !Z.lor_spec, IH, !put_bit by lia.
  unfold unzip_bit. destruct (Z.eqb_spec k j) as [->|].
  - replace (j =? j + 16) with false by lia. replace (j <? 16) with true by lia.
    replace (j <? j) with false by lia. replace (j <? j + 1) with true by lia.
    replace (16 <=? j) with false by lia. replace (j * 2) with (2 * j) by lia. btauto.
  - destruct (Z.eqb_spec k (j + 16)) as [->|].
    + replace (j + 16 <? 16) with false by lia. replace (j + 16 <? j) with false by lia.
      replace (j + 16 <? 16 + j) with false by lia. replace (j + 16 <? j + 1) with false by lia.
      replace (j + 16 <? 16 + (j + 1)) with true by lia. replace (16 <=? j + 16) with true by lia.
      replace (2 * (j + 16 - 16) + 1) with (j * 2 + 1) by lia. btauto.
    + replace (k <? j + 1) with (k <? j) by lia.
      replace (k <? 16 + (j + 1)) with (k <? 16 + j) by lia. btauto.
Qed.

Lemma even_double k : Z.even (2 * k) = true.
Proof. apply Z.even_mul. Qed.
Lemma even_double_1 k : Z.even (2 * k + 1) = false.
Proof. rewrite Z.even_add, Z.even_mul. done. Qed.

Lemma unzip_zip a : fits 32 a -> unzip32 (zip32 a) = a.
Proof.
  intros Ha. apply Z.bits_inj'. intros k Hk. rewrite unzip32_testbit by done.
  destruct (Z.ltb_spec k 32); [|by rewrite (fits_testbit 32 a)]. cbn [andb]. unfold unzip_bit.
  destruct (Z.ltb_spec k 16); rewrite zip32_testbit by lia; unfold zip_bit.
  - rewrite even_double, (Z.mul_comm 2), Z.div_mul by lia.
    by replace (k * 2 <? 32) with true by lia.
  - rewrite even_double_1. rewrite (Z.mul_comm 2), Z.div_add_l, (Z.div_small 1 2) by lia.
    replace ((k - 16) * 2 + 1 <? 32) with true by lia. cbn [andb]. f_equal. lia.
Qed.

Lemma zip_unzip a : fits 32 a -> zip32 (unzip32 a) = a.
Proof.
  intros Ha. apply Z.bits_inj'. intros k Hk. rewrite zip32_testbit by done.
  destruct (Z.ltb_spec k 32); [|by rewrite (fits_testbit 32 a)]. cbn [andb]. unfold zip_bit.
  pose proof (Zmod_even k) as He. pose proof (Z.div_mod k 2 ltac:(lia)) as Hd.
  destruct (Z.even k); rewrite unzip32_testbit by lia; unfold unzip_bit.
  - replace (k / 2 <? 32) with true by lia. replace (k / 2 <? 16) with true by lia.
    cbn [andb]. f_equal. lia.
  - replace (k / 2 + 16 <? 32) with true by lia. replace (k / 2 + 16 <? 16) with false by lia.
    cbn [andb]. f_equal. lia.
Qed.

(** The permutation instructions undo themselves or each other: REV8 reverses the
    bytes of a register of either width and BREV8 the bits of every byte, both
    involutions, and ZIP interleaves the halves of a word, the inverse of UNZIP. *)
Theorem permutations_invert (xl : Xlen) a :
  fits (xlen_bits xl) a ->
  rev8 (rev8 a (rv32 xl)) (rv32 xl) = a
  /\ brev8 (brev8 a) = a
  /\ (xl = Rv32 -> unzip32 (zip32 a) = a /\ zip32 (unzip32 a) = a).
Proof.
  intros Ha. split_and!.
  - unfold rev8. destruct xl; cbn [rv32 is_rv64 negb].
    + rewrite !(as_u_small 32); [by apply (swap_bytes_involutive 4)|done|].
      rewrite (as_u_small 32 a) by done. apply (swap_bytes_fits 4).
    + by apply (swap_bytes_involutive 8).
  - apply brev8_involutive, (fits_weaken (xlen_bits xl)); [by destruct xl|done].
  - intros ->. split; [by apply unzip_zip | by apply zip_unzip].
Qed.

Lemma permutations_invert_witness :
  rev8 (rev8 0x12345678 true) true = 0x12345678 /\ unzip32 (zip32 0x12345678) = 0x12345678.
Proof.
  destruct (permutations_invert Rv32 0x12345678) as (H1 & _ & H2); [by split|].
  split; [exact H1 | by apply H2].
Defined.
