(* ===== verification/RvCryptoSpec.v ===== *)
(** * Scalar cryptography: round trips and equivalences

    The AES decryption instructions undo the encryption ones, and the 32-bit
    SHA-512 instruction pairs compute the halves of the 64-bit ones. *)

From S2P Require Import Prelude RvIsa RvOp RvAlu RvCrypto RvAluSpec RvTrapSpec RvBitSpec.

(** ** SHA-512 on register pairs *)

(** The 64-bit value whose halves are [hi] and [lo]. *)
Definition join (hi lo : Z) : Z := hi * 2 ^ 32 + lo.

Section Halves.
Context (hi lo : Z) (Hhi : fits 32 hi) (Hlo : fits 32 lo).

Lemma join_fits : fits 64 (join hi lo).
Proof. destruct Hhi, Hlo. unfold join, fits. change (2 ^ 64) with (2 ^ 32 * 2 ^ 32). nia. Qed.

Lemma join_testbit i :
  0 <= i -> Z.testbit (join hi lo) i = if i <? 32 then Z.testbit lo i else Z.testbit hi (i - 32).
Proof.
  intros Hi. unfold join. rewrite Z.add_nocarry_lxor, Z.lxor_spec.
  - destruct (Z.ltb_spec i 32).
    + by rewrite Z.mul_pow2_bits_low.
    + rewrite Z.mul_pow2_bits by lia. rewrite (fits_testbit 32 lo) by done. apply xorb_false_r.
  - apply Z.bits_inj'. intros k Hk. rewrite Z.land_spec, Z.bits_0.
    destruct (Z.ltb_spec k 32); [by rewrite Z.mul_pow2_bits_low|].
    rewrite (fits_testbit 32 lo) by done. apply andb_false_r.
Qed.
End Halves.

(** Two 64-bit values with the same bits are equal. *)
Lemma bits64_inj a b :
  fits 64 a -> fits 64 b -> (forall i, 0 <= i < 64 -> Z.testbit a i = Z.testbit b i) -> a = b.
Proof.
  intros Ha Hb Hi. apply Z.bits_inj'. intros i H0. destruct (Z.ltb_spec i 64); [by apply Hi|].
  by rewrite (fits_testbit 64 a), (fits_testbit 64 b).
Qed.

Lemma ror64_testbit x r i :
  0 < r < 64 -> fits 64 x -> 0 <= i < 64 ->
  Z.testbit (ror64 x r) i = Z.testbit x (if i + r <? 64 then i + r else i + r - 64).
Proof.
  intros Hr Hx Hi. unfold ror64, rotate_right, as_u. rewrite (Z.mod_small r 64) by lia.
  rewrite Z.mod_pow2_bits_low, Z.lor_spec, Z.shiftr_spec, Z.shiftl_spec by lia.
  destruct (Z.ltb_spec (i + r) 64).
  - by rewrite (Z.testbit_neg_r x (i - (64 - r))), orb_false_r by lia.
  - rewrite (fits_testbit 64 x (i + r)) by (done || lia). cbn [orb]. f_equal. lia.
Qed.

Lemma wshr32_testbit a r i : 0 <= r < 32 -> 0 <= i -> Z.testbit (wshr 32 a r) i = Z.testbit a (i + r).
Proof. intros. unfold wshr. by rewrite (Z.mod_small r 32), Z.shiftr_spec by lia. Qed.

Lemma wshl32_testbit a r i :
  0 <= r < 32 -> 0 <= i < 32 -> Z.testbit (wshl 32 a r) i = Z.testbit a (i - r).
Proof.
  intros. unfold wshl, as_u. by rewrite (Z.mod_small r 32), Z.mod_pow2_bits_low, Z.shiftl_spec by lia.
Qed.

Lemma sext32_low v : as_u32 (sext32 v) = as_u32 v.
Proof.
  unfold sext32, as_u. rewrite (mod_pow_mod 32 64) by lia. apply (as_u_as_i 32). lia.
Qed.

Lemma as_u32_testbit v i : 0 <= i < 32 -> Z.testbit (as_u32 v) i = Z.testbit v i.
Proof. intros. unfold as_u. by rewrite Z.mod_pow2_bits_low by lia. Qed.

(** Rotations and shifts of a pair, by halves. *)
Section Rotations.
Context (hi lo : Z) (Hhi : fits 32 hi) (Hlo : fits 32 lo).
Abbreviation x := (join hi lo).

Ltac half :=
  intros; rewrite ?ror64_testbit, ?(wshr_testbit x), ?wshr32_testbit, ?wshl32_testbit
    by (lia || by apply join_fits);
  repeat match goal with |- context [if ?a <? ?b then _ else _] => destruct (Z.ltb_spec a b) end;
  rewrite ?join_testbit by (done || lia);
  repeat match goal with |- context [if ?a <? ?b then _ else _] => destruct (Z.ltb_spec a b) end;
  try lia;
  repeat match goal with
  | |- context [Z.testbit ?v ?k] => rewrite (Z.testbit_neg_r v k) by lia
  | |- context [Z.testbit hi ?k] => rewrite (fits_testbit 32 hi k) by (done || lia)
  | |- context [Z.testbit lo ?k] => rewrite (fits_testbit 32 lo k) by (done || lia)
  end;
  rewrite ?xorb_false_r, ?xorb_false_l; try (f_equal; lia).

Lemma ror_lo r i : 0 < r < 32 -> 0 <= i < 32 ->
  Z.testbit (ror64 x r) i
  = xorb (Z.testbit (wshr 32 lo r) i) (Z.testbit (wshl 32 hi (32 - r)) i).
Proof. half. Qed.
Lemma ror_hi r i : 0 < r < 32 -> 0 <= i < 32 ->
  Z.testbit (ror64 x r) (i + 32)
  = xorb (Z.testbit (wshr 32 hi r) i) (Z.testbit (wshl 32 lo (32 - r)) i).
Proof. half. Qed.
Lemma ror_lo' r i : 32 < r < 64 -> 0 <= i < 32 ->
  Z.testbit (ror64 x r) i
  = xorb (Z.testbit (wshr 32 hi (r - 32)) i) (Z.testbit (wshl 32 lo (64 - r)) i).
Proof. half. Qed.
Lemma ror_hi' r i : 32 < r < 64 -> 0 <= i < 32 ->
  Z.testbit (ror64 x r) (i + 32)
  = xorb (Z.testbit (wshr 32 lo (r - 32)) i) (Z.testbit (wshl 32 hi (64 - r)) i).
Proof. half. Qed.
Lemma shr_lo r i : 0 < r < 32 -> 0 <= i < 32 ->
  Z.testbit (wshr 64 x r) i
  = xorb (Z.testbit (wshr 32 lo r) i) (Z.testbit (wshl 32 hi (32 - r)) i).
Proof. half. Qed.
Lemma shr_hi r i : 0 < r < 32 -> 0 <= i < 32 ->
  Z.testbit (wshr 64 x r) (i + 32) = Z.testbit (wshr 32 hi r) i.
Proof. half. Qed.
End Rotations.

(** A 64-bit value is the join of two words when its halves have their bits. *)
Lemma join_halves v h l :
  fits 64 v ->
  (forall i, 0 <= i < 32 -> Z.testbit v i = Z.testbit l i) ->
  (forall i, 0 <= i < 32 -> Z.testbit v (i + 32) = Z.testbit h i) ->
  v = join (as_u32 h) (as_u32 l).
Proof.
  intros Hv Hl Hh. assert (fits 32 (as_u32 h) /\ fits 32 (as_u32 l)) as [? ?]
    by (split; by apply as_u_fits).
  apply bits64_inj; [done|by apply join_fits|]. intros i Hi. rewrite join_testbit by (done || lia).
  destruct (Z.ltb_spec i 32).
  - rewrite as_u32_testbit by lia. apply Hl. lia.
  - rewrite as_u32_testbit by lia. rewrite <- Hh by lia. f_equal. lia.
Qed.

Lemma ror64_fits x r : fits 64 (ror64 x r).
Proof. by apply as_u_fits. Qed.

(** On RV32 the SHA-512 instruction pairs compute the two halves of the 64-bit
    transforms: sigma with its separate low and high instructions, sum with one
    instruction applied to the halves in either order. *)
Theorem sha512_pairs hi lo :
  fits 32 hi -> fits 32 lo ->
  sha512sig0 (join hi lo) = join (as_u32 (sha512sig0h hi lo)) (as_u32 (sha512sig0l lo hi))
  /\ sha512sig1 (join hi lo) = join (as_u32 (sha512sig1h hi lo)) (as_u32 (sha512sig1l lo hi))
  /\ sha512sum0 (join hi lo) = join (as_u32 (sha512sum0r hi lo)) (as_u32 (sha512sum0r lo hi))
  /\ sha512sum1 (join hi lo) = join (as_u32 (sha512sum1r hi lo)) (as_u32 (sha512sum1r lo hi)).
Proof.
  intros Hhi Hlo. pose proof (join_fits hi lo Hhi Hlo) as Hj.
  unfold sha512sig0h, sha512sig0l, sha512sig1h, sha512sig1l, sha512sum0r, sha512sum1r.
  rewrite !sext32_low. cbv zeta. rewrite !(as_u_small 32 hi), !(as_u_small 32 lo) by done.
  unfold sha512sig0, sha512sig1, sha512sum0, sha512sum1, xor3.
  split_and!; apply join_halves;
    try (apply fits_lxor; [apply fits_lxor|]; try apply ror64_fits; by apply fits_wshr).
  all: intros i Hi; rewrite ?Z.lxor_spec;
    rewrite ?ror_lo, ?ror_hi, ?shr_lo, ?shr_hi by (done || lia);
    rewrite ?ror_lo', ?ror_hi' by (done || lia);
    repeat match goal with |- context [wshl 32 ?a (?b - ?c)] =>
      let k := eval compute in (b - c) in change (b - c) with k end;
    repeat match goal with |- context [wshr 32 ?a (?b - ?c)] =>
      let k := eval compute in (b - c) in change (b - c) with k end;
    btauto.
Qed.

Lemma sha512_pairs_witness :
  sha512sum0 0x6a09e667f3bcc908
  = join (as_u32 (sha512sum0r 0x6a09e667 0xf3bcc908)) (as_u32 (sha512sum0r 0xf3bcc908 0x6a09e667)).
Proof.
  destruct (sha512_pairs 0x6a09e667 0xf3bcc908) as (_ & _ & H & _); [by split | by split | exact H].
Defined.

(** ** AES: SubBytes and ShiftRows *)

Lemma sboxes_checked x :
  fits 8 x ->
  (fits 8 (sbox AES_SBOX x) /\ sbox AES_INV_SBOX (sbox AES_SBOX x) = x)
  /\ (fits 8 (sbox AES_INV_SBOX x) /\ sbox AES_SBOX (sbox AES_INV_SBOX x) = x).
Proof.
  intros Hx.
  pose proof (all_below 8 (fun x =>
    (0 <=? sbox AES_SBOX x) && (sbox AES_SBOX x <? 256)
    && (sbox AES_INV_SBOX (sbox AES_SBOX x) =? x)
    && (0 <=? sbox AES_INV_SBOX x) && (sbox AES_INV_SBOX x <? 256)
    && (sbox AES_SBOX (sbox AES_INV_SBOX x) =? x)) x ltac:(vm_compute; reflexivity) Hx) as Hc.
  cbv beta in Hc. unfold fits. change (2 ^ 8) with 256. lia.
Qed.

Lemma subbytes_fwd_bytes x : subbytes_fwd x = from_le_bytes (map (sbox AES_SBOX) (to_le_bytes 8 x)).
Proof. apply (map_bytes (sbox AES_SBOX)). intros. by apply sboxes_checked. Qed.
Lemma subbytes_inv_bytes x :
  subbytes_inv x = from_le_bytes (map (sbox AES_INV_SBOX) (to_le_bytes 8 x)).
Proof. apply (map_bytes (sbox AES_INV_SBOX)). intros. by apply sboxes_checked. Qed.

(** Eight bytes put together as the row shifts do. *)
Lemma lor_bytes b0 b1 b2 b3 b4 b5 b6 b7 :
  Forall (fits 8) [b0; b1; b2; b3; b4; b5; b6; b7] ->
  foldl Z.lor b0 [wshl 64 b1 8; wshl 64 b2 16; wshl 64 b3 24; wshl 64 b4 32; wshl 64 b5 40;
                  wshl 64 b6 48; wshl 64 b7 56]
  = from_le_bytes [b0; b1; b2; b3; b4; b5; b6; b7].
Proof.
  intros Hb. pose proof Hb as Hb'. rewrite !Forall_cons in Hb'.
  set (l := [b0; b1; b2; b3; b4; b5; b6; b7]) in *.
  assert (forall j, fits 8 (nth (Z.to_nat j) l 0)) as Hn.
  { intros j. rewrite nth_lookup. destruct (l !! Z.to_nat j) eqn:E; [|by apply fits_0].
    exact (Forall_lookup_1 _ _ _ _ Hb E). }
  pose proof (or_bytes (fun j => nth (Z.to_nat j) l 0) Hn) as E.
  change (map (fun j => nth (Z.to_nat j) l 0) (seqZ 0 8)) with l in E. rewrite <- E.
  cbn [for_range foldl]. f_equal. f_equal. f_equal. f_equal. f_equal. f_equal. f_equal.
  rewrite Z.lor_0_l. symmetry. unfold wshl. change (0 * 8 mod 64) with 0. rewrite Z.shiftl_0_r.
  apply as_u_small, (fits_weaken 8); [done|]. tauto.
Qed.

(** The bytes of an assembled value. *)
Lemma bytes_of l : length l = 8%nat -> Forall (fits 8) l -> to_le_bytes 8 (from_le_bytes l) = l.
Proof. intros Hl Hf. rewrite <- Hl. by apply to_from_le_bytes. Qed.

Lemma bytes_explicit a :
  to_le_bytes 8 a = [byte_at a 0; byte_at a 1; byte_at a 2; byte_at a 3; byte_at a 4; byte_at a 5;
                     byte_at a 6; byte_at a 7].
Proof. by rewrite <- byte_at_bytes. Qed.

Ltac all_bytes := repeat apply Forall_cons_2; try apply Forall_nil_2; apply byte_at_fits.

Lemma shiftrows_fwd_bytes a b :
  to_le_bytes 8 (shiftrows_fwd a b)
  = [byte_at a 0; byte_at a 5; byte_at b 2; byte_at b 7; byte_at a 4; byte_at b 1; byte_at b 6;
     byte_at a 3].
Proof. unfold shiftrows_fwd. rewrite lor_bytes by all_bytes. apply bytes_of; [done|all_bytes]. Qed.
Lemma shiftrows_inv_bytes a b :
  to_le_bytes 8 (shiftrows_inv a b)
  = [byte_at a 0; byte_at b 5; byte_at b 2; byte_at a 7; byte_at a 4; byte_at a 1; byte_at b 6;
     byte_at b 3].
Proof. unfold shiftrows_inv. rewrite lor_bytes by all_bytes. apply bytes_of; [done|all_bytes]. Qed.

Lemma map_sbox_fits l : Forall (fits 8) l -> Forall (fits 8) (map (sbox AES_SBOX) l).
Proof.
  intros Hl. apply Forall_map. eapply Forall_impl; [exact Hl|]. intros x Hx. by apply sboxes_checked.
Qed.

(** The bytes of one half of the state after a forward round. *)
Lemma aes64es_bytes a b :
  to_le_bytes 8 (aes64es a b)
  = map (sbox AES_SBOX) [byte_at a 0; byte_at a 5; byte_at b 2; byte_at b 7; byte_at a 4; byte_at b 1;
                         byte_at b 6; byte_at a 3].
Proof.
  unfold aes64es. rewrite subbytes_fwd_bytes, shiftrows_fwd_bytes. apply bytes_of; [done|].
  apply map_sbox_fits. all_bytes.
Qed.

Lemma byte_at_of_bytes v l i :
  to_le_bytes 8 v = l -> 0 <= i < 8 -> byte_at v i = nth (Z.to_nat i) l 0.
Proof.
  intros <- Hi. rewrite bytes_explicit.
  assert (i = 0 \/ i = 1 \/ i = 2 \/ i = 3 \/ i = 4 \/ i = 5 \/ i = 6 \/ i = 7) as Hc by lia.
  by destruct Hc as [-> | [-> | [-> | [-> | [-> | [-> | [-> | ->]]]]]]].
Qed.

(** Inverse ShiftRows and SubBytes undo the forward ones. *)
Lemma aes_final_round a b : fits 64 a -> aes64ds (aes64es a b) (aes64es b a) = a.
Proof.
  intros Ha. unfold aes64ds. rewrite subbytes_inv_bytes, shiftrows_inv_bytes.
  rewrite !(byte_at_of_bytes _ _ _ (aes64es_bytes a b)),
    !(byte_at_of_bytes _ _ _ (aes64es_bytes b a)) by lia.
  assert (forall v i, sbox AES_INV_SBOX (sbox AES_SBOX (byte_at v i)) = byte_at v i) as Hs.
  { intros v i. apply sboxes_checked, byte_at_fits. }
  cbv [map nth Z.to_nat Pos.to_nat Pos.iter_op Nat.add]. rewrite !Hs.
  rewrite <- bytes_explicit, from_to_le_bytes. by apply as_u_small.
Qed.

(** ** AES: MixColumns *)

Lemma xtime_fits x : fits 8 (xtime x).
Proof. by apply fits_mask. Qed.

(** [xtime] is linear, and the inverse coefficients are its combinations. *)
Definition xtime_pair_ok (w : Z) : bool :=
  let x := w / 256 in let y := w mod 256 in
  xtime (Z.lxor x y) =? Z.lxor (xtime x) (xtime y).

Lemma xtime_linear x y : fits 8 x -> fits 8 y -> xtime (Z.lxor x y) = Z.lxor (xtime x) (xtime y).
Proof.
  intros [? ?] [? ?].
  pose proof (all_below 16 xtime_pair_ok (256 * x + y) ltac:(vm_compute; reflexivity)) as Hc.
  unfold xtime_pair_ok in Hc. rewrite Z.add_comm, Z.mul_comm in Hc.
  rewrite Z.div_add, Z.div_small, Z.add_0_l, Z.mod_add, Z.mod_small in Hc by lia.
  apply Z.eqb_eq, Hc. unfold fits in *. change (2 ^ 8) with 256 in *.
  change (2 ^ Z.of_nat 16) with 65536. lia.
Qed.

Lemma gfmul_xtime x :
  fits 8 x ->
  let x1 := xtime x in let x2 := xtime x1 in let x3 := xtime x2 in
  gfmul x 9 = Z.lxor x3 x /\ gfmul x 11 = Z.lxor (Z.lxor x3 x1) x
  /\ gfmul x 13 = Z.lxor (Z.lxor x3 x2) x /\ gfmul x 14 = Z.lxor (Z.lxor x3 x2) x1.
Proof.
  intros Hx. cbv zeta.
  pose proof (all_below 8 (fun x =>
    (gfmul x 9 =? Z.lxor (xtime (xtime (xtime x))) x)
    && (gfmul x 11 =? Z.lxor (Z.lxor (xtime (xtime (xtime x))) (xtime x)) x)
    && (gfmul x 13 =? Z.lxor (Z.lxor (xtime (xtime (xtime x))) (xtime (xtime x))) x)
    && (gfmul x 14 =? Z.lxor (Z.lxor (xtime (xtime (xtime x))) (xtime (xtime x))) (xtime x)))
    x ltac:(vm_compute; reflexivity) Hx) as Hc.
  cbv beta in Hc. lia.
Qed.

(** One column of MixColumns, as bytes. *)
Definition mix0 (b0 b1 b2 b3 : Z) : Z := xor4 (xtime b0) (Z.lxor (xtime b1) b1) b2 b3.
Definition mix1 (b0 b1 b2 b3 : Z) : Z := xor4 b0 (xtime b1) (Z.lxor (xtime b2) b2) b3.
Definition mix2 (b0 b1 b2 b3 : Z) : Z := xor4 b0 b1 (xtime b2) (Z.lxor (xtime b3) b3).
Definition mix3 (b0 b1 b2 b3 : Z) : Z := xor4 (Z.lxor (xtime b0) b0) b1 b2 (xtime b3).

Section MixColumn.
Context (b0 b1 b2 b3 : Z).
Hypothesis (H0 : fits 8 b0) (H1 : fits 8 b1) (H2 : fits 8 b2) (H3 : fits 8 b3).

Ltac byte := unfold mix0, mix1, mix2, mix3, xor4, xor3;
  repeat first [apply fits_lxor | apply xtime_fits | assumption].

Ltac cancel :=
  repeat match goal with |- context [gfmul ?v ?c] =>
    destruct (gfmul_xtime v) as (E9 & E11 & E13 & E14); [byte|];
    rewrite ?E9, ?E11, ?E13, ?E14; clear E9 E11 E13 E14 end;
  unfold mix0, mix1, mix2, mix3, xor4, xor3;
  repeat rewrite xtime_linear by byte;
  apply Z.bits_inj'; intros i Hi; rewrite !Z.lxor_spec; btauto.

Abbreviation m0 := (mix0 b0 b1 b2 b3).
Abbreviation m1 := (mix1 b0 b1 b2 b3).
Abbreviation m2 := (mix2 b0 b1 b2 b3).
Abbreviation m3 := (mix3 b0 b1 b2 b3).

Lemma mix_inverse_0 : xor4 (gfmul m0 14) (gfmul m1 11) (gfmul m2 13) (gfmul m3 9) = b0.
Proof. cancel. Qed.
Lemma mix_inverse_1 : xor4 (gfmul m0 9) (gfmul m1 14) (gfmul m2 11) (gfmul m3 13) = b1.
Proof. cancel. Qed.
Lemma mix_inverse_2 : xor4 (gfmul m0 13) (gfmul m1 9) (gfmul m2 14) (gfmul m3 11) = b2.
Proof. cancel. Qed.
Lemma mix_inverse_3 : xor4 (gfmul m0 11) (gfmul m1 13) (gfmul m2 9) (gfmul m3 14) = b3.
Proof. cancel. Qed.

Lemma mix_fits : Forall (fits 8) [m0; m1; m2; m3].
Proof. repeat apply Forall_cons_2; try apply Forall_nil_2; byte. Qed.
End MixColumn.

Lemma col_byte_fits v i : fits 8 (col_byte v i).
Proof. by apply fits_mask. Qed.

Lemma bytes4_explicit v :
  to_le_bytes 4 v = [col_byte v 0; col_byte v 1; col_byte v 2; col_byte v 3].
Proof.
  cbn [to_le_bytes]. rewrite !Z.shiftr_shiftr by lia.
  unfold col_byte. change (8 * 0) with 0. rewrite Z.shiftr_0_r.
  change 0xff with (Z.ones 8). by rewrite !Z.land_ones by lia.
Qed.

(** The bytes of an assembled column. *)
Lemma col_bytes l :
  length l = 4%nat -> Forall (fits 8) l ->
  [col_byte (from_le_bytes l) 0; col_byte (from_le_bytes l) 1; col_byte (from_le_bytes l) 2;
   col_byte (from_le_bytes l) 3] = l.
Proof. intros Hl Hf. rewrite <- bytes4_explicit, <- Hl. by apply to_from_le_bytes. Qed.

Lemma mixcol_fwd_fits v : fits 32 (mixcol_fwd v).
Proof.
  change 32 with (8 * Z.of_nat 4).
  apply (from_le_bytes_fits [_; _; _; _]), (mix_fits _ _ _ _); apply col_byte_fits.
Qed.

Lemma mixcol_inverse v : fits 32 v -> mixcol_inv (mixcol_fwd v) = v.
Proof.
  intros Hv. pose proof (mix_fits (col_byte v 0) (col_byte v 1) (col_byte v 2) (col_byte v 3)
    (col_byte_fits v 0) (col_byte_fits v 1) (col_byte_fits v 2) (col_byte_fits v 3)) as Hm.
  pose proof (col_bytes [_; _; _; _] eq_refl Hm) as E.
  match type of E with context [from_le_bytes ?l] =>
    change (mixcol_fwd v) with (from_le_bytes l); generalize dependent (from_le_bytes l) end.
  intros w E. injection E as E0 E1 E2 E3. unfold mixcol_inv. cbv zeta. rewrite E0, E1, E2, E3.
  rewrite mix_inverse_0, mix_inverse_1, mix_inverse_2, mix_inverse_3 by apply col_byte_fits.
  rewrite <- bytes4_explicit, from_to_le_bytes. by apply as_u_small.
Qed.

(** The columns of the two words of a doubleword. *)
Lemma mixcols_join f x :
  (forall v, fits 32 (f v)) ->
  mixcols f x = join (f (as_u32 (wshr 64 x 32))) (f (as_u32 x)).
Proof.
  intros Hf. unfold mixcols, join, wshl. change (32 mod 64) with 32.
  destruct (Hf (as_u32 (wshr 64 x 32))), (Hf (as_u32 x)) as [Hl0 Hl1].
  rewrite Z.shiftl_mul_pow2, (as_u_small 64) by (lia || (split; lia)).
  rewrite Z.lor_comm. apply lor_join; [lia|done].
Qed.

Lemma join_low hi lo : fits 32 hi -> fits 32 lo -> as_u32 (join hi lo) = lo.
Proof.
  intros [? ?] Hlo. unfold join, as_u. rewrite Z.add_comm, Z.mod_add by lia. by apply Z.mod_small.
Qed.
Lemma join_high hi lo : fits 32 hi -> fits 32 lo -> as_u32 (wshr 64 (join hi lo) 32) = hi.
Proof.
  intros Hhi [? ?]. unfold join, wshr. change (32 mod 64) with 32.
  rewrite Z.shiftr_div_pow2, Z.div_add_l, Z.div_small, Z.add_0_r by lia. by apply as_u_small.
Qed.
Lemma join_split x : fits 64 x -> join (as_u32 (wshr 64 x 32)) (as_u32 x) = x.
Proof.
  intros [? ?]. unfold join, wshr, as_u. change (32 mod 64) with 32. rewrite Z.shiftr_div_pow2 by lia.
  rewrite (Z.mod_small (x / 2 ^ 32)); [pose proof (Z.div_mod x (2 ^ 32)); lia|].
  split; [by apply Z.div_pos|]. apply Z.div_lt_upper_bound; lia.
Qed.

Lemma mixcol_inv_fits v : fits 32 (mixcol_inv v).
Proof.
  change 32 with (8 * Z.of_nat 4). apply (from_le_bytes_fits [_; _; _; _]).
  assert (forall i c, c = 9 \/ c = 11 \/ c = 13 \/ c = 14 -> fits 8 (gfmul (col_byte v i) c)) as Hg.
  { intros i c Hc. destruct (gfmul_xtime _ (col_byte_fits v i)) as (E9 & E11 & E13 & E14).
    destruct Hc as [-> | [-> | [-> | ->]]]; rewrite ?E9, ?E11, ?E13, ?E14;
      repeat first [apply fits_lxor | apply xtime_fits | apply col_byte_fits]. }
  repeat apply Forall_cons_2; try apply Forall_nil_2; unfold xor4, xor3;
    repeat match goal with |- fits _ (Z.lxor _ _) => apply fits_lxor end; apply Hg; lia.
Qed.

Lemma mixcols_inverse x : fits 64 x -> mixcols_inv (mixcols_fwd x) = x.
Proof.
  intros Hx. unfold mixcols_inv, mixcols_fwd.
  rewrite (mixcols_join mixcol_fwd), (mixcols_join mixcol_inv)
    by (apply mixcol_fwd_fits || apply mixcol_inv_fits).
  rewrite join_low, join_high by apply mixcol_fwd_fits.
  rewrite !mixcol_inverse by by apply as_u_fits. by apply join_split.
Qed.

Lemma aes64es_fits a b : fits 64 (aes64es a b).
Proof.
  unfold aes64es. rewrite subbytes_fwd_bytes. change 64 with (8 * Z.of_nat 8).
  rewrite <- (to_le_bytes_length 8 (shiftrows_fwd a b)) at 1.
  rewrite <- (length_map (sbox AES_SBOX)).
  apply from_le_bytes_fits, map_sbox_fits, to_le_bytes_fits.
Qed.

#[local] Opaque mixcols_fwd mixcols_inv subbytes_fwd subbytes_inv shiftrows_fwd shiftrows_inv.

Lemma aes_im_esm a b : aes64im (aes64esm a b) = aes64es a b.
Proof. exact (mixcols_inverse _ (aes64es_fits a b)). Qed.

(** C39. AES decryption undoes encryption on the RV64 instructions: the final-round pair
    AES64DS inverts AES64ES on both halves of the state, AES64IM undoes the
    MixColumns of AES64ESM, and so a middle round is undone by AES64IM followed by
    AES64DS. *)
Theorem aes64_round_trip lo hi :
  fits 64 lo -> fits 64 hi ->
  (aes64ds (aes64es lo hi) (aes64es hi lo) = lo
   /\ aes64ds (aes64es hi lo) (aes64es lo hi) = hi)
  /\ aes64im (aes64esm lo hi) = aes64es lo hi
  /\ aes64ds (aes64im (aes64esm lo hi)) (aes64im (aes64esm hi lo)) = lo.
Proof.
  intros Hl Hh. rewrite !aes_im_esm. split; [split; by apply aes_final_round|].
  split; [reflexivity | by apply aes_final_round].
Qed.

Lemma aes64_round_trip_witness :
  aes64ds (aes64im (aes64esm 0x0123456789abcdef 0x0f1e2d3c4b5a6978))
          (aes64im (aes64esm 0x0f1e2d3c4b5a6978 0x0123456789abcdef)) = 0x0123456789abcdef.
Proof.
  destruct (aes64_round_trip 0x0123456789abcdef 0x0f1e2d3c4b5a6978) as (_ & _ & H);
    [by split | by split | exact H].
Defined.
