(* ===== verification/DevBus.v ===== *)
(** * The device buses

    src/devices/bus.rs.  A device is reached through a handle; handles share the
    store [St] that holds the state of the devices, as the boxes of the source share
    devices behind [Arc<Mutex<_>>].  A lock succeeds: it fails only after a
    panic of its holder. *)

From stdpp Require Import list.
From S2P Require Import Prelude.

(** ** Interfaces *)

(** The trait [IoDevice]. *)
Class IoDevice (H St : Type) : Type := {
  io_read : H -> Z -> St -> Z * St;
  io_write : H -> Z -> Z -> St -> St
}.

(** The trait [MmioDevice]: a read fills a buffer of the given length. *)
Class MmioDevice (H St : Type) : Type := {
  mmio_read : H -> Z -> nat -> St -> list Z * St;
  mmio_write : H -> Z -> list Z -> St -> St
}.

(** What the I/O bus asks of the PCI host bridge. *)
Class PciBridge (St : Type) : Type := {
  pci_io_read : Z -> St -> option Z * St;
  pci_io_write : Z -> Z -> St -> St
}.

(** ** Ranges *)

(** [saturating_add] at width [w]. *)
Definition sat_add (w a b : Z) : Z := Z.min (a + b) (2 ^ w - 1).

Record Range : Type := mk_range { r_base : Z; r_len : Z }.

Definition range_end (w : Z) (r : Range) : Z := sat_add w (r_base r) (r_len r).
Definition contains (w : Z) (r : Range) (a : Z) : bool :=
  (r_base r <=? a) && (a <? range_end w r).
Definition overlaps (w : Z) (r other : Range) : bool :=
  (r_base r <? range_end w other) && (r_base other <? range_end w r).

(** [IoRange] and [MmioRange]. *)
Abbreviation IoRange := Range.
Abbreviation io_contains := (contains 16).
Abbreviation io_overlaps := (overlaps 16).
Abbreviation MmioRange := Range.
Abbreviation mmio_contains := (contains 64).
Abbreviation mmio_overlaps := (overlaps 64).

Inductive BusError : Type :=
  | DeviceOverlap (base len : Z)
  | MmioOverlap (base len : Z).

(** [self.devices.iter().position(|(range, _)| range.contains(a))], and the device. *)
Definition claimant {H} (w : Z) (devices : list (Range * H)) (a : Z) : option H :=
  snd <$> find (fun d => contains w (fst d) a) devices.

(** ** The I/O bus *)

Record IoBus (H : Type) : Type := mk_io_bus {
  io_devices : list (IoRange * H);
  io_pci : bool
}.
Arguments mk_io_bus {H}.
Arguments io_devices {H}.
Arguments io_pci {H}.

Module IoBus.
Section IoBus.
Context {H St : Type} `{IoDevice H St} `{PciBridge St}.
Implicit Types (bus : IoBus H) (s : St).

Definition new : IoBus H := mk_io_bus [] false.

Definition set_pci bus : IoBus H := mk_io_bus (io_devices bus) true.

Definition register bus (range : IoRange) (dev : H) : BusError + IoBus H :=
  if existsb (fun d => io_overlaps (fst d) range) (io_devices bus)
  then inl (DeviceOverlap (r_base range) (r_len range))
  else inr (mk_io_bus (io_devices bus ++ [(range, dev)]) (io_pci bus)).

(** One iteration of the loops of [read] and [write]. *)
Definition read_byte bus (port : Z) (s : St) : Z * St :=
  match claimant 16 (io_devices bus) port with
  | Some dev => io_read dev port s
  | None =>
      if io_pci bus then let '(r, s) := pci_io_read port s in (default 0xff r, s) else (0xff, s)
  end.

Definition write_byte bus (port value : Z) (s : St) : St :=
  match claimant 16 (io_devices bus) port with
  | Some dev => io_write dev port value s
  | None => if io_pci bus then pci_io_write port value s else s
  end.

Definition nth_port (port index : Z) : Z := sat_add 16 port (as_u 16 index).

Fixpoint read_from bus (port index : Z) (n : nat) (s : St) : list Z * St :=
  match n with
  | O => ([], s)
  | S n =>
      let '(b, s) := read_byte bus (nth_port port index) s in
      let '(bs, s) := read_from bus port (index + 1) n s in
      (b :: bs, s)
  end.
Definition read bus (port : Z) (n : nat) (s : St) : list Z * St := read_from bus port 0 n s.

Fixpoint write_from bus (port index : Z) (data : list Z) (s : St) : St :=
  match data with
  | [] => s
  | b :: data =>
      write_from bus port (index + 1) data (write_byte bus (nth_port port index) b s)
  end.
Definition write bus (port : Z) (data : list Z) (s : St) : St := write_from bus port 0 data s.
End IoBus.
End IoBus.

(** ** The MMIO bus *)

Record MmioBus (H : Type) : Type := mk_mmio_bus { mmio_devices : list (MmioRange * H) }.
Arguments mk_mmio_bus {H}.
Arguments mmio_devices {H}.

Module MmioBus.
Section MmioBus.
Context {H St : Type} `{MmioDevice H St}.
Implicit Types (bus : MmioBus H) (s : St).

Definition new : MmioBus H := mk_mmio_bus [].

Definition register bus (range : MmioRange) (dev : H) : BusError + MmioBus H :=
  if existsb (fun d => mmio_overlaps (fst d) range) (mmio_devices bus)
  then inl (MmioOverlap (r_base range) (r_len range))
  else inr (mk_mmio_bus (mmio_devices bus ++ [(range, dev)])).

Definition read_byte bus (addr : Z) (s : St) : Z * St :=
  match claimant 64 (mmio_devices bus) addr with
  | Some dev => let '(tmp, s) := mmio_read dev addr 1 s in (nth 0 tmp 0, s)
  | None => (0xff, s)
  end.

Definition write_byte bus (addr value : Z) (s : St) : St :=
  match claimant 64 (mmio_devices bus) addr with
  | Some dev => mmio_write dev addr [value] s
  | None => s
  end.

Fixpoint read_from bus (addr index : Z) (n : nat) (s : St) : list Z * St :=
  match n with
  | O => ([], s)
  | S n =>
      let '(b, s) := read_byte bus (sat_add 64 addr index) s in
      let '(bs, s) := read_from bus addr (index + 1) n s in
      (b :: bs, s)
  end.
Definition read bus (addr : Z) (n : nat) (s : St) : list Z * St := read_from bus addr 0 n s.

Fixpoint write_from bus (addr index : Z) (data : list Z) (s : St) : St :=
  match data with
  | [] => s
  | b :: data => write_from bus addr (index + 1) data (write_byte bus (sat_add 64 addr index) b s)
  end.
Definition write bus (addr : Z) (data : list Z) (s : St) : St := write_from bus addr 0 data s.
End MmioBus.
End MmioBus.
