(* ===== verification/DevPic.v ===== *)
(** * The 8259A interrupt controllers

    src/devices/pic.rs: one controller, the cascaded pair and its I/O ports. *)

From stdpp Require Import list.
From S2P Require Import Prelude DevBus.

(** ** One controller *)

Inductive InitState : Type := Ready | WaitingICW2 | WaitingICW3 | WaitingICW4.

Record Pic8259 : Type := mk_pic {
  irq_lines : Z;
  irr : Z;
  isr : Z;
  imr : Z;
  vector_offset : Z;
  init_state : InitState;
  icw1 : Z;
  icw4_needed : bool;
  level_triggered : bool;
  single_mode : bool;
  mode_8086 : bool;
  auto_eoi : bool;
  special_fully_nested : bool;
  icw3 : Z;
  rotate_in_auto_eoi : bool;
  special_mask_mode : bool;
  poll_mode : bool;
  read_irr : bool;
  lowest_priority : Z
}.

Definition set_irq_lines (v : Z) (p : Pic8259) : Pic8259 :=
  mk_pic v (irr p) (isr p) (imr p) (vector_offset p) (init_state p) (icw1 p) (icw4_needed p)
    (level_triggered p) (single_mode p) (mode_8086 p) (auto_eoi p) (special_fully_nested p)
    (icw3 p) (rotate_in_auto_eoi p) (special_mask_mode p) (poll_mode p) (read_irr p)
    (lowest_priority p).
Definition set_irr (v : Z) (p : Pic8259) : Pic8259 :=
  mk_pic (irq_lines p) v (isr p) (imr p) (vector_offset p) (init_state p) (icw1 p)
    (icw4_needed p) (level_triggered p) (single_mode p) (mode_8086 p) (auto_eoi p)
    (special_fully_nested p) (icw3 p) (rotate_in_auto_eoi p) (special_mask_mode p) (poll_mode p)
    (read_irr p) (lowest_priority p).
Definition set_isr (v : Z) (p : Pic8259) : Pic8259 :=
  mk_pic (irq_lines p) (irr p) v (imr p) (vector_offset p) (init_state p) (icw1 p)
    (icw4_needed p) (level_triggered p) (single_mode p) (mode_8086 p) (auto_eoi p)
    (special_fully_nested p) (icw3 p) (rotate_in_auto_eoi p) (special_mask_mode p) (poll_mode p)
    (read_irr p) (lowest_priority p).
Definition set_imr (v : Z) (p : Pic8259) : Pic8259 :=
  mk_pic (irq_lines p) (irr p) (isr p) v (vector_offset p) (init_state p) (icw1 p)
    (icw4_needed p) (level_triggered p) (single_mode p) (mode_8086 p) (auto_eoi p)
    (special_fully_nested p) (icw3 p) (rotate_in_auto_eoi p) (special_mask_mode p) (poll_mode p)
    (read_irr p) (lowest_priority p).
Definition set_vector_offset (v : Z) (p : Pic8259) : Pic8259 :=
  mk_pic (irq_lines p) (irr p) (isr p) (imr p) v (init_state p) (icw1 p) (icw4_needed p)
    (level_triggered p) (single_mode p) (mode_8086 p) (auto_eoi p) (special_fully_nested p)
    (icw3 p) (rotate_in_auto_eoi p) (special_mask_mode p) (poll_mode p) (read_irr p)
    (lowest_priority p).
Definition set_init_state (v : InitState) (p : Pic8259) : Pic8259 :=
  mk_pic (irq_lines p) (irr p) (isr p) (imr p) (vector_offset p) v (icw1 p) (icw4_needed p)
    (level_triggered p) (single_mode p) (mode_8086 p) (auto_eoi p) (special_fully_nested p)
    (icw3 p) (rotate_in_auto_eoi p) (special_mask_mode p) (poll_mode p) (read_irr p)
    (lowest_priority p).
Definition set_icw1 (v : Z) (p : Pic8259) : Pic8259 :=
  mk_pic (irq_lines p) (irr p) (isr p) (imr p) (vector_offset p) (init_state p) v
    (icw4_needed p) (level_triggered p) (single_mode p) (mode_8086 p) (auto_eoi p)
    (special_fully_nested p) (icw3 p) (rotate_in_auto_eoi p) (special_mask_mode p) (poll_mode p)
    (read_irr p) (lowest_priority p).
Definition set_icw4_needed (v : bool) (p : Pic8259) : Pic8259 :=
  mk_pic (irq_lines p) (irr p) (isr p) (imr p) (vector_offset p) (init_state p) (icw1 p) v
    (level_triggered p) (single_mode p) (mode_8086 p) (auto_eoi p) (special_fully_nested p)
    (icw3 p) (rotate_in_auto_eoi p) (special_mask_mode p) (poll_mode p) (read_irr p)
    (lowest_priority p).
Definition set_level_triggered (v : bool) (p : Pic8259) : Pic8259 :=
  mk_pic (irq_lines p) (irr p) (isr p) (imr p) (vector_offset p) (init_state p) (icw1 p)
    (icw4_needed p) v (single_mode p) (mode_8086 p) (auto_eoi p) (special_fully_nested p)
    (icw3 p) (rotate_in_auto_eoi p) (special_mask_mode p) (poll_mode p) (read_irr p)
    (lowest_priority p).
Definition set_single_mode (v : bool) (p : Pic8259) : Pic8259 :=
  mk_pic (irq_lines p) (irr p) (isr p) (imr p) (vector_offset p) (init_state p) (icw1 p)
    (icw4_needed p) (level_triggered p) v (mode_8086 p) (auto_eoi p) (special_fully_nested p)
    (icw3 p) (rotate_in_auto_eoi p) (special_mask_mode p) (poll_mode p) (read_irr p)
    (lowest_priority p).
Definition set_mode_8086 (v : bool) (p : Pic8259) : Pic8259 :=
  mk_pic (irq_lines p) (irr p) (isr p) (imr p) (vector_offset p) (init_state p) (icw1 p)
    (icw4_needed p) (level_triggered p) (single_mode p) v (auto_eoi p) (special_fully_nested p)
    (icw3 p) (rotate_in_auto_eoi p) (special_mask_mode p) (poll_mode p) (read_irr p)
    (lowest_priority p).
Definition set_auto_eoi (v : bool) (p : Pic8259) : Pic8259 :=
  mk_pic (irq_lines p) (irr p) (isr p) (imr p) (vector_offset p) (init_state p) (icw1 p)
    (icw4_needed p) (level_triggered p) (single_mode p) (mode_8086 p) v (special_fully_nested p)
    (icw3 p) (rotate_in_auto_eoi p) (special_mask_mode p) (poll_mode p) (read_irr p)
    (lowest_priority p).
Definition set_special_fully_nested (v : bool) (p : Pic8259) : Pic8259 :=
  mk_pic (irq_lines p) (irr p) (isr p) (imr p) (vector_offset p) (init_state p) (icw1 p)
    (icw4_needed p) (level_triggered p) (single_mode p) (mode_8086 p) (auto_eoi p) v (icw3 p)
    (rotate_in_auto_eoi p) (special_mask_mode p) (poll_mode p) (read_irr p) (lowest_priority p).
Definition set_icw3 (v : Z) (p : Pic8259) : Pic8259 :=
  mk_pic (irq_lines p) (irr p) (isr p) (imr p) (vector_offset p) (init_state p) (icw1 p)
    (icw4_needed p) (level_triggered p) (single_mode p) (mode_8086 p) (auto_eoi p)
    (special_fully_nested p) v (rotate_in_auto_eoi p) (special_mask_mode p) (poll_mode p)
    (read_irr p) (lowest_priority p).
Definition set_rotate_in_auto_eoi (v : bool) (p : Pic8259) : Pic8259 :=
  mk_pic (irq_lines p) (irr p) (isr p) (imr p) (vector_offset p) (init_state p) (icw1 p)
    (icw4_needed p) (level_triggered p) (single_mode p) (mode_8086 p) (auto_eoi p)
    (special_fully_nested p) (icw3 p) v (special_mask_mode p) (poll_mode p) (read_irr p)
    (lowest_priority p).
Definition set_special_mask_mode (v : bool) (p : Pic8259) : Pic8259 :=
  mk_pic (irq_lines p) (irr p) (isr p) (imr p) (vector_offset p) (init_state p) (icw1 p)
    (icw4_needed p) (level_triggered p) (single_mode p) (mode_8086 p) (auto_eoi p)
    (special_fully_nested p) (icw3 p) (rotate_in_auto_eoi p) v (poll_mode p) (read_irr p)
    (lowest_priority p).
Definition set_poll_mode (v : bool) (p : Pic8259) : Pic8259 :=
  mk_pic (irq_lines p) (irr p) (isr p) (imr p) (vector_offset p) (init_state p) (icw1 p)
    (icw4_needed p) (level_triggered p) (single_mode p) (mode_8086 p) (auto_eoi p)
    (special_fully_nested p) (icw3 p) (rotate_in_auto_eoi p) (special_mask_mode p) v
    (read_irr p) (lowest_priority p).
Definition set_read_irr (v : bool) (p : Pic8259) : Pic8259 :=
  mk_pic (irq_lines p) (irr p) (isr p) (imr p) (vector_offset p) (init_state p) (icw1 p)
    (icw4_needed p) (level_triggered p) (single_mode p) (mode_8086 p) (auto_eoi p)
    (special_fully_nested p) (icw3 p) (rotate_in_auto_eoi p) (special_mask_mode p) (poll_mode p)
    v (lowest_priority p).
Definition set_lowest_priority (v : Z) (p : Pic8259) : Pic8259 :=
  mk_pic (irq_lines p) (irr p) (isr p) (imr p) (vector_offset p) (init_state p) (icw1 p)
    (icw4_needed p) (level_triggered p) (single_mode p) (mode_8086 p) (auto_eoi p)
    (special_fully_nested p) (icw3 p) (rotate_in_auto_eoi p) (special_mask_mode p) (poll_mode p)
    (read_irr p) v.

Definition SPURIOUS_IRQ : Z := 7.

Module Pic8259.
Implicit Types (p : Pic8259).

Definition new (vector_offset : Z) : Pic8259 :=
  mk_pic 0 0 0 0xff vector_offset Ready 0 false false false true false false 0 false false false
    true 7.

(** [1u8 << irq], and the test, setting and clearing of that bit. *)
Definition bit (irq : Z) : Z := wshl 8 1 irq.
Definition is_set (reg irq : Z) : bool := negb (Z.land reg (bit irq) =? 0).
Definition set_bit (reg irq : Z) : Z := Z.lor reg (bit irq).
Definition clear_bit (reg irq : Z) : Z := Z.land reg (wnot 8 (bit irq)).

Definition set_irq (irq : Z) (level : bool) p : Pic8259 :=
  if 7 <? irq then p
  else
    let was_high := is_set (irq_lines p) irq in
    let p := set_irq_lines (if level then set_bit (irq_lines p) irq
                            else clear_bit (irq_lines p) irq) p in
    if level_triggered p then
      set_irr (if level then set_bit (irr p) irq else clear_bit (irr p) irq) p
    else if level && negb was_high then set_irr (set_bit (irr p) irq) p
    else p.

(** 0 is the highest priority. *)
Definition priority_rank p (irq : Z) : Z :=
  Z.land (wsub 8 (wadd 8 irq 7) (lowest_priority p)) 7.

(** The lines in the order of the loops [for irq in 0u8..8]. *)
Definition lines : list Z := seqZ 0 8.

(** [match best { Some((_, br)) if br <= rank => {} _ => best = Some((irq, rank)) }]. *)
Definition better (best : option (Z * Z)) (irq rank : Z) : option (Z * Z) :=
  match best with
  | Some (_, br) => if br <=? rank then best else Some (irq, rank)
  | None => Some (irq, rank)
  end.

(** The in-service bits that count in special mask mode, and otherwise. *)
Definition blocking_isr p : Z :=
  if special_mask_mode p then Z.land (isr p) (wnot 8 (imr p)) else isr p.

Definition highest_pending p : option Z :=
  let pending := Z.land (irr p) (wnot 8 (imr p)) in
  if pending =? 0 then None
  else
    let step best irq :=
      if negb (is_set pending irq) then best
      else if is_set (isr p) irq then best
      else
        let rank := priority_rank p irq in
        if existsb (fun other => is_set (blocking_isr p) other && (priority_rank p other <=? rank))
             lines
        then best
        else better best irq rank in
    fst <$> fold_left step lines None.

Definition has_pending p : bool := match highest_pending p with Some _ => true | None => false end.

Definition ack_irq (irq : Z) p : Z * Pic8259 :=
  let p := set_irr (clear_bit (irr p) irq) p in
  let p := if auto_eoi p then if rotate_in_auto_eoi p then set_lowest_priority irq p else p
           else set_isr (set_bit (isr p) irq) p in
  (wadd 8 (vector_offset p) irq, p).

Definition clear_highest_isr p : option Z * Pic8259 :=
  let step best irq :=
    if is_set (blocking_isr p) irq then better best irq (priority_rank p irq) else best in
  match fold_left step lines None with
  | Some (irq, _) => (Some irq, set_isr (clear_bit (isr p) irq) p)
  | None => (None, p)
  end.

Definition non_specific_eoi p : option Z * Pic8259 := clear_highest_isr p.

Definition specific_eoi (irq : Z) p : Pic8259 := set_isr (clear_bit (isr p) (Z.land irq 7)) p.

(** ICW1: begin the initialization sequence. *)
Definition write_icw1 (value : Z) p : Pic8259 :=
  mk_pic 0 0 0 0 (vector_offset p) WaitingICW2 value (any_bits value 0x01) (any_bits value 0x08)
    (any_bits value 0x02) (mode_8086 p) false false (icw3 p) false false false true 7.

(** OCW3: poll, read-register select and special mask mode. *)
Definition write_ocw3 (value : Z) p : Pic8259 :=
  let p := if any_bits value 0x04 then set_poll_mode true p else p in
  let p := if any_bits value 0x02 then set_read_irr (Z.land value 0x01 =? 0) p else p in
  if any_bits value 0x40 then set_special_mask_mode (any_bits value 0x20) p else p.

(** OCW2: ends of interrupt and rotation. *)
Definition write_ocw2 (value : Z) p : Pic8259 :=
  let cmd := Z.land (wshr 8 value 5) 0x07 in
  let irq := Z.land value 0x07 in
  match cmd with
  | 1 => snd (non_specific_eoi p)
  | 3 => specific_eoi irq p
  | 5 => match non_specific_eoi p with
         | (Some cleared, p) => set_lowest_priority cleared p
         | (None, p) => p
         end
  | 7 => set_lowest_priority irq (specific_eoi irq p)
  | 6 => set_lowest_priority irq p
  | 4 => set_rotate_in_auto_eoi true p
  | 0 => set_rotate_in_auto_eoi false p
  | _ => p
  end.

Definition write_command (value : Z) p : Pic8259 :=
  if any_bits value 0x10 then write_icw1 value p
  else if any_bits value 0x08 then write_ocw3 value p
  else write_ocw2 value p.

Definition write_data (value : Z) p : Pic8259 :=
  match init_state p with
  | WaitingICW2 =>
      let p := set_vector_offset (Z.land value 0xf8) p in
      if single_mode p then set_init_state (if icw4_needed p then WaitingICW4 else Ready) p
      else set_init_state WaitingICW3 p
  | WaitingICW3 =>
      set_init_state (if icw4_needed p then WaitingICW4 else Ready) (set_icw3 value p)
  | WaitingICW4 =>
      set_init_state Ready
        (set_special_fully_nested (any_bits value 0x10)
          (set_auto_eoi (any_bits value 0x02) (set_mode_8086 (any_bits value 0x01) p)))
  | Ready => set_imr value p
  end.

Definition read_command p : Z * Pic8259 :=
  if poll_mode p then
    let p := set_poll_mode false p in
    match highest_pending p with
    | Some irq => (Z.lor 0x80 (Z.land irq 0x07), snd (ack_irq irq p))
    | None => (0x00, p)
    end
  else if read_irr p then (irr p, p)
  else (isr p, p).

Definition read_data p : Z := imr p.
End Pic8259.

(** ** The cascaded pair *)

Record DualPic : Type := mk_dual { master : Pic8259; slave : Pic8259 }.

Module DualPic.
Implicit Types (d : DualPic).

Definition new : DualPic := mk_dual (Pic8259.new 0x20) (Pic8259.new 0x28).

Definition on_master (f : Pic8259 -> Pic8259) d : DualPic := mk_dual (f (master d)) (slave d).
Definition on_slave (f : Pic8259 -> Pic8259) d : DualPic := mk_dual (master d) (f (slave d)).

(** The slave's output is the master's line 2. *)
Definition refresh_cascade d : DualPic :=
  let slave_pending := Pic8259.has_pending (slave d) in
  let d := on_master (Pic8259.set_irq 2 slave_pending) d in
  if negb slave_pending && negb (level_triggered (master d)) then
    if Z.land (isr (master d)) (Z.shiftl 1 2) =? 0
    then on_master (set_irr (Z.land (irr (master d)) (wnot 8 (Z.shiftl 1 2)))) d
    else d
  else d.

Definition set_irq (irq : Z) (level : bool) d : DualPic :=
  if irq <? 8 then on_master (Pic8259.set_irq irq level) d
  else if irq <? 16 then refresh_cascade (on_slave (Pic8259.set_irq (irq - 8) level) d)
  else d.

Definition pulse_irq (irq : Z) d : DualPic := set_irq irq false (set_irq irq true d).

Definition spurious (p : Pic8259) : Z := wadd 8 (vector_offset p) SPURIOUS_IRQ.

Definition get_pending_vector d : option Z * DualPic :=
  match Pic8259.highest_pending (master d) with
  | None => (None, d)
  | Some master_irq =>
      if (master_irq =? 2) && negb (single_mode (master d)) then
        match Pic8259.highest_pending (slave d) with
        | Some slave_irq =>
            let '(vector, sl) := Pic8259.ack_irq slave_irq (slave d) in
            (Some vector, mk_dual (snd (Pic8259.ack_irq 2 (master d))) sl)
        | None => (Some (spurious (slave d)), on_master (fun p => snd (Pic8259.ack_irq 2 p)) d)
        end
      else
        let '(vector, ma) := Pic8259.ack_irq master_irq (master d) in
        (Some vector, mk_dual ma (slave d))
  end.

Definition acknowledge (irq : Z) d : Z * DualPic :=
  if (irq =? 2) && negb (single_mode (master d)) then
    let d := on_master (fun p => snd (Pic8259.ack_irq 2 p)) d in
    match Pic8259.highest_pending (slave d) with
    | Some slave_irq =>
        let '(vector, sl) := Pic8259.ack_irq slave_irq (slave d) in
        (vector, mk_dual (master d) sl)
    | None => (spurious (slave d), d)
    end
  else if negb (Pic8259.is_set (irr (master d)) (Z.land irq 7)) then (spurious (master d), d)
  else
    let '(vector, ma) := Pic8259.ack_irq irq (master d) in (vector, mk_dual ma (slave d)).

Definition has_pending d : bool := Pic8259.has_pending (master d).

Definition has_active_irq d : bool :=
  negb (Z.lor (Z.land (irr (master d)) (wnot 8 (imr (master d)))) (isr (master d)) =? 0).
End DualPic.

(** ** The I/O ports *)

(** The devices [MasterPicDevice] and [SlavePicDevice] share one pair. *)
Inductive PicPort : Type := MasterPicDevice | SlavePicDevice.

Definition pic_read (h : PicPort) (port : Z) (d : DualPic) : Z * DualPic :=
  match h with
  | MasterPicDevice =>
      match port with
      | 0x20 => let '(v, ma) := Pic8259.read_command (master d) in (v, mk_dual ma (slave d))
      | 0x21 => (Pic8259.read_data (master d), d)
      | _ => (0xff, d)
      end
  | SlavePicDevice =>
      match port with
      | 0xa0 => let '(v, sl) := Pic8259.read_command (slave d) in (v, mk_dual (master d) sl)
      | 0xa1 => (Pic8259.read_data (slave d), d)
      | _ => (0xff, d)
      end
  end.

Definition pic_write (h : PicPort) (port value : Z) (d : DualPic) : DualPic :=
  match h with
  | MasterPicDevice =>
      match port with
      | 0x20 => DualPic.on_master (Pic8259.write_command value) d
      | 0x21 => DualPic.on_master (Pic8259.write_data value) d
      | _ => d
      end
  | SlavePicDevice =>
      match port with
      | 0xa0 => DualPic.refresh_cascade (DualPic.on_slave (Pic8259.write_command value) d)
      | 0xa1 => DualPic.refresh_cascade (DualPic.on_slave (Pic8259.write_data value) d)
      | _ => d
      end
  end.

#[export] Instance pic_device : IoDevice PicPort DualPic := {
  io_read := pic_read;
  io_write := pic_write
}.
