(* ===== verification/DevBusSpec.v ===== *)
(** * What the buses guarantee

    Registration keeps the ranges apart, so that every address has one owner and
    the order of registration does not matter. *)

From Stdlib Require Import Sorting.Permutation.
From stdpp Require Import list.
From S2P Require Import Prelude DevBus.

(** ** Ranges *)

Lemma contains_overlaps w r r' a :
  contains w r a = true -> contains w r' a = true -> overlaps w r r' = true.
Proof.
  unfold contains, overlaps. rewrite !andb_true_iff, !Z.leb_le, !Z.ltb_lt. lia.
Qed.

Lemma overlaps_sym w r r' : overlaps w r r' = overlaps w r' r.
Proof. unfold overlaps. apply andb_comm. Qed.

(** The end of a range saturates, so no range holds the last address. *)
Lemma last_uncontained w r : contains w r (2 ^ w - 1) = false.
Proof.
  unfold contains, range_end, sat_add. apply andb_false_iff. right. apply Z.ltb_ge. lia.
Qed.

(** ** Device lists *)

Section Devices.
Context {H : Type} (w : Z).
Implicit Types (l : list (Range * H)).

(** No two ranges of the list overlap. *)
Definition apart l : Prop := ForallOrdPairs (fun d d' => overlaps w (fst d) (fst d') = false) l.

Lemma apart_snoc l r h :
  apart l -> existsb (fun d => overlaps w (fst d) r) l = false -> apart (l ++ [(r, h)]).
Proof.
  unfold apart. induction 1 as [|d l Hd Hl IH]; cbn; [repeat constructor|].
  intros [Hr Hs]%orb_false_iff. constructor; [|by apply IH].
  apply Forall_app. split; [done | by constructor].
Qed.

(** The claimant of an address is the device whose range contains it. *)
Lemma claimant_iff l a h :
  apart l -> claimant w l a = Some h <-> exists r, (r, h) ∈ l /\ contains w r a = true.
Proof.
  unfold claimant. induction 1 as [|[r g] l Hd Hl IH]; cbn [find].
  { split; [done|]. intros (r & Hin & _). by apply not_elem_of_nil in Hin. }
  cbn [fst]. destruct (contains w r a) eqn:Hc.
  - split.
    + intros [= <-]. exists r. split; [by left | done].
    + intros (r' & Hin & Hc'). apply elem_of_cons in Hin as [[= <- <-] | Hin]; [done|].
      rewrite Forall_forall in Hd. specialize (Hd _ Hin).
      cbn [fst] in Hd. by rewrite (contains_overlaps w r r' a Hc Hc') in Hd.
  - rewrite IH. split; intros (r' & Hin & Hc'); exists r'; (split; [|done]); [by right|].
    apply elem_of_cons in Hin as [[= <- <-] | Hin]; [congruence | done].
Qed.

Lemma claimant_perm l l' a : apart l -> apart l' -> Permutation l l' -> claimant w l a = claimant w l' a.
Proof.
  intros Hl Hl' Hp. apply option_eq. intros h. rewrite !claimant_iff by done.
  by setoid_rewrite Hp.
Qed.
End Devices.

(** ** Buses *)

(** The buses that the operations build. *)
Inductive io_built {H} : IoBus H -> Prop :=
  | io_built_new : io_built IoBus.new
  | io_built_pci bus : io_built bus -> io_built (IoBus.set_pci bus)
  | io_built_register bus range dev bus' :
      io_built bus -> IoBus.register bus range dev = inr bus' -> io_built bus'.

Inductive mmio_built {H} : MmioBus H -> Prop :=
  | mmio_built_new : mmio_built MmioBus.new
  | mmio_built_register bus range dev bus' :
      mmio_built bus -> MmioBus.register bus range dev = inr bus' -> mmio_built bus'.

Lemma io_built_apart {H} (bus : IoBus H) : io_built bus -> apart 16 (io_devices bus).
Proof.
  induction 1 as [|bus _ IH|bus r h bus' _ IH Hr]; [constructor | done |].
  unfold IoBus.register in Hr. destruct (existsb _ _) eqn:E; [done|]. injection Hr as <-.
  by apply apart_snoc.
Qed.

Lemma mmio_built_apart {H} (bus : MmioBus H) : mmio_built bus -> apart 64 (mmio_devices bus).
Proof.
  induction 1 as [|bus r h bus' _ IH Hr]; [constructor|].
  unfold MmioBus.register in Hr. destruct (existsb _ _) eqn:E; [done|]. injection Hr as <-.
  by apply apart_snoc.
Qed.

Section IoOrder.
Context {H St : Type} `{IoDevice H St} `{PciBridge St}.
Variables (bus bus' : IoBus H).
Hypothesis Hclaim : forall a, claimant 16 (io_devices bus) a = claimant 16 (io_devices bus') a.
Hypothesis Hpci : io_pci bus = io_pci bus'.

Lemma io_read_from_ext port i n (s : St) :
  IoBus.read_from bus port i n s = IoBus.read_from bus' port i n s.
Proof.
  revert i s. induction n as [|n IH]; intros i s; [done|]. cbn [IoBus.read_from].
  assert (Hb : forall a, IoBus.read_byte bus a s = IoBus.read_byte bus' a s)
    by (intros; unfold IoBus.read_byte; by rewrite Hclaim, Hpci).
  rewrite Hb. destruct (IoBus.read_byte bus' _ s) as [b s1]. by rewrite IH.
Qed.

Lemma io_write_from_ext port i data (s : St) :
  IoBus.write_from bus port i data s = IoBus.write_from bus' port i data s.
Proof.
  revert i s. induction data as [|b data IH]; intros i s; [done|]. cbn [IoBus.write_from].
  rewrite IH. unfold IoBus.write_byte. by rewrite Hclaim, Hpci.
Qed.
End IoOrder.

Section MmioOrder.
Context {H St : Type} `{MmioDevice H St}.
Variables (bus bus' : MmioBus H).
Hypothesis Hclaim : forall a, claimant 64 (mmio_devices bus) a = claimant 64 (mmio_devices bus') a.

Lemma mmio_read_from_ext addr i n (s : St) :
  MmioBus.read_from bus addr i n s = MmioBus.read_from bus' addr i n s.
Proof.
  revert i s. induction n as [|n IH]; intros i s; [done|]. cbn [MmioBus.read_from].
  assert (Hb : forall a, MmioBus.read_byte bus a s = MmioBus.read_byte bus' a s)
    by (intros; unfold MmioBus.read_byte; by rewrite Hclaim).
  rewrite Hb. destruct (MmioBus.read_byte bus' _ s) as [b s1]. by rewrite IH.
Qed.

Lemma mmio_write_from_ext addr i data (s : St) :
  MmioBus.write_from bus addr i data s = MmioBus.write_from bus' addr i data s.
Proof.
  revert i s. induction data as [|b data IH]; intros i s; [done|]. cbn [MmioBus.write_from].
  rewrite IH. unfold MmioBus.write_byte. by rewrite Hclaim.
Qed.
End MmioOrder.

(** C35. The I/O bus routes by address alone.  On a bus built by registration a port
    reaches the device whose range contains it, of which there is at most one; the
    last port belongs to no range, because the end of a range saturates; and two
    buses with the same devices, registered in any order, read and write alike. *)
Theorem io_bus_routing {H St} `{IoDevice H St} `{PciBridge St} (bus bus' : IoBus H) :
  io_built bus -> io_built bus' ->
  Permutation (io_devices bus) (io_devices bus') -> io_pci bus = io_pci bus' ->
  (forall port h, claimant 16 (io_devices bus) port = Some h <->
     exists r, (r, h) ∈ io_devices bus /\ io_contains r port = true)
  /\ claimant 16 (io_devices bus) 0xffff = None
  /\ (forall port n (s : St), IoBus.read bus port n s = IoBus.read bus' port n s)
  /\ (forall port data (s : St), IoBus.write bus port data s = IoBus.write bus' port data s).
Proof.
  intros Hb%io_built_apart Hb'%io_built_apart Hp Hpci.
  assert (Hc : forall a, claimant 16 (io_devices bus) a = claimant 16 (io_devices bus') a)
    by (intros; by apply claimant_perm).
  split_and!.
  - intros port h. by apply claimant_iff.
  - destruct (claimant _ _ _) eqn:E; [|done]. apply claimant_iff in E as (r & _ & Hr); [|done].
    by rewrite (last_uncontained 16 r : contains 16 r 0xffff = false) in Hr.
  - intros. by apply io_read_from_ext.
  - intros. by apply io_write_from_ext.
Qed.

(** The same of the MMIO bus. *)
Theorem mmio_bus_routing {H St} `{MmioDevice H St} (bus bus' : MmioBus H) :
  mmio_built bus -> mmio_built bus' -> Permutation (mmio_devices bus) (mmio_devices bus') ->
  (forall addr h, claimant 64 (mmio_devices bus) addr = Some h <->
     exists r, (r, h) ∈ mmio_devices bus /\ mmio_contains r addr = true)
  /\ (forall addr n (s : St), MmioBus.read bus addr n s = MmioBus.read bus' addr n s)
  /\ (forall addr data (s : St), MmioBus.write bus addr data s = MmioBus.write bus' addr data s).
Proof.
  intros Hb%mmio_built_apart Hb'%mmio_built_apart Hp.
  assert (Hc : forall a, claimant 64 (mmio_devices bus) a = claimant 64 (mmio_devices bus') a)
    by (intros; by apply claimant_perm).
  split_and!.
  - intros addr h. by apply claimant_iff.
  - intros. by apply mmio_read_from_ext.
  - intros. by apply mmio_write_from_ext.
Qed.

(** ** Witness

    Two one-byte latches registered in either order. *)

#[local] Instance latches : IoDevice nat (list Z) := {
  io_read h _ s := (nth h s 0, s);
  io_write h _ v s := <[h := v]> s
}.
#[local] Instance no_bridge : PciBridge (list Z) := {
  pci_io_read _ s := (None, s);
  pci_io_write _ _ s := s
}.
Definition latch_bus (swap : bool) : IoBus nat :=
  let a := (mk_range 0x60 1, 0%nat) in
  let b := (mk_range 0x64 1, 1%nat) in
  mk_io_bus (if swap then [b; a] else [a; b]) false.

Lemma latch_bus_built swap : io_built (latch_bus swap).
Proof.
  destruct swap.
  - apply (io_built_register (mk_io_bus [(mk_range 0x64 1, 1%nat)] false) (mk_range 0x60 1) 0%nat);
      [|reflexivity].
    by apply (io_built_register IoBus.new (mk_range 0x64 1) 1%nat); [constructor|].
  - apply (io_built_register (mk_io_bus [(mk_range 0x60 1, 0%nat)] false) (mk_range 0x64 1) 1%nat);
      [|reflexivity].
    by apply (io_built_register IoBus.new (mk_range 0x60 1) 0%nat); [constructor|].
Qed.

Lemma io_bus_routing_witness :
  IoBus.write (latch_bus true) 0x60 [1; 2; 3; 4; 5] [0; 0]
    = IoBus.write (latch_bus false) 0x60 [1; 2; 3; 4; 5] [0; 0]
  /\ IoBus.write (latch_bus false) 0x60 [1; 2; 3; 4; 5] [0; 0] = [1; 5].
Proof.
  split; [|vm_compute; reflexivity].
  apply (io_bus_routing (latch_bus true) (latch_bus false));
    [apply latch_bus_built | apply latch_bus_built | apply perm_swap | reflexivity].
Defined.
