(* ===== verification/DevPicSpec.v ===== *)
(** * What an interrupt controller guarantees

    Priority resolution, nesting of interrupts, and what the pair delivers. *)

From stdpp Require Import list.
From S2P Require Import Prelude DevBus DevPic.

Import Pic8259.
Implicit Types (p q : Pic8259) (d : DualPic).

(** ** Registers as sets of lines *)

(** Bounds of bytes. *)
Ltac byte := unfold fits; change (2 ^ 8) with 256; lia.

Lemma bit_pow i : 0 <= i < 8 -> bit i = 2 ^ i.
Proof.
  intros Hi. unfold bit, wshl. rewrite Z.mod_small, Z.shiftl_1_l by lia. apply as_u_small.
  split; [lia|]. apply Z.pow_lt_mono_r; lia.
Qed.

Lemma is_set_testbit r i : 0 <= i < 8 -> is_set r i = Z.testbit r i.
Proof.
  intros Hi. unfold is_set. rewrite bit_pow by done. destruct (Z.testbit r i) eqn:E.
  - apply negb_true_iff, Z.eqb_neq. intros H0.
    assert (Ht : Z.testbit (Z.land r (2 ^ i)) i = false) by (rewrite H0; apply Z.testbit_0_l).
    rewrite Z.land_spec, E, Z.pow2_bits_true in Ht by lia. done.
  - apply negb_false_iff, Z.eqb_eq, Z.bits_inj'. intros j Hj. rewrite Z.land_spec, Z.testbit_0_l.
    destruct (Z.eq_dec j i) as [->|]; [by rewrite E|]. rewrite Z.pow2_bits_false by lia.
    apply andb_false_r.
Qed.

Lemma set_bit_testbit r i j : 0 <= i < 8 -> 0 <= j -> Z.testbit (set_bit r i) j = (j =? i) || Z.testbit r j.
Proof.
  intros Hi Hj. unfold set_bit. rewrite Z.lor_spec, bit_pow by done.
  destruct (Z.eqb_spec j i) as [->|]; [by rewrite Z.pow2_bits_true, orb_true_r by lia|].
  by rewrite Z.pow2_bits_false, orb_false_r by lia.
Qed.

Lemma byte_not_testbit v j : 0 <= j < 8 -> Z.testbit (wnot 8 v) j = negb (Z.testbit v j).
Proof.
  intros Hj. unfold wnot, as_u. rewrite Z.mod_pow2_bits_low by lia. apply Z.lnot_spec. lia.
Qed.

Lemma clear_bit_testbit r i j :
  0 <= i < 8 -> 0 <= j < 8 -> Z.testbit (clear_bit r i) j = negb (j =? i) && Z.testbit r j.
Proof.
  intros Hi Hj. unfold clear_bit. rewrite Z.land_spec, byte_not_testbit, bit_pow by done.
  destruct (Z.eqb_spec j i) as [->|]; [by rewrite Z.pow2_bits_true, andb_false_r by lia|].
  by rewrite Z.pow2_bits_false, andb_true_r by lia.
Qed.

Lemma byte_ext a b :
  fits 8 a -> fits 8 b -> (forall j, 0 <= j < 8 -> Z.testbit a j = Z.testbit b j) -> a = b.
Proof.
  intros Ha Hb He. apply Z.bits_inj'. intros j Hj.
  destruct (Z.lt_ge_cases j 8); [by apply He|].
  by rewrite (fits_testbit 8 a), (fits_testbit 8 b) by (done || lia).
Qed.

Lemma fits_bit i : fits 8 (bit i).
Proof. apply fits_wshl. lia. Qed.
Lemma fits_set_bit r i : fits 8 r -> fits 8 (set_bit r i).
Proof. intros. apply fits_lor; [done | apply fits_bit]. Qed.
Lemma fits_clear_bit r i : fits 8 r -> fits 8 (clear_bit r i).
Proof. intros. by apply fits_land_l. Qed.
Create HintDb pic.
#[export] Hint Resolve fits_bit fits_set_bit fits_clear_bit : pic.

(** ** Priorities *)

(** The registers of a controller are bytes and the lowest priority is a line. *)
Record pic_ok p : Prop := {
  ok_lines : fits 8 (irq_lines p);
  ok_irr : fits 8 (irr p);
  ok_isr : fits 8 (isr p);
  ok_imr : fits 8 (imr p);
  ok_offset : fits 8 (vector_offset p);
  ok_aligned : vector_offset p mod 8 = 0;
  ok_icw1 : fits 8 (icw1 p);
  ok_icw3 : fits 8 (icw3 p);
  ok_lowest : 0 <= lowest_priority p < 8
}.

(** The distance of a line from the one with the highest priority. *)
Definition rank p (irq : Z) : Z := (irq - (lowest_priority p + 1)) mod 8.

Lemma priority_rank_rank p irq : pic_ok p -> 0 <= irq < 8 -> priority_rank p irq = rank p irq.
Proof.
  intros Hp Hi. pose proof (ok_lowest _ Hp). unfold priority_rank, rank, wsub, wadd.
  rewrite (as_u_small 8 (irq + 7)) by byte. rewrite as_u_small by byte. change 7 with (Z.ones 3) at 2. rewrite Z.land_ones by lia.
  change (2 ^ 3) with 8.
  replace (irq + 7 - lowest_priority p) with (irq - (lowest_priority p + 1) + 1 * 8) by lia.
  apply Z_mod_plus_full.
Qed.

Lemma rank_inj p i j : 0 <= i < 8 -> 0 <= j < 8 -> rank p i = rank p j -> i = j.
Proof.
  intros Hi Hj He. unfold rank in He. set (l := lowest_priority p + 1) in *.
  assert (Hd : (i - j) mod 8 = 0).
  { replace (i - j) with ((i - l) - (j - l)) by lia. rewrite Zminus_mod, He, Z.sub_diag. done. }
  apply Z.mod_divide in Hd as [k Hk]; lia.
Qed.

Lemma elem_of_lines i : i ∈ lines <-> 0 <= i < 8.
Proof. unfold lines. rewrite elem_of_seqZ. lia. Qed.

Lemma fold_left_ext {A B} (f g : A -> B -> A) l a :
  (forall a b, b ∈ l -> f a b = g a b) -> fold_left f l a = fold_left g l a.
Proof.
  revert a. induction l as [|b l IH]; intros a Hfg; [done|]. cbn.
  rewrite Hfg by (by left). apply IH. intros. apply Hfg. by right.
Qed.

(** The loops that look for the best line. *)
Lemma fold_best (ok : Z -> bool) (rk : Z -> Z) l :
  match fold_left (fun best irq => if ok irq then better best irq (rk irq) else best) l None with
  | Some (i, r) => i ∈ l /\ ok i = true /\ r = rk i /\ forall j, j ∈ l -> ok j = true -> r <= rk j
  | None => forall j, j ∈ l -> ok j = false
  end.
Proof.
  induction l as [|x l IH] using rev_ind; [intros j Hj; by apply not_elem_of_nil in Hj|].
  rewrite fold_left_app. cbn [fold_left]. destruct (fold_left _ l None) as [[i r]|].
  - destruct IH as (Hi & Hok & -> & Hmin). destruct (ok x) eqn:Ex.
    + unfold better. destruct (Z.leb_spec (rk i) (rk x)).
      * split_and!; [set_solver | done | done |]. intros j [Hj|Hj]%elem_of_app Hoj; [by apply Hmin|].
        by apply list_elem_of_singleton in Hj as ->.
      * split_and!; [set_solver | done | done |]. intros j [Hj|Hj]%elem_of_app Hoj.
        -- specialize (Hmin j Hj Hoj). lia.
        -- by apply list_elem_of_singleton in Hj as ->.
    + split_and!; [set_solver | done | done |]. intros j [Hj|Hj]%elem_of_app Hoj; [by apply Hmin|].
      apply list_elem_of_singleton in Hj as ->. congruence.
  - destruct (ok x) eqn:Ex.
    + split_and!; [set_solver | done | done |]. intros j [Hj|Hj]%elem_of_app Hoj.
      * by rewrite IH in Hoj.
      * by apply list_elem_of_singleton in Hj as ->.
    + intros j [Hj|Hj]%elem_of_app; [by apply IH|]. by apply list_elem_of_singleton in Hj as ->.
Qed.

(** Line [j] requests service: it is asserted, unmasked and not in service. *)
Definition requests p (j : Z) : Prop :=
  0 <= j < 8 /\ Z.testbit (irr p) j = true /\ Z.testbit (imr p) j = false
  /\ Z.testbit (isr p) j = false.

(** Level [j] is in service and holds back lower priorities: in special mask mode
    only while it is unmasked. *)
Definition holds_back p (j : Z) : Prop :=
  0 <= j < 8 /\ Z.testbit (isr p) j = true
  /\ (special_mask_mode p = true -> Z.testbit (imr p) j = false).

Lemma blocking_isr_spec p j :
  0 <= j < 8 -> is_set (blocking_isr p) j = true <-> holds_back p j.
Proof.
  intros Hj. rewrite is_set_testbit by done. unfold blocking_isr, holds_back.
  destruct (special_mask_mode p).
  - rewrite Z.land_spec, byte_not_testbit, andb_true_iff, negb_true_iff by done. intuition.
  - intuition discriminate.
Qed.

(** The lines a controller may deliver. *)
Definition eligible p (irq : Z) : bool :=
  is_set (Z.land (irr p) (wnot 8 (imr p))) irq && negb (is_set (isr p) irq)
  && negb (existsb (fun other =>
       is_set (blocking_isr p) other && (priority_rank p other <=? priority_rank p irq)) lines).

Lemma highest_pending_fold p :
  highest_pending p
  = fst <$> fold_left (fun best irq =>
      if eligible p irq then better best irq (priority_rank p irq) else best) lines None.
Proof.
  unfold highest_pending. destruct (Z.eqb_spec (Z.land (irr p) (wnot 8 (imr p))) 0) as [E|E].
  - pose proof (fold_best (eligible p) (priority_rank p) lines) as Hf.
    destruct (fold_left _ lines None) as [[i r]|]; [|done].
    destruct Hf as (_ & He & _). unfold eligible in He. by rewrite E in He.
  - f_equal. apply fold_left_ext. intros best irq _. unfold eligible.
    by destruct (is_set _ _), (is_set (isr p) irq), (existsb _ lines).
Qed.

Lemma eligible_spec p irq :
  pic_ok p -> 0 <= irq < 8 ->
  eligible p irq = true <->
    requests p irq /\ forall j, holds_back p j -> rank p irq < rank p j.
Proof.
  intros Hp Hi. unfold eligible, requests.
  rewrite !andb_true_iff, !negb_true_iff, !is_set_testbit, Z.land_spec, byte_not_testbit,
    andb_true_iff, negb_true_iff, priority_rank_rank by done.
  assert (Hb : existsb (fun other => is_set (blocking_isr p) other
                 && (priority_rank p other <=? rank p irq)) lines = false
               <-> forall j, holds_back p j -> rank p irq < rank p j).
  { rewrite <- not_true_iff_false, existsb_exists. split.
    - intros Hn j Hj. pose proof Hj as [Hr _]. destruct (Z.lt_ge_cases (rank p irq) (rank p j)); [done|].
      exfalso. apply Hn. exists j. rewrite <- list_elem_of_In, elem_of_lines. split; [done|].
      apply andb_true_iff. split; [by apply blocking_isr_spec|].
      rewrite priority_rank_rank by done. by apply Z.leb_le.
    - intros Hj (k & Hk & [Hs Hl]%andb_true_iff). rewrite <- list_elem_of_In, elem_of_lines in Hk.
      apply blocking_isr_spec in Hs; [|done]. rewrite priority_rank_rank, Z.leb_le in Hl by done.
      specialize (Hj k Hs). lia. }
  rewrite Hb. intuition.
Qed.

(** The line a controller in fully nested mode serves next: the requesting line with
    the highest priority, if it outranks every level that is in service. *)
Definition nested_selects p (irq : Z) : Prop :=
  requests p irq
  /\ (forall j, requests p j -> rank p irq <= rank p j)
  /\ (forall j, holds_back p j -> rank p irq < rank p j).

Lemma highest_pending_selects p irq : pic_ok p -> highest_pending p = Some irq <-> nested_selects p irq.
Proof.
  intros Hp. rewrite highest_pending_fold.
  pose proof (fold_best (eligible p) (priority_rank p) lines) as Hf.
  destruct (fold_left _ lines None) as [[i r]|]; cbn.
  - destruct Hf as (Hi%elem_of_lines & He & -> & Hmin). rewrite priority_rank_rank in Hmin by done.
    pose proof (proj1 (eligible_spec p i Hp Hi) He) as [Hr Hh].
    assert (Hs : nested_selects p i).
    { split_and!; [done | | done]. intros j Hj. pose proof Hj as [Hjr _].
      destruct (eligible p j) eqn:Ej.
      - specialize (Hmin j (proj2 (elem_of_lines j) Hjr) Ej). by rewrite priority_rank_rank in Hmin.
      - destruct (Z.le_gt_cases (rank p i) (rank p j)) as [|Hlt]; [done|]. exfalso.
        apply not_true_iff_false in Ej. apply Ej, eligible_spec; [done | done |]. split; [done|].
        intros k Hk. specialize (Hh k Hk). lia. }
    split; [by intros [= <-]|]. intros (Hr' & Hmin' & _). f_equal.
    apply (rank_inj p); [done | by apply Hr' |].
    apply Z.le_antisymm; [by apply Hs | by apply Hmin'].
  - split; [done|]. intros (Hr & _ & Hh). pose proof Hr as [Hi _].
    rewrite <- elem_of_lines in Hi. specialize (Hf irq Hi). rewrite elem_of_lines in Hi.
    assert (eligible p irq = true) by (by apply eligible_spec). congruence.
Qed.

(** The line the 8259A serves next, in either nesting mode.  In special fully nested
    mode a level in service does not hold back further requests on its own line when
    that line carries a slave ([cascaded]), so that interrupts of the slave nest. *)
Definition reenters (cascaded : Z -> bool) p (j : Z) : Prop :=
  special_fully_nested p = true /\ cascaded j = true.
Definition may_request (cascaded : Z -> bool) p (j : Z) : Prop :=
  0 <= j < 8 /\ Z.testbit (irr p) j = true /\ Z.testbit (imr p) j = false
  /\ (Z.testbit (isr p) j = true -> reenters cascaded p j).
Definition selects (cascaded : Z -> bool) p (irq : Z) : Prop :=
  may_request cascaded p irq
  /\ (forall j, may_request cascaded p j -> rank p irq <= rank p j)
  /\ (forall j, holds_back p j -> rank p irq < rank p j \/ (j = irq /\ reenters cascaded p irq)).

(** The master carries a slave on line 2 unless it is programmed to be alone; the
    slave carries none. *)
Definition master_cascade p (j : Z) : bool := (j =? 2) && negb (single_mode p).
Definition slave_cascade (j : Z) : bool := false.

Lemma selects_nested cascaded p irq :
  (forall j, ~ reenters cascaded p j) -> selects cascaded p irq <-> nested_selects p irq.
Proof.
  intros Hno.
  assert (Hr : forall j, may_request cascaded p j <-> requests p j).
  { intros j. unfold may_request, requests. destruct (Z.testbit (isr p) j).
    - split; [|by intros (_ & _ & _ & ?)]. intros (_ & _ & _ & Hc). by destruct (Hno j (Hc eq_refl)).
    - split; intros (H1 & H2 & H3 & _); by repeat (split; [done|]). }
  unfold selects, nested_selects. rewrite Hr. setoid_rewrite Hr.
  split; intros (Hi & Hm & Hh); do 2 (split; [done|]); intros j Hj.
  - destruct (Hh j Hj) as [|[_ Hc]]; [done|]. by destruct (Hno irq).
  - left. by apply Hh.
Qed.

Lemma fully_nested_selects cascaded p irq :
  special_fully_nested p = false -> selects cascaded p irq <-> nested_selects p irq.
Proof. intros Hs. apply selects_nested. intros j [Ht _]. congruence. Qed.

Lemma slave_selects p irq : selects slave_cascade p irq <-> nested_selects p irq.
Proof. by apply selects_nested; intros j [_ ?]. Qed.

(** ** Nesting *)

Lemma clear_highest_spec q irq :
  pic_ok q -> holds_back q irq -> (forall j, holds_back q j -> rank q irq <= rank q j) ->
  clear_highest_isr q = (Some irq, set_isr (clear_bit (isr q) irq) q).
Proof.
  intros Hq Hi Hmin. pose proof Hi as [Hr _]. unfold clear_highest_isr.
  pose proof (fold_best (is_set (blocking_isr q)) (priority_rank q) lines) as Hf.
  destruct (fold_left _ lines None) as [[i r]|].
  - destruct Hf as (Hir%elem_of_lines & Hb & -> & Hm). assert (i = irq) as ->; [|done].
    apply (rank_inj q); [done | done |]. apply Z.le_antisymm.
    + rewrite <- !priority_rank_rank by done.
      apply Hm; [by apply elem_of_lines | by apply blocking_isr_spec].
    + apply Hmin. by apply blocking_isr_spec in Hb.
  - specialize (Hf irq (proj2 (elem_of_lines irq) Hr)).
    by rewrite (proj2 (blocking_isr_spec q irq Hr)) in Hf.
Qed.

Lemma clear_set_bit r i : fits 8 r -> 0 <= i < 8 -> Z.testbit r i = false -> clear_bit (set_bit r i) i = r.
Proof.
  intros Hr Hi Hb. apply byte_ext; [eauto with pic | done |]. intros j Hj.
  rewrite clear_bit_testbit, set_bit_testbit by lia.
  destruct (Z.eqb_spec j i) as [->|]; [by rewrite Hb | done].
Qed.

(** C21. Interrupts nest in fully nested mode.  Let a controller without automatic end
    of interrupt and not in special fully nested mode acknowledge the line it delivers.
    While that line is the last one acknowledged and not ended, and while the masks, the
    special mask mode and the rotation stay as they were (requests may come and go), the
    controller delivers only lines that strictly outrank it; and the next non-specific
    end of interrupt ends exactly this line, leaving the in-service register as it was
    before the acknowledgement. *)
Theorem pic_nesting p q irq :
  pic_ok p -> pic_ok q -> highest_pending p = Some irq ->
  auto_eoi p = false -> special_fully_nested p = false ->
  isr q = isr (snd (ack_irq irq p)) -> imr q = imr p ->
  special_mask_mode q = special_mask_mode p -> lowest_priority q = lowest_priority p ->
  (forall j, highest_pending q = Some j -> rank p j < rank p irq)
  /\ non_specific_eoi q = (Some irq, set_isr (isr p) q).
Proof.
  intros Hp Hq Hs Ha _ Hisr Himr Hsmm Hlow.
  apply highest_pending_selects in Hs as ((Hr & _ & Hm & Hni) & _ & Hh); [|done].
  unfold ack_irq in Hisr. cbn [snd auto_eoi set_irr] in Hisr. rewrite Ha in Hisr. cbn in Hisr.
  assert (Hrank : forall j, rank q j = rank p j) by (intros; unfold rank; by rewrite Hlow).
  assert (Hbits : forall j, 0 <= j -> Z.testbit (isr q) j = (j =? irq) || Z.testbit (isr p) j)
    by (intros; by rewrite Hisr, set_bit_testbit).
  assert (Hirq : holds_back q irq).
  { split_and!; [lia..| |]; [by rewrite Hbits, Z.eqb_refl by lia | by rewrite Himr]. }
  split.
  - intros j Hj. apply highest_pending_selects in Hj as (_ & _ & Hj); [|done].
    specialize (Hj irq Hirq). by rewrite !Hrank in Hj.
  - unfold non_specific_eoi. rewrite (clear_highest_spec q irq); [|done..|].
    + by rewrite Hisr, clear_set_bit by (done || apply Hp).
    + intros j (Hjr & Hj & Hjm). rewrite Hbits in Hj by lia. rewrite !Hrank.
      destruct (Z.eqb_spec j irq) as [->|]; [lia|]. apply Z.lt_le_incl, Hh.
      split_and!; [lia..|done|]. by rewrite <- Himr, <- Hsmm.
Qed.

(** ** Every operation keeps the controllers well formed *)

Lemma icw2_offset value : fits 8 value -> fits 8 (Z.land value 0xf8) /\ Z.land value 0xf8 mod 8 = 0.
Proof.
  intros Hv. split; [by apply fits_land_l|]. apply Z.eqb_eq.
  by apply (all_below 8 (fun v => Z.land v 0xf8 mod 8 =? 0)); [vm_compute|].
Qed.

Lemma land_7_line v : 0 <= Z.land v 7 < 8.
Proof. change 7 with (Z.ones 3). rewrite Z.land_ones by lia. by apply Z.mod_pos_bound. Qed.

Lemma set_irq_ok irq level p : pic_ok p -> pic_ok (Pic8259.set_irq irq level p).
Proof.
  intros []. unfold Pic8259.set_irq. destruct (7 <? irq); [by split|].
  destruct level; cbn [level_triggered set_irq_lines]; repeat case_match; split; cbn; eauto with pic.
Qed.

Lemma highest_pending_line p irq : pic_ok p -> highest_pending p = Some irq -> 0 <= irq < 8.
Proof. intros Hp Hs. apply highest_pending_selects in Hs as [[Hr _] _]; done. Qed.

Lemma ack_irq_ok irq p : 0 <= irq < 8 -> pic_ok p -> pic_ok (snd (ack_irq irq p)).
Proof.
  intros Hi []. unfold ack_irq. cbn [snd auto_eoi set_irr rotate_in_auto_eoi].
  repeat case_match; split; cbn; eauto with pic.
Qed.

Lemma clear_highest_line p : match clear_highest_isr p with
  | (Some irq, p') => 0 <= irq < 8 /\ p' = set_isr (clear_bit (isr p) irq) p
  | (None, p') => p' = p
  end.
Proof.
  unfold clear_highest_isr.
  pose proof (fold_best (is_set (blocking_isr p)) (priority_rank p) lines) as Hf.
  destruct (fold_left _ lines None) as [[i r]|]; [|done].
  destruct Hf as (Hi%elem_of_lines & _). done.
Qed.

Lemma set_isr_clear_ok irq p : pic_ok p -> pic_ok (set_isr (clear_bit (isr p) irq) p).
Proof. intros []. split; cbn; eauto with pic. Qed.

Lemma set_lowest_ok irq p : 0 <= irq < 8 -> pic_ok p -> pic_ok (set_lowest_priority irq p).
Proof. intros ? []. split; cbn; eauto with pic. Qed.

Lemma write_ocw2_ok value p : pic_ok p -> pic_ok (write_ocw2 value p).
Proof.
  intros Hp. pose proof (clear_highest_line p) as Hc. pose proof (land_7_line value) as Hv.
  assert (Heoi : pic_ok (snd (clear_highest_isr p))).
  { destruct (clear_highest_isr p) as [[i|] p']; [destruct Hc as [_ ->]; by apply set_isr_clear_ok|].
    by subst. }
  unfold write_ocw2, specific_eoi, non_specific_eoi.
  repeat case_match; try done; subst;
    eauto using set_lowest_ok, set_isr_clear_ok; try by (destruct Hp; split).
  destruct Hc as [Hi ->]. by apply set_lowest_ok.
Qed.

Lemma write_command_ok value p : fits 8 value -> pic_ok p -> pic_ok (write_command value p).
Proof.
  intros Hv Hp. unfold write_command. case_match; [|case_match].
  - destruct Hp. by split.
  - unfold write_ocw3. repeat case_match; destruct Hp; by split.
  - by apply write_ocw2_ok.
Qed.

Lemma write_data_ok value p : fits 8 value -> pic_ok p -> pic_ok (write_data value p).
Proof.
  intros Hv Hp. pose proof (icw2_offset value Hv) as [Ho1 Ho2]. unfold write_data.
  destruct (init_state p); cbn [single_mode set_vector_offset]; repeat case_match;
    destruct Hp; by split.
Qed.

Lemma read_command_ok p : pic_ok p -> pic_ok (snd (read_command p)).
Proof.
  intros Hp. unfold read_command. repeat case_match; try done.
  - assert (Hp' : pic_ok (set_poll_mode false p)) by (destruct Hp; by split).
    apply ack_irq_ok; [|done]. by apply (highest_pending_line (set_poll_mode false p)).
  - destruct Hp; by split.
Qed.

(** ** The pair *)

Record dual_ok d : Prop := { ok_master : pic_ok (master d); ok_slave : pic_ok (slave d) }.

(** What the machine does with the pair: the level of a line, a pulse, the
    acknowledgement of an interrupt with and without a given line, and accesses to
    the ports. *)
Inductive pic_op : Type :=
  | Line (irq : Z) (level : bool)
  | Pulse (irq : Z)
  | Inta
  | Ack (irq : Z)
  | In (h : PicPort) (port : Z)
  | Out (h : PicPort) (port value : Z).

Definition pic_step d (op : pic_op) : DualPic :=
  match op with
  | Line irq level => DualPic.set_irq irq level d
  | Pulse irq => DualPic.pulse_irq irq d
  | Inta => snd (DualPic.get_pending_vector d)
  | Ack irq => snd (DualPic.acknowledge irq d)
  | In h port => snd (io_read h port d)
  | Out h port value => io_write h port value d
  end.

(** Operands in the range of their types; [acknowledge] is given a line of the
    master. *)
Definition op_ok (op : pic_op) : Prop :=
  match op with
  | Ack irq => 0 <= irq < 8
  | Out _ _ value => fits 8 value
  | _ => True
  end.

Lemma refresh_cascade_ok d : dual_ok d -> dual_ok (DualPic.refresh_cascade d).
Proof.
  intros [Hm Hs]. unfold DualPic.refresh_cascade.
  pose proof (set_irq_ok 2 (has_pending (slave d)) (master d) Hm) as Hm'.
  cbn [DualPic.on_master master]. set (ma := Pic8259.set_irq _ _ _) in *.
  repeat case_match; split; cbn; try done.
  destruct Hm'. split; try done. cbn. by apply fits_land_l.
Qed.

Lemma set_line_ok irq level d : dual_ok d -> dual_ok (DualPic.set_irq irq level d).
Proof.
  intros Hd. unfold DualPic.set_irq. repeat case_match; [| |done].
  - destruct Hd. split; [by apply set_irq_ok | done].
  - apply refresh_cascade_ok. destruct Hd. split; [done | by apply set_irq_ok].
Qed.

Lemma get_pending_vector_ok d : dual_ok d -> dual_ok (snd (DualPic.get_pending_vector d)).
Proof.
  intros Hd. pose proof Hd as [Hm Hs]. unfold DualPic.get_pending_vector.
  destruct (highest_pending (master d)) as [i|] eqn:Ei; [|done].
  apply highest_pending_line in Ei; [|done]. case_match.
  - destruct (highest_pending (slave d)) as [j|] eqn:Ej; cbn.
    + apply highest_pending_line in Ej; [|done]. split; cbn; by apply ack_irq_ok.
    + split; [by apply ack_irq_ok | done].
  - split; cbn; [by apply ack_irq_ok | done].
Qed.

Lemma acknowledge_ok irq d : 0 <= irq < 8 -> dual_ok d -> dual_ok (snd (DualPic.acknowledge irq d)).
Proof.
  intros Hi Hd. pose proof Hd as [Hm Hs]. unfold DualPic.acknowledge. case_match.
  - cbn [DualPic.on_master slave master].
    destruct (highest_pending (slave d)) as [j|] eqn:Ej; cbn.
    + apply highest_pending_line in Ej; [|done]. split; cbn; by apply ack_irq_ok.
    + split; [by apply ack_irq_ok | done].
  - case_match; [done|]. split; cbn; [by apply ack_irq_ok | done].
Qed.

Lemma port_read_ok h port d : dual_ok d -> dual_ok (snd (pic_read h port d)).
Proof.
  intros Hd. pose proof Hd as [Hm Hs]. pose proof (read_command_ok _ Hm). pose proof (read_command_ok _ Hs).
  unfold pic_read. destruct h; repeat case_match; cbn; try done; by split; cbn.
Qed.

Lemma port_write_ok h port value d : fits 8 value -> dual_ok d -> dual_ok (pic_write h port value d).
Proof.
  intros Hv Hd. pose proof Hd as [Hm Hs]. unfold pic_write.
  destruct h; repeat case_match; try done; try apply refresh_cascade_ok; split; cbn;
    by auto using write_command_ok, write_data_ok.
Qed.

Lemma pic_step_ok d op : op_ok op -> dual_ok d -> dual_ok (pic_step d op).
Proof.
  destruct op; cbn [pic_step op_ok io_read io_write pic_device]; intros.
  - by apply set_line_ok.
  - by apply set_line_ok, set_line_ok.
  - by apply get_pending_vector_ok.
  - by apply acknowledge_ok.
  - by apply port_read_ok.
  - by apply port_write_ok.
Qed.

Lemma new_pic_ok offset : fits 8 offset -> offset mod 8 = 0 -> pic_ok (Pic8259.new offset).
Proof. intros. by split. Qed.

Lemma pic_run_ok ops : Forall op_ok ops -> dual_ok (fold_left pic_step ops DualPic.new).
Proof.
  assert (Hn : dual_ok DualPic.new) by (split; by apply new_pic_ok). revert Hn.
  generalize DualPic.new as d. induction ops as [|op ops IH]; intros d Hd Ho; [done|].
  inversion_clear Ho. cbn. by apply IH; [apply pic_step_ok|].
Qed.

(** ** Delivery *)

(** The acknowledgement of line [irq]: its request is withdrawn and, but for
    automatic end of interrupt, its level is in service. *)
Definition taken p p' (irq : Z) : Prop :=
  (forall j, 0 <= j < 8 ->
     Z.testbit (irr p') j = negb (j =? irq) && Z.testbit (irr p) j
     /\ Z.testbit (isr p') j = ((j =? irq) && negb (auto_eoi p)) || Z.testbit (isr p) j)
  /\ imr p' = imr p /\ irq_lines p' = irq_lines p.

Lemma ack_irq_taken irq p : 0 <= irq < 8 -> taken p (snd (ack_irq irq p)) irq.
Proof.
  intros Hi. unfold ack_irq. cbn [snd auto_eoi set_irr rotate_in_auto_eoi].
  destruct (auto_eoi p) eqn:E; [destruct (rotate_in_auto_eoi p)|];
    (split; [|done]); intros j Hj; cbn; rewrite clear_bit_testbit, ?set_bit_testbit, E by lia;
    split; try done; by destruct (j =? irq).
Qed.

Lemma ack_irq_vector irq p :
  pic_ok p -> 0 <= irq < 8 -> fst (ack_irq irq p) = vector_offset p + irq.
Proof.
  intros Hp Hi. unfold ack_irq. cbn [fst]. transitivity (wadd 8 (vector_offset p) irq).
  - by repeat case_match.
  - apply as_u_small. pose proof (ok_offset _ Hp) as Ho.
    pose proof (Z.div_mod (vector_offset p) 8 ltac:(lia)) as Hm. rewrite (ok_aligned _ Hp) in Hm.
    unfold fits in *. change (2 ^ 8) with 256 in *. lia.
Qed.

Lemma no_selection p : pic_ok p -> highest_pending p = None -> forall j, ~ nested_selects p j.
Proof. intros Hp Hn j Hj. apply highest_pending_selects in Hj; [congruence | done]. Qed.

Lemma delivery_nested d :
  dual_ok d ->
  match DualPic.get_pending_vector d with
  | (None, d') => d' = d /\ forall irq, ~ nested_selects (master d) irq
  | (Some v, d') =>
      exists irq, nested_selects (master d) irq /\ taken (master d) (master d') irq
      /\ if (irq =? 2) && negb (single_mode (master d)) then
           (exists j, nested_selects (slave d) j /\ taken (slave d) (slave d') j
              /\ v = vector_offset (slave d) + j)
           \/ ((forall j, ~ nested_selects (slave d) j) /\ slave d' = slave d
               /\ v = vector_offset (slave d) + 7)
         else v = vector_offset (master d) + irq /\ slave d' = slave d
  end.
Proof.
  intros [Hm Hs]. unfold DualPic.get_pending_vector.
  destruct (highest_pending (master d)) as [i|] eqn:Ei; [|by split; [|apply no_selection]].
  pose proof (highest_pending_line _ _ Hm Ei) as Hi. apply highest_pending_selects in Ei; [|done].
  pose proof (ack_irq_taken i (master d) Hi) as Ht. pose proof (ack_irq_vector i _ Hm Hi) as Hvec.
  destruct (_ && _) eqn:Ec.
  - assert (i = 2) as -> by (apply andb_true_iff in Ec as [->%Z.eqb_eq _]; done).
    destruct (highest_pending (slave d)) as [j|] eqn:Ej.
    + pose proof (highest_pending_line _ _ Hs Ej) as Hj. apply highest_pending_selects in Ej; [|done].
      pose proof (ack_irq_taken j (slave d) Hj) as Hjt. pose proof (ack_irq_vector j _ Hs Hj) as Hjv.
      destruct (ack_irq j (slave d)) as [v sl]. cbn in *. exists 2. rewrite Ec. split_and!; try done.
      left. exists j. done.
    + exists 2. rewrite Ec. split_and!; try done. right. split_and!; [by apply no_selection | done |].
      pose proof (ack_irq_vector 7 _ Hs ltac:(lia)) as Hv7. unfold ack_irq in Hv7. cbn [fst] in Hv7.
      rewrite <- Hv7. by repeat case_match.
  - destruct (ack_irq i (master d)) as [v ma]. cbn in *. exists i. rewrite Ec. done.
Qed.

(** C20. What the pair delivers, in every state its operations reach with the master not
    in special fully nested mode (ICW4 bit 4).  Without a selected line on the master
    there is no interrupt and nothing changes.  Otherwise the master acknowledges the
    line it selects; a line of its own gives its vector, and the cascade line gives the
    vector of the line the slave selects, which the slave acknowledges too, or the
    spurious vector of the slave when it selects none.  A vector is the programmed base
    plus the line, without carry. *)
Theorem pic_delivery ops :
  let d := fold_left pic_step ops DualPic.new in
  let on_master := selects (master_cascade (master d)) (master d) in
  let on_slave := selects slave_cascade (slave d) in
  Forall op_ok ops -> special_fully_nested (master d) = false ->
  match DualPic.get_pending_vector d with
  | (None, d') => d' = d /\ forall irq, ~ on_master irq
  | (Some v, d') =>
      exists irq, on_master irq /\ taken (master d) (master d') irq
      /\ if (irq =? 2) && negb (single_mode (master d)) then
           (exists j, on_slave j /\ taken (slave d) (slave d') j
              /\ v = vector_offset (slave d) + j)
           \/ ((forall j, ~ on_slave j) /\ slave d' = slave d
               /\ v = vector_offset (slave d) + 7)
         else v = vector_offset (master d) + irq /\ slave d' = slave d
  end.
Proof.
  intros d on_master on_slave Ho Hf.
  assert (Hom : forall i, on_master i <-> nested_selects (master d) i)
    by (intros; by apply fully_nested_selects).
  assert (Hos : forall i, on_slave i <-> nested_selects (slave d) i) by apply slave_selects.
  pose proof (delivery_nested d (pic_run_ok ops Ho)) as Hd. clearbody on_master on_slave.
  destruct (DualPic.get_pending_vector d) as [[v|] d'].
  - destruct Hd as (irq & Hi & Ht & Hv). exists irq. split; [by apply Hom|]. split; [done|].
    destruct (_ && _); [|done]. destruct Hv as [(j & Hj & Hv)|(Hn & Hv)].
    + left. exists j. split; [by apply Hos | done].
    + right. split; [|done]. intros j Hj. by apply (Hn j), Hos.
  - destruct Hd as [Hd Hn]. split; [done|]. intros irq Hi. by apply (Hn irq), Hom.
Qed.

(** ** Witnesses *)

(** Line 5 in service, lines 3 and 6 requesting. *)
Definition nested_pic : Pic8259 := set_isr 0x20 (set_irr 0x48 (set_imr 0 (Pic8259.new 0x20))).

Lemma pic_nesting_witness :
  highest_pending nested_pic = Some 3
  /\ non_specific_eoi (set_irr 0xff (snd (ack_irq 3 nested_pic)))
     = (Some 3, set_isr 0x20 (set_irr 0xff (snd (ack_irq 3 nested_pic)))).
Proof.
  split; [vm_compute; reflexivity|].
  apply (pic_nesting nested_pic (set_irr 0xff (snd (ack_irq 3 nested_pic))) 3);
    [by split | by split | vm_compute; reflexivity | reflexivity.. ].
Defined.

(** The initialization of a PC, a pulse on line 1 and its acknowledgement. *)
Definition pc_init : list pic_op :=
  [Out MasterPicDevice 0x20 0x11; Out MasterPicDevice 0x21 0x20; Out MasterPicDevice 0x21 0x04;
   Out MasterPicDevice 0x21 0x01; Out SlavePicDevice 0xa0 0x11; Out SlavePicDevice 0xa1 0x28;
   Out SlavePicDevice 0xa1 0x02; Out SlavePicDevice 0xa1 0x01].
Definition keyboard : DualPic := fold_left pic_step (pc_init ++ [Pulse 1]) DualPic.new.

Lemma pic_delivery_witness :
  exists v d' irq, DualPic.get_pending_vector keyboard = (Some v, d')
    /\ selects (master_cascade (master keyboard)) (master keyboard) irq
    /\ taken (master keyboard) (master d') irq.
Proof.
  pose proof (pic_delivery (pc_init ++ [Pulse 1])) as Hd. cbv zeta in Hd. fold keyboard in Hd.
  specialize (Hd ltac:(repeat constructor; done) ltac:(vm_compute; reflexivity)).
  destruct (DualPic.get_pending_vector keyboard) as [[v|] d'] eqn:E.
  - destruct Hd as (irq & Hs & Ht & _). exists v, d', irq.
    split; [reflexivity|]. split; [exact Hs | exact Ht].
  - vm_compute in E. discriminate.
Defined.
