(* ===== verification/DevPicCascade.v ===== *)
(** * The cascade and the initialization of the interrupt controllers

    When the master misses the slave, and the programming of the pair over the
    I/O bus. *)

From stdpp Require Import list.
From S2P Require Import Prelude DevBus DevPic DevBusSpec DevPicSpec.

Import Pic8259.
Implicit Types (p q : Pic8259) (d : DualPic).

(** ** The cascade *)

Lemma has_pending_iff p :
  pic_ok p ->
  has_pending p = true <-> exists j, requests p j /\ forall k, holds_back p k -> rank p j < rank p k.
Proof.
  intros Hp. unfold has_pending. rewrite highest_pending_fold.
  pose proof (fold_best (eligible p) (priority_rank p) lines) as Hf.
  destruct (fold_left _ lines None) as [[i r]|]; cbn.
  - split; [|done]. intros _. destruct Hf as (Hi%elem_of_lines & He & _).
    exists i. by apply eligible_spec in He.
  - split; [done|]. intros (j & Hj & Hh). pose proof Hj as [Hr _].
    specialize (Hf j (proj2 (elem_of_lines j) Hr)).
    by rewrite (proj2 (eligible_spec p j Hp Hr)) in Hf.
Qed.

(** More requests and fewer levels in service keep a controller requesting. *)
Lemma has_pending_mono p q :
  pic_ok p -> pic_ok q ->
  imr q = imr p -> special_mask_mode q = special_mask_mode p ->
  lowest_priority q = lowest_priority p ->
  (forall j, 0 <= j < 8 -> Z.testbit (irr p) j = true -> Z.testbit (irr q) j = true) ->
  (forall j, 0 <= j < 8 -> Z.testbit (isr q) j = true -> Z.testbit (isr p) j = true) ->
  has_pending p = true -> has_pending q = true.
Proof.
  intros Hp Hq Himr Hsmm Hlow Hirr Hisr. rewrite !has_pending_iff by done.
  intros (j & (Hr & Hj & Hm & Hs) & Hh). exists j. split.
  - split_and!; [lia | lia | by apply Hirr | by rewrite Himr |]. apply not_true_is_false.
    intros Hs'%Hisr; [congruence | done].
  - intros k (Hk & Hks & Hkm). unfold rank. rewrite Hlow. apply Hh.
    split_and!; [lia | lia | by apply Hisr | by rewrite <- Himr, <- Hsmm].
Qed.

(** An edge-triggered pair whose slave requests service while the cascade line is
    already high and its request is not latched. *)
Record stuck d : Prop := {
  st_ok : dual_ok d;
  st_edge : level_triggered (master d) = false;
  st_slave_edge : level_triggered (slave d) = false;
  st_line : Z.testbit (irq_lines (master d)) 2 = true;
  st_irr : Z.testbit (irr (master d)) 2 = false;
  st_pending : has_pending (slave d) = true
}.

Lemma refresh_slave d : slave (DualPic.refresh_cascade d) = slave d.
Proof. unfold DualPic.refresh_cascade. by repeat case_match. Qed.

(** The cascade line has no edge to latch. *)
Lemma refresh_stuck d : stuck d -> stuck (DualPic.refresh_cascade d).
Proof.
  intros Hd. pose proof (refresh_cascade_ok _ (st_ok _ Hd)) as Hok. revert Hok.
  destruct Hd as [_ He Hse Hl Hi Hp]. unfold DualPic.refresh_cascade. rewrite Hp. cbn [negb andb].
  assert (Pic8259.set_irq 2 true (master d)
          = set_irq_lines (set_bit (irq_lines (master d)) 2) (master d)) as Hset.
  { unfold Pic8259.set_irq. cbv zeta. change (7 <? 2) with false. cbv iota.
    cbn [level_triggered set_irq_lines]. by rewrite is_set_testbit, Hl, He by lia. }
  unfold DualPic.on_master. rewrite Hset. intros Hok. split; try done. cbn.
  by rewrite set_bit_testbit by lia.
Qed.

Lemma slave_stuck d f :
  stuck d -> pic_ok (f (slave d)) -> level_triggered (f (slave d)) = false ->
  has_pending (f (slave d)) = true -> stuck (DualPic.refresh_cascade (DualPic.on_slave f d)).
Proof. intros [[] ] ? ? ?. apply refresh_stuck. by split; [split|..]. Qed.

Lemma master_stuck d f :
  stuck d -> pic_ok (f (master d)) -> level_triggered (f (master d)) = false ->
  Z.testbit (irq_lines (f (master d))) 2 = true -> Z.testbit (irr (f (master d))) 2 = false ->
  stuck (DualPic.on_master f d).
Proof. intros [[] ] ? ? ? ?. by split; [split|..]. Qed.

Lemma set_irq_edge irq level p :
  0 <= irq < 8 -> level_triggered p = false ->
  let q := Pic8259.set_irq irq level p in
  level_triggered q = false /\ isr q = isr p /\ imr q = imr p
  /\ special_mask_mode q = special_mask_mode p /\ lowest_priority q = lowest_priority p
  /\ forall j, 0 <= j < 8 ->
       (Z.testbit (irr p) j = true -> Z.testbit (irr q) j = true)
       /\ (j <> irq -> Z.testbit (irr q) j = Z.testbit (irr p) j
                        /\ Z.testbit (irq_lines q) j = Z.testbit (irq_lines p) j).
Proof.
  intros Hi He. cbv zeta. unfold Pic8259.set_irq. rewrite (proj2 (Z.ltb_ge 7 irq)) by lia.
  cbn [level_triggered set_irq_lines]. rewrite He.
  destruct level; [destruct (is_set (irq_lines p) irq)|]; cbn; split_and!; try done;
    intros j Hj; rewrite ?set_bit_testbit, ?clear_bit_testbit by lia;
    (split; [by destruct (Z.eqb_spec j irq)|]); intros Hne;
    by rewrite (proj2 (Z.eqb_neq j irq) Hne).
Qed.

(** The non-specific and specific ends of interrupt. *)
Inductive is_eoi : Z -> Prop :=
  | eoi_non_specific : is_eoi 0x20
  | eoi_specific n : 0 <= n < 8 -> is_eoi (0x60 + n).

Lemma eoi_effect cmd p :
  is_eoi cmd -> pic_ok p ->
  exists r, write_command cmd p = set_isr r p /\ fits 8 r
    /\ forall j, 0 <= j < 8 -> Z.testbit r j = true -> Z.testbit (isr p) j = true.
Proof.
  intros Hc Hp.
  assert (Hcl : forall i, 0 <= i < 8 -> fits 8 (clear_bit (isr p) i) /\ forall j, 0 <= j < 8 ->
    Z.testbit (clear_bit (isr p) i) j = true -> Z.testbit (isr p) j = true).
  { intros i Hi. split; [apply fits_clear_bit, Hp|]. intros j Hj. rewrite clear_bit_testbit by lia.
    by intros [_ ?]%andb_true_iff. }
  destruct Hc as [|n Hn].
  - change (write_command 0x20 p) with (snd (clear_highest_isr p)).
    pose proof (clear_highest_line p) as Hh. destruct (clear_highest_isr p) as [[i|] p']; cbn.
    + destruct Hh as [Hi ->]. eexists. split; [done|]. by apply Hcl.
    + subst. exists (isr p). split; [by destruct p | split; [apply Hp | done]].
  - exists (clear_bit (isr p) n). split; [|by apply Hcl].
    assert (n = 0 \/ n = 1 \/ n = 2 \/ n = 3 \/ n = 4 \/ n = 5 \/ n = 6 \/ n = 7) as Hc by lia.
    clear - Hc. by destruct Hc as [->|[->|[->|[->|[->|[->|[->| ->]]]]]]].
Qed.

(** What drivers and devices do while the configuration stays: lines other than the
    cascade change, interrupts are acknowledged and ended. *)
Inductive traffic : DualPic -> DualPic -> Prop :=
  | traffic_line d irq level : 0 <= irq -> irq <> 2 -> traffic d (DualPic.set_irq irq level d)
  | traffic_inta d : traffic d (snd (DualPic.get_pending_vector d))
  | traffic_eoi_master d cmd : is_eoi cmd -> traffic d (io_write MasterPicDevice 0x20 cmd d)
  | traffic_eoi_slave d cmd : is_eoi cmd -> traffic d (io_write SlavePicDevice 0xa0 cmd d).

Lemma stuck_selects d i : stuck d -> highest_pending (master d) = Some i -> 0 <= i < 8 /\ i <> 2.
Proof.
  intros Hd Hi. destruct (st_ok _ Hd) as [Hm _].
  apply highest_pending_selects in Hi as [(Hr & Hb & _) _]; [|done]. split; [done|].
  intros ->. by rewrite (st_irr _ Hd) in Hb.
Qed.

Lemma stuck_line d irq level :
  0 <= irq -> irq <> 2 -> stuck d -> stuck (DualPic.set_irq irq level d).
Proof.
  intros H0 H2 Hd. pose proof (st_ok _ Hd) as [Hm Hs]. unfold DualPic.set_irq.
  destruct (Z.ltb_spec irq 8); [|destruct (Z.ltb_spec irq 16); [|done]].
  - destruct (set_irq_edge irq level (master d)) as (He & _ & _ & _ & _ & Hb); [lia | by apply Hd |].
    destruct (Hb 2 ltac:(lia)) as [_ [Hi Hl]]; [done|].
    apply master_stuck; [done | by apply set_irq_ok | done | |].
    + by rewrite Hl, (st_line _ Hd).
    + by rewrite Hi, (st_irr _ Hd).
  - destruct (set_irq_edge (irq - 8) level (slave d)) as (He & Hisr & Himr & Hsm & Hlow & Hb);
      [lia | by apply Hd |].
    apply slave_stuck; [done | by apply set_irq_ok | done |].
    apply (has_pending_mono (slave d)); try done; [by apply set_irq_ok | | by rewrite Hisr | by apply Hd].
    intros j Hj. by apply Hb.
Qed.

Lemma stuck_inta d : stuck d -> stuck (snd (DualPic.get_pending_vector d)).
Proof.
  intros Hd. pose proof (st_ok _ Hd) as [Hm Hs]. unfold DualPic.get_pending_vector.
  destruct (highest_pending (master d)) as [i|] eqn:Ei; [|done].
  destruct (stuck_selects d i Hd Ei) as [Hi H2]. rewrite (proj2 (Z.eqb_neq i 2) H2). cbn [andb].
  destruct (ack_irq_taken i (master d) Hi) as (Hb & _ & Hl). destruct (Hb 2 ltac:(lia)) as [Hb2 _].
  pose proof (ack_irq_ok i _ Hi Hm) as Hok.
  assert (He : level_triggered (snd (ack_irq i (master d))) = false).
  { unfold ack_irq. cbn [snd auto_eoi set_irr rotate_in_auto_eoi]. repeat case_match; by apply Hd. }
  destruct (ack_irq i (master d)) as [v ma]. cbn in *.
  split; cbn; [by split | done | apply Hd | | | apply Hd].
  - by rewrite Hl, (st_line _ Hd).
  - by rewrite Hb2, (st_irr _ Hd), andb_false_r.
Qed.

Lemma stuck_traffic d d' : traffic d d' -> stuck d -> stuck d'.
Proof.
  intros Ht Hd. pose proof (st_ok _ Hd) as [Hm Hs]. destruct Ht as [d irq level| d | d cmd Hc | d cmd Hc].
  - by apply stuck_line.
  - by apply stuck_inta.
  - destruct (eoi_effect cmd (master d) Hc Hm) as (r & Hr & Hf & _). cbn.
    apply master_stuck; rewrite ?Hr; try by apply Hd. destruct Hm. by split.
  - destruct (eoi_effect cmd (slave d) Hc Hs) as (r & Hr & Hf & Hle). cbn.
    assert (Hok : pic_ok (set_isr r (slave d))) by (destruct Hs; by split).
    apply slave_stuck; rewrite ?Hr; [done | done | by apply Hd |].
    by apply (has_pending_mono (slave d)); [.. | apply Hd].
Qed.

(** C22. The cascade can lose the slave for good.  Edge-triggered, the master latches
    the cascade line only when it rises, and an acknowledgement does not lower it.
    So once the slave requests service while the line is still high and no request
    is latched, then through any number of line changes, acknowledgements and ends
    of interrupt the slave keeps requesting and no slave interrupt is delivered. *)
Theorem pic_cascade_lost d d' :
  stuck d -> rtc traffic d d' ->
  has_pending (slave d') = true
  /\ forall v d2, DualPic.get_pending_vector d' = (Some v, d2) ->
       slave d2 = slave d' /\ exists i, 0 <= i < 8 /\ i <> 2 /\ v = vector_offset (master d') + i.
Proof.
  intros Hd Ht. assert (Hd' : stuck d') by (induction Ht; eauto using stuck_traffic).
  clear Hd Ht. split; [apply Hd'|]. intros v d2. unfold DualPic.get_pending_vector.
  pose proof (ok_master _ (st_ok _ Hd')) as Hm.
  destruct (highest_pending (master d')) as [i|] eqn:Ei; [|done].
  destruct (stuck_selects d' i Hd' Ei) as [Hi H2]. rewrite (proj2 (Z.eqb_neq i 2) H2). cbn [andb].
  pose proof (ack_irq_vector i _ Hm Hi) as Hv.
  destruct (ack_irq i (master d')) as [w ma]. intros [= <- <-]. cbn in *. split; [done|]. by exists i.
Qed.

(** ** Initialization *)

(** The words ICW1 to ICW4 that follow a command [icw1], as port writes. *)
Definition icws (icw1 icw2 icw3 icw4 : Z) : list Z :=
  icw2 :: (if any_bits icw1 0x02 then [] else [icw3]) ++ (if any_bits icw1 0x01 then [icw4] else []).

(** A controller initialized with these words. *)
Definition initialized p (v1 v2 v3 v4 : Z) : Pic8259 :=
  let single := any_bits v1 0x02 in
  let has4 := any_bits v1 0x01 in
  mk_pic 0 0 0 0 (Z.land v2 0xf8) Ready v1 has4 (any_bits v1 0x08) single
    (if has4 then any_bits v4 0x01 else mode_8086 p)
    (has4 && any_bits v4 0x02) (has4 && any_bits v4 0x10)
    (if single then icw3 p else v3) false false false true 7.

Lemma init_words p v1 v2 v3 v4 :
  any_bits v1 0x10 = true ->
  fold_left (fun p v => write_data v p) (icws v1 v2 v3 v4) (write_command v1 p)
  = initialized p v1 v2 v3 v4.
Proof.
  intros H1. unfold write_command. rewrite H1. unfold icws, write_icw1, initialized.
  by destruct (any_bits v1 0x02) eqn:E2, (any_bits v1 0x01) eqn:E1.
Qed.

Section Bus.
Context `{PciBridge DualPic}.
Variable bus : IoBus PicPort.

(** The pair is registered at its ports. *)
Definition pics_registered : Prop :=
  io_built bus /\ (mk_range 0x20 2, MasterPicDevice) ∈ io_devices bus
  /\ (mk_range 0xa0 2, SlavePicDevice) ∈ io_devices bus.

Lemma bus_write_pic port value h d :
  pics_registered -> fits 16 port ->
  match h with
  | MasterPicDevice => 0x20 <= port < 0x22
  | SlavePicDevice => 0xa0 <= port < 0xa2
  end ->
  IoBus.write bus port [value] d = pic_write h port value d.
Proof.
  intros (Hb & Hm & Hs) Hf Hp. unfold IoBus.write. cbn [IoBus.write_from].
  assert (Hn : IoBus.nth_port port 0 = port).
  { unfold IoBus.nth_port, sat_add. change (as_u 16 0) with 0. unfold fits in Hf. lia. }
  rewrite Hn. unfold IoBus.write_byte.
  rewrite (proj2 (claimant_iff 16 (io_devices bus) port h (io_built_apart _ Hb))); [done|].
  destruct h; eexists; (split; [done|]); unfold contains, range_end, sat_add; cbn;
    apply andb_true_iff; rewrite Z.leb_le, Z.ltb_lt; lia.
Qed.

(** C37. The initialization sequence over the I/O bus: ICW1 at the command port and
    the words it asks for at the data port (ICW3 unless single, ICW4 if announced)
    leave the controller ready with the vector base, trigger mode, cascade and
    end-of-interrupt mode they encode, all lines unmasked and idle; the master's
    sequence does not touch the slave. *)
Theorem pic_initialization v1 v2 v3 v4 d :
  pics_registered -> any_bits v1 0x10 = true ->
  fold_left (fun d v => IoBus.write bus 0x21 [v] d) (icws v1 v2 v3 v4) (IoBus.write bus 0x20 [v1] d)
    = mk_dual (initialized (master d) v1 v2 v3 v4) (slave d)
  /\ slave (fold_left (fun d v => IoBus.write bus 0xa1 [v] d) (icws v1 v2 v3 v4)
              (IoBus.write bus 0xa0 [v1] d))
    = initialized (slave d) v1 v2 v3 v4.
Proof.
  intros Hb H1. rewrite <- !init_words by done. split.
  - rewrite (bus_write_pic 0x20 v1 MasterPicDevice) by (done || lia || by split).
    change (pic_write _ _ _ d) with (mk_dual (write_command v1 (master d)) (slave d)).
    rewrite (fold_left_ext _ (fun d v => DualPic.on_master (write_data v) d))
      by (intros; by rewrite (bus_write_pic 0x21 _ MasterPicDevice) by (done || lia || by split)).
    generalize (write_command v1 (master d)) as q.
    induction (icws v1 v2 v3 v4) as [|v l IH]; intros q; [done|]. cbn. apply IH.
  - rewrite (bus_write_pic 0xa0 v1 SlavePicDevice) by (done || lia || by split).
    rewrite (fold_left_ext _ (fun d v => DualPic.refresh_cascade (DualPic.on_slave (write_data v) d)))
      by (intros; by rewrite (bus_write_pic 0xa1 _ SlavePicDevice) by (done || lia || by split)).
    change (pic_write _ _ _ d) with (DualPic.refresh_cascade (DualPic.on_slave (write_command v1) d)).
    rewrite <- (refresh_slave (DualPic.on_slave (write_command v1) d) : _ = write_command v1 (slave d)).
    generalize (DualPic.refresh_cascade (DualPic.on_slave (write_command v1) d)) as e.
    induction (icws v1 v2 v3 v4) as [|v l IH]; intros e; [done|]. cbn [fold_left]. rewrite IH.
    by rewrite refresh_slave.
Qed.
End Bus.

(** ** Witnesses *)

(** A PC whose line 8 rises while line 14 is in service; both interrupts end. *)
Definition lost_slave : DualPic :=
  fold_left pic_step (pc_init ++ [Pulse 14; Inta; Pulse 8; Out SlavePicDevice 0xa0 0x20;
    Out MasterPicDevice 0x20 0x20]) DualPic.new.

Lemma lost_slave_stuck : stuck lost_slave.
Proof.
  split; try (vm_compute; reflexivity). apply pic_run_ok. repeat constructor; done.
Qed.

Lemma pic_cascade_lost_witness :
  has_pending (slave (DualPic.set_irq 12 true lost_slave)) = true
  /\ fst (DualPic.get_pending_vector lost_slave) = None.
Proof.
  split; [|vm_compute; reflexivity].
  apply (pic_cascade_lost lost_slave (DualPic.set_irq 12 true lost_slave)); [apply lost_slave_stuck|].
  apply rtc_once, traffic_line; done.
Defined.

(** A host bridge that decodes no port. *)
Definition no_pci : PciBridge DualPic :=
  {| pci_io_read := fun _ d => (None, d); pci_io_write := fun _ _ d => d |}.
Definition pic_bus : IoBus PicPort :=
  mk_io_bus [(mk_range 0x20 2, MasterPicDevice); (mk_range 0xa0 2, SlavePicDevice)] false.

Lemma pic_bus_registered : pics_registered pic_bus.
Proof.
  split_and!; [|by left | by right; left].
  apply (io_built_register (mk_io_bus [(mk_range 0x20 2, MasterPicDevice)] false)
           (mk_range 0xa0 2) SlavePicDevice); [|reflexivity].
  by apply (io_built_register IoBus.new (mk_range 0x20 2) MasterPicDevice); [constructor|].
Qed.

Lemma pic_initialization_witness :
  slave (fold_left (fun d v => @IoBus.write _ _ _ no_pci pic_bus 0xa1 [v] d) [0x28; 0x02; 0x01]
           (@IoBus.write _ _ _ no_pci pic_bus 0xa0 [0x11] DualPic.new))
  = initialized (Pic8259.new 0x28) 0x11 0x28 0x02 0x01.
Proof.
  apply (@pic_initialization no_pci pic_bus 0x11 0x28 0x02 0x01 DualPic.new);
    [apply pic_bus_registered | reflexivity].
Defined.
