(* ===== verification/DevIoApic.v ===== *)
(** * The I/O APIC

    src/devices/ioapic.rs: the redirection table behind its index and data
    registers, and the deliveries it queues. *)

From stdpp Require Import list.
From S2P Require Import Prelude DevBus.

Definition IOAPIC_BASE : Z := 0xfec00000.
Definition IOREGSEL : Z := 0x00.
Definition IOWIN : Z := 0x10.
Definition IOAPIC_NUM_RTE : Z := 24.
Definition RTE_MASK : Z := Z.shiftl 1 16.
Definition RTE_TRIGGER_MODE : Z := Z.shiftl 1 15.
(** Delivery status and remote IRR are read-only. *)
Definition RTE_WRITABLE_MASK : Z := wnot 64 (Z.lor (Z.shiftl 1 12) (Z.shiftl 1 14)).

Record PendingIrq : Type := mk_pending {
  pi_gsi : Z;
  pi_vector : Z;
  pi_destination : Z;
  pi_level_triggered : bool
}.

Record IoApic : Type := mk_ioapic {
  ioregsel : Z;
  id : Z;
  redirection_table : list Z;
  line_asserted : list bool;
  pending : list PendingIrq
}.

Definition set_ioregsel (v : Z) (a : IoApic) : IoApic :=
  mk_ioapic v (id a) (redirection_table a) (line_asserted a) (pending a).
Definition set_id (v : Z) (a : IoApic) : IoApic :=
  mk_ioapic (ioregsel a) v (redirection_table a) (line_asserted a) (pending a).
Definition set_redirection_table (v : list Z) (a : IoApic) : IoApic :=
  mk_ioapic (ioregsel a) (id a) v (line_asserted a) (pending a).
Definition set_line_asserted (v : list bool) (a : IoApic) : IoApic :=
  mk_ioapic (ioregsel a) (id a) (redirection_table a) v (pending a).
Definition set_pending (v : list PendingIrq) (a : IoApic) : IoApic :=
  mk_ioapic (ioregsel a) (id a) (redirection_table a) (line_asserted a) v.

Module IoApic.
Implicit Types (a : IoApic).

Definition new : IoApic :=
  mk_ioapic 0 0 (replicate 24 RTE_MASK) (replicate 24 false) [].

Definition rte a (entry : Z) : Z := nth (Z.to_nat entry) (redirection_table a) 0.
Definition asserted a (entry : Z) : bool := nth (Z.to_nat entry) (line_asserted a) false.

(** The index selects a half of a redirection entry. *)
Definition is_redtbl (index : Z) : bool := (0x10 <=? index) && (index <? 0x10 + IOAPIC_NUM_RTE * 2).

Definition read_indexed a (index : Z) : Z :=
  if index =? 0x00 then id a
  else if index =? 0x01 then Z.lor 0x20 (Z.shiftl (IOAPIC_NUM_RTE - 1) 16)
  else if index =? 0x02 then id a
  else if is_redtbl index then
    let offset := index - 0x10 in
    let entry_val := rte a (offset / 2) in
    if offset mod 2 =? 0 then as_u32 entry_val else as_u32 (wshr 64 entry_val 32)
  else 0.

(** A delivery is queued when the entry is not masked. *)
Definition evaluate_entry (entry : Z) a : IoApic :=
  let rte := rte a entry in
  if any_bits rte RTE_MASK then a
  else
    set_pending (pending a ++
      [mk_pending (as_u8 entry) (as_u8 (Z.land rte 0xff)) (as_u8 (Z.land (wshr 64 rte 56) 0xff))
         (any_bits rte RTE_TRIGGER_MODE)]) a.

(** The entry with its low or high half replaced. *)
Definition write_half (old value offset : Z) : Z :=
  if offset mod 2 =? 0 then
    let masked := Z.land value (Z.land RTE_WRITABLE_MASK 0xffffffff) in
    let ro := Z.land old (Z.land (wnot 64 RTE_WRITABLE_MASK) 0xffffffff) in
    Z.lor (Z.lor (Z.land old 0xffffffff00000000) masked) ro
  else Z.lor (Z.land old 0x00000000ffffffff) (wshl 64 value 32).

Definition write_indexed (index value : Z) a : IoApic :=
  if index =? 0x00 then set_id (Z.land value 0x0f000000) a
  else if (index =? 0x01) || (index =? 0x02) then a
  else if is_redtbl index then
    let offset := index - 0x10 in
    let entry := offset / 2 in
    let new := write_half (rte a entry) value offset in
    let a := set_redirection_table (<[Z.to_nat entry := new]> (redirection_table a)) a in
    if (offset mod 2 =? 0) && asserted a entry then evaluate_entry entry a else a
  else a.

Definition set_irq (gsi : Z) (level : bool) a : IoApic :=
  if IOAPIC_NUM_RTE <=? gsi then a
  else
    let a := set_line_asserted (<[Z.to_nat gsi := level]> (line_asserted a)) a in
    if level then evaluate_entry gsi a else a.

Definition has_pending a : bool := match pending a with [] => false | _ => true end.
Definition take_pending a : list PendingIrq * IoApic := (pending a, set_pending [] a).
Definition apic_id a : Z := as_u8 (Z.land (wshr 32 (id a) 24) 0x0f).

(** ** The MMIO window *)

Definition reg_base (addr : Z) : Z := Z.land (wsub 64 addr IOAPIC_BASE) (wnot 64 0x3).
Definition byte_off (addr : Z) : Z := Z.land (wsub 64 addr IOAPIC_BASE) 0x3.

(** The bytes of a 32-bit register from [byte_off] on. *)
Definition reg_byte (value off i : Z) : Z :=
  let shift := (off + i) * 8 in
  if shift <? 32 then Z.land (wshr 32 value shift) 0xff else 0.

Definition read (addr : Z) (n : nat) a : list Z * IoApic :=
  let value :=
    if reg_base addr =? IOREGSEL then ioregsel a
    else if reg_base addr =? IOWIN then read_indexed a (ioregsel a)
    else 0 in
  (map (fun i => reg_byte value (byte_off addr) (Z.of_nat i)) (seq 0 n), a).

(** The read-modify-write of the data window, byte by byte. *)
Fixpoint merge_bytes (value off i : Z) (data : list Z) : Z :=
  match data with
  | [] => value
  | b :: data =>
      let shift := (off + i) * 8 in
      let value :=
        if shift <? 32 then Z.lor (Z.land value (wnot 32 (wshl 32 0xff shift))) (wshl 32 b shift)
        else value in
      merge_bytes value off (i + 1) data
  end.

Definition write (addr : Z) (data : list Z) a : IoApic :=
  if reg_base addr =? IOREGSEL then
    if byte_off addr =? 0 then
      match data with b :: _ => set_ioregsel b a | [] => a end
    else a
  else if reg_base addr =? IOWIN then
    let value := merge_bytes (read_indexed a (ioregsel a)) (byte_off addr) 0 data in
    write_indexed (ioregsel a) value a
  else a.
End IoApic.

#[export] Instance ioapic_device : MmioDevice unit IoApic := {
  mmio_read _ := IoApic.read;
  mmio_write _ := IoApic.write
}.
