(* ===== verification/DevIoApicSpec.v ===== *)
(** * The I/O APIC over the MMIO bus

    The bus splits an access into bytes; programming the redirection table through
    it, and the deliveries that queues. *)

From stdpp Require Import list.
From S2P Require Import Prelude DevBus DevBusSpec DevIoApic.

Import IoApic.
Implicit Types (a : IoApic).

(** ** Bits of a redirection entry *)

Lemma low_half_writable : Z.land RTE_WRITABLE_MASK 0xffffffff = 0xffffafff.
Proof. by vm_compute. Qed.
Lemma low_half_fixed : Z.land (wnot 64 RTE_WRITABLE_MASK) 0xffffffff = 0x5000.
Proof. by vm_compute. Qed.

(** Delivery status and remote IRR. *)
Definition read_only (k : Z) : bool := (k =? 12) || (k =? 14).

Lemma writable_bits k : 0 <= k < 32 -> Z.testbit 0xffffafff k = negb (read_only k).
Proof.
  intros Hk. apply eqb_prop.
  by apply (all_below 5 (fun k => eqb (Z.testbit 0xffffafff k) (negb (read_only k)))); [vm_compute|].
Qed.
Lemma fixed_bits k : 0 <= k < 32 -> Z.testbit 0x5000 k = read_only k.
Proof.
  intros Hk. apply eqb_prop.
  by apply (all_below 5 (fun k => eqb (Z.testbit 0x5000 k) (read_only k))); [vm_compute|].
Qed.

Lemma high_ones_bits k : 0 <= k < 64 -> Z.testbit 0xffffffff00000000 k = (32 <=? k).
Proof.
  intros Hk. apply eqb_prop.
  by apply (all_below 6 (fun k => eqb (Z.testbit 0xffffffff00000000 k) (32 <=? k))); [vm_compute|].
Qed.
Lemma low_ones_bits k : 0 <= k < 64 -> Z.testbit 0x00000000ffffffff k = (k <? 32).
Proof.
  intros Hk. apply eqb_prop.
  by apply (all_below 6 (fun k => eqb (Z.testbit 0x00000000ffffffff k) (k <? 32))); [vm_compute|].
Qed.

Lemma write_low_bits old v off k :
  off mod 2 = 0 -> fits 64 old -> 0 <= k < 64 ->
  Z.testbit (write_half old v off) k
  = if (k <? 32) && negb (read_only k) then Z.testbit v k else Z.testbit old k.
Proof.
  intros Ho Hold Hk. unfold write_half. rewrite Ho. cbn [Z.eqb].
  rewrite low_half_writable, low_half_fixed, !Z.lor_spec, !Z.land_spec, high_ones_bits by done.
  destruct (Z.ltb_spec k 32).
  - rewrite writable_bits, fixed_bits, (proj2 (Z.leb_gt 32 k)) by lia. cbn [andb].
    rewrite andb_false_r. destruct (read_only k); cbn; rewrite ?andb_true_r, ?andb_false_r; [done|].
    by rewrite orb_false_r.
  - rewrite (fits_testbit 32 0xffffafff), (fits_testbit 32 0x5000) by (done || by split).
    rewrite (proj2 (Z.leb_le 32 k)), !andb_false_r, !orb_false_r by lia. cbn. apply andb_true_r.
Qed.

Lemma write_high_bits old v off k :
  off mod 2 = 1 -> fits 32 v -> 0 <= k < 64 ->
  Z.testbit (write_half old v off) k = if k <? 32 then Z.testbit old k else Z.testbit v (k - 32).
Proof.
  intros Ho Hv Hk. unfold write_half. rewrite Ho. cbn [Z.eqb].
  rewrite Z.lor_spec, Z.land_spec, low_ones_bits by done. unfold wshl, as_u.
  rewrite Z.mod_pow2_bits_low by lia. change (32 mod 64) with 32. rewrite Z.shiftl_spec by lia.
  destruct (Z.ltb_spec k 32).
  - rewrite (Z.testbit_neg_r v) by lia. by rewrite andb_true_r, orb_false_r.
  - by rewrite andb_false_r.
Qed.

(** A byte merged into a 32-bit register. *)
Lemma merge_byte_bits value off b k :
  0 <= off < 4 -> fits 8 b -> 0 <= k < 32 ->
  Z.testbit (merge_bytes value off 0 [b]) k
  = if (8 * off <=? k) && (k <? 8 * off + 8) then Z.testbit b (k - 8 * off) else Z.testbit value k.
Proof.
  intros Ho Hb Hk. cbn [merge_bytes]. rewrite (proj2 (Z.ltb_lt _ _)) by lia.
  unfold wnot, wshl, as_u. rewrite Z.add_0_r, !(Z.mod_small (off * 8)) by lia.
  rewrite Z.lor_spec, Z.land_spec, !Z.mod_pow2_bits_low, Z.lnot_spec, Z.mod_pow2_bits_low,
    !Z.shiftl_spec by lia. change 0xff with (Z.ones 8). replace (off * 8) with (8 * off) by lia.
  destruct (Z.leb_spec (8 * off) k) as [H1|H1]; [destruct (Z.ltb_spec k (8 * off + 8)) as [H2|H2]|];
    cbn [andb].
  - rewrite Z.ones_spec_low by lia. by rewrite andb_false_r.
  - rewrite Z.ones_spec_high, (fits_testbit 8 b) by (done || lia). by rewrite andb_true_r, orb_false_r.
  - rewrite !(Z.testbit_neg_r _ (k - 8 * off)) by lia. by rewrite andb_true_r, orb_false_r.
Qed.

(** ** Byte accesses of the data window *)

(** The address of byte [i] of the data window. *)
Definition window (i : Z) : Z := IOAPIC_BASE + IOWIN + i.

Lemma window_reg i : 0 <= i < 4 -> reg_base (window i) = IOWIN /\ byte_off (window i) = i.
Proof.
  intros Hi. assert (i = 0 \/ i = 1 \/ i = 2 \/ i = 3) as Hc by lia. clear Hi.
  by destruct Hc as [->|[->|[->| ->]]].
Qed.

(** The table has its entries and they are 64-bit. *)
Record ioapic_ok a : Prop := {
  ok_table : length (redirection_table a) = 24%nat;
  ok_lines : length (line_asserted a) = 24%nat;
  ok_entries : Forall (fits 64) (redirection_table a);
  ok_id : fits 32 (id a)
}.

Lemma rte_fits a e : ioapic_ok a -> fits 64 (rte a e).
Proof.
  intros Ha. unfold rte. rewrite nth_lookup.
  destruct (redirection_table a !! Z.to_nat e) eqn:E; cbn; [|by split].
  exact (Forall_lookup_1 _ _ _ _ (ok_entries _ Ha) E).
Qed.

(** The entry [e] with byte [i] of its low half written. *)
Definition put_low (old i b : Z) : Z := write_half old (merge_bytes (as_u32 old) i 0 [b]) 0.

Lemma put_low_bits old i b k :
  fits 64 old -> 0 <= i < 4 -> fits 8 b -> 0 <= k < 64 ->
  Z.testbit (put_low old i b) k
  = if (8 * i <=? k) && (k <? 8 * i + 8) && negb (read_only k)
    then Z.testbit b (k - 8 * i) else Z.testbit old k.
Proof.
  intros Ho Hi Hb Hk. unfold put_low. rewrite write_low_bits by done.
  destruct (Z.ltb_spec k 32).
  - rewrite merge_byte_bits by (done || lia). unfold as_u. rewrite Z.mod_pow2_bits_low by lia.
    cbn [andb]. by destruct ((8 * i <=? k) && (k <? 8 * i + 8)), (read_only k).
  - cbn [andb]. rewrite (proj2 (Z.ltb_ge k (8 * i + 8))) by lia. by rewrite andb_false_r.
Qed.

(** The entry with its high half written byte by byte. *)
Definition put_high (old i b : Z) : Z :=
  write_half old (merge_bytes (as_u32 (wshr 64 old 32)) i 0 [b]) 1.

Lemma merge_byte_fits value off b :
  0 <= off < 4 -> fits 32 value -> fits 32 (merge_bytes value off 0 [b]).
Proof.
  intros Ho Hv. cbn [merge_bytes]. rewrite (proj2 (Z.ltb_lt _ _)) by lia.
  apply fits_lor; [by apply fits_land_l | by apply fits_wshl].
Qed.

Lemma put_high_bits old i b k :
  fits 64 old -> 0 <= i < 4 -> fits 8 b -> 0 <= k < 64 ->
  Z.testbit (put_high old i b) k
  = if (32 + 8 * i <=? k) && (k <? 32 + 8 * i + 8)
    then Z.testbit b (k - 32 - 8 * i) else Z.testbit old k.
Proof.
  intros Ho Hi Hb Hk. unfold put_high.
  rewrite write_high_bits by (done || by apply merge_byte_fits, as_u_fits).
  destruct (Z.ltb_spec k 32).
  - by rewrite (proj2 (Z.leb_gt (32 + 8 * i) k)) by lia.
  - rewrite merge_byte_bits by (done || lia).
    replace (8 * i <=? k - 32) with (32 + 8 * i <=? k) by (apply eq_true_iff_eq; rewrite !Z.leb_le; lia).
    replace (k - 32 <? 8 * i + 8) with (k <? 32 + 8 * i + 8)
      by (apply eq_true_iff_eq; rewrite !Z.ltb_lt; lia).
    destruct (_ && _); [done|]. unfold as_u, wshr. rewrite Z.mod_pow2_bits_low by lia.
    change (32 mod 64) with 32. rewrite Z.shiftr_spec by lia. f_equal. lia.
Qed.

Lemma entry_ext x y : fits 64 x -> fits 64 y -> (forall k, 0 <= k < 64 -> Z.testbit x k = Z.testbit y k) -> x = y.
Proof.
  intros Hx Hy He. apply Z.bits_inj'. intros k Hk.
  destruct (Z.lt_ge_cases k 64); [by apply He|].
  by rewrite (fits_testbit 64 x), (fits_testbit 64 y) by (done || lia).
Qed.

Lemma write_half_fits old v off : fits 64 old -> fits 32 v -> fits 64 (write_half old v off).
Proof.
  intros Ho Hv. unfold write_half. case_match.
  - apply fits_lor; [apply fits_lor|]; [by apply fits_land_l | | by apply fits_land_l].
    apply fits_land_l. by apply (fits_weaken 32); [|done].
  - apply fits_lor; [by apply fits_land_l | by apply fits_wshl].
Qed.

(** ** The byte writes of a redirection entry *)

(** The delivery of an entry, if it is not masked. *)
Definition delivery (e x : Z) : list PendingIrq :=
  if any_bits x RTE_MASK then []
  else [mk_pending (as_u8 e) (as_u8 (Z.land x 0xff)) (as_u8 (Z.land (wshr 64 x 56) 0xff))
          (any_bits x RTE_TRIGGER_MODE)].

(** The controller with entry [e] and the queue replaced. *)
Definition with_entry a (e x : Z) (ps : list PendingIrq) : IoApic :=
  mk_ioapic (ioregsel a) (id a) (<[Z.to_nat e := x]> (redirection_table a)) (line_asserted a) ps.

Section Entry.
Variables (a : IoApic) (e : Z).
Hypothesis Ha : ioapic_ok a.
Hypothesis He : 0 <= e < 24.

Lemma with_entry_rte x ps : rte (with_entry a e x ps) e = x.
Proof.
  unfold rte. cbn. rewrite nth_lookup, list_lookup_insert_eq; [done|]. rewrite (ok_table _ Ha). lia.
Qed.

Lemma with_entry_self : with_entry a e (rte a e) (pending a) = a.
Proof.
  unfold with_entry. rewrite list_insert_id; [by destruct a|].
  unfold rte. rewrite nth_lookup. destruct (redirection_table a !! Z.to_nat e) eqn:El; [done|].
  apply lookup_ge_None in El. rewrite (ok_table _ Ha) in El. lia.
Qed.

Lemma evaluate_with_entry x ps :
  evaluate_entry e (with_entry a e x ps) = with_entry a e x (ps ++ delivery e x).
Proof.
  unfold evaluate_entry, delivery. rewrite with_entry_rte. destruct (any_bits x RTE_MASK); [|done].
  by rewrite app_nil_r.
Qed.

Lemma redtbl_index h : h = 0 \/ h = 1 ->
  is_redtbl (0x10 + 2 * e + h) = true /\ (0x10 + 2 * e + h - 0x10) / 2 = e
  /\ (0x10 + 2 * e + h - 0x10) mod 2 = h.
Proof.
  intros Hh. split; [unfold is_redtbl, IOAPIC_NUM_RTE; apply andb_true_iff; rewrite Z.leb_le, Z.ltb_lt; lia|].
  replace (0x10 + 2 * e + h - 0x10) with (h + e * 2) by lia.
  rewrite Z.div_add, Z_mod_plus_full by lia.
  destruct Hh as [-> | ->]; (split; [|reflexivity]); [change (0 / 2) with 0 | change (1 / 2) with 0]; lia.
Qed.

Lemma read_redtbl x ps h :
  h = 0 \/ h = 1 ->
  read_indexed (with_entry a e x ps) (0x10 + 2 * e + h)
  = if h =? 0 then as_u32 x else as_u32 (wshr 64 x 32).
Proof.
  intros Hh. destruct (redtbl_index h Hh) as (Hi & Hd & Hm). unfold read_indexed.
  rewrite !(proj2 (Z.eqb_neq _ _)) by lia. rewrite Hi, Hd, Hm, with_entry_rte. done.
Qed.

Lemma write_redtbl x ps h v :
  h = 0 \/ h = 1 ->
  write_indexed (0x10 + 2 * e + h) v (with_entry a e x ps)
  = with_entry a e (write_half x v h)
      (ps ++ if (h =? 0) && asserted a e then delivery e (write_half x v h) else []).
Proof.
  intros Hh. destruct (redtbl_index h Hh) as (Hi & Hd & Hm). unfold write_indexed.
  rewrite !(proj2 (Z.eqb_neq _ _)) by lia. cbn [orb]. rewrite Hi. cbv zeta.
  rewrite Hd, with_entry_rte.
  assert (Hw : write_half x v (0x10 + 2 * e + h - 0x10) = write_half x v h).
  { unfold write_half. rewrite Hm. by destruct Hh as [-> | ->]. }
  rewrite Hw, Hm.
  assert (Hs : set_redirection_table (<[Z.to_nat e := write_half x v h]>
      (redirection_table (with_entry a e x ps))) (with_entry a e x ps)
    = with_entry a e (write_half x v h) ps).
  { unfold set_redirection_table, with_entry. cbn. f_equal. apply list_insert_insert_eq. }
  rewrite Hs. change (asserted (with_entry a e (write_half x v h) ps) e) with (asserted a e).
  destruct (_ && _); [apply evaluate_with_entry | by rewrite app_nil_r].
Qed.

(** A byte write of the window with either half selected. *)
Lemma write_byte_entry x ps h i b :
  h = 0 \/ h = 1 -> ioregsel a = 0x10 + 2 * e + h -> 0 <= i < 4 ->
  let x' := if h =? 0 then put_low x i b else put_high x i b in
  IoApic.write (window i) [b] (with_entry a e x ps)
  = with_entry a e x' (ps ++ if (h =? 0) && asserted a e then delivery e x' else []).
Proof.
  intros Hh Hsel Hi. destruct (window_reg i Hi) as [Hr Hb]. unfold IoApic.write.
  rewrite Hr, Hb. cbn [Z.eqb IOWIN IOREGSEL]. cbn [with_entry ioregsel].
  change (mk_ioapic _ _ _ _ _) with (with_entry a e x ps).
  rewrite Hsel, read_redtbl, write_redtbl by done. by destruct Hh as [-> | ->].
Qed.
End Entry.

(** ** Whole words *)

Lemma le_cons_bits b r k :
  fits 8 b -> 0 <= k ->
  Z.testbit (b + Z.shiftl r 8) k = if k <? 8 then Z.testbit b k else Z.testbit r (k - 8).
Proof.
  intros Hb Hk. rewrite Z.shiftl_mul_pow2, Z.add_comm, <- lor_join, Z.lor_spec by (done || lia).
  destruct (Z.ltb_spec k 8).
  - by rewrite Z.mul_pow2_bits_low.
  - rewrite Z.mul_pow2_bits, (fits_testbit 8 b) by (done || lia). apply orb_false_r.
Qed.

(** Decides the comparisons of a bit position. *)
Ltac bit_ranges :=
  repeat (match goal with
          | |- context [?x <=? ?y] => destruct (Z.leb_spec x y); try lia
          | |- context [?x <? ?y] => destruct (Z.ltb_spec x y); try lia
          end; cbn [andb orb negb]).

Lemma put_low_fits x i b : fits 64 x -> 0 <= i < 4 -> fits 64 (put_low x i b).
Proof. intros. apply write_half_fits; [done|]. apply merge_byte_fits; [done | by apply as_u_fits]. Qed.
Lemma put_high_fits x i b : fits 64 x -> 0 <= i < 4 -> fits 64 (put_high x i b).
Proof. intros. apply write_half_fits; [done|]. apply merge_byte_fits; [done | by apply as_u_fits]. Qed.

Section Word.
Variables (x b0 b1 b2 b3 : Z).
Hypothesis Hx : fits 64 x.
Hypothesis H0 : fits 8 b0.
Hypothesis H1 : fits 8 b1.
Hypothesis H2 : fits 8 b2.
Hypothesis H3 : fits 8 b3.
Abbreviation word := (from_le_bytes [b0; b1; b2; b3]).

Lemma word_fits : fits 32 word.
Proof. apply (from_le_bytes_fits [b0; b1; b2; b3]). rewrite !Forall_cons. by split_and!. Qed.

Lemma word_bits k :
  0 <= k < 32 ->
  Z.testbit word k = if k <? 8 then Z.testbit b0 k else if k <? 16 then Z.testbit b1 (k - 8)
                     else if k <? 24 then Z.testbit b2 (k - 16) else Z.testbit b3 (k - 24).
Proof.
  intros Hk. cbn [from_le_bytes]. rewrite le_cons_bits by (done || lia).
  bit_ranges; [done | ..]; repeat (rewrite le_cons_bits by (done || lia); bit_ranges); f_equal; lia.
Qed.

Lemma put_low_word :
  put_low (put_low (put_low (put_low x 0 b0) 1 b1) 2 b2) 3 b3 = write_half x word 0.
Proof.
  apply entry_ext; [by repeat apply put_low_fits | apply write_half_fits; [done | apply word_fits]|].
  intros k Hk. rewrite !put_low_bits by first [done | lia | repeat apply put_low_fits; first [done | lia]].
  rewrite write_low_bits by done. destruct (Z.ltb_spec k 32); cbn [andb].
  - rewrite word_bits by lia. destruct (read_only k); bit_ranges; try done; f_equal; lia.
  - bit_ranges; done.
Qed.

Lemma put_high_word :
  put_high (put_high (put_high (put_high x 0 b0) 1 b1) 2 b2) 3 b3 = write_half x word 1.
Proof.
  apply entry_ext; [by repeat apply put_high_fits | apply write_half_fits; [done | apply word_fits]|].
  intros k Hk. rewrite !put_high_bits by first [done | lia | repeat apply put_high_fits; first [done | lia]].
  rewrite write_high_bits by (done || apply word_fits). destruct (Z.ltb_spec k 32).
  - bit_ranges; done.
  - rewrite word_bits by lia. bit_ranges; f_equal; lia.
Qed.
End Word.

(** ** Deliveries *)

Lemma any_bits_testbit x k : 0 <= k -> any_bits x (Z.shiftl 1 k) = Z.testbit x k.
Proof.
  intros Hk. unfold any_bits. rewrite Z.shiftl_1_l. destruct (Z.testbit x k) eqn:E.
  - apply negb_true_iff, Z.eqb_neq. intros H0.
    assert (Ht : Z.testbit (Z.land x (2 ^ k)) k = false) by (rewrite H0; apply Z.testbit_0_l).
    by rewrite Z.land_spec, E, Z.pow2_bits_true in Ht by lia.
  - apply negb_false_iff, Z.eqb_eq, Z.bits_inj'. intros j Hj. rewrite Z.land_spec, Z.testbit_0_l.
    destruct (Z.eq_dec j k) as [->|]; [by rewrite E|]. rewrite Z.pow2_bits_false by lia.
    apply andb_false_r.
Qed.

(** The destination of an entry. *)
Definition destination (x : Z) : Z := as_u8 (Z.land (wshr 64 x 56) 0xff).

(** The delivery in terms of the bits of the entry. *)
Lemma delivery_bits e x y vec trig :
  fits 8 vec ->
  (forall k, 0 <= k < 8 -> Z.testbit x k = Z.testbit vec k) -> Z.testbit x 15 = trig ->
  (forall k, 56 <= k < 64 -> Z.testbit x k = Z.testbit y k) ->
  delivery e x = if Z.testbit x 16 then [] else [mk_pending (as_u8 e) vec (destination y) trig].
Proof.
  intros Hvec Hv Ht Hd. unfold delivery, RTE_MASK, RTE_TRIGGER_MODE.
  rewrite !any_bits_testbit, Ht by lia. destruct (Z.testbit x 16); [done|].
  assert (as_u8 (Z.land x 0xff) = vec) as ->.
  { change 0xff with (Z.ones 8). rewrite Z.land_ones by lia. unfold as_u. rewrite Zmod_mod.
    apply Z.bits_inj'. intros k Hk. destruct (Z.lt_ge_cases k 8).
    - rewrite Z.mod_pow2_bits_low by lia. by apply Hv.
    - rewrite Z.mod_pow2_bits_high by lia. by rewrite (fits_testbit 8 vec). }
  do 2 f_equal. unfold destination. f_equal. apply Z.bits_inj'. intros k Hk.
  change 0xff with (Z.ones 8). rewrite !Z.land_ones by lia. destruct (Z.lt_ge_cases k 8).
  - rewrite !Z.mod_pow2_bits_low by lia. unfold wshr. change (56 mod 64) with 56.
    rewrite !Z.shiftr_spec by lia. apply Hd. lia.
  - by rewrite !Z.mod_pow2_bits_high by lia.
Qed.

(** ** Over the bus *)

Section Bus.
Variable bus : MmioBus unit.

(** The controller is registered at its window. *)
Definition ioapic_registered : Prop :=
  mmio_built bus /\ (mk_range IOAPIC_BASE 0x20, tt) ∈ mmio_devices bus.
Hypothesis Hbus : ioapic_registered.

Lemma ioapic_claims addr :
  IOAPIC_BASE <= addr < IOAPIC_BASE + 0x20 -> claimant 64 (mmio_devices bus) addr = Some tt.
Proof.
  intros Hr. destruct Hbus as [Hb Hin].
  apply (claimant_iff 64 (mmio_devices bus) addr tt (mmio_built_apart _ Hb)).
  eexists. split; [done|]. unfold contains. apply andb_true_iff.
  change (range_end 64 _) with (IOAPIC_BASE + 0x20). cbn [r_base]. rewrite Z.leb_le, Z.ltb_lt. lia.
Qed.

Lemma window_addr i : 0 <= i < 4 -> sat_add 64 (window 0) i = window i.
Proof.
  intros Hi. unfold sat_add, window, IOAPIC_BASE, IOWIN. change (2 ^ 64) with 18446744073709551616. lia.
Qed.

Lemma bus_write_window i b a : 0 <= i < 4 -> MmioBus.write_byte bus (window i) b a = IoApic.write (window i) [b] a.
Proof.
  intros Hi. unfold MmioBus.write_byte. rewrite ioapic_claims; [done|].
  unfold window, IOWIN. lia.
Qed.

Lemma bus_write_word b0 b1 b2 b3 a :
  MmioBus.write bus (window 0) [b0; b1; b2; b3] a
  = IoApic.write (window 3) [b3] (IoApic.write (window 2) [b2] (IoApic.write (window 1) [b1]
      (IoApic.write (window 0) [b0] a))).
Proof.
  unfold MmioBus.write. cbn [MmioBus.write_from]. change (0 + 1 + 1 + 1) with 3.
  change (0 + 1 + 1) with 2. change (0 + 1) with 1.
  rewrite !window_addr by lia. by rewrite !bus_write_window by lia.
Qed.

Lemma bus_select idx a : MmioBus.write bus IOAPIC_BASE [idx] a = set_ioregsel idx a.
Proof.
  unfold MmioBus.write. cbn [MmioBus.write_from].
  change (sat_add 64 IOAPIC_BASE 0) with IOAPIC_BASE. unfold MmioBus.write_byte.
  rewrite ioapic_claims by lia. done.
Qed.

Lemma bus_read_word a :
  fits 32 (read_indexed a (ioregsel a)) ->
  MmioBus.read bus (window 0) 4 a = (to_le_bytes 4 (read_indexed a (ioregsel a)), a).
Proof.
  intros Hf. set (v := read_indexed a (ioregsel a)) in *.
  assert (Hbyte : forall i, 0 <= i < 4 ->
    MmioBus.read_byte bus (sat_add 64 (window 0) i) a = (reg_byte v i 0, a)).
  { intros i Hi. rewrite window_addr by done. unfold MmioBus.read_byte.
    rewrite ioapic_claims by (unfold window, IOWIN; lia).
    destruct (window_reg i Hi) as [Hr Hb]. cbn. unfold IoApic.read. rewrite Hr, Hb. done. }
  unfold MmioBus.read. cbn [MmioBus.read_from]. change (0 + 1 + 1 + 1) with 3.
  change (0 + 1 + 1) with 2. change (0 + 1) with 1. rewrite !Hbyte by lia. f_equal.
  cbn [to_le_bytes]. rewrite !Z.shiftr_shiftr by lia. unfold reg_byte, wshr.
  change (32 mod 32) with 0. cbn [Z.add Z.mul Z.ltb Z.compare Pos.compare Pos.compare_cont].
  change 0xff with (Z.ones 8). rewrite !Z.land_ones by lia. rewrite Z.shiftr_0_r. done.
Qed.

(** A word written with a half of entry [e] selected. *)
Lemma bus_write_entry a e h b0 b1 b2 b3 :
  let x := rte a e in
  let word := from_le_bytes [b0; b1; b2; b3] in
  ioapic_ok a -> 0 <= e < 24 -> h = 0 \/ h = 1 -> ioregsel a = 0x10 + 2 * e + h ->
  fits 8 b0 -> fits 8 b1 -> fits 8 b2 -> fits 8 b3 ->
  MmioBus.write bus (window 0) [b0; b1; b2; b3] a
  = with_entry a e (write_half x word h)
      (pending a ++ if (h =? 0) && asserted a e
                    then delivery e (put_low x 0 b0)
                         ++ delivery e (put_low (put_low x 0 b0) 1 b1)
                         ++ delivery e (put_low (put_low (put_low x 0 b0) 1 b1) 2 b2)
                         ++ delivery e (write_half x word 0)
                    else []).
Proof.
  intros x word Ha He Hh Hsel H0 H1 H2 H3. rewrite bus_write_word.
  rewrite <- (with_entry_self a e Ha He) at 1. fold x.
  rewrite !(write_byte_entry a e Ha He _ _ h) by (done || lia).
  pose proof (rte_fits a e Ha : fits 64 x) as Hx.
  destruct Hh as [-> | ->]; cbn [Z.eqb andb].
  - rewrite put_low_word by done. destruct (asserted a e); [by rewrite <- !app_assoc|].
    by rewrite !app_nil_r.
  - rewrite put_high_word by done. by rewrite !app_nil_r.
Qed.

(** The direct write of a word. *)
Lemma merge_word v b0 b1 b2 b3 :
  fits 32 v -> fits 8 b0 -> fits 8 b1 -> fits 8 b2 -> fits 8 b3 ->
  merge_bytes v 0 0 [b0; b1; b2; b3] = from_le_bytes [b0; b1; b2; b3].
Proof.
  intros Hv H0 H1 H2 H3.
  change (merge_bytes v 0 0 [b0; b1; b2; b3])
    with (merge_bytes (merge_bytes (merge_bytes (merge_bytes v 0 0 [b0]) 1 0 [b1]) 2 0 [b2]) 3 0 [b3]).
  apply Z.bits_inj'. intros k Hk. destruct (Z.lt_ge_cases k 32).
  - rewrite !merge_byte_bits, word_bits by (done || lia). bit_ranges; f_equal; lia.
  - rewrite !(fits_testbit 32) by
      (done || by apply word_fits || (repeat apply merge_byte_fits; done || lia)). done.
Qed.

(** What the entry delivers after each byte of a word. *)
Lemma split_deliveries e old b0 b1 b2 b3 :
  let word := from_le_bytes [b0; b1; b2; b3] in
  let queued (masked trig : bool) :=
    if masked then [] else [mk_pending (as_u8 e) b0 (destination old) trig] in
  fits 64 old -> fits 8 b0 -> fits 8 b1 -> fits 8 b2 -> fits 8 b3 ->
  delivery e (put_low old 0 b0) = queued (Z.testbit old 16) (Z.testbit old 15)
  /\ delivery e (put_low (put_low old 0 b0) 1 b1) = queued (Z.testbit old 16) (Z.testbit word 15)
  /\ delivery e (put_low (put_low (put_low old 0 b0) 1 b1) 2 b2)
     = queued (Z.testbit word 16) (Z.testbit word 15)
  /\ delivery e (write_half old word 0) = queued (Z.testbit word 16) (Z.testbit word 15).
Proof.
  intros word queued Hold H0 H1 H2 H3.
  assert (Hf : forall x i b, fits 64 x -> 0 <= i < 4 -> fits 64 (put_low x i b)) by apply put_low_fits.
  assert (Hd : forall x masked trig,
    (forall k, 0 <= k < 8 -> Z.testbit x k = Z.testbit b0 k) -> Z.testbit x 15 = trig ->
    (forall k, 56 <= k < 64 -> Z.testbit x k = Z.testbit old k) -> Z.testbit x 16 = masked ->
    delivery e x = queued masked trig).
  { intros x masked trig Hlo Ht Hhi <-. by apply (delivery_bits e x old b0 trig). }
  assert (Hro : forall k, 0 <= k < 8 \/ 15 <= k -> read_only k = false).
  { intros k Hk. unfold read_only. by rewrite !(proj2 (Z.eqb_neq _ _)) by lia. }
  split_and!; apply Hd; intros; subst word;
    rewrite ?put_low_bits, ?write_low_bits, ?word_bits, ?Hro by (done || lia || auto with lia);
    bit_ranges; try done; f_equal; lia.
Qed.

(** C38. The bus splits a word written to the data window into four byte writes, and
    the controller evaluates the entry after each.  The redirection table ends as
    with one 32-bit write.  But where that write queues the interrupt of an asserted
    line once, if the new entry is unmasked, the split write queues it twice, and
    twice more if the old entry was unmasked, the first time with the old trigger
    mode: an entry that is being masked still delivers. *)
Theorem ioapic_split_write a e b0 b1 b2 b3 :
  let old := rte a e in
  let word := from_le_bytes [b0; b1; b2; b3] in
  let deliver trig := mk_pending (as_u8 e) b0 (destination old) trig in
  let split := MmioBus.write bus (window 0) [b0; b1; b2; b3] a in
  let whole := IoApic.write (window 0) [b0; b1; b2; b3] a in
  ioapic_ok a -> 0 <= e < 24 -> ioregsel a = 0x10 + 2 * e -> asserted a e = true ->
  fits 8 b0 -> fits 8 b1 -> fits 8 b2 -> fits 8 b3 ->
  redirection_table split = redirection_table whole
  /\ pending whole
     = pending a ++ (if Z.testbit word 16 then [] else [deliver (Z.testbit word 15)])
  /\ pending split
     = pending a
       ++ (if Z.testbit old 16 then []
           else [deliver (Z.testbit old 15); deliver (Z.testbit word 15)])
       ++ (if Z.testbit word 16 then []
           else [deliver (Z.testbit word 15); deliver (Z.testbit word 15)]).
Proof.
  intros old word deliver split whole Ha He Hsel Has H0 H1 H2 H3.
  pose proof (rte_fits a e Ha : fits 64 old) as Hold.
  assert (Hsel' : ioregsel a = 0x10 + 2 * e + 0) by lia.
  assert (Hsplit : split = _) by (apply (bus_write_entry a e 0); auto).
  assert (Hwhole : whole = with_entry a e (write_half old word 0)
    (pending a ++ delivery e (write_half old word 0))).
  { subst whole. rewrite <- (with_entry_self a e Ha He) at 1. unfold IoApic.write.
    destruct (window_reg 0) as [-> ->]; [lia|]. cbn [Z.eqb IOWIN IOREGSEL with_entry ioregsel].
    change (mk_ioapic _ _ _ _ _) with (with_entry a e old (pending a)).
    rewrite Hsel', read_redtbl, merge_word, write_redtbl by (auto || by apply as_u_fits).
    by rewrite Has. }
  destruct (split_deliveries e old b0 b1 b2 b3) as (D0 & D1 & D2 & D3); try done.
  rewrite Hsplit, Hwhole, Has. cbn [Z.eqb andb redirection_table with_entry pending].
  fold old word. fold word in D1, D2, D3. rewrite D0, D1, D2, D3. split_and!; [done | done |].
  f_equal. by destruct (Z.testbit old 16), (Z.testbit word 16).
Qed.

Lemma with_entry_ok a e x ps : ioapic_ok a -> fits 64 x -> ioapic_ok (with_entry a e x ps).
Proof.
  intros [] Hx. split; cbn; try done; [by rewrite length_insert | by apply Forall_insert].
Qed.

Lemma select_ok idx a : ioapic_ok a -> ioapic_ok (set_ioregsel idx a).
Proof. intros []. by split. Qed.

Lemma low_word_fits old lo : fits 32 (Z.lor (Z.land lo 0xffffafff) (Z.land old 0x5000)).
Proof. apply fits_lor; apply fits_land_r; by split. Qed.

(** A word selected and written as a driver does. *)
Definition program (idx word : Z) a : IoApic :=
  MmioBus.write bus (window 0) (to_le_bytes 4 word) (MmioBus.write bus IOAPIC_BASE [idx] a).
Definition inspect (idx : Z) a : list Z :=
  fst (MmioBus.read bus (window 0) 4 (MmioBus.write bus IOAPIC_BASE [idx] a)).

Lemma program_entry a e h w :
  ioapic_ok a -> 0 <= e < 24 -> h = 0 \/ h = 1 -> fits 32 w ->
  exists ps, program (0x10 + 2 * e + h) w a
    = with_entry (set_ioregsel (0x10 + 2 * e + h) a) e (write_half (rte a e) w h) ps.
Proof.
  intros Ha He Hh Hw. unfold program. rewrite bus_select.
  pose proof (to_le_bytes_fits 4 w) as Hf. cbn [to_le_bytes] in *.
  rewrite !Forall_cons in Hf. destruct Hf as (H0 & H1 & H2 & H3 & _).
  rewrite (bus_write_entry _ e h) by (done || by apply select_ok). eexists. do 2 f_equal.
  change (from_le_bytes _) with (from_le_bytes (to_le_bytes 4 w)). rewrite from_to_le_bytes.
  by apply as_u_small.
Qed.

Lemma inspect_entry a e h x ps :
  ioapic_ok a -> 0 <= e < 24 -> h = 0 \/ h = 1 ->
  inspect (0x10 + 2 * e + h) (with_entry a e x ps)
  = to_le_bytes 4 (if h =? 0 then as_u32 x else as_u32 (wshr 64 x 32)).
Proof.
  intros Ha He Hh. unfold inspect. rewrite bus_select.
  pose proof (read_redtbl (set_ioregsel (0x10 + 2 * e + h) a) e (select_ok _ _ Ha) He x ps h Hh) as Hr.
  rewrite bus_read_word; cbn [fst set_ioregsel ioregsel].
  - f_equal. exact Hr.
  - fold (set_ioregsel (0x10 + 2 * e + h) (with_entry a e x ps)).
    change (read_indexed _ _) with (read_indexed (with_entry (set_ioregsel (0x10 + 2 * e + h) a) e x ps) (0x10 + 2 * e + h)).
    rewrite Hr. case_match; by apply as_u_fits.
Qed.

Lemma low_half_value x lo hi :
  fits 64 x -> fits 32 lo -> fits 32 hi ->
  as_u32 (write_half (write_half x lo 0) hi 1) = Z.lor (Z.land lo 0xffffafff) (Z.land x 0x5000).
Proof.
  intros Hx Hlo Hhi. apply Z.bits_inj'. intros k Hk. unfold as_u.
  destruct (Z.lt_ge_cases k 32) as [Hlt|].
  - rewrite Z.mod_pow2_bits_low, write_high_bits, (proj2 (Z.ltb_lt k 32)), write_low_bits by (done || lia).
    rewrite (proj2 (Z.ltb_lt k 32)), Z.lor_spec, !Z.land_spec, writable_bits, fixed_bits by lia.
    destruct (read_only k); cbn; by rewrite ?andb_true_r, ?andb_false_r, ?orb_false_r.
  - rewrite Z.mod_pow2_bits_high, (fits_testbit 32) by (done || lia || apply low_word_fits). done.
Qed.

Lemma high_half_value x hi :
  fits 64 x -> fits 32 hi -> as_u32 (wshr 64 (write_half x hi 1) 32) = hi.
Proof.
  intros Hx Hhi. apply Z.bits_inj'. intros k Hk. unfold as_u, wshr. change (32 mod 64) with 32.
  destruct (Z.lt_ge_cases k 32) as [Hlt|].
  - rewrite Z.mod_pow2_bits_low, Z.shiftr_spec, write_high_bits by (done || lia).
    rewrite (proj2 (Z.ltb_ge (k + 32) 32)) by lia. f_equal. lia.
  - by rewrite Z.mod_pow2_bits_high, (fits_testbit 32 hi) by (done || lia).
Qed.

(** C36. Programming a redirection entry through the bus: the low and the high word,
    each split into bytes by the bus and merged by the controller, read back as
    written but for the delivery-status and remote-IRR bits, which keep their values;
    every other entry is untouched. *)
Theorem ioapic_round_trip a e lo hi :
  ioapic_ok a -> 0 <= e < 24 -> fits 32 lo -> fits 32 hi ->
  let a' := program (0x11 + 2 * e) hi (program (0x10 + 2 * e) lo a) in
  inspect (0x10 + 2 * e) a'
    = to_le_bytes 4 (Z.lor (Z.land lo 0xffffafff) (Z.land (rte a e) 0x5000))
  /\ inspect (0x11 + 2 * e) a' = to_le_bytes 4 hi
  /\ (forall e', 0 <= e' -> e' <> e -> rte a' e' = rte a e').
Proof.
  intros Ha He Hlo Hhi. cbv zeta. pose proof (rte_fits a e Ha) as Hx.
  replace (0x10 + 2 * e) with (0x10 + 2 * e + 0) by lia.
  replace (0x11 + 2 * e) with (0x10 + 2 * e + 1) by lia.
  destruct (program_entry a e 0 lo) as [ps Hp]; [auto..|]. rewrite Hp. clear Hp.
  set (b := with_entry _ e _ ps). pose proof (select_ok (0x10 + 2 * e + 0) a Ha) as Hs.
  assert (Hb : ioapic_ok b) by (apply with_entry_ok; [done | by apply write_half_fits]).
  destruct (program_entry b e 1 hi) as [ps' Hp]; [auto..|]. rewrite Hp. clear Hp.
  assert (Hr : rte b e = write_half (rte a e) lo 0) by (by apply with_entry_rte).
  rewrite Hr, !inspect_entry by (auto || by apply select_ok). cbn [Z.eqb]. split_and!.
  - by rewrite low_half_value.
  - by rewrite high_half_value by (done || by apply write_half_fits).
  - intros e' H0 Hne. unfold rte. cbn. rewrite !nth_lookup, !list_lookup_insert_ne by lia. done.
Qed.
End Bus.

(** ** Witnesses *)

Definition ioapic_bus : MmioBus unit := mk_mmio_bus [(mk_range IOAPIC_BASE 0x20, tt)].

Lemma ioapic_bus_registered : ioapic_registered ioapic_bus.
Proof.
  split; [|by left].
  by apply (mmio_built_register MmioBus.new (mk_range IOAPIC_BASE 0x20) tt); [constructor|].
Qed.

Lemma new_ioapic_ok : ioapic_ok IoApic.new.
Proof. split; first [done | by apply Forall_replicate | by split]. Qed.

(** Line 4, masked and asserted, with its low word selected. *)
Definition asserted_ioapic : IoApic := set_ioregsel 0x18 (IoApic.set_irq 4 true IoApic.new).

Lemma ioapic_split_write_witness :
  let split := MmioBus.write ioapic_bus (window 0) [0x34; 0x00; 0x00; 0x00] asserted_ioapic in
  let whole := IoApic.write (window 0) [0x34; 0x00; 0x00; 0x00] asserted_ioapic in
  length (pending whole) = 1%nat /\ length (pending split) = 2%nat.
Proof.
  destruct (ioapic_split_write ioapic_bus ioapic_bus_registered asserted_ioapic 4 0x34 0 0 0)
    as (_ & Hw & Hs); [|done | reflexivity | reflexivity | by split | by split | by split | by split |].
  - split; first [done | by apply Forall_replicate | by split].
  - cbv zeta. rewrite Hw, Hs. split; vm_compute; reflexivity.
Defined.

Lemma ioapic_round_trip_witness :
  inspect ioapic_bus 0x18 (program ioapic_bus 0x19 0x01000000 (program ioapic_bus 0x18 0x00018034 IoApic.new))
  = [0x34; 0x80; 0x01; 0x00].
Proof.
  destruct (ioapic_round_trip ioapic_bus ioapic_bus_registered IoApic.new 4 0x00018034 0x01000000)
    as (Hlo & _ & _); [apply new_ioapic_ok | done | by split | by split |].
  transitivity (to_le_bytes 4 (Z.lor (Z.land 0x00018034 0xffffafff) (Z.land (rte IoApic.new 4) 0x5000)));
    [exact Hlo | vm_compute; reflexivity].
Defined.
